(** * CamWork legacy scripts: duplicate detection and conflict-safe relocation

    A shallow embedding of the relocation logic of the CamWork scripts
    ([model_sort_v2.3], [date_sort_v1.2], [dup_search_v2.4] and
    [raw_sort_v1.3]) together with the facts the specification states
    about them and further properties of the code.

    Layout of the development:
    - [SHA256]    the digest computed by [hashlib.sha256] (FIPS 180-4);
    - [FS]        the file tree the scripts read and mutate;
    - [Fecha]     the part of [datetime] the date sorter relies on;
    - [Hashing]   [sha256_of_file], shared by three scripts;
    - [ModelSort], [RawSort], [DateSort], [DupSearch]  the scripts;
    - [RawOrganizer], [DupListing]  the loops of the RAW sorter and the
      listing of the duplicate search;
    - the theorems, one section per property. *)

From Stdlib Require Import ZArith List Lia Bool Arith.
From Stdlib.Strings Require Import String Ascii Byte.
From Stdlib Require Import DecimalString.
From stdpp Require Import base tactics option list strings.

Import ListNotations.
Local Open Scope Z_scope.

(* ===================================================================== *)
(** ** SHA-256, the digest behind [hashlib.sha256]                        *)
(* ===================================================================== *)

Module SHA256.

Definition w32 : Z := 2 ^ 32.

Definition add32 (x y : Z) : Z := (x + y) mod w32.

Definition rotr (n x : Z) : Z :=
  Z.lor (Z.shiftr x n) ((Z.shiftl x (32 - n)) mod w32).

Definition shr (n x : Z) : Z := Z.shiftr x n.

Definition not32 (x : Z) : Z := Z.lxor x (w32 - 1).

Definition Ch (x y z : Z) : Z := Z.lxor (Z.land x y) (Z.land (not32 x) z).

Definition Maj (x y z : Z) : Z :=
  Z.lxor (Z.lxor (Z.land x y) (Z.land x z)) (Z.land y z).

Definition Sigma0 (x : Z) : Z := Z.lxor (Z.lxor (rotr 2 x) (rotr 13 x)) (rotr 22 x).
Definition Sigma1 (x : Z) : Z := Z.lxor (Z.lxor (rotr 6 x) (rotr 11 x)) (rotr 25 x).
Definition sigma0 (x : Z) : Z := Z.lxor (Z.lxor (rotr 7 x) (rotr 18 x)) (shr 3 x).
Definition sigma1 (x : Z) : Z := Z.lxor (Z.lxor (rotr 17 x) (rotr 19 x)) (shr 10 x).

(** The round constants, each next to the prime it comes from: the first
    thirty-two bits of the fractional part of the cube root of that prime
    (checked by [round_constants_are_cube_roots]). *)
Definition K_table : list (Z * Z) :=
  [
    (2, 1116352408); (3, 1899447441); (5, 3049323471); (7, 3921009573);
    (11, 961987163); (13, 1508970993); (17, 2453635748); (19, 2870763221);
    (23, 3624381080); (29, 310598401); (31, 607225278); (37, 1426881987);
    (41, 1925078388); (43, 2162078206); (47, 2614888103); (53, 3248222580);
    (59, 3835390401); (61, 4022224774); (67, 264347078); (71, 604807628);
    (73, 770255983); (79, 1249150122); (83, 1555081692); (89, 1996064986);
    (97, 2554220882); (101, 2821834349); (103, 2952996808); (107, 3210313671);
    (109, 3336571891); (113, 3584528711); (127, 113926993); (131, 338241895);
    (137, 666307205); (139, 773529912); (149, 1294757372); (151, 1396182291);
    (157, 1695183700); (163, 1986661051); (167, 2177026350); (173, 2456956037);
    (179, 2730485921); (181, 2820302411); (191, 3259730800); (193, 3345764771);
    (197, 3516065817); (199, 3600352804); (211, 4094571909); (223, 275423344);
    (227, 430227734); (229, 506948616); (233, 659060556); (239, 883997877);
    (241, 958139571); (251, 1322822218); (257, 1537002063); (263, 1747873779);
    (269, 1955562222); (271, 2024104815); (277, 2227730452); (281, 2361852424);
    (283, 2428436474); (293, 2756734187); (307, 3204031479); (311, 3329325298) ].

Definition K : list Z := map snd K_table.

(** The eight working registers. *)
Record regs : Type := Regs {
  ra : Z; rb : Z; rc : Z; rd : Z; re : Z; rf : Z; rg : Z; rh : Z
}.

(** The initial registers: the same for the square roots of the first
    eight primes. *)
Definition H0 : regs :=
  Regs 1779033703 3144134277 1013904242 2773480762
       1359893119 2600822924 528734635 1541459225.

(** Padding: a [0x80] byte, zeros up to 56 modulo 64, then the bit length
    on eight bytes, most significant first. *)
Definition be_bytes (n : nat) (v : Z) : list Z :=
  map (fun i => (v / 2 ^ (8 * Z.of_nat i)) mod 256) (rev (seq 0 n)).

Definition pad (msg : list Z) : list Z :=
  let len := Z.of_nat (length msg) in
  let zeros := Z.to_nat ((55 - len) mod 64) in
  msg ++ [0x80] ++ repeat 0 zeros ++ be_bytes 8 ((8 * len) mod 2 ^ 64).

Fixpoint be_words (n : nat) (bs : list Z) : list Z :=
  match n with
  | O => []
  | S k =>
      match bs with
      | b0 :: b1 :: b2 :: b3 :: rest =>
          (b0 * 2 ^ 24 + b1 * 2 ^ 16 + b2 * 2 ^ 8 + b3) :: be_words k rest
      | _ => []
      end
  end.

(** Message schedule, kept most recent word first. *)
Fixpoint schedule (n : nat) (w : list Z) : list Z :=
  match n with
  | O => w
  | S k =>
      let x := add32 (add32 (sigma1 (nth 1 w 0)) (nth 6 w 0))
                     (add32 (sigma0 (nth 14 w 0)) (nth 15 w 0)) in
      schedule k (x :: w)
  end.

Definition round (s : regs) (kw : Z * Z) : regs :=
  let t1 := add32 (add32 (add32 (rh s) (Sigma1 (re s)))
                         (add32 (Ch (re s) (rf s) (rg s)) (fst kw))) (snd kw) in
  let t2 := add32 (Sigma0 (ra s)) (Maj (ra s) (rb s) (rc s)) in
  Regs (add32 t1 t2) (ra s) (rb s) (rc s) (add32 (rd s) t1) (re s) (rf s) (rg s).

Definition compress (h : regs) (block : list Z) : regs :=
  let w := rev (schedule 48 (rev (be_words 16 block))) in
  let s := fold_left round (combine K w) h in
  Regs (add32 (ra h) (ra s)) (add32 (rb h) (rb s)) (add32 (rc h) (rc s))
       (add32 (rd h) (rd s)) (add32 (re h) (re s)) (add32 (rf h) (rf s))
       (add32 (rg h) (rg s)) (add32 (rh h) (rh s)).

Fixpoint blocks (n : nat) (bs : list Z) (h : regs) : regs :=
  match n with
  | O => h
  | S k => blocks k (skipn 64 bs) (compress h (firstn 64 bs))
  end.

Definition digest_of (h : regs) : Z :=
  ((((((ra h * w32 + rb h) * w32 + rc h) * w32 + rd h) * w32 + re h) * w32
      + rf h) * w32 + rg h) * w32 + rh h.

(** The 256-bit digest of a byte string, as a number. *)
Definition hash (msg : list byte) : Z :=
  let p := pad (map (fun b => Z.of_N (Byte.to_N b)) msg) in
  digest_of (blocks (length p / 64) p H0).

Definition hex_digit (d : Z) : ascii :=
  nth (Z.to_nat d) (list_ascii_of_string "0123456789abcdef") "0"%char.

(** [hexdigest]: sixty-four lowercase hexadecimal digits. *)
Definition hex (v : Z) : string :=
  string_of_list_ascii
    (map (fun i => hex_digit ((v / 16 ^ Z.of_nat i) mod 16)) (rev (seq 0 64))).

End SHA256.


Definition bytes_of_string (s : string) : list byte := list_byte_of_string s.

(* ===================================================================== *)
(** ** Results and exceptions                                             *)
(* ===================================================================== *)

(** The exception classes the scripts can meet. Every failure of an [os] or
    [shutil] call is an [OSError] (of some subclass); [OverflowError] is
    what [datetime - timedelta] raises below year 1. *)
Inductive exc : Type :=
  | OSError (detalle : string)
  | OverflowError.

(** [isinstance(e, cls)] for a subclass of [OSError] given by name. *)
Definition is_exc (cls : string) (e : exc) : bool :=
  match e with
  | OSError d => String.eqb d cls
  | OverflowError => false
  end.

Inductive result (A : Type) : Type :=
  | Ok (a : A)
  | Raise (e : exc).
Arguments Ok {A} a.
Arguments Raise {A} e.

(* ===================================================================== *)
(** ** The part of [datetime] used by the date sorter                     *)
(* ===================================================================== *)

Module Fecha.

Record datetime : Type := DT {
  year : Z; month : Z; day : Z; hour : Z; minute : Z; second : Z
}.

Definition is_leap (y : Z) : bool :=
  (y mod 4 =? 0) && (negb (y mod 100 =? 0) || (y mod 400 =? 0)).

Definition days_in_month (y m : Z) : Z :=
  if m =? 2 then (if is_leap y then 29 else 28)
  else if (m =? 4) || (m =? 6) || (m =? 9) || (m =? 11) then 30
  else 31.

(** The values a [datetime] object can hold ([MINYEAR = 1], [MAXYEAR = 9999]). *)
Definition valid (d : datetime) : Prop :=
  1 <= year d <= 9999 /\ 1 <= month d <= 12 /\
  1 <= day d <= days_in_month (year d) (month d) /\
  0 <= hour d < 24 /\ 0 <= minute d < 60 /\ 0 <= second d < 60.

(** [d - timedelta(days=1)]; [None] is Python's [OverflowError], raised when
    the result would fall before 0001-01-01. *)
Definition minus_one_day (d : datetime) : option datetime :=
  if 1 <? day d then
    Some (DT (year d) (month d) (day d - 1) (hour d) (minute d) (second d))
  else if 1 <? month d then
    Some (DT (year d) (month d - 1) (days_in_month (year d) (month d - 1))
             (hour d) (minute d) (second d))
  else if 1 <? year d then
    Some (DT (year d - 1) 12 31 (hour d) (minute d) (second d))
  else None.

(** [str(n)] for an integer. *)
Definition str (n : Z) : string := NilZero.string_of_int (Z.to_int n).

(** [f"{n:02d}"]: at least two characters, padded with a zero on the left. *)
Definition str02 (n : Z) : string :=
  let s := str n in
  if (String.length s <? 2)%nat then ("0" ++ s)%string else s.

End Fecha.

(* ===================================================================== *)
(** ** Python dictionaries, in insertion order                            *)
(* ===================================================================== *)

Section Dict.
Context {K V : Type} `{EqDecision K}.

(** [d.get(k)] *)
Fixpoint dget (d : list (K * V)) (k : K) : option V :=
  match d with
  | [] => None
  | (k', v) :: r => if decide (k' = k) then Some v else dget r k
  end.

(** [d[k] = v]: in place when the key is there, at the end otherwise. *)
Fixpoint dset (d : list (K * V)) (k : K) (v : V) : list (K * V) :=
  match d with
  | [] => [(k, v)]
  | (k', v') :: r =>
      if decide (k' = k) then (k, v) :: r else (k', v') :: dset r k v
  end.

(** [del d[k]] *)
Fixpoint ddel (d : list (K * V)) (k : K) : list (K * V) :=
  match d with
  | [] => []
  | (k', v') :: r =>
      if decide (k' = k) then ddel r k else (k', v') :: ddel r k
  end.

(** [d.setdefault(k, v0)] followed by an update of the value in place. *)
Definition dupdate (d : list (K * V)) (k : K) (v0 : V) (f : V -> V) : list (K * V) :=
  match dget d k with
  | Some v => dset d k (f v)
  | None => dset d k (f v0)
  end.
End Dict.

(** A [for] loop whose body may raise: the first exception ends it and
    leaves the state as it was at that point. *)
Fixpoint for_each {S A : Type} (body : S -> A -> S * option exc)
    (s : S) (l : list A) : S * option exc :=
  match l with
  | [] => (s, None)
  | x :: r =>
      match body s x with
      | (s', None) => for_each body s' r
      | (s', Some e) => (s', Some e)
      end
  end.

(* ===================================================================== *)
(** ** File names: [os.path.splitext] and [str.lower]                     *)
(* ===================================================================== *)

Definition is_dot (c : ascii) : bool := Ascii.eqb c "."%char.

Definition lower_ascii (c : ascii) : ascii :=
  let n := nat_of_ascii c in
  if (65 <=? n)%nat && (n <=? 90)%nat then ascii_of_nat (n + 32) else c.

Definition lower (s : string) : string :=
  string_of_list_ascii (map lower_ascii (list_ascii_of_string s)).

(** Scans a reversed name for its first dot: the characters met before it
    (put back in order) and what remains, still reversed. *)
Fixpoint cut_at_dot (rs acc : list ascii) : option (list ascii * list ascii) :=
  match rs with
  | [] => None
  | c :: r => if is_dot c then Some (acc, r) else cut_at_dot r (c :: acc)
  end.

(** [os.path.splitext] on a bare file name (no separator): the extension
    starts at the last dot, unless only dots come before it. *)
Definition os_path_splitext (p : string) : string * string :=
  match cut_at_dot (rev (list_ascii_of_string p)) [] with
  | Some (e, rr) =>
      if existsb (fun c => negb (is_dot c)) rr
      then (string_of_list_ascii (rev rr), string_of_list_ascii ("."%char :: e))
      else (p, EmptyString)
  | None => (p, EmptyString)
  end.

Definition in_strings (s : string) (l : list string) : bool :=
  existsb (String.eqb s) l.

(* ===================================================================== *)
(** ** The file tree                                                      *)
(* ===================================================================== *)

Module FS.

(** A path is its list of components. [os.path.join(d, name)] is
    [d ++ [name]] for a [name] that is one path component, as is every
    name [os.listdir] gives and every folder name the scripts build. The
    names of cameras come to a run from outside: the statements on where
    a run on a list of cameras leaves the files take the names to be
    entries of the root folder ([entradas] below), which is what
    [seleccionar_camaras] hands over. *)
Definition path : Type := list string.

Definition os_path_join (d : path) (name : string) : path := d ++ [name].

Definition basename (p : path) : string := List.last p EmptyString.
Definition dirname (p : path) : path := removelast p.

(** One EXIF date tag as [leer_fecha_con_exiftool] sees it: missing or empty
    (falsy), present but rejected by [strptime], or a date. *)
Inductive etiqueta : Type :=
  | Ausente
  | Ilegible
  | FechaExif (d : Fecha.datetime).

(** What [exiftool -j] gives for a file. *)
Inductive exiftool_j : Type :=
  | NoInstalado                 (* FileNotFoundError: no exiftool in PATH *)
  | Fallo                       (* return code other than 0 *)
  | SalidaInvalida              (* output that json.loads rejects *)
  | SinDatos                    (* empty list, or not a list *)
  | Metadatos (date_time_original create_date sub_sec : etiqueta).

(** A regular file: its bytes, whether it can be opened for reading, and
    what the metadata collaborators answer for it. *)
Record file : Type := mkFile {
  contenido : list byte;
  legible : bool;
  exif_model : option string;   (* stripped output of [exiftool -Model -s3];
                                   [None] when it fails or prints nothing *)
  exif_fechas : exiftool_j;
  st_ctime : option Fecha.datetime;  (* [None]: [fromtimestamp] raises *)
  st_mtime : option Fecha.datetime
}.

Inductive node : Type :=
  | File (f : file)
  | Dir.

(** The tree, as the table of its entries in the order the operating system
    enumerates them. *)
Definition fs : Type := list (path * node).

Definition find (t : fs) (p : path) : option node := dget t p.

Definition remove (t : fs) (p : path) : fs := ddel t p.

(** Writes an entry: in place when the path is taken, at the end otherwise. *)
Definition put (t : fs) (p : path) (n : node) : fs := dset t p n.

Definition os_path_exists (t : fs) (p : path) : bool :=
  match find t p with Some _ => true | None => false end.

Definition os_path_isdir (t : fs) (p : path) : bool :=
  match find t p with Some Dir => true | _ => false end.

Definition os_path_isfile (t : fs) (p : path) : bool :=
  match find t p with Some (File _) => true | _ => false end.

(** [relative d p]: the components of [p] below [d], when [p] is at or
    below [d]. *)
Fixpoint relative (d p : path) : option path :=
  match d, p with
  | [], _ => Some p
  | x :: d', y :: p' => if decide (x = y) then relative d' p' else None
  | _ :: _, [] => None
  end.

Definition child_name (d p : path) : option string :=
  match relative d p with
  | Some [n] => Some n
  | _ => None
  end.

(** [os.listdir(d)]: the names directly inside [d], in table order. *)
Definition os_listdir (t : fs) (d : path) : list string :=
  omap (fun e => child_name d (fst e)) t.

Definition is_below (d p : path) : bool :=
  match relative d p with
  | Some (_ :: _) => true
  | _ => false
  end.

(** The files [os.walk(d)] yields, joined with their folder: every regular
    file at any depth below [d]. *)
Definition walk_files (t : fs) (d : path) : list path :=
  omap (fun e => match snd e with
                 | File _ => if is_below d (fst e) then Some (fst e) else None
                 | Dir => None
                 end) t.

(** What the scripts cannot see in the tree: which directory creations and
    which moves the system refuses (permissions, full disk, other device),
    and the clock. *)
Record entorno : Type := mkEntorno {
  mkdir_fails : path -> bool;
  move_fails : path -> path -> bool;
  ahora : Fecha.datetime
}.

Definition parent_is_dir (t : fs) (p : path) : bool :=
  match dirname p with
  | [] => true                      (* the working directory *)
  | d => os_path_isdir t d
  end.

(** [os.mkdir(p)]. *)
Definition os_mkdir (env : entorno) (t : fs) (p : path) : result fs :=
  if os_path_exists t p then Raise (OSError "FileExistsError")
  else if negb (parent_is_dir t p) then Raise (OSError "FileNotFoundError")
  else if mkdir_fails env p then Raise (OSError "PermissionError")
  else Ok (t ++ [(p, Dir)]).

(** [os.makedirs(p, exist_ok=True)], on the reversed path: missing parents
    first, then [p] itself; a failure is forgiven only when [p] is a
    directory in the end. The tree comes back in both cases, since parents
    created before a failure stay. *)
Fixpoint makedirs_rev (env : entorno) (t : fs) (rp : list string) : fs * option exc :=
  match rp with
  | [] => (t, None)
  | _ :: rhead =>
      let p := rev rp in
      let head := rev rhead in
      let parents :=
        match rhead with
        | [] => (t, None)
        | _ :: _ =>
            if os_path_exists t head then (t, None)
            else match makedirs_rev env t rhead with
                 | (t1, Some e) =>
                     if is_exc "FileExistsError" e then (t1, None) else (t1, Some e)
                 | r => r
                 end
        end in
      match parents with
      | (t1, Some e) => (t1, Some e)
      | (t1, None) =>
          match os_mkdir env t1 p with
          | Ok t2 => (t2, None)
          | Raise e => if os_path_isdir t1 p then (t1, None) else (t1, Some e)
          end
      end
  end.

Definition os_makedirs (env : entorno) (t : fs) (p : path) : fs * option exc :=
  makedirs_rev env t (rev p).

(** Where [shutil.move(src, dst)] really writes: inside [dst] when [dst] is
    a directory. *)
Definition real_dst (t : fs) (src dst : path) : path :=
  if os_path_isdir t dst then os_path_join dst (basename src) else dst.

(** [shutil.move(src, dst)] for a regular file [src]. A move either happens
    entirely or leaves the tree as it was; an existing regular file at the
    destination is replaced. The scripts never hand it a directory. *)
Definition shutil_move (env : entorno) (t : fs) (src dst : path) : result fs :=
  let rd := real_dst t src dst in
  if os_path_isdir t dst && os_path_exists t rd
  then Raise (OSError "shutil.Error")
  else
    match find t src with
    | Some (File f) =>
        if negb (parent_is_dir t rd) then Raise (OSError "FileNotFoundError")
        else if move_fails env src rd then Raise (OSError "PermissionError")
        else Ok (put (remove t src) rd (File f))
    | Some Dir => Raise (OSError "IsADirectoryError")
    | None => Raise (OSError "FileNotFoundError")
    end.

(** [os.path.getsize]. *)
Definition os_path_getsize (t : fs) (p : path) : result nat :=
  match find t p with
  | Some (File f) => Ok (length (contenido f))
  | Some Dir => Ok 0%nat
  | None => Raise (OSError "FileNotFoundError")
  end.

(** [open(p, "rb")] followed by reads: the bytes, when [p] is a readable
    regular file. *)
Definition read_bytes (t : fs) (p : path) : option (list byte) :=
  match find t p with
  | Some (File f) => if legible f then Some (contenido f) else None
  | _ => None
  end.

End FS.

(* ===================================================================== *)
(** ** Logging                                                            *)
(* ===================================================================== *)

Inductive nivel : Type := INFO | WARNING | ERROR | CRITICAL.

(** One constructor per message the modelled functions log. *)
Inductive evento : Type :=
  | EvHashError (p : FS.path)             (* Error calculando SHA-256 de ... *)
  | EvNoRoot (d : FS.path)                (* No existe 'CAMERAS' *)
  | EvOmite (item : string)               (* Omite ... (extension no soportada) *)
  | EvNoExifModel (p : FS.path)           (* No esta EXIF 'Model' en: ... *)
  | EvSinModel (item : string)            (* ... sin tag EXIF 'Model'; queda sin mover *)
  | EvNoMapeado (model item : string)     (* Modelo ... no mapeado *)
  | EvHashImposible (p : FS.path)         (* Imposible calcular hash, ... queda sin mover *)
  | EvDuplicado (p : FS.path)             (* Duplicado, no movido *)
  | EvMovido (item : string) (dest : FS.path)
  | EvErrorMoviendo (item : string)
  | EvResumenUnmapped (p : FS.path)
  | EvResumenDuplicado (p : FS.path)
  | EvProcesando (camara : FS.path)
  | EvExifFallo (p : FS.path)
  | EvExifFormato (p : FS.path)
  | EvExifNoInstalado
  | EvExifError (p : FS.path)
  | EvSinFechaCreacion (p : FS.path)
  | EvSinFechaModificacion (p : FS.path)
  | EvCreadaCarpeta (d : FS.path)
  | EvErrorCrearCarpeta (d : FS.path)
  | EvDuplicadoDetectado (p d : FS.path)
  | EvMovidaFoto (item : string) (d : FS.path)
  | EvErrorMover (item : string) (d : FS.path)
  | EvPermisoDenegado (item : string)
  | EvDetectando
  | EvGrupoDuplicado (cam name digest : string).

Definition registro : Type := list (nivel * evento).

(** The log, and (as a ghost) the paths handed to [sha256_of_file], both in
    the order of the calls. *)
Record traza : Type := mkTraza {
  log : registro;
  hashed : list FS.path
}.

Definition traza_vacia : traza := mkTraza [] [].

Definition logger (l : nivel) (e : evento) (tr : traza) : traza :=
  mkTraza (log tr ++ [(l, e)]) (hashed tr).

(* ===================================================================== *)
(** ** [sha256_of_file]                                                   *)
(* ===================================================================== *)

Module Hashing.

(** A [hashlib] object: the bytes fed so far; [update(a); update(b)] is
    [update(a + b)]. *)
Definition hasher : Type := list byte.
Definition update (h : hasher) (chunk : list byte) : hasher := h ++ chunk.
Definition hexdigest (h : hasher) : string := SHA256.hex (SHA256.hash h).

(** [for chunk in iter(lambda: f.read(chunk_size), b""): h.update(chunk)],
    with [rest] what is left to read. Each turn consumes a non-empty chunk,
    so [fuel] beyond the length of [rest] is never used up. *)
Fixpoint read_loop (fuel chunk_size : nat) (rest : list byte) (h : hasher) : hasher :=
  match fuel with
  | O => h
  | S k =>
      match firstn chunk_size rest with
      | [] => h
      | chunk => read_loop k chunk_size (skipn chunk_size rest) (update h chunk)
      end
  end.

Definition digest_chunked (chunk_size : nat) (data : list byte) : string :=
  hexdigest (read_loop (S (length data)) chunk_size data []).

(** [sha256_of_file(path, chunk_size)]: the hexadecimal digest, or [None]
    (and an error in the log) when the file cannot be read. *)
Definition sha256_of_file_sized (chunk_size : nat) (t : FS.fs) (p : FS.path)
    (tr : traza) : option string * traza :=
  let tr := mkTraza (log tr) (hashed tr ++ [p]) in
  match FS.read_bytes t p with
  | Some data => (Some (digest_chunked chunk_size data), tr)
  | None => (None, logger ERROR (EvHashError p) tr)
  end.

Definition sha256_of_file := sha256_of_file_sized (8 * 1024).

End Hashing.

(** [any(sha256_of_file(p) == h for p in files)], stopping at the first
    match, as the loops of [is_duplicate] do. *)
Fixpoint any_hash_eq (t : FS.fs) (h : string) (files : list FS.path) (tr : traza)
    : bool * traza :=
  match files with
  | [] => (false, tr)
  | p :: r =>
      let '(d, tr1) := Hashing.sha256_of_file t p tr in
      if decide (d = Some h) then (true, tr1) else any_hash_eq t h r tr1
  end.

(* ===================================================================== *)
(** ** [model_sort_v2.3]: classification by camera model                  *)
(* ===================================================================== *)

Module ModelSort.
Import FS.

Definition CAMERAS_DIR : path := ["CAMERAS"%string].

Definition PHOTO_EXTENSIONS : list string :=
  [".arw"; ".cr2"; ".cr3"; ".jpg"; ".mov"; ".mp4"; ".mts"]%string.

Definition MODEL_TO_FOLDER : list (string * string) :=
  [ ("Canon EOS 650D",               "Canon EOS 650D");
    ("Canon EOS M50m2",              "Canon EOS M50m2");
    ("Canon PowerShot G9 X Mark II", "Canon Powershot G9 X Mark II");
    ("Canon PowerShot SX230 HS",     "Canon PowerShot SX230 HS");
    ("Canon PowerShot SX610 HS",     "Canon PowerShot SX610 HS");
    ("DMC-TZ57",                     "Panasonic DCM-TZ57");
    ("DV300 / DV300F / DV305F",      "Samsung DV300F");
    ("Full HD Camcorder",            "Samsung HMX-H300");
    ("HMX-H300",                     "Samsung HMX-H300");
    ("HERO7 White",                  "Gopro Hero7 White");
    ("HERO10 Black",                 "Gopro Hero10 Black");
    ("HERO11 Black",                 "Gopro Hero11 Black");
    ("ILCE-6000",                    "Sony ILCE-6000");
    ("WB30F",                        "Samsung WB30F");
    ("WB30F/WB31F/WB32F",            "Samsung WB30F") ]%string.

(** The characters the regular expression of [sanitize_folder_name]
    matches: the two angle brackets, colon, double quote, slash, backslash,
    bar, question mark and star. *)
Definition invalid_chars : list ascii :=
  ["<"; ">"; ":"; ascii_of_nat 34; "/"; "\"; "|"; "?"; "*"]%char.

Definition sanitize_folder_name (name : string) : string :=
  string_of_list_ascii
    (map (fun c => if existsb (Ascii.eqb c) invalid_chars then "_"%char else c)
         (list_ascii_of_string name)).

(** The module-level lists of the script, the tree, and the trace. *)
Record estado : Type := mkEstado {
  arbol : fs;
  unmapped : list path;
  duplicates : list path;
  moved : list path;
  scanned_cameras : list string;
  processed_count : nat;
  tz : traza
}.

Definition inicial (t : fs) : estado := mkEstado t [] [] [] [] 0 traza_vacia.

Definition con_arbol (t : fs) (s : estado) : estado :=
  mkEstado t (unmapped s) (duplicates s) (moved s) (scanned_cameras s)
           (processed_count s) (tz s).
Definition con_traza (tr : traza) (s : estado) : estado :=
  mkEstado (arbol s) (unmapped s) (duplicates s) (moved s) (scanned_cameras s)
           (processed_count s) tr.
Definition registrar (l : nivel) (e : evento) (s : estado) : estado :=
  con_traza (logger l e (tz s)) s.
Definition unmapped_append (p : path) (s : estado) : estado :=
  mkEstado (arbol s) (unmapped s ++ [p]) (duplicates s) (moved s)
           (scanned_cameras s) (processed_count s) (tz s).
Definition duplicates_append (p : path) (s : estado) : estado :=
  mkEstado (arbol s) (unmapped s) (duplicates s ++ [p]) (moved s)
           (scanned_cameras s) (processed_count s) (tz s).
Definition moved_append (p : path) (s : estado) : estado :=
  mkEstado (arbol s) (unmapped s) (duplicates s) (moved s ++ [p])
           (scanned_cameras s) (processed_count s) (tz s).
Definition scanned_add (f : string) (s : estado) : estado :=
  mkEstado (arbol s) (unmapped s) (duplicates s) (moved s)
           (if in_strings f (scanned_cameras s) then scanned_cameras s
            else scanned_cameras s ++ [f])
           (processed_count s) (tz s).
Definition contar (s : estado) : estado :=
  mkEstado (arbol s) (unmapped s) (duplicates s) (moved s) (scanned_cameras s)
           (S (processed_count s)) (tz s).

(** [get_camera_model]: the tag, or [None] with an error logged. *)
Definition get_camera_model (filepath : path) (s : estado) : option string * estado :=
  let model :=
    match find (arbol s) filepath with
    | Some (File f) =>
        match exif_model f with
        | Some m => if String.eqb m EmptyString then None else Some m
        | None => None
        end
    | _ => None
    end in
  match model with
  | Some m => (Some m, s)
  | None => (None, registrar ERROR (EvNoExifModel filepath) s)
  end.

(** [is_duplicate(dest_folder, src_path)]. *)
Definition is_duplicate (dest_folder src_path : path) (s : estado) : bool * estado :=
  let '(src_hash, tr) := Hashing.sha256_of_file (arbol s) src_path (tz s) in
  match src_hash with
  | None =>
      (true, unmapped_append src_path
               (registrar ERROR (EvHashImposible src_path) (con_traza tr s)))
  | Some h =>
      let '(b, tr') := any_hash_eq (arbol s) h (walk_files (arbol s) dest_folder) tr in
      (b, con_traza tr' s)
  end.

(** The body of the loop of [classify_images], for one name of the listing.
    The exception, if any, is the one [os.makedirs] raises: nothing in the
    loop catches it. *)
Definition classify_item (env : entorno) (s : estado) (item : string)
    : estado * option exc :=
  let src := os_path_join CAMERAS_DIR item in
  if negb (os_path_isfile (arbol s) src) then (s, None)
  else if negb (in_strings (lower (snd (os_path_splitext item))) PHOTO_EXTENSIONS)
  then (registrar INFO (EvOmite item) s, None)
  else
    let s := contar s in
    match get_camera_model src s with
    | (None, s) => (unmapped_append src (registrar ERROR (EvSinModel item) s), None)
    | (Some model, s) =>
        match dget MODEL_TO_FOLDER model with
        | None => (unmapped_append src (registrar ERROR (EvNoMapeado model item) s), None)
        | Some folder =>
            if String.eqb folder EmptyString
            then (unmapped_append src (registrar ERROR (EvNoMapeado model item) s), None)
            else
              let s := scanned_add folder s in
              let dest := os_path_join CAMERAS_DIR (sanitize_folder_name folder) in
              match os_makedirs env (arbol s) dest with
              | (t, Some e) => (con_arbol t s, Some e)
              | (t, None) =>
                  let s := con_arbol t s in
                  match is_duplicate dest src s with
                  | (true, s) =>
                      (duplicates_append src (registrar WARNING (EvDuplicado src) s), None)
                  | (false, s) =>
                      match shutil_move env (arbol s) src (os_path_join dest item) with
                      | Ok t' =>
                          (registrar INFO (EvMovido item dest)
                             (moved_append src (con_arbol t' s)), None)
                      | Raise _ =>
                          (duplicates_append src
                             (registrar ERROR (EvErrorMoviendo item) s), None)
                      end
                  end
              end
        end
    end.

Definition resumen (s : estado) : estado :=
  let s1 := fold_left (fun a p => registrar INFO (EvResumenUnmapped p) a) (unmapped s) s in
  fold_left (fun a p => registrar INFO (EvResumenDuplicado p) a) (duplicates s) s1.

(** [classify_images()], up to the call that renders the PDF. *)
Definition classify_images (env : entorno) (s : estado) : estado * option exc :=
  if negb (os_path_isdir (arbol s) CAMERAS_DIR)
  then (registrar CRITICAL (EvNoRoot CAMERAS_DIR) s, None)
  else
    match for_each (classify_item env) s (os_listdir (arbol s) CAMERAS_DIR) with
    | (s', None) => (resumen s', None)
    | (s', Some e) => (s', Some e)
    end.

(** One run of the script: the module-level lists start empty. *)
Definition run (env : entorno) (t : fs) : estado * option exc :=
  classify_images env (inicial t).

End ModelSort.

(* ===================================================================== *)
(** ** [raw_sort_v1.3]: its [is_duplicate]                                *)
(* ===================================================================== *)

Module RawSort.
Import FS.

Record estado : Type := mkEstado {
  duplicates : list path;
  tz : traza
}.

(** [is_duplicate(dest_folder, src_path)]: a file whose hash cannot be
    computed goes to [duplicates] and is reported as a duplicate. *)
Definition is_duplicate (t : fs) (dest_folder src_path : path) (s : estado)
    : bool * estado :=
  let '(src_hash, tr) := Hashing.sha256_of_file t src_path (tz s) in
  match src_hash with
  | None =>
      (true, mkEstado (duplicates s ++ [src_path])
                      (logger ERROR (EvHashImposible src_path) tr))
  | Some h =>
      let '(b, tr') := any_hash_eq t h (walk_files t dest_folder) tr in
      (b, mkEstado (duplicates s) tr')
  end.

End RawSort.

(* ===================================================================== *)
(** ** [date_sort_v1.2]: month folders by capture date                    *)
(* ===================================================================== *)

Module DateSort.
Import FS.
Import Fecha.

Definition CAMERAS_DIR : path := ["CAMARAS"%string].

Definition PHOTO_EXTENSIONS : list string :=
  [".jpg"; ".jpeg"; ".png"; ".cr2"; ".arw"; ".nef"; ".raf"; ".heic"]%string.

(** One value of [folders_report]. *)
Record informe : Type := mkInforme {
  created : bool;
  photos_count : nat;
  ext_count : list (string * nat);
  bytes_moved : nat
}.

Record estado : Type := mkEstado {
  arbol : fs;
  folders_report : list (path * informe);
  duplicates : list path;
  tz : traza
}.

Definition inicial (t : fs) : estado := mkEstado t [] [] traza_vacia.

Definition con_arbol (t : fs) (s : estado) : estado :=
  mkEstado t (folders_report s) (duplicates s) (tz s).
Definition con_traza (tr : traza) (s : estado) : estado :=
  mkEstado (arbol s) (folders_report s) (duplicates s) tr.
Definition registrar (l : nivel) (e : evento) (s : estado) : estado :=
  con_traza (logger l e (tz s)) s.
Definition duplicates_append (p : path) (s : estado) : estado :=
  mkEstado (arbol s) (folders_report s) (duplicates s ++ [p]) (tz s).

(** What [exiftool -j filepath] answers; it fails on a path that is not a file. *)
Definition exiftool (t : fs) (filepath : path) : exiftool_j :=
  match find t filepath with
  | Some (File f) => exif_fechas f
  | _ => Fallo
  end.

(** [leer_fecha_con_exiftool] *)
Definition leer_fecha_con_exiftool (t : fs) (filepath : path) (tr : traza)
    : option datetime * traza :=
  match exiftool t filepath with
  | NoInstalado => (None, logger ERROR EvExifNoInstalado tr)
  | Fallo => (None, logger WARNING (EvExifFallo filepath) tr)
  | SalidaInvalida => (None, logger WARNING (EvExifError filepath) tr)
  | SinDatos => (None, tr)
  | Metadatos dto cd ss =>
      let dt_str :=
        match dto with
        | Ausente => match cd with Ausente => ss | _ => cd end
        | _ => dto
        end in
      match dt_str with
      | Ausente => (None, tr)
      | Ilegible => (None, logger WARNING (EvExifFormato filepath) tr)
      | FechaExif d => (Some d, tr)
      end
  end.

(** [datetime.fromtimestamp(os.stat(filepath).st_ctime)], [None] when either
    call raises; likewise for [st_mtime]. *)
Definition stat_ctime (t : fs) (filepath : path) : option datetime :=
  match find t filepath with
  | Some (File f) => st_ctime f
  | _ => None
  end.
Definition stat_mtime (t : fs) (filepath : path) : option datetime :=
  match find t filepath with
  | Some (File f) => st_mtime f
  | _ => None
  end.

(** [obtener_fecha_captura] *)
Definition obtener_fecha_captura (env : entorno) (t : fs) (filepath : path)
    (tr : traza) : datetime * traza :=
  match leer_fecha_con_exiftool t filepath tr with
  | (Some fecha, tr) => (fecha, tr)
  | (None, tr) =>
      match stat_ctime t filepath with
      | Some creation_time => (creation_time, tr)
      | None =>
          let tr := logger WARNING (EvSinFechaCreacion filepath) tr in
          match stat_mtime t filepath with
          | Some modification_time => (modification_time, tr)
          | None =>
              (ahora env, logger ERROR (EvSinFechaModificacion filepath) tr)
          end
      end
  end.

(** [ajustar_mes_por_horario_especial] *)
Definition ajustar_mes_por_horario_especial (fecha : datetime) : result datetime :=
  if (day fecha =? 1) && (hour fecha <? 8) then
    match minus_one_day fecha with
    | Some d => Ok d
    | None => Raise OverflowError
    end
  else Ok fecha.

(** [generar_nombre_carpeta] *)
Definition generar_nombre_carpeta (fecha : datetime) : string :=
  (str (year fecha) ++ "." ++ str02 (month fecha))%string.

(** The two [except] clauses around the move: [PermissionError] has a
    message of its own. *)
Definition error_al_mover (e : exc) (item : string) (destino_path : path) : evento :=
  if is_exc "PermissionError" e then EvPermisoDenegado item
  else EvErrorMover item destino_path.

(** The update of [folders_report] after a move. *)
Definition report_moved (folder_key : path) (ext : string) (size_bytes : nat)
    (r : list (path * informe)) : list (path * informe) :=
  dupdate r folder_key (mkInforme true 0 [] 0)
    (fun e => mkInforme (created e) (S (photos_count e))
                        (dupdate (ext_count e) ext 0%nat S)
                        (bytes_moved e + size_bytes)).

(** The body of the inner loop of [organizar_fotos_por_fecha]. The only
    exception that leaves it is the one the date adjustment raises. *)
Definition procesar_item (env : entorno) (camera_path : path) (s : estado)
    (item : string) : estado * option exc :=
  let item_path := os_path_join camera_path item in
  if os_path_isdir (arbol s) item_path then (s, None)
  else
    let ext := lower (snd (os_path_splitext item)) in
    if negb (in_strings ext PHOTO_EXTENSIONS) then (s, None)
    else
      let '(fecha_captura, tr) := obtener_fecha_captura env (arbol s) item_path (tz s) in
      let s := con_traza tr s in
      match ajustar_mes_por_horario_especial fecha_captura with
      | Raise e => (s, Some e)
      | Ok fecha_captura_ajustada =>
          let carpeta_destino := generar_nombre_carpeta fecha_captura_ajustada in
          let destino_path := os_path_join camera_path carpeta_destino in
          let creada :=
            if negb (os_path_exists (arbol s) destino_path) then
              match os_mkdir env (arbol s) destino_path with
              | Ok t => Some (registrar INFO (EvCreadaCarpeta destino_path) (con_arbol t s))
              | Raise _ => None
              end
            else Some s in
          match creada with
          | None => (registrar ERROR (EvErrorCrearCarpeta destino_path) s, None)
          | Some s =>
              let nuevo_path := os_path_join destino_path item in
              if os_path_exists (arbol s) nuevo_path then
                (duplicates_append item_path
                   (registrar WARNING (EvDuplicadoDetectado item_path destino_path) s),
                 None)
              else
                match os_path_getsize (arbol s) item_path with
                | Raise _ => (registrar ERROR (EvErrorMover item destino_path) s, None)
                | Ok size_bytes =>
                    match shutil_move env (arbol s) item_path nuevo_path with
                    | Raise e => (registrar ERROR (error_al_mover e item destino_path) s, None)
                    | Ok t =>
                        (mkEstado t
                           (report_moved destino_path ext size_bytes (folders_report s))
                           (duplicates s)
                           (logger INFO (EvMovidaFoto item destino_path) (tz s)),
                         None)
                    end
                end
          end
      end.

(** The body of the outer loop: one camera folder. *)
Definition procesar_camara (env : entorno) (s : estado) (camera_folder : string)
    : estado * option exc :=
  if String.eqb camera_folder "PRIVATE" then (s, None)
  else
    let camera_path := os_path_join CAMERAS_DIR camera_folder in
    if negb (os_path_isdir (arbol s) camera_path) then (s, None)
    else
      let s := registrar INFO (EvProcesando camera_path) s in
      for_each (procesar_item env camera_path) s (os_listdir (arbol s) camera_path).

(** [organizar_fotos_por_fecha(camaras)] *)
Definition organizar_fotos_por_fecha (env : entorno) (s : estado)
    (camaras : list string) : estado * option exc :=
  for_each (procesar_camara env) s camaras.

(** One run on the selected cameras: the module-level accumulators start
    empty. *)
Definition run (env : entorno) (t : fs) (camaras : list string) : estado * option exc :=
  organizar_fotos_por_fecha env (inicial t) camaras.

End DateSort.

(* ===================================================================== *)
(** ** [dup_search_v2.4]: duplicates by name and digest                   *)
(* ===================================================================== *)

Module DupSearch.
Import FS.

Definition CAMERAS_DIR : path := ["CAMERAS"%string].

Record estado : Type := mkEstado {
  files_by_folder : list (path * list string);
  camera_to_names : list (string * list (string * list path));
  duplicates_report : list (string * list (string * list (string * list path)));
  tz : traza
}.

(** [os.path.relpath(folder, CAMERAS_DIR).split(os.sep, 1)[0]] *)
Definition camera_of (folder : path) : string :=
  match relative CAMERAS_DIR folder with
  | Some (c :: _) => c
  | Some [] => "."
  | None => ".."
  end.

(** [camera_to_names.setdefault(cam, {}).setdefault(name, []).append(p)] *)
Definition add_name (cam name : string) (p : path)
    (c : list (string * list (string * list path)))
    : list (string * list (string * list path)) :=
  dupdate c cam [] (fun names => dupdate names name [] (fun ps => ps ++ [p])).

Definition agrupar (fbf : list (path * list string))
    (c : list (string * list (string * list path)))
    : list (string * list (string * list path)) :=
  fold_left
    (fun c '(folder, fnames) =>
       fold_left
         (fun c name => add_name (camera_of folder) name (os_path_join folder name) c)
         fnames c)
    fbf c.

(** The hashes of one bucket: [hash_to_paths] after the loop over [paths]. *)
Fixpoint hash_paths (t : fs) (paths : list path)
    (hash_to_paths : list (string * list path)) (tr : traza)
    : list (string * list path) * traza :=
  match paths with
  | [] => (hash_to_paths, tr)
  | p :: r =>
      match Hashing.sha256_of_file t p tr with
      | (Some h, tr) =>
          if String.eqb h EmptyString then hash_paths t r hash_to_paths tr
          else hash_paths t r (dupdate hash_to_paths h [] (fun ps => ps ++ [p])) tr
      | (None, tr) => hash_paths t r hash_to_paths tr
      end
  end.

(** The record of the true duplicates of one bucket. *)
Definition registrar_grupos (cam name : string) (groups : list (string * list path))
    (s : estado) : estado :=
  fold_left
    (fun s '(h, ps) =>
       if (1 <? length ps)%nat then
         mkEstado (files_by_folder s) (camera_to_names s)
           (dupdate (duplicates_report s) cam []
              (fun names => dupdate names name [] (fun hs => dset hs h ps)))
           (logger WARNING (EvGrupoDuplicado cam name h) (tz s))
       else s)
    groups s.

(** One bucket: the paths of one file name inside one camera. *)
Definition procesar_bucket (t : fs) (cam : string) (s : estado)
    (b : string * list path) : estado :=
  let '(name, paths) := b in
  if (length paths <? 2)%nat then s
  else
    let '(groups, tr) := hash_paths t paths [] (tz s) in
    registrar_grupos cam name groups
      (mkEstado (files_by_folder s) (camera_to_names s) (duplicates_report s) tr).

(** [detectar_duplicados()], on the [files_by_folder] that
    [listar_contenidos] left in the state. *)
Definition detectar_duplicados (t : fs) (s : estado) : estado :=
  let s := mkEstado (files_by_folder s) (camera_to_names s) (duplicates_report s)
                    (logger INFO EvDetectando (tz s)) in
  let s := mkEstado (files_by_folder s)
                    (agrupar (files_by_folder s) (camera_to_names s))
                    (duplicates_report s) (tz s) in
  fold_left
    (fun s '(cam, name_dict) => fold_left (procesar_bucket t cam) name_dict s)
    (camera_to_names s) s.

End DupSearch.

(* ===================================================================== *)
(** ** Vocabulary of the statements                                       *)
(* ===================================================================== *)

(** All eight registers hold 32-bit values. *)
Definition regs_ok (r : SHA256.regs) : Prop :=
  (0 <= SHA256.ra r < SHA256.w32) /\ (0 <= SHA256.rb r < SHA256.w32) /\
  (0 <= SHA256.rc r < SHA256.w32) /\ (0 <= SHA256.rd r < SHA256.w32) /\
  (0 <= SHA256.re r < SHA256.w32) /\ (0 <= SHA256.rf r < SHA256.w32) /\
  (0 <= SHA256.rg r < SHA256.w32) /\ (0 <= SHA256.rh r < SHA256.w32).

(** The fingerprint of the file at a path: what [sha256_of_file] returns. *)
Definition fingerprint (t : FS.fs) (p : FS.path) : option string :=
  fst (Hashing.sha256_of_file t p traza_vacia).

(** The content-equality property as the specification words it, for
    readable files: equal fingerprints exactly when the bytes are equal. *)
Definition fingerprint_iff_content : Prop :=
  forall (t : FS.fs) (a b : FS.path) (ca cb : list byte),
    FS.read_bytes t a = Some ca ->
    FS.read_bytes t b = Some cb ->
    (fingerprint t a = fingerprint t b <-> ca = cb).

(** A regular file with the given bytes and nothing else of note. *)
Definition plain_file (data : list byte) : FS.file :=
  FS.mkFile data true None FS.SinDatos None None.

(** Days before 1 January of year [y], and before the first of month [m]
    in year [y]; the ordinal of a date counts from 0001-01-01 = 1, as
    [date.toordinal] does. *)
Definition days_before_year (y : Z) : Z :=
  let p := y - 1 in 365 * p + p / 4 - p / 100 + p / 400.

Definition days_before_month (y m : Z) : Z :=
  fold_left Z.add
    (map (fun k => Fecha.days_in_month y (Z.of_nat k)) (seq 1 (Z.to_nat (m - 1)))) 0.

Definition toordinal (d : Fecha.datetime) : Z :=
  days_before_year (Fecha.year d) + days_before_month (Fecha.year d) (Fecha.month d)
  + Fecha.day d.

(** The month before a given month, as (year, month). *)
Definition previous_month (y m : Z) : Z * Z :=
  if m =? 1 then (y - 1, 12) else (y, m - 1).

(** The night-shift condition of the date sorter. *)
Definition night_shift (d : Fecha.datetime) : Prop :=
  Fecha.day d = 1 /\ Fecha.hour d < 8.

(** Sample trees. *)
Definition entorno_ok : FS.entorno :=
  FS.mkEntorno (fun _ => false) (fun _ _ => false) (Fecha.DT 2024 6 15 12 0 0).

Definition two_copies : FS.fs :=
  [ (["A"], FS.Dir); (["B"], FS.Dir);
    (["A"; "IMG_1.JPG"], FS.File (plain_file (bytes_of_string "abc")));
    (["B"; "copy.jpg"], FS.File (plain_file (bytes_of_string "abc"))) ]%string.

Definition two_unreadable : FS.fs :=
  [ (["a.jpg"], FS.File (FS.mkFile (bytes_of_string "one") false None FS.SinDatos None None));
    (["b.jpg"], FS.File (FS.mkFile (bytes_of_string "two") false None FS.SinDatos None None))
  ]%string.

(** A photo whose EXIF capture date is 0001-01-01 00:00:00, the value a
    [DateTime.MinValue] leaves in the tag. *)
Definition fecha_minima : Fecha.datetime := Fecha.DT 1 1 1 0 0 0.

Definition foto_fecha_minima : FS.file :=
  FS.mkFile (bytes_of_string "jpeg") true None
    (FS.Metadatos (FS.FechaExif fecha_minima) FS.Ausente FS.Ausente)
    (Some (Fecha.DT 2024 5 20 10 0 0)) (Some (Fecha.DT 2024 5 20 10 0 0)).

Definition arbol_fecha_minima : FS.fs :=
  [ (["CAMARAS"], FS.Dir); (["CAMARAS"; "EOS"], FS.Dir);
    (["CAMARAS"; "EOS"; "a.jpg"], FS.File foto_fecha_minima) ]%string.

(** Paths are unique in a tree. *)
Definition wf (t : FS.fs) : Prop := NoDup (map fst t).

(** The entries that directory creation appends. *)
Definition dir_entries (ds : list FS.path) : FS.fs := map (fun d => (d, FS.Dir)) ds.

(* ===================================================================== *)
(** ** The loop bodies as step relations                                  *)
(* ===================================================================== *)

Module DateStep.
Import FS.
Import DateSort.

(** A name the date sorter takes up: not a directory, with a photo
    extension. *)
Definition candidate (t : fs) (camera_path : path) (item : string) : bool :=
  negb (os_path_isdir t (os_path_join camera_path item)) &&
  in_strings (lower (snd (os_path_splitext item))) PHOTO_EXTENSIONS.

(** The month folder is there, or has just been made. *)
Inductive folder_ready (env : entorno) (s0 : estado) (d : path) : estado -> Prop :=
  | fr_exists :
      os_path_exists (arbol s0) d = true ->
      folder_ready env s0 d s0
  | fr_created t1 :
      os_path_exists (arbol s0) d = false ->
      os_mkdir env (arbol s0) d = Ok t1 ->
      folder_ready env s0 d (registrar INFO (EvCreadaCarpeta d) (con_arbol t1 s0)).

(** The seven ways one turn of the inner loop can end. *)
Inductive step (env : entorno) (camera_path : path) (s : estado) (item : string)
    : estado -> option exc -> Prop :=
  | st_skipped :
      candidate (arbol s) camera_path item = false ->
      step env camera_path s item s None
  | st_overflow fecha tr ex :
      candidate (arbol s) camera_path item = true ->
      obtener_fecha_captura env (arbol s) (os_path_join camera_path item) (tz s)
        = (fecha, tr) ->
      ajustar_mes_por_horario_especial fecha = Raise ex ->
      step env camera_path s item (con_traza tr s) (Some ex)
  | st_no_folder fecha tr fecha' ex :
      candidate (arbol s) camera_path item = true ->
      obtener_fecha_captura env (arbol s) (os_path_join camera_path item) (tz s)
        = (fecha, tr) ->
      ajustar_mes_por_horario_especial fecha = Ok fecha' ->
      let d := os_path_join camera_path (generar_nombre_carpeta fecha') in
      os_path_exists (arbol s) d = false ->
      os_mkdir env (arbol s) d = Raise ex ->
      step env camera_path s item
           (registrar ERROR (EvErrorCrearCarpeta d) (con_traza tr s)) None
  | st_duplicate fecha tr fecha' s1 :
      candidate (arbol s) camera_path item = true ->
      obtener_fecha_captura env (arbol s) (os_path_join camera_path item) (tz s)
        = (fecha, tr) ->
      ajustar_mes_por_horario_especial fecha = Ok fecha' ->
      let d := os_path_join camera_path (generar_nombre_carpeta fecha') in
      folder_ready env (con_traza tr s) d s1 ->
      os_path_exists (arbol s1) (os_path_join d item) = true ->
      step env camera_path s item
           (duplicates_append (os_path_join camera_path item)
              (registrar WARNING
                 (EvDuplicadoDetectado (os_path_join camera_path item) d) s1))
           None
  | st_size_failed fecha tr fecha' s1 ex :
      candidate (arbol s) camera_path item = true ->
      obtener_fecha_captura env (arbol s) (os_path_join camera_path item) (tz s)
        = (fecha, tr) ->
      ajustar_mes_por_horario_especial fecha = Ok fecha' ->
      let d := os_path_join camera_path (generar_nombre_carpeta fecha') in
      folder_ready env (con_traza tr s) d s1 ->
      os_path_exists (arbol s1) (os_path_join d item) = false ->
      os_path_getsize (arbol s1) (os_path_join camera_path item) = Raise ex ->
      step env camera_path s item (registrar ERROR (EvErrorMover item d) s1) None
  | st_move_failed fecha tr fecha' s1 size_bytes ex :
      candidate (arbol s) camera_path item = true ->
      obtener_fecha_captura env (arbol s) (os_path_join camera_path item) (tz s)
        = (fecha, tr) ->
      ajustar_mes_por_horario_especial fecha = Ok fecha' ->
      let d := os_path_join camera_path (generar_nombre_carpeta fecha') in
      folder_ready env (con_traza tr s) d s1 ->
      os_path_exists (arbol s1) (os_path_join d item) = false ->
      os_path_getsize (arbol s1) (os_path_join camera_path item) = Ok size_bytes ->
      shutil_move env (arbol s1) (os_path_join camera_path item) (os_path_join d item)
        = Raise ex ->
      step env camera_path s item (registrar ERROR (error_al_mover ex item d) s1) None
  | st_moved fecha tr fecha' s1 size_bytes t2 :
      candidate (arbol s) camera_path item = true ->
      obtener_fecha_captura env (arbol s) (os_path_join camera_path item) (tz s)
        = (fecha, tr) ->
      ajustar_mes_por_horario_especial fecha = Ok fecha' ->
      let d := os_path_join camera_path (generar_nombre_carpeta fecha') in
      folder_ready env (con_traza tr s) d s1 ->
      os_path_exists (arbol s1) (os_path_join d item) = false ->
      os_path_getsize (arbol s1) (os_path_join camera_path item) = Ok size_bytes ->
      shutil_move env (arbol s1) (os_path_join camera_path item) (os_path_join d item)
        = Ok t2 ->
      step env camera_path s item
           (mkEstado t2
              (report_moved d (lower (snd (os_path_splitext item))) size_bytes
                 (folders_report s1))
              (duplicates s1)
              (logger INFO (EvMovidaFoto item d) (tz s1)))
           None.

End DateStep.

Module ModelStep.
Import FS.
Import ModelSort.

Definition allowed (item : string) : bool :=
  in_strings (lower (snd (os_path_splitext item))) PHOTO_EXTENSIONS.

(** The folder [MODEL_TO_FOLDER] gives for a model, when it gives one. *)
Definition folder_of (model : string) : option string :=
  match dget MODEL_TO_FOLDER model with
  | Some folder => if String.eqb folder EmptyString then None else Some folder
  | None => None
  end.

Definition dest_of (folder : string) : path :=
  os_path_join CAMERAS_DIR (sanitize_folder_name folder).

(** The ways one turn of the loop of [classify_images] can end. *)
Inductive step (env : entorno) (s : estado) (item : string)
    : estado -> option exc -> Prop :=
  | st_not_a_file :
      os_path_isfile (arbol s) (os_path_join CAMERAS_DIR item) = false ->
      step env s item s None
  | st_extension :
      os_path_isfile (arbol s) (os_path_join CAMERAS_DIR item) = true ->
      allowed item = false ->
      step env s item (registrar INFO (EvOmite item) s) None
  | st_no_model s1 :
      os_path_isfile (arbol s) (os_path_join CAMERAS_DIR item) = true ->
      allowed item = true ->
      get_camera_model (os_path_join CAMERAS_DIR item) (contar s) = (None, s1) ->
      step env s item
           (unmapped_append (os_path_join CAMERAS_DIR item)
              (registrar ERROR (EvSinModel item) s1)) None
  | st_unmapped model s1 :
      os_path_isfile (arbol s) (os_path_join CAMERAS_DIR item) = true ->
      allowed item = true ->
      get_camera_model (os_path_join CAMERAS_DIR item) (contar s) = (Some model, s1) ->
      folder_of model = None ->
      step env s item
           (unmapped_append (os_path_join CAMERAS_DIR item)
              (registrar ERROR (EvNoMapeado model item) s1)) None
  | st_raised model s1 folder t ex :
      os_path_isfile (arbol s) (os_path_join CAMERAS_DIR item) = true ->
      allowed item = true ->
      get_camera_model (os_path_join CAMERAS_DIR item) (contar s) = (Some model, s1) ->
      folder_of model = Some folder ->
      os_makedirs env (arbol s1) (dest_of folder) = (t, Some ex) ->
      step env s item (con_arbol t (scanned_add folder s1)) (Some ex)
  | st_duplicate model s1 folder t s3 :
      os_path_isfile (arbol s) (os_path_join CAMERAS_DIR item) = true ->
      allowed item = true ->
      get_camera_model (os_path_join CAMERAS_DIR item) (contar s) = (Some model, s1) ->
      folder_of model = Some folder ->
      os_makedirs env (arbol s1) (dest_of folder) = (t, None) ->
      is_duplicate (dest_of folder) (os_path_join CAMERAS_DIR item)
        (con_arbol t (scanned_add folder s1)) = (true, s3) ->
      step env s item
           (duplicates_append (os_path_join CAMERAS_DIR item)
              (registrar WARNING (EvDuplicado (os_path_join CAMERAS_DIR item)) s3)) None
  | st_move_failed model s1 folder t s3 ex :
      os_path_isfile (arbol s) (os_path_join CAMERAS_DIR item) = true ->
      allowed item = true ->
      get_camera_model (os_path_join CAMERAS_DIR item) (contar s) = (Some model, s1) ->
      folder_of model = Some folder ->
      os_makedirs env (arbol s1) (dest_of folder) = (t, None) ->
      is_duplicate (dest_of folder) (os_path_join CAMERAS_DIR item)
        (con_arbol t (scanned_add folder s1)) = (false, s3) ->
      shutil_move env (arbol s3) (os_path_join CAMERAS_DIR item)
        (os_path_join (dest_of folder) item) = Raise ex ->
      step env s item
           (duplicates_append (os_path_join CAMERAS_DIR item)
              (registrar ERROR (EvErrorMoviendo item) s3)) None
  | st_moved model s1 folder t s3 t' :
      os_path_isfile (arbol s) (os_path_join CAMERAS_DIR item) = true ->
      allowed item = true ->
      get_camera_model (os_path_join CAMERAS_DIR item) (contar s) = (Some model, s1) ->
      folder_of model = Some folder ->
      os_makedirs env (arbol s1) (dest_of folder) = (t, None) ->
      is_duplicate (dest_of folder) (os_path_join CAMERAS_DIR item)
        (con_arbol t (scanned_add folder s1)) = (false, s3) ->
      shutil_move env (arbol s3) (os_path_join CAMERAS_DIR item)
        (os_path_join (dest_of folder) item) = Ok t' ->
      step env s item
           (registrar INFO (EvMovido item (dest_of folder))
              (moved_append (os_path_join CAMERAS_DIR item) (con_arbol t' s3))) None.

End ModelStep.

(** Two trees with a name collision at the destination of the date sorter:
    the month folder already holds an [IMG_1.JPG], with other bytes in the
    first tree and with the same bytes in the second. *)
Definition foto_mayo (data : string) : FS.file :=
  FS.mkFile (bytes_of_string data) true None
    (FS.Metadatos (FS.FechaExif (Fecha.DT 2024 5 10 12 0 0)) FS.Ausente FS.Ausente)
    None None.

Definition arbol_colision (en_destino : string) : FS.fs :=
  [ (["CAMARAS"], FS.Dir); (["CAMARAS"; "EOS"], FS.Dir);
    (["CAMARAS"; "EOS"; "IMG_1.JPG"], FS.File (foto_mayo "hash X"));
    (["CAMARAS"; "EOS"; "2024.05"], FS.Dir);
    (["CAMARAS"; "EOS"; "2024.05"; "IMG_1.JPG"], FS.File (foto_mayo en_destino)) ]%string.

(** A photo of a mapped camera that cannot be opened for reading. *)
Definition foto_ilegible : FS.file :=
  FS.mkFile (bytes_of_string "raw") false (Some "ILCE-6000"%string) FS.SinDatos None None.

Definition arbol_ilegible : FS.fs :=
  [ (["CAMERAS"], FS.Dir); (["CAMERAS"; "locked.arw"], FS.File foto_ilegible) ]%string.

(** A single readable photo of a mapped camera, alone in [CAMERAS]. *)
Definition foto_sony (data : string) : FS.file :=
  FS.mkFile (bytes_of_string data) true (Some "ILCE-6000"%string) FS.SinDatos None None.

Definition arbol_una_foto : FS.fs :=
  [ (["CAMERAS"], FS.Dir); (["CAMERAS"; "solo.jpg"], FS.File (foto_sony "pixels")) ]%string.

(** The buckets of the duplicate search keep to their key: every path filed
    under a camera and a file name ends with that name and lies in a folder
    of that camera; keys are not repeated. *)
Definition bucket_paths_ok (cam name : string) (paths : list FS.path) : Prop :=
  forall q, In q paths ->
    exists folder, q = FS.os_path_join folder name /\ DupSearch.camera_of folder = cam.

Definition names_ok (cam : string) (names : list (string * list FS.path)) : Prop :=
  NoDup (map fst names) /\
  forall name paths, In (name, paths) names -> bucket_paths_ok cam name paths.

Definition buckets_ok (c : list (string * list (string * list FS.path))) : Prop :=
  NoDup (map fst c) /\
  forall cam names, In (cam, names) c -> names_ok cam names.

(** The state in which [detectar_duplicados] starts: the listing is there,
    nothing else yet. *)
Definition dup_inicial (fbf : list (FS.path * list string)) : DupSearch.estado :=
  DupSearch.mkEstado fbf [] [] traza_vacia.

(** A listing with one name present in two folders of a camera and one
    name present once. *)
Definition listado_ejemplo : list (FS.path * list string) :=
  [ (["CAMERAS"; "EOS"; "2024.05"], ["IMG_1.JPG"; "IMG_2.JPG"]);
    (["CAMERAS"; "EOS"; "2024.06"], ["IMG_1.JPG"]) ]%string.

Definition arbol_listado : FS.fs :=
  [ (["CAMERAS"], FS.Dir); (["CAMERAS"; "EOS"], FS.Dir);
    (["CAMERAS"; "EOS"; "2024.05"], FS.Dir); (["CAMERAS"; "EOS"; "2024.06"], FS.Dir);
    (["CAMERAS"; "EOS"; "2024.05"; "IMG_1.JPG"], FS.File (plain_file (bytes_of_string "one")));
    (["CAMERAS"; "EOS"; "2024.05"; "IMG_2.JPG"], FS.File (plain_file (bytes_of_string "two")));
    (["CAMERAS"; "EOS"; "2024.06"; "IMG_1.JPG"], FS.File (plain_file (bytes_of_string "one")))
  ]%string.

(* ===================================================================== *)
(** ** What a run of the model sorter keeps true                          *)
(* ===================================================================== *)

(** The folder the model sorter assigns to a file, from its EXIF tag. *)
Definition folder_of_file (f : FS.file) : option string :=
  match FS.exif_model f with
  | Some m => if String.eqb m EmptyString then None else ModelStep.folder_of m
  | None => None
  end.

Definition source_path (item : string) : FS.path :=
  FS.os_path_join ModelSort.CAMERAS_DIR item.

(** Where a moved file ends up: under its own name in the folder of its
    model, or one level deeper when that name was a directory there. *)
Definition landed (t : FS.fs) (folder item : string) (f : FS.file) : Prop :=
  FS.find t (FS.os_path_join (ModelStep.dest_of folder) item) = Some (FS.File f) \/
  FS.find t (FS.os_path_join (FS.os_path_join (ModelStep.dest_of folder) item) item)
    = Some (FS.File f).

(** The tree after the [os.makedirs] of a turn: as before, or with the
    destination folder appended. *)
Definition grown_by (t t1 : FS.fs) (folder : string) : Prop :=
  t1 = t \/ (t1 = t ++ dir_entries [ModelStep.dest_of folder] /\
             FS.find t (ModelStep.dest_of folder) = None).

(** The invariant of the loop of [classify_images], relative to the tree
    [t0] the run started from. *)
Record model_inv (t0 : FS.fs) (s : ModelSort.estado) : Prop := {
  mi_root : FS.find (ModelSort.arbol s) ModelSort.CAMERAS_DIR = Some FS.Dir;
  mi_present : forall item f,
    FS.find (ModelSort.arbol s) (source_path item) = Some (FS.File f) ->
    FS.find t0 (source_path item) = Some (FS.File f) /\
    ~ In (source_path item) (ModelSort.moved s);
  mi_kept : forall item f,
    FS.find t0 (source_path item) = Some (FS.File f) ->
    ~ In (source_path item) (ModelSort.moved s) ->
    FS.find (ModelSort.arbol s) (source_path item) = Some (FS.File f);
  mi_moved : forall p, In p (ModelSort.moved s) ->
    exists item f folder,
      p = source_path item /\ ModelStep.allowed item = true /\
      FS.find t0 p = Some (FS.File f) /\ FS.find (ModelSort.arbol s) p = None /\
      folder_of_file f = Some folder /\ landed (ModelSort.arbol s) folder item f
}.

(** The characters of a printed integer: digits and the minus sign. *)
Definition plain_char (c : ascii) : bool :=
  existsb (Ascii.eqb c) (list_ascii_of_string "0123456789-").

Definition is_photo (item : string) : bool :=
  in_strings (lower (snd (os_path_splitext item))) DateSort.PHOTO_EXTENSIONS.

(* ===================================================================== *)
(** ** What a run of the date sorter keeps true                           *)
(* ===================================================================== *)

(** The moves a log reports, each as source and destination: the line
    "Movida foto item a destino" names the file and its month folder. *)
Definition movidos_de (l : registro) : list (FS.path * FS.path) :=
  flat_map (fun e => match snd e with
                     | EvMovidaFoto item d =>
                         [(FS.os_path_join (FS.dirname d) item, FS.os_path_join d item)]
                     | _ => []
                     end) l.

Definition movidos (s : DateSort.estado) : list (FS.path * FS.path) :=
  movidos_de (log (DateSort.tz s)).

Definition camera_dir (cam : string) : FS.path :=
  FS.os_path_join DateSort.CAMERAS_DIR cam.

Definition photo_path (cam item : string) : FS.path :=
  FS.os_path_join (camera_dir cam) item.

Definition month_dir (cam : string) (fecha : Fecha.datetime) : FS.path :=
  FS.os_path_join (camera_dir cam) (DateSort.generar_nombre_carpeta fecha).

Definition date_grown_by (t t1 : FS.fs) (cam : string) (fecha : Fecha.datetime) : Prop :=
  t1 = t \/ (t1 = t ++ dir_entries [month_dir cam fecha] /\
             FS.find t (month_dir cam fecha) = None).

(** The invariant of the loops of [organizar_fotos_por_fecha], relative to
    the tree [t0] the run started from. *)
Record date_inv (t0 : FS.fs) (s : DateSort.estado) : Prop := {
  di_present : forall cam item f,
    FS.find (DateSort.arbol s) (photo_path cam item) = Some (FS.File f) ->
    FS.find t0 (photo_path cam item) = Some (FS.File f) /\
    ~ In (photo_path cam item) (map fst (movidos s));
  di_kept : forall p f,
    FS.find t0 p = Some (FS.File f) ->
    ~ In p (map fst (movidos s)) ->
    FS.find (DateSort.arbol s) p = Some (FS.File f);
  di_moved : forall p d, In (p, d) (movidos s) ->
    exists cam item fecha f,
      p = photo_path cam item /\ d = FS.os_path_join (month_dir cam fecha) item /\
      is_photo item = true /\
      FS.find t0 p = Some (FS.File f) /\ FS.find (DateSort.arbol s) p = None /\
      FS.find (DateSort.arbol s) d = Some (FS.File f)
}.

(** A photo of May 2024 alone in the folder of its camera. *)
Definition arbol_mayo : FS.fs :=
  [ (["CAMARAS"], FS.Dir); (["CAMARAS"; "EOS"], FS.Dir);
    (["CAMARAS"; "EOS"; "IMG_1.JPG"], FS.File (foto_mayo "hash X")) ]%string.



(** A regular file sits where the destination folder should be. *)
Definition arbol_carpeta_ocupada : FS.fs :=
  [ (["CAMERAS"], FS.Dir);
    (["CAMERAS"; "Sony ILCE-6000"], FS.File (plain_file (bytes_of_string "note")));
    (["CAMERAS"; "a.jpg"], FS.File (foto_sony "pixels"));
    (["CAMERAS"; "b.jpg"], FS.File (foto_sony "other")) ]%string.

(** A file is in the report of the model sorter: in one of its three lists. *)
Definition reported (s : ModelSort.estado) (p : FS.path) : Prop :=
  In p (ModelSort.moved s) \/ In p (ModelSort.duplicates s) \/ In p (ModelSort.unmapped s).

(** The capture date the date sorter finds for a path. *)
Definition fecha_de (env : FS.entorno) (t : FS.fs) (p : FS.path) : Fecha.datetime :=
  fst (DateSort.obtener_fecha_captura env t p traza_vacia).

(** A name of a camera folder is settled in a tree when a turn of the loop
    on it would change nothing: it is not taken up, or its month folder
    cannot be made, or its name is taken at the destination, or its move
    fails. *)
Inductive settled (env : FS.entorno) (t : FS.fs) (cam item : string) : Prop :=
  | sk_skipped :
      DateStep.candidate t (camera_dir cam) item = false ->
      settled env t cam item
  | sk_no_folder fecha' ex :
      DateStep.candidate t (camera_dir cam) item = true ->
      DateSort.ajustar_mes_por_horario_especial (fecha_de env t (photo_path cam item))
        = Ok fecha' ->
      FS.os_path_exists t (month_dir cam fecha') = false ->
      FS.os_mkdir env t (month_dir cam fecha') = Raise ex ->
      settled env t cam item
  | sk_duplicate fecha' :
      DateStep.candidate t (camera_dir cam) item = true ->
      DateSort.ajustar_mes_por_horario_especial (fecha_de env t (photo_path cam item))
        = Ok fecha' ->
      FS.os_path_exists t (month_dir cam fecha') = true ->
      FS.os_path_exists t (FS.os_path_join (month_dir cam fecha') item) = true ->
      settled env t cam item
  | sk_no_size fecha' ex :
      DateStep.candidate t (camera_dir cam) item = true ->
      DateSort.ajustar_mes_por_horario_especial (fecha_de env t (photo_path cam item))
        = Ok fecha' ->
      FS.os_path_exists t (month_dir cam fecha') = true ->
      FS.os_path_exists t (FS.os_path_join (month_dir cam fecha') item) = false ->
      FS.os_path_getsize t (photo_path cam item) = Raise ex ->
      settled env t cam item
  | sk_no_move fecha' size_bytes ex :
      DateStep.candidate t (camera_dir cam) item = true ->
      DateSort.ajustar_mes_por_horario_especial (fecha_de env t (photo_path cam item))
        = Ok fecha' ->
      FS.os_path_exists t (month_dir cam fecha') = true ->
      FS.os_path_exists t (FS.os_path_join (month_dir cam fecha') item) = false ->
      FS.os_path_getsize t (photo_path cam item) = Ok size_bytes ->
      FS.shutil_move env t (photo_path cam item)
        (FS.os_path_join (month_dir cam fecha') item) = Raise ex ->
      settled env t cam item.

(** Every file directly inside the folder of a camera is settled. *)
Definition camera_settled (env : FS.entorno) (t : FS.fs) (cam : string) : Prop :=
  forall item f, FS.find t (photo_path cam item) = Some (FS.File f) ->
                 settled env t cam item.

(** The changes a turn of the date sorter can make to the tree: none, a
    month folder made, a photo moved into its month folder, or both. *)
Inductive tree_step (env : FS.entorno) (t : FS.fs) (cam item : string) : FS.fs -> Prop :=
  | ts_same : tree_step env t cam item t
  | ts_mkdir fecha' t1 :
      FS.os_mkdir env t (month_dir cam fecha') = Ok t1 ->
      tree_step env t cam item t1
  | ts_move fecha' t2 :
      is_photo item = true ->
      FS.os_path_exists t (FS.os_path_join (month_dir cam fecha') item) = false ->
      FS.shutil_move env t (photo_path cam item)
        (FS.os_path_join (month_dir cam fecha') item) = Ok t2 ->
      tree_step env t cam item t2
  | ts_mkdir_move fecha' t1 t2 :
      is_photo item = true ->
      FS.os_mkdir env t (month_dir cam fecha') = Ok t1 ->
      FS.os_path_exists t1 (FS.os_path_join (month_dir cam fecha') item) = false ->
      FS.shutil_move env t1 (photo_path cam item)
        (FS.os_path_join (month_dir cam fecha') item) = Ok t2 ->
      tree_step env t cam item t2.

(** The cameras a run has gone through so far: selected, not the private
    folder, and a directory. *)
Definition handled (t0 : FS.fs) (done : list string) (cam : string) : Prop :=
  In cam done /\ cam <> "PRIVATE"%string /\ FS.os_path_isdir t0 (camera_dir cam) = true.

(** What a run of the date sorter keeps true of the names [W] it has
    already taken up: those still in their camera folder are settled, and
    the camera folders are the ones the run started with. *)
Record settled_inv (env : FS.entorno) (t0 : FS.fs) (W : string -> string -> Prop)
    (s : DateSort.estado) : Prop := {
  si_settled : forall cam item f,
    W cam item ->
    FS.find (DateSort.arbol s) (photo_path cam item) = Some (FS.File f) ->
    settled env (DateSort.arbol s) cam item;
  si_camera : forall cam,
    FS.find (DateSort.arbol s) (camera_dir cam) = FS.find t0 (camera_dir cam)
}.

(** What a second run keeps true, on the tree [t1] the first one left:
    nothing changes, nothing is moved, and whatever is listed as a
    duplicate is an entry of a camera folder that is in the tree. *)
Record second_run (t1 : FS.fs) (s : DateSort.estado) : Prop := {
  sr_tree : DateSort.arbol s = t1;
  sr_report : DateSort.folders_report s = [];
  sr_moved : movidos s = [];
  sr_duplicates : forall p, In p (DateSort.duplicates s) ->
    FS.os_path_exists t1 p = true /\ exists cam item, p = photo_path cam item
}.

(** The destination folder holds a photo; one source photo has its content
    under another name, another has its name with other content. *)
Definition arbol_sobrescrito : FS.fs :=
  [ (["CAMERAS"], FS.Dir); (["CAMERAS"; "Sony ILCE-6000"], FS.Dir);
    (["CAMERAS"; "Sony ILCE-6000"; "x.jpg"], FS.File (foto_sony "first"));
    (["CAMERAS"; "a.jpg"], FS.File (foto_sony "first"));
    (["CAMERAS"; "x.jpg"], FS.File (foto_sony "second")) ]%string.

(** The copies of one content bound for one destination folder: the source
    photos whose model maps to the folder [dest] and whose digest is [h]. *)
Definition copy_of (t0 : FS.fs) (dest : FS.path) (h : string) (item : string) : Prop :=
  ModelStep.allowed item = true /\
  exists f folder,
    FS.find t0 (source_path item) = Some (FS.File f) /\
    folder_of_file f = Some folder /\ ModelStep.dest_of folder = dest /\
    fingerprint t0 (source_path item) = Some h.

(** No file below [dest] has the digest [h]. *)
Definition absent_below (t : FS.fs) (dest : FS.path) (h : string) : Prop :=
  forall q, FS.is_below dest q = true -> fingerprint t q <> Some h.

(** What a turn of the model sorter can do to the tree: make the
    destination folder, and then perhaps move the photo into it. *)
Inductive model_tree_step (env : FS.entorno) (t : FS.fs) (item : string) : FS.fs -> Prop :=
  | mts_grown folder t1 :
      grown_by t t1 folder -> model_tree_step env t item t1
  | mts_moved f folder t1 t2 :
      ModelStep.allowed item = true ->
      FS.find t (source_path item) = Some (FS.File f) ->
      folder_of_file f = Some folder ->
      grown_by t t1 folder ->
      FS.shutil_move env t1 (source_path item)
        (FS.os_path_join (ModelStep.dest_of folder) item) = Ok t2 ->
      model_tree_step env t item t2.

(** Two copies of one photo, the one named [b.jpg] enumerated first. *)
Definition arbol_copias : FS.fs :=
  [ (["CAMERAS"], FS.Dir);
    (["CAMERAS"; "b.jpg"], FS.File (foto_sony "same"));
    (["CAMERAS"; "a.jpg"], FS.File (foto_sony "same")) ]%string.

(** The order the specification names for the choice of the copy to move:
    paths compared component by component, as strings. *)
Fixpoint path_compare (p q : FS.path) : comparison :=
  match p, q with
  | [], [] => Eq
  | [], _ :: _ => Lt
  | _ :: _, [] => Gt
  | x :: p', y :: q' =>
      match String.compare x y with
      | Eq => path_compare p' q'
      | c => c
      end
  end.

(* ===================================================================== *)
(** ** More vocabulary: the report of the date sorter                     *)
(* ===================================================================== *)

(** The size of the file at a path, in bytes ([0] where there is none). *)
Definition size_at (t : FS.fs) (p : FS.path) : nat :=
  match FS.find t p with
  | Some (FS.File f) => length (FS.contenido f)
  | _ => 0%nat
  end.

(** The moves of a log that went into the folder [k]. *)
Definition moves_into (k : FS.path) (mv : list (FS.path * FS.path))
    : list (FS.path * FS.path) :=
  List.filter (fun pd => bool_decide (FS.dirname (snd pd) = k)) mv.

(** The extension a move is counted under: that of the file name, in
    lower case. *)
Definition ext_of (pd : FS.path * FS.path) : string :=
  lower (snd (os_path_splitext (FS.basename (snd pd)))).

Definition with_ext (e : string) (mv : list (FS.path * FS.path))
    : list (FS.path * FS.path) :=
  List.filter (fun pd => bool_decide (ext_of pd = e)) mv.

(** One value of [folders_report] agrees with the moves into its folder:
    their number, their number for each extension, and the bytes of the
    files moved, as they were in the tree [t0] the run started from. *)
Record accounted (t0 : FS.fs) (mv : list (FS.path * FS.path)) (k : FS.path)
    (inf : DateSort.informe) : Prop := {
  ac_created : DateSort.created inf = true;
  ac_count : DateSort.photos_count inf = length (moves_into k mv);
  ac_some : (0 < DateSort.photos_count inf)%nat;
  ac_ext : forall e,
    match dget (DateSort.ext_count inf) e with
    | Some n => n = length (with_ext e (moves_into k mv)) /\ (0 < n)%nat
    | None => with_ext e (moves_into k mv) = []
    end;
  ac_bytes : DateSort.bytes_moved inf
             = list_sum (map (fun pd => size_at t0 (fst pd)) (moves_into k mv))
}.

Definition report_inv (t0 : FS.fs) (s : DateSort.estado) : Prop :=
  forall k,
    match dget (DateSort.folders_report s) k with
    | Some inf => accounted t0 (movidos s) k inf
    | None => moves_into k (movidos s) = []
    end.

(* ===================================================================== *)
(** ** [date_sort_v1.2]: the name of a month folder                       *)
(* ===================================================================== *)

(** A character of a name is a code point below 256; among those the
    digits that [\d] matches are the ten ASCII ones. *)
Definition is_digit (c : ascii) : bool :=
  let n := nat_of_ascii c in (48 <=? n)%nat && (n <=? 57)%nat.

Definition newline : ascii := ascii_of_nat 10.

(** [es_carpeta_yyyy_mm]: [re.match(r"^\d{4}\.\d{2}$", nombre_carpeta)]
    finds a match. Four digits, a dot, two digits, and then the end of the
    name, which [$] also sees just before a final newline. *)
Definition es_carpeta_yyyy_mm (nombre_carpeta : string) : bool :=
  match list_ascii_of_string nombre_carpeta with
  | a :: b :: c :: d :: p :: e :: f :: rest =>
      is_digit a && is_digit b && is_digit c && is_digit d && is_dot p &&
      is_digit e && is_digit f &&
      match rest with
      | [] => true
      | [nl] => Ascii.eqb nl newline
      | _ => false
      end
  | _ => false
  end.

(** The check of the round trip on one year and one month, and a bounded
    universal quantifier to run it on every year and month. *)
Definition nombre_reconocido (y m : Z) : bool :=
  Bool.eqb
    (es_carpeta_yyyy_mm (DateSort.generar_nombre_carpeta (Fecha.DT y m 1 0 0 0)))
    (1000 <=? y).

Fixpoint all_from (n : nat) (z : Z) (P : Z -> bool) : bool :=
  match n with
  | O => true
  | S k => P z && all_from k (z + 1) P
  end.

(* ===================================================================== *)
(** ** [raw_sort_v1.3]: RAW files into a [RAW] subfolder                  *)
(* ===================================================================== *)

Module RawOrganizer.
Import FS.

Definition CAMERAS_DIR : path := ["CAMERAS"%string].

Definition RAW_EXTENSIONS : list string := [".cr2"; ".cr3"; ".arw"]%string.

(** The messages of [procesar_directorio] and
    [organizar_raw_en_subcarpeta]. *)
Inductive aviso : Type :=
  | AvNoRaw (directorio : path)            (* No hay RAW en ... *)
  | AvCreadaRaw (directorio : path)        (* Creada carpeta RAW en ... *)
  | AvErrorCreando (raw_dir : path)        (* Error creando ... *)
  | AvDuplicado (src : path)               (* Duplicado RAW no movido: ... *)
  | AvMovido (rf : string) (raw_dir : path)
  | AvErrorMoviendo (rf : string)
  | AvProcesando (cam_path : path)         (* Procesando camara: ... *)
  | AvNoTematicas (month_path : path).     (* No hay carpetas tematicas en ... *)

(** A line of the log: one of the hashing functions, or one of the above. *)
Inductive linea : Type :=
  | DeHash (e : evento)
  | DeRaw (a : aviso).

(** One value of [folders_report]. *)
Record informe : Type := mkInforme {
  created : bool;
  files : nat;
  ext : list (string * nat);
  bytes : nat
}.

Record estado : Type := mkEstado {
  arbol : fs;
  folders_report : list (path * informe);
  duplicates : list path;
  lineas : list (nivel * linea);
  leidos : list path              (* ghost: the paths handed to sha256_of_file *)
}.

Definition inicial (t : fs) : estado := mkEstado t [] [] [] [].

Definition con_arbol (t : fs) (s : estado) : estado :=
  mkEstado t (folders_report s) (duplicates s) (lineas s) (leidos s).

Definition registrar (l : nivel) (a : aviso) (s : estado) : estado :=
  mkEstado (arbol s) (folders_report s) (duplicates s) (lineas s ++ [(l, DeRaw a)])
           (leidos s).

(** [os.listdir(d)], which raises when [d] is not a directory. *)
Definition listdir (t : fs) (d : path) : result (list string) :=
  match find t d with
  | Some Dir => Ok (os_listdir t d)
  | Some (File _) => Raise (OSError "NotADirectoryError")
  | None => Raise (OSError "FileNotFoundError")
  end.

(** [os.makedirs(p)], without [exist_ok], on the reversed path: the missing
    parents first (an existing one is passed over), then [p] itself, whose
    creation must succeed. *)
Fixpoint makedirs_rev (env : entorno) (t : fs) (rp : list string) : fs * option exc :=
  match rp with
  | [] => (t, None)
  | _ :: rhead =>
      let p := rev rp in
      let head := rev rhead in
      let parents :=
        match rhead with
        | [] => (t, None)
        | _ :: _ =>
            if os_path_exists t head then (t, None)
            else match makedirs_rev env t rhead with
                 | (t1, Some e) =>
                     if is_exc "FileExistsError" e then (t1, None) else (t1, Some e)
                 | r => r
                 end
        end in
      match parents with
      | (t1, Some e) => (t1, Some e)
      | (t1, None) =>
          match os_mkdir env t1 p with
          | Ok t2 => (t2, None)
          | Raise e => (t1, Some e)
          end
      end
  end.

Definition os_makedirs (env : entorno) (t : fs) (p : path) : fs * option exc :=
  makedirs_rev env t (rev p).

(** The call of [is_duplicate], with its lines put into the log. *)
Definition is_duplicate (dest_folder src_path : path) (s : estado) : bool * estado :=
  let '(b, r) :=
    RawSort.is_duplicate (arbol s) dest_folder src_path
      (RawSort.mkEstado (duplicates s) (mkTraza [] (leidos s))) in
  (b, mkEstado (arbol s) (folders_report s) (RawSort.duplicates r)
               (lineas s ++ map (fun le => (fst le, DeHash (snd le))) (log (RawSort.tz r)))
               (hashed (RawSort.tz r))).

(** The update of [folders_report] after a move. *)
Definition report_moved (raw_dir : path) (creada : bool) (e : string) (size : nat)
    (r : list (path * informe)) : list (path * informe) :=
  dupdate r raw_dir (mkInforme creada 0 [] 0)
    (fun rpt => mkInforme (if creada then true else created rpt) (S (files rpt))
                          (dupdate (ext rpt) e 0%nat S) (bytes rpt + size)).

(** The body of the loop over [raw_files]. [os.path.getsize] is outside the
    [try]: what it raises leaves the function. *)
Definition mover_raw (env : entorno) (directorio raw_dir : path) (creada : bool)
    (s : estado) (rf : string) : estado * option exc :=
  let src := os_path_join directorio rf in
  let dst := os_path_join raw_dir rf in
  match os_path_getsize (arbol s) src with
  | Raise e => (s, Some e)
  | Ok size =>
      match is_duplicate raw_dir src s with
      | (true, s) => (registrar WARNING (AvDuplicado src) s, None)
      | (false, s) =>
          match shutil_move env (arbol s) src dst with
          | Ok t =>
              let s := registrar INFO (AvMovido rf raw_dir) (con_arbol t s) in
              (mkEstado (arbol s)
                 (report_moved raw_dir creada (lower (snd (os_path_splitext rf))) size
                    (folders_report s))
                 (duplicates s) (lineas s) (leidos s), None)
          | Raise _ => (registrar ERROR (AvErrorMoviendo rf) s, None)
          end
      end
  end.

Definition es_raw (t : fs) (directorio : path) (f : string) : bool :=
  os_path_isfile t (os_path_join directorio f) &&
  in_strings (lower (snd (os_path_splitext f))) RAW_EXTENSIONS.

(** [procesar_directorio(directorio)] *)
Definition procesar_directorio (env : entorno) (s : estado) (directorio : path)
    : estado * option exc :=
  match listdir (arbol s) directorio with
  | Raise e => (s, Some e)
  | Ok names =>
      let raw_files := List.filter (es_raw (arbol s) directorio) names in
      match raw_files with
      | [] => (registrar INFO (AvNoRaw directorio) s, None)
      | _ :: _ =>
          let raw_dir := os_path_join directorio "RAW" in
          let preparada :=
            if negb (os_path_exists (arbol s) raw_dir) then
              match os_makedirs env (arbol s) raw_dir with
              | (t, None) =>
                  inl (true, registrar INFO (AvCreadaRaw directorio) (con_arbol t s))
              | (t, Some _) => inr (registrar ERROR (AvErrorCreando raw_dir) (con_arbol t s))
              end
            else inl (false, s) in
          match preparada with
          | inr s => (s, None)
          | inl (creada, s) => for_each (mover_raw env directorio raw_dir creada) s raw_files
          end
      end
  end.

(** The directories directly inside [d], in listing order. *)
Definition subdirs (t : fs) (d : path) (names : list string) : list string :=
  List.filter (fun x => os_path_isdir t (os_path_join d x)) names.

(** The body of the loop over the themes of a month: the theme itself,
    then its subfolders other than [RAW] (in any case). *)
Definition procesar_tema (env : entorno) (month_path : path) (s : estado)
    (theme : string) : estado * option exc :=
  let theme_path := os_path_join month_path theme in
  match procesar_directorio env s theme_path with
  | (s, Some e) => (s, Some e)
  | (s, None) =>
      match listdir (arbol s) theme_path with
      | Raise e => (s, Some e)
      | Ok names =>
          let subs :=
            List.filter (fun d => negb (String.eqb (lower d) "raw"))
                        (subdirs (arbol s) theme_path names) in
          for_each (fun s sub => procesar_directorio env s (os_path_join theme_path sub))
                   s subs
      end
  end.

Definition procesar_mes (env : entorno) (cam_path : path) (s : estado)
    (month : string) : estado * option exc :=
  let month_path := os_path_join cam_path month in
  if negb (os_path_isdir (arbol s) month_path) then (s, None)
  else
    match listdir (arbol s) month_path with
    | Raise e => (s, Some e)
    | Ok names =>
        match subdirs (arbol s) month_path names with
        | [] => (registrar INFO (AvNoTematicas month_path) s, None)
        | themes => for_each (procesar_tema env month_path) s themes
        end
    end.

(** [organizar_raw_en_subcarpeta(camaras)] *)
Definition organizar_raw_en_subcarpeta (env : entorno) (s : estado)
    (camaras : list string) : estado * option exc :=
  for_each
    (fun s cam =>
       let cam_path := os_path_join CAMERAS_DIR cam in
       let s := registrar INFO (AvProcesando cam_path) s in
       match listdir (arbol s) cam_path with
       | Raise e => (s, Some e)
       | Ok months => for_each (procesar_mes env cam_path) s months
       end)
    s camaras.

End RawOrganizer.

(** What [procesar_directorio] can do to a file [f] that is at [p] in the
    tree [t] before the call, seen in the tree [t'] after it: the file is
    kept; or it was a RAW file of the directory and is now in the [RAW]
    subfolder under its name (one level deeper when that name was a
    directory there); or it was in the [RAW] subfolder under the name of a
    RAW file of the directory, with another digest, and that file has
    taken its place. *)
Inductive fate (directorio : FS.path) (t t' : FS.fs) (p : FS.path) (f : FS.file) : Prop :=
  | fate_kept :
      FS.find t' p = Some (FS.File f) ->
      fate directorio t t' p f
  | fate_moved rf :
      p = FS.os_path_join directorio rf ->
      RawOrganizer.es_raw t directorio rf = true ->
      FS.find t' p = None ->
      FS.find t' (FS.os_path_join (FS.os_path_join directorio "RAW") rf)
        = Some (FS.File f) \/
      FS.find t' (FS.os_path_join (FS.os_path_join (FS.os_path_join directorio "RAW") rf) rf)
        = Some (FS.File f) ->
      fate directorio t t' p f
  | fate_replaced rf g :
      p = FS.os_path_join (FS.os_path_join directorio "RAW") rf ->
      RawOrganizer.es_raw t directorio rf = true ->
      FS.find t (FS.os_path_join directorio rf) = Some (FS.File g) ->
      FS.find t' p = Some (FS.File g) ->
      FS.find t' (FS.os_path_join directorio rf) = None ->
      fingerprint t p <> fingerprint t (FS.os_path_join directorio rf) ->
      fate directorio t t' p f.

(** A RAW file and, in the [RAW] subfolder, a file of the same name with
    other bytes. *)
Definition arbol_raw_ocupado : FS.fs :=
  [ (["CAMERAS"], FS.Dir); (["CAMERAS"; "EOS"], FS.Dir);
    (["CAMERAS"; "EOS"; "2024.05"], FS.Dir);
    (["CAMERAS"; "EOS"; "2024.05"; "boda"], FS.Dir);
    (["CAMERAS"; "EOS"; "2024.05"; "boda"; "a.cr2"],
       FS.File (plain_file (bytes_of_string "new")));
    (["CAMERAS"; "EOS"; "2024.05"; "boda"; "RAW"], FS.Dir);
    (["CAMERAS"; "EOS"; "2024.05"; "boda"; "RAW"; "a.cr2"],
       FS.File (plain_file (bytes_of_string "old"))) ]%string.

(** The invariant of the loop of [procesar_directorio] over the RAW files,
    with [t0] the tree at the call and [d0] the list of duplicates then. *)
Record raw_inv (directorio : FS.path) (t0 : FS.fs) (d0 : list FS.path)
    (s : RawOrganizer.estado) : Prop := {
  ri_fate : forall p f,
    FS.find t0 p = Some (FS.File f) ->
    fate directorio t0 (RawOrganizer.arbol s) p f;
  ri_duplicates : forall p,
    In p (RawOrganizer.duplicates s) ->
    In p d0 \/
    exists rf, p = FS.os_path_join directorio rf /\
               RawOrganizer.es_raw t0 directorio rf = true /\
               fingerprint t0 p = None /\
               FS.find (RawOrganizer.arbol s) p = FS.find t0 p
}.

(** A theme folder with a RAW file that cannot be read. *)
Definition arbol_raw_ilegible : FS.fs :=
  [ (["CAMERAS"], FS.Dir); (["CAMERAS"; "EOS"], FS.Dir);
    (["CAMERAS"; "EOS"; "2024.05"], FS.Dir);
    (["CAMERAS"; "EOS"; "2024.05"; "boda"], FS.Dir);
    (["CAMERAS"; "EOS"; "2024.05"; "boda"; "b.arw"], FS.File foto_ilegible) ]%string.

(* ===================================================================== *)
(** ** What the duplicate report holds                                    *)
(* ===================================================================== *)

(** The paths that a listing files under a camera and a name, in the
    order of the listing. *)
Definition bucket (fbf : list (FS.path * list string)) (cam name : string)
    : list FS.path :=
  flat_map
    (fun '(folder, fnames) =>
       if String.eqb (DupSearch.camera_of folder) cam
       then map (fun _ => FS.os_path_join folder name)
                (List.filter (String.eqb name) fnames)
       else [])
    fbf.

(** Those of the paths whose digest is [h]. *)
Definition with_digest (t : FS.fs) (h : string) (paths : list FS.path)
    : list FS.path :=
  List.filter (fun p => bool_decide (fingerprint t p = Some h)) paths.

(** [duplicates_report[cam][name][h]], when it is there. *)
Definition reported_group (r : list (string * list (string * list (string * list FS.path))))
    (cam name h : string) : option (list FS.path) :=
  match dget r cam with
  | Some names =>
      match dget names name with
      | Some hs => dget hs h
      | None => None
      end
  | None => None
  end.

(** [camera_to_names[cam][name]], when it is there. *)
Definition bucket_of (c : list (string * list (string * list FS.path)))
    (cam name : string) : option (list FS.path) :=
  match dget c cam with Some nd => dget nd name | None => None end.

(* ===================================================================== *)
(** ** [dup_search_v2.4]: the cameras and the listing                     *)
(* ===================================================================== *)

Module DupListing.
Import FS.

Definition CAMERAS_DIR : path := ["CAMERAS"%string].

Definition PHOTO_EXTENSIONS : list string :=
  [".arw"; ".cr2"; ".cr3"; ".jpg"; ".mov"; ".mp4"; ".mts"]%string.

(** [sub in s] on strings. *)
Fixpoint contains (sub s : string) : bool :=
  String.prefix sub s ||
  match s with
  | EmptyString => false
  | String _ r => contains sub r
  end.

(** [d == "PRIVATE" or "Gopro" in d] *)
Definition omitida (d : string) : bool :=
  String.eqb d "PRIVATE" || contains "Gopro" d.

(** [sorted] on names: by code point, the order of [String.leb]. *)
Fixpoint insertar (x : string) (l : list string) : list string :=
  match l with
  | [] => [x]
  | y :: r => if String.leb x y then x :: l else y :: insertar x r
  end.

Definition sorted (l : list string) : list string := fold_right insertar [] l.

(** The messages of [seleccionar_camaras] and [listar_contenidos]. *)
Inductive aviso : Type :=
  | AvNoRaiz                                  (* No existe la carpeta raiz *)
  | AvOmitida (d : string)                    (* Omitida camara: ... *)
  | AvListando (omitidas : list string)       (* Listando contenidos (omitidas: ...) *)
  | AvArchivos (count : nat) (root : path).   (* ... archivos en ... *)

Record estado : Type := mkEstado {
  files_by_folder : list (path * list string);
  cameras_scanned : list string;
  cameras_skipped : list string;
  lineas : list (nivel * aviso)
}.

Definition inicial : estado := mkEstado [] [] [] [].

Definition registrar (l : nivel) (a : aviso) (s : estado) : estado :=
  mkEstado (files_by_folder s) (cameras_scanned s) (cameras_skipped s)
           (lineas s ++ [(l, a)]).

(** What a call gives: its value, or [sys.exit(code)]. *)
Inductive salida (A : Type) : Type :=
  | Devuelve (a : A)
  | SysExit (code : Z).
Arguments Devuelve {A} a.
Arguments SysExit {A} code.

(** The body of the loop of [seleccionar_camaras]. *)
Definition elegir (t : fs) (acc : estado * list string) (d : string)
    : estado * list string :=
  let '(s, selected) := acc in
  if negb (os_path_isdir t (os_path_join CAMERAS_DIR d)) then (s, selected)
  else if omitida d then
    let s := registrar INFO (AvOmitida d) s in
    (mkEstado (files_by_folder s) (cameras_scanned s) (cameras_skipped s ++ [d])
              (lineas s), selected)
  else (s, selected ++ [d]).

(** [seleccionar_camaras()] *)
Definition seleccionar_camaras (t : fs) (s : estado) : estado * salida (list string) :=
  if negb (os_path_isdir t CAMERAS_DIR) then
    (registrar CRITICAL AvNoRaiz s, SysExit 1)
  else
    let all_dirs := sorted (os_listdir t CAMERAS_DIR) in
    let '(s, selected) := fold_left (elegir t) all_dirs (s, []) in
    (s, Devuelve selected).

Definition extension_valida (f : string) : bool :=
  in_strings (lower (snd (os_path_splitext f))) PHOTO_EXTENSIONS.

(** The loop [for root, dirs, files in os.walk(cam_path)] with its body,
    from the directory [root] on: the body prunes [dirs] and files the
    valid names of [root], then the walk goes down the directories that
    are left, in their order. A directory that cannot be listed is passed
    over. Every level goes to an entry of the tree with a longer path, so
    [fuel] above the number of entries is never used up. *)
Fixpoint recorrer (fuel : nat) (t : fs) (root : path) (st : estado * nat)
    : estado * nat :=
  match fuel with
  | O => st
  | S k =>
      if os_path_isdir t root then
        let names := os_listdir t root in
        let dirs := List.filter (fun d => os_path_isdir t (os_path_join root d)) names in
        let files :=
          List.filter (fun d => negb (os_path_isdir t (os_path_join root d))) names in
        let dirs := List.filter (fun d => negb (omitida d)) dirs in
        let valid := List.filter extension_valida files in
        let st :=
          match valid with
          | [] => st
          | _ :: _ =>
              let s := fst st in
              let s := mkEstado (dset (files_by_folder s) root (sorted valid))
                                (cameras_scanned s) (cameras_skipped s) (lineas s) in
              (registrar INFO (AvArchivos (length valid) root) s,
               (snd st + length valid)%nat)
          end in
        fold_left (fun st d => recorrer k t (os_path_join root d) st) dirs st
      else st
  end.

(** The body of the loop over the cameras. *)
Definition listar_camara (t : fs) (st : estado * nat) (cam : string) : estado * nat :=
  let '(s, total) := st in
  let s := mkEstado (files_by_folder s) (cameras_scanned s ++ [cam]) (cameras_skipped s)
                    (lineas s) in
  recorrer (S (length t)) t (os_path_join CAMERAS_DIR cam) (s, total).

(** [listar_contenidos(cameras)] up to the end of its loop: the state and
    [total]. The text file it then writes is not part of the tree. *)
Definition listar_contenidos (t : fs) (cameras : list string) (s : estado)
    : estado * nat :=
  let s := registrar INFO (AvListando (cameras_skipped s)) s in
  fold_left (listar_camara t) cameras (s, 0%nat).

End DupListing.

(** A chain of directories from [root] down the names [ds], none of them
    left out by the pruning. *)
Fixpoint chain (t : FS.fs) (root : FS.path) (ds : list string) : bool :=
  FS.os_path_isdir t root &&
  match ds with
  | [] => true
  | d :: r => negb (DupListing.omitida d) && chain t (FS.os_path_join root d) r
  end.

(** The folders the listing goes through: the directories below [CAMERAS]
    that are reached from it through directories, none of which is named
    [PRIVATE] or has [Gopro] in its name. *)
Definition escaneada (t : FS.fs) (folder : FS.path) : bool :=
  match FS.relative DupListing.CAMERAS_DIR folder with
  | Some (cam :: ds) => chain t DupListing.CAMERAS_DIR (cam :: ds)
  | _ => false
  end.

(** The names of the files of a folder that have one of the extensions. *)
Definition validos (t : FS.fs) (folder : FS.path) : list string :=
  List.filter DupListing.extension_valida
    (List.filter (fun d => negb (FS.os_path_isdir t (FS.os_path_join folder d)))
       (FS.os_listdir t folder)).

(** What the listing holds for a folder it goes through: its valid names
    in order, when there are any. *)
Definition canon (t : FS.fs) (folder : FS.path) : option (list string) :=
  match validos t folder with
  | [] => None
  | v => Some (DupListing.sorted v)
  end.

(** The folders reached from [root] within [fuel] levels. *)
Definition alcanzada (fuel : nat) (t : FS.fs) (root folder : FS.path) : bool :=
  match FS.relative root folder with
  | Some ds => (length ds <? fuel)%nat && chain t root ds
  | None => false
  end.

(** An entry of a dictionary after some writes of the value [c]. *)
Definition over {A : Type} (b : bool) (c old : option A) : option A :=
  if b then match c with Some x => Some x | None => old end else old.

(** A tree with one camera, a private folder and two folders of action
    cameras, one of them spelt [GoPro]. *)
Definition arbol_escaneo : FS.fs :=
  [ (["CAMERAS"], FS.Dir);
    (["CAMERAS"; "PRIVATE"], FS.Dir); (["CAMERAS"; "GoPro"], FS.Dir);
    (["CAMERAS"; "EOS"], FS.Dir);
    (["CAMERAS"; "EOS"; "2024.05"], FS.Dir); (["CAMERAS"; "EOS"; "2024.06"], FS.Dir);
    (["CAMERAS"; "EOS"; "Gopro9"], FS.Dir);
    (["CAMERAS"; "EOS"; "2024.05"; "IMG_2.JPG"], FS.File (plain_file (bytes_of_string "two")));
    (["CAMERAS"; "EOS"; "2024.05"; "IMG_1.JPG"], FS.File (plain_file (bytes_of_string "one")));
    (["CAMERAS"; "EOS"; "2024.05"; "notes.txt"], FS.File (plain_file (bytes_of_string "n")));
    (["CAMERAS"; "EOS"; "2024.06"; "IMG_1.JPG"], FS.File (plain_file (bytes_of_string "one")));
    (["CAMERAS"; "EOS"; "Gopro9"; "G1.MP4"], FS.File (plain_file (bytes_of_string "g")));
    (["CAMERAS"; "PRIVATE"; "p.jpg"], FS.File (plain_file (bytes_of_string "p")));
    (["CAMERAS"; "GoPro"; "clip.mp4"], FS.File (plain_file (bytes_of_string "c")))
  ]%string.

(** The report of the duplicate search on a tree: the cameras, the
    listing, then the detection on that listing. *)
Definition informe_de_duplicados (t : FS.fs)
    : DupListing.salida (list (string * list (string * list (string * list FS.path)))) :=
  match DupListing.seleccionar_camaras t DupListing.inicial with
  | (_, DupListing.SysExit code) => DupListing.SysExit code
  | (s, DupListing.Devuelve cams) =>
      let fbf := DupListing.files_by_folder (fst (DupListing.listar_contenidos t cams s)) in
      DupListing.Devuelve
        (DupSearch.duplicates_report (DupSearch.detectar_duplicados t (dup_inicial fbf)))
  end.

(** A file that the search files under a camera, a name and a digest: a
    file of that name and digest, with one of the extensions, in a folder
    of that camera that the listing goes through. *)
Definition copia (t : FS.fs) (cam name h : string) (p : FS.path) : Prop :=
  exists folder,
    p = FS.os_path_join folder name /\
    escaneada t folder = true /\
    DupSearch.camera_of folder = cam /\
    FS.os_path_isfile t p = true /\
    DupListing.extension_valida name = true /\
    fingerprint t p = Some h.

(* ===================================================================== *)
(** ** The date sorter: where a photo goes                                *)
(* ===================================================================== *)

(** Every move of a log took a photo of one of the cameras, other than
    [PRIVATE], to the month folder of the date of its file: the date that
    [obtener_fecha_captura] finds for the file as it was in the tree [t0],
    after [ajustar_mes_por_horario_especial]. *)
Definition bien_fechados (env : FS.entorno) (t0 : FS.fs) (camaras : list string)
    (mv : list (FS.path * FS.path)) : Prop :=
  forall p d, In (p, d) mv ->
    exists cam item fecha,
      In cam camaras /\ cam <> "PRIVATE"%string /\ is_photo item = true /\
      p = photo_path cam item /\
      DateSort.ajustar_mes_por_horario_especial (fecha_de env t0 p) = Ok fecha /\
      d = FS.os_path_join (month_dir cam fecha) item.

(* ===================================================================== *)
(** ** The RAW sorter: a whole run                                        *)
(* ===================================================================== *)

(** The places where [procesar_directorio] can put a file: in the [RAW]
    subfolder of the directory under a name, or one level deeper under
    the same name. *)
Definition landing (directorio q : FS.path) : Prop :=
  exists rf,
    q = FS.os_path_join (FS.os_path_join directorio "RAW") rf \/
    q = FS.os_path_join (FS.os_path_join (FS.os_path_join directorio "RAW") rf) rf.

(** During the loop of [procesar_directorio] a file is where a file was
    at the call, or at one of those places. *)
Definition raw_new (directorio : FS.path) (t0 : FS.fs) (s : RawOrganizer.estado) : Prop :=
  forall q g,
    FS.find (RawOrganizer.arbol s) q = Some (FS.File g) ->
    (exists g', FS.find t0 q = Some (FS.File g')) \/ landing directorio q.

(** The directories that [organizar_raw_en_subcarpeta] hands to
    [procesar_directorio]: the themes, four levels down, and their
    subfolders other than [RAW] in any case. *)
Definition tematico (d : FS.path) : Prop :=
  length d = 4%nat \/ (length d = 5%nat /\ lower (FS.basename d) <> "raw"%string).

(** Where a moved file is: in the [RAW] subfolder of its folder under its
    name, or one level deeper. *)
Definition en_raw (t : FS.fs) (p : FS.path) (f : FS.file) : Prop :=
  FS.find t (FS.os_path_join (FS.os_path_join (FS.dirname p) "RAW") (FS.basename p))
    = Some (FS.File f) \/
  FS.find t (FS.os_path_join
               (FS.os_path_join (FS.os_path_join (FS.dirname p) "RAW") (FS.basename p))
               (FS.basename p))
    = Some (FS.File f).

(** What a run of the RAW sorter keeps true of a file [f] that was at [p]
    when it started: the file is at [p], or it has been moved from a theme
    folder or a subfolder of one, no file has taken its path, and it is in
    the [RAW] subfolder. *)
Definition a_salvo (t : FS.fs) (p : FS.path) (f : FS.file) : Prop :=
  FS.find t p = Some (FS.File f) \/
  ((length p = 5%nat \/ length p = 6%nat) /\ FS.os_path_isfile t p = false /\ en_raw t p f).

(** A camera with a theme folder, a subfolder of it and RAW files at four
    levels. *)
Definition arbol_tematico : FS.fs :=
  [ (["CAMERAS"], FS.Dir); (["CAMERAS"; "EOS"], FS.Dir);
    (["CAMERAS"; "EOS"; "suelta.cr2"], FS.File (plain_file (bytes_of_string "s")));
    (["CAMERAS"; "EOS"; "2024.05"], FS.Dir);
    (["CAMERAS"; "EOS"; "2024.05"; "mes.cr2"], FS.File (plain_file (bytes_of_string "m")));
    (["CAMERAS"; "EOS"; "2024.05"; "boda"], FS.Dir);
    (["CAMERAS"; "EOS"; "2024.05"; "boda"; "a.cr2"],
       FS.File (plain_file (bytes_of_string "a")));
    (["CAMERAS"; "EOS"; "2024.05"; "boda"; "a.jpg"],
       FS.File (plain_file (bytes_of_string "j")));
    (["CAMERAS"; "EOS"; "2024.05"; "boda"; "iglesia"], FS.Dir);
    (["CAMERAS"; "EOS"; "2024.05"; "boda"; "iglesia"; "b.ARW"],
       FS.File (plain_file (bytes_of_string "b")))
  ]%string.

(* ===================================================================== *)
(** ** The model sorter: the files it does not sort                       *)
(* ===================================================================== *)

(** What a run of the model sorter keeps true of a file [f] that was at
    [p] in the tree [t0], outside the listing of [CAMERAS]: the file is at
    [p]; or a photo of the listing whose model maps to the folder of [p],
    and whose name is that of [p], has been moved onto it. *)
Definition guardado (t0 t : FS.fs) (p : FS.path) (f : FS.file) : Prop :=
  FS.find t p = Some (FS.File f) \/
  exists item g folder,
    p = FS.os_path_join (ModelStep.dest_of folder) item /\
    FS.find t0 (source_path item) = Some (FS.File g) /\
    folder_of_file g = Some folder /\
    FS.find t p = Some (FS.File g).

(* ===================================================================== *)
(** ** The inputs of a run                                                *)
(* ===================================================================== *)

(** The names handed to a run are entries of the root folder, as
    [seleccionar_camaras] takes them from [os.listdir]: each is one path
    component, for which [os.path.join] is [FS.os_path_join]. *)
Definition entradas (t : FS.fs) (root : FS.path) (nombres : list string) : Prop :=
  forall n, In n nombres -> In n (FS.os_listdir t root).

(** The date that [leer_fecha_con_exiftool] reads in the metadata of a
    file, when it reads one. *)
Definition fecha_exif (f : FS.file) : option Fecha.datetime :=
  match FS.exif_fechas f with
  | FS.Metadatos dto cd ss =>
      match (match dto with
             | FS.Ausente => match cd with FS.Ausente => ss | _ => cd end
             | _ => dto
             end) with
      | FS.FechaExif d => Some d
      | _ => None
      end
  | _ => None
  end.

(** A file has a date of its own when [obtener_fecha_captura] finds one
    without asking the clock: in the metadata, or in the times of the
    file. *)
Definition fechado (f : FS.file) : Prop :=
  fecha_exif f <> None \/ FS.st_ctime f <> None \/ FS.st_mtime f <> None.

(** Two environments refuse the same directory creations and the same
    moves; their clocks may differ. *)
Definition mismas_negativas (env1 env2 : FS.entorno) : Prop :=
  (forall d, FS.mkdir_fails env2 d = FS.mkdir_fails env1 d) /\
  (forall a b, FS.move_fails env2 a b = FS.move_fails env1 a b).

(** The system of [entorno_ok], years later. *)
Definition entorno_tarde : FS.entorno :=
  FS.mkEntorno (fun _ => false) (fun _ _ => false) (Fecha.DT 2031 1 1 0 30 0).


(** A photo with no date of its own, and two states of a system that
    refuses to make the folder of June 2024: in June 2024 and in January
    2031. *)
Definition arbol_sin_fecha : FS.fs :=
  [ (["CAMARAS"], FS.Dir); (["CAMARAS"; "EOS"], FS.Dir);
    (["CAMARAS"; "EOS"; "IMG_9.JPG"], FS.File (plain_file (bytes_of_string "nine"))) ]%string.

Definition entorno_junio : FS.entorno :=
  FS.mkEntorno (fun d => bool_decide (d = ["CAMARAS"; "EOS"; "2024.06"]%string))
               (fun _ _ => false) (Fecha.DT 2024 6 15 12 0 0).

Definition entorno_enero : FS.entorno :=
  FS.mkEntorno (fun d => bool_decide (d = ["CAMARAS"; "EOS"; "2024.06"]%string))
               (fun _ _ => false) (Fecha.DT 2031 1 10 12 0 0).
(* ===================================================================== *)
(** * Properties                                                         *)
(* ===================================================================== *)

(** The constants of the digest are what the standard says they are. *)
Example round_constants_are_cube_roots :
  forallb (fun '(p, k) =>
             (0 <=? k) && (k <? 2 ^ 32) &&
             existsb (fun n => let r := n * 2 ^ 32 + k in
                               (r ^ 3 <=? p * 2 ^ 96) && (p * 2 ^ 96 <? (r + 1) ^ 3))
                     [1; 2; 3; 4; 5; 6])
          SHA256.K_table = true
  /\ length SHA256.K = 64%nat.
Proof. split; vm_compute; reflexivity. Qed.

Example sha256_empty :
  SHA256.hex (SHA256.hash []) =
  "e3b0c44298fc1c149afbf4c8996fb92427ae41e4649b934ca495991b7852b855"%string.
Proof. vm_compute. reflexivity. Qed.

Example sha256_abc :
  SHA256.hex (SHA256.hash (bytes_of_string "abc")) =
  "ba7816bf8f01cfea414140de5dae2223b00361a396177a9cb410ff61f20015ad"%string.
Proof. vm_compute. reflexivity. Qed.

Example sha256_two_blocks :
  SHA256.hex (SHA256.hash (repeat "a"%byte 119)) =
  "31eba51c313a5c08226adf18d4a359cfdfd8d2e816b13f4af952f7ea6584dcfb"%string.
Proof. vm_compute. reflexivity. Qed.

Example sha256_56 :
  SHA256.hex (SHA256.hash (repeat "a"%byte 56)) =
  "b35439a4ac6f0948b6d6f9e3c6af0f5f590ce20f1bde7090ef7970686ec6738a"%string.
Proof. vm_compute. reflexivity. Qed.

(* --------------------------------------------------------------------- *)
(** ** Dictionaries and the file tree                                      *)
(* --------------------------------------------------------------------- *)

Section DictFacts.
Context {K V : Type} `{EqDecision K}.
Implicit Types (d : list (K * V)) (k : K) (v : V).

Lemma dget_dset d k v k' :
  dget (dset d k v) k' = if decide (k = k') then Some v else dget d k'.
Proof.
  induction d as [|[k0 v0] d IH]; simpl.
  - repeat case_decide; congruence.
  - repeat (case_decide; simpl); try congruence.
Qed.

Lemma dget_ddel d k k' :
  dget (ddel d k) k' = if decide (k = k') then None else dget d k'.
Proof.
  induction d as [|[k0 v0] d IH]; simpl.
  - case_decide; reflexivity.
  - repeat (case_decide; simpl); try congruence.
Qed.

Lemma dget_app d d' k :
  dget (d ++ d') k = match dget d k with Some v => Some v | None => dget d' k end.
Proof.
  induction d as [|[k0 v0] d IH]; simpl; [reflexivity|].
  case_decide; auto.
Qed.

Lemma dset_fresh d k v : dget d k = None -> dset d k v = d ++ [(k, v)].
Proof.
  induction d as [|[k0 v0] d IH]; simpl; [reflexivity|].
  case_decide; [discriminate|]. intros Hd. rewrite IH; auto.
Qed.

Lemma ddel_fresh d k : dget d k = None -> ddel d k = d.
Proof.
  induction d as [|[k0 v0] d IH]; simpl; [reflexivity|].
  case_decide; [discriminate|]. intros Hd. rewrite IH; auto.
Qed.

Lemma dget_Some_In d k v : dget d k = Some v -> In (k, v) d.
Proof.
  induction d as [|[k0 v0] d IH]; simpl; [discriminate|].
  case_decide; intros Hd; [left; congruence | right; auto].
Qed.

Lemma dget_None_In d k v : dget d k = None -> ~ In (k, v) d.
Proof.
  induction d as [|[k0 v0] d IH]; simpl; [tauto|].
  case_decide; [discriminate|]. intros Hd [Heq|Hin]; [congruence|].
  exact (IH Hd Hin).
Qed.
End DictFacts.

(* --------------------------------------------------------------------- *)
(** ** The digest                                                          *)
(* --------------------------------------------------------------------- *)

Lemma add32_range x y : 0 <= SHA256.add32 x y < SHA256.w32.
Proof. unfold SHA256.add32. apply Z.mod_pos_bound. reflexivity. Qed.

Lemma compress_ok h b : regs_ok (SHA256.compress h b).
Proof.
  unfold regs_ok, SHA256.compress. cbv zeta.
  cbv beta iota delta [SHA256.ra SHA256.rb SHA256.rc SHA256.rd SHA256.re SHA256.rf
                       SHA256.rg SHA256.rh].
  repeat split; apply add32_range.
Qed.

Lemma H0_ok : regs_ok SHA256.H0.
Proof. unfold regs_ok; simpl. unfold SHA256.w32. lia. Qed.

Lemma blocks_ok n : forall bs h, regs_ok h -> regs_ok (SHA256.blocks n bs h).
Proof.
  induction n as [|n IH]; intros bs h Hh; simpl; [exact Hh|].
  apply IH, compress_ok.
Qed.

Lemma digest_of_range r : regs_ok r -> 0 <= SHA256.digest_of r < 2 ^ 256.
Proof.
  unfold regs_ok, SHA256.digest_of.
  change SHA256.w32 with 4294967296.
  change (2 ^ 256) with
    (4294967296 * 4294967296 * 4294967296 * 4294967296 *
     4294967296 * 4294967296 * 4294967296 * 4294967296).
  intros H. lia.
Qed.

(** The digest is a 256-bit number. *)
Lemma hash_range m : 0 <= SHA256.hash m < 2 ^ 256.
Proof. unfold SHA256.hash. apply digest_of_range, blocks_ok, H0_ok. Qed.

(** Bounded search for a value among [f 0 .. f n]. *)
Lemma bounded_search (f : Z -> Z) (v : Z) (n : nat) :
  (exists i, 0 <= i <= Z.of_nat n /\ f i = v) \/
  (forall i, 0 <= i <= Z.of_nat n -> f i <> v).
Proof.
  induction n as [|n IH].
  - destruct (Z.eq_dec (f 0) v) as [E|E].
    + left. exists 0. split; [lia | exact E].
    + right. intros i Hi. assert (i = 0) by lia. subst i. exact E.
  - destruct IH as [[i [Hi E]]|IH].
    + left. exists i. split; [lia | exact E].
    + destruct (Z.eq_dec (f (Z.of_nat (S n))) v) as [E|E].
      * left. exists (Z.of_nat (S n)). split; [lia | exact E].
      * right. intros i Hi.
        destruct (Z.eq_dec i (Z.of_nat (S n))) as [->|Hne]; [exact E|].
        apply IH. lia.
Qed.

(** Pigeonhole: [n + 1] values in a range of size [n] cannot all differ. *)
Lemma pigeonhole (n : nat) :
  forall f : Z -> Z,
    (forall i, 0 <= i <= Z.of_nat n -> 0 <= f i < Z.of_nat n) ->
    exists i j, 0 <= i < j /\ j <= Z.of_nat n /\ f i = f j.
Proof.
  induction n as [|n IH]; intros f Hf.
  - specialize (Hf 0). lia.
  - set (v := f (Z.of_nat (S n))).
    destruct (bounded_search f v n) as [[i [Hi E]]|Hno].
    + exists i, (Z.of_nat (S n)). split; [lia|]. split; [lia | exact E].
    + destruct (IH (fun i => if f i <? v then f i else f i - 1)) as (i & j & Hij & Hj & E).
      * intros i Hi. cbv beta.
        assert (Hr := Hf i ltac:(lia)). assert (Hv := Hf (Z.of_nat (S n)) ltac:(lia)).
        fold v in Hv. assert (Hne := Hno i Hi).
        destruct (Z.ltb_spec (f i) v); lia.
      * exists i, j. split; [lia|]. split; [lia|].
        cbv beta in E.
        assert (Hni := Hno i ltac:(lia)). assert (Hnj := Hno j ltac:(lia)).
        destruct (Z.ltb_spec (f i) v); destruct (Z.ltb_spec (f j) v); lia.
Qed.

(** SHA-256 is not injective: two different byte strings share a digest. *)
Lemma sha256_collision_exists :
  exists m1 m2 : list byte, m1 <> m2 /\ SHA256.hash m1 = SHA256.hash m2.
Proof.
  remember (2 ^ 256) as N eqn:HN.
  assert (HNpos : 0 <= N) by (subst N; apply Z.pow_nonneg; lia).
  destruct (pigeonhole (Z.to_nat N)
              (fun i => SHA256.hash (repeat "000"%byte (Z.to_nat i))))
    as (i & j & Hij & Hj & E).
  - intros i Hi. rewrite Z2Nat.id by exact HNpos. subst N. apply hash_range.
  - exists (repeat "000"%byte (Z.to_nat i)), (repeat "000"%byte (Z.to_nat j)).
    split; [|exact E].
    intros Heq. apply (f_equal (@length byte)) in Heq.
    rewrite !repeat_length in Heq. lia.
Qed.

(* --------------------------------------------------------------------- *)
(** ** Chunked reading                                                     *)
(* --------------------------------------------------------------------- *)

(** With enough fuel, the loop has fed every byte to the hasher. *)
Lemma read_loop_all (n : nat) : (0 < n)%nat ->
  forall fuel rest h, (length rest < fuel)%nat ->
    Hashing.read_loop fuel n rest h = h ++ rest.
Proof.
  intros Hn. induction fuel as [|fuel IH]; intros rest h Hlen; [lia|].
  cbn [Hashing.read_loop].
  destruct (firstn n rest) as [|c chunk] eqn:Hchunk.
  - destruct rest as [|b rest]; [rewrite app_nil_r; reflexivity|].
    destruct n; [lia | discriminate].
  - rewrite IH.
    + unfold Hashing.update. rewrite <- Hchunk, <- app_assoc, firstn_skipn. reflexivity.
    + rewrite length_skipn. destruct rest; [destruct n; discriminate|].
      simpl in *. lia.
Qed.

(** Reading in chunks of any positive size gives the digest of the whole
    content. *)
Lemma digest_chunked_eq (n : nat) (data : list byte) : (0 < n)%nat ->
  Hashing.digest_chunked n data = SHA256.hex (SHA256.hash data).
Proof.
  intros Hn. unfold Hashing.digest_chunked, Hashing.hexdigest.
  rewrite read_loop_all by (auto; lia). reflexivity.
Qed.

Lemma sha256_of_file_readable t p tr data :
  FS.read_bytes t p = Some data ->
  Hashing.sha256_of_file t p tr =
    (Some (SHA256.hex (SHA256.hash data)), mkTraza (log tr) (hashed tr ++ [p])).
Proof.
  intros H. unfold Hashing.sha256_of_file, Hashing.sha256_of_file_sized.
  rewrite H. rewrite digest_chunked_eq by lia. reflexivity.
Qed.

Lemma sha256_of_file_unreadable t p tr :
  FS.read_bytes t p = None ->
  Hashing.sha256_of_file t p tr =
    (None, mkTraza (log tr ++ [(ERROR, EvHashError p)]) (hashed tr ++ [p])).
Proof.
  intros H. unfold Hashing.sha256_of_file, Hashing.sha256_of_file_sized.
  rewrite H. reflexivity.
Qed.

Lemma fingerprint_readable t p data :
  FS.read_bytes t p = Some data ->
  fingerprint t p = Some (SHA256.hex (SHA256.hash data)).
Proof.
  intros H. unfold fingerprint. rewrite (sha256_of_file_readable _ _ _ _ H).
  reflexivity.
Qed.

(* --------------------------------------------------------------------- *)
(** ** Content equality of fingerprints                                    *)
(* --------------------------------------------------------------------- *)

(** C2, as amended. Two readable files with the same bytes get the same
    fingerprint, whatever their paths, names or trees, whatever the chunk
    size and whatever was logged before; the fingerprint is the SHA-256
    digest of the bytes, also for the empty file. *)
Theorem fingerprint_content_determined :
  forall (n1 n2 : nat) (t1 t2 : FS.fs) (a b : FS.path) (tr1 tr2 : traza)
         (data : list byte),
    (0 < n1)%nat -> (0 < n2)%nat ->
    FS.read_bytes t1 a = Some data ->
    FS.read_bytes t2 b = Some data ->
    fst (Hashing.sha256_of_file_sized n1 t1 a tr1) = Some (SHA256.hex (SHA256.hash data)) /\
    fst (Hashing.sha256_of_file_sized n2 t2 b tr2) =
      fst (Hashing.sha256_of_file_sized n1 t1 a tr1).
Proof.
  intros n1 n2 t1 t2 a b tr1 tr2 data H1 H2 Ha Hb.
  unfold Hashing.sha256_of_file_sized. rewrite Ha, Hb. simpl.
  rewrite !digest_chunked_eq by assumption. split; reflexivity.
Qed.

Lemma fingerprint_content_determined_witness :
  fst (Hashing.sha256_of_file_sized (8 * 1024) two_copies ["A"; "IMG_1.JPG"]%string traza_vacia)
    = Some (SHA256.hex (SHA256.hash (bytes_of_string "abc"))) /\
  fst (Hashing.sha256_of_file_sized 3 two_copies ["B"; "copy.jpg"]%string traza_vacia)
    = fst (Hashing.sha256_of_file_sized (8 * 1024) two_copies ["A"; "IMG_1.JPG"]%string traza_vacia).
Proof.
  apply (fingerprint_content_determined (8 * 1024) 3 two_copies two_copies
           ["A"; "IMG_1.JPG"]%string ["B"; "copy.jpg"]%string traza_vacia traza_vacia
           (bytes_of_string "abc")).
  - apply Nat.lt_0_succ.
  - apply Nat.lt_0_succ.
  - reflexivity.
  - reflexivity.
Defined.

(** C2, as the specification words it, fails: the digest has 256 bits, so
    two readable files with different bytes and the same fingerprint exist. *)
Lemma fingerprint_iff_content_fails : ~ fingerprint_iff_content.
Proof.
  intros Hiff.
  destruct sha256_collision_exists as (m1 & m2 & Hne & Heq).
  apply Hne.
  apply (Hiff [ (["a"%string], FS.File (plain_file m1));
                (["b"%string], FS.File (plain_file m2)) ]
              ["a"%string] ["b"%string] m1 m2); [reflexivity | reflexivity |].
  rewrite (fingerprint_readable _ _ m1) by reflexivity.
  rewrite (fingerprint_readable _ _ m2) by reflexivity.
  rewrite Heq. reflexivity.
Qed.

(** Two unreadable files also compare equal, both giving [None]. *)
Example fingerprint_unreadable_equal :
  fingerprint two_unreadable ["a.jpg"%string] = fingerprint two_unreadable ["b.jpg"%string]
  /\ fingerprint two_unreadable ["a.jpg"%string] = None.
Proof. split; reflexivity. Qed.

Example fingerprint_empty_file :
  fingerprint [(["e"%string], FS.File (plain_file []))] ["e"%string] =
  Some "e3b0c44298fc1c149afbf4c8996fb92427ae41e4649b934ca495991b7852b855"%string.
Proof. vm_compute. reflexivity. Qed.

(* --------------------------------------------------------------------- *)
(** ** Dates                                                               *)
(* --------------------------------------------------------------------- *)

Lemma days_in_month_range y m : 28 <= Fecha.days_in_month y m <= 31.
Proof.
  unfold Fecha.days_in_month.
  repeat match goal with |- context [if ?b then _ else _] => destruct b end; lia.
Qed.

Lemma days_before_year_succ y :
  days_before_year (y + 1) =
  days_before_year y + (if Fecha.is_leap y then 366 else 365).
Proof.
  unfold days_before_year, Fecha.is_leap. cbv zeta.
  replace (y + 1 - 1) with y by lia.
  destruct (Z.eqb_spec (y mod 4) 0); destruct (Z.eqb_spec (y mod 100) 0);
    destruct (Z.eqb_spec (y mod 400) 0); simpl;
    Z.div_mod_to_equations; lia.
Qed.

Lemma days_before_month_succ y m : 1 <= m <= 11 ->
  days_before_month y (m + 1) = days_before_month y m + Fecha.days_in_month y m.
Proof.
  intros Hm. unfold days_before_month.
  replace (Z.to_nat (m + 1 - 1)) with (S (Z.to_nat (m - 1))) by lia.
  rewrite seq_S, map_app, fold_left_app. simpl.
  replace (Z.of_nat (S (Z.to_nat (m - 1)))) with m by lia. reflexivity.
Qed.

Lemma days_before_december y :
  days_before_month y 12 + 31 = if Fecha.is_leap y then 366 else 365.
Proof.
  unfold days_before_month. simpl. unfold Fecha.days_in_month. simpl.
  destruct (Fecha.is_leap y); reflexivity.
Qed.

(** [minus_one_day] is the day before: a valid date, one ordinal lower, at
    the same time of day. *)
Lemma minus_one_day_spec d d' :
  Fecha.valid d -> Fecha.minus_one_day d = Some d' ->
  Fecha.valid d' /\ toordinal d' = toordinal d - 1 /\
  Fecha.hour d' = Fecha.hour d /\ Fecha.minute d' = Fecha.minute d /\
  Fecha.second d' = Fecha.second d.
Proof.
  destruct d as [y m dd h mi s]. unfold Fecha.valid, Fecha.minus_one_day, toordinal.
  simpl. intros (Hy & Hm & Hd & Hh & Hmi & Hs).
  destruct (Z.ltb_spec 1 dd) as [Hdd|Hdd].
  - intros [= <-]. simpl. repeat split; lia.
  - assert (dd = 1) by lia. subst dd.
    destruct (Z.ltb_spec 1 m) as [Hmm|Hmm].
    + intros [= <-]. simpl.
      pose proof (days_in_month_range y (m - 1)).
      pose proof (days_before_month_succ y (m - 1) ltac:(lia)) as Hs'.
      replace (m - 1 + 1) with m in Hs' by lia.
      repeat split; lia.
    + assert (m = 1) by lia. subst m.
      destruct (Z.ltb_spec 1 y) as [Hyy|Hyy]; [|discriminate].
      intros [= <-]. simpl.
      pose proof (days_before_year_succ (y - 1)) as Hs'.
      replace (y - 1 + 1) with y in Hs' by lia.
      pose proof (days_before_december (y - 1)) as Hdec.
      assert (Hjan : days_before_month y 1 = 0) by reflexivity.
      assert (Hdim : Fecha.days_in_month (y - 1) 12 = 31) by reflexivity.
      destruct (Fecha.is_leap (y - 1)); repeat split; lia.
Qed.

Lemma minus_one_day_defined d :
  Fecha.valid d -> ~ (Fecha.year d = 1 /\ Fecha.month d = 1 /\ Fecha.day d = 1) ->
  exists d', Fecha.minus_one_day d = Some d'.
Proof.
  destruct d as [y m dd h mi s]. unfold Fecha.valid, Fecha.minus_one_day. simpl.
  intros (Hy & Hm & Hd & _) Hne.
  destruct (Z.ltb_spec 1 dd); [eauto|].
  destruct (Z.ltb_spec 1 m); [eauto|].
  destruct (Z.ltb_spec 1 y); [eauto|]. lia.
Qed.

(** On the first of a month, the day before is in the previous month. *)
Lemma minus_one_day_first d d' :
  Fecha.day d = 1 -> 1 <= Fecha.month d -> Fecha.minus_one_day d = Some d' ->
  (Fecha.year d', Fecha.month d') = previous_month (Fecha.year d) (Fecha.month d).
Proof.
  destruct d as [y m dd h mi s]. unfold Fecha.minus_one_day, previous_month. simpl.
  intros -> Hm. simpl.
  destruct (Z.ltb_spec 1 m).
  - intros [= <-]. simpl. destruct (Z.eqb_spec m 1); [lia | reflexivity].
  - destruct (Z.ltb_spec 1 y); [|discriminate].
    intros [= <-]. simpl. destruct (Z.eqb_spec m 1); [reflexivity | lia].
Qed.

(** The month is written on two digits. *)
Lemma str02_month m : 1 <= m <= 12 ->
  Fecha.str02 m = (if m <? 10 then ("0" ++ Fecha.str m)%string else Fecha.str m)
  /\ String.length (Fecha.str02 m) = 2%nat.
Proof.
  intros Hm.
  assert (m = 1 \/ m = 2 \/ m = 3 \/ m = 4 \/ m = 5 \/ m = 6 \/ m = 7 \/ m = 8 \/
          m = 9 \/ m = 10 \/ m = 11 \/ m = 12) as Hc by lia.
  repeat (destruct Hc as [-> | Hc]; [split; reflexivity|]).
  subst m. split; reflexivity.
Qed.

(* --------------------------------------------------------------------- *)
(** ** The night-shift rule of the date sorter                             *)
(* --------------------------------------------------------------------- *)

Lemma ajustar_night d :
  night_shift d ->
  DateSort.ajustar_mes_por_horario_especial d =
    match Fecha.minus_one_day d with
    | Some d' => Ok d'
    | None => Raise OverflowError
    end.
Proof.
  intros [Hd Hh]. unfold DateSort.ajustar_mes_por_horario_especial.
  rewrite Hd. destruct (Z.ltb_spec (Fecha.hour d) 8); [reflexivity | lia].
Qed.

Lemma ajustar_day d :
  ~ night_shift d -> DateSort.ajustar_mes_por_horario_especial d = Ok d.
Proof.
  intros Hn. unfold DateSort.ajustar_mes_por_horario_especial, night_shift in *.
  destruct (Z.eqb_spec (Fecha.day d) 1); destruct (Z.ltb_spec (Fecha.hour d) 8);
    simpl; try reflexivity.
  exfalso. apply Hn. split; assumption.
Qed.

(** The night-shift rule, where the code keeps it. For a capture date on
    the first of a month before 08:00, other than in January of the year
    1, the month folder is that of the date minus one day, which is the
    previous month; for any other date it is that of the date itself; the
    folder is named by the year as [str] writes it, a dot, and the month
    on two digits. *)
Theorem night_shift_rule (fecha : Fecha.datetime) :
  Fecha.valid fecha ->
  (night_shift fecha ->
     DateSort.ajustar_mes_por_horario_especial fecha =
       match Fecha.minus_one_day fecha with
       | Some d => Ok d
       | None => Raise OverflowError
       end) /\
  (night_shift fecha -> ~ (Fecha.year fecha = 1 /\ Fecha.month fecha = 1) ->
     exists d,
       DateSort.ajustar_mes_por_horario_especial fecha = Ok d /\
       Fecha.valid d /\ toordinal d = toordinal fecha - 1 /\
       (Fecha.year d, Fecha.month d) =
         previous_month (Fecha.year fecha) (Fecha.month fecha) /\
       DateSort.generar_nombre_carpeta d =
         (Fecha.str (fst (previous_month (Fecha.year fecha) (Fecha.month fecha)))
          ++ "." ++
          Fecha.str02 (snd (previous_month (Fecha.year fecha) (Fecha.month fecha))))%string) /\
  (~ night_shift fecha ->
     DateSort.ajustar_mes_por_horario_especial fecha = Ok fecha) /\
  DateSort.generar_nombre_carpeta fecha =
    (Fecha.str (Fecha.year fecha) ++ "." ++
     (if (Fecha.month fecha <? 10)%Z then "0" ++ Fecha.str (Fecha.month fecha)
      else Fecha.str (Fecha.month fecha)))%string.
Proof.
  intros Hv. split; [apply ajustar_night|]. split; [|split; [apply ajustar_day|]].
  - intros Hn Hmin.
    destruct (minus_one_day_defined fecha Hv) as [d Hd]; [tauto|].
    exists d. rewrite (ajustar_night _ Hn), Hd.
    destruct (minus_one_day_spec _ _ Hv Hd) as (Hvd & Hord & _).
    assert (Hprev := minus_one_day_first fecha d (proj1 Hn)
                       ltac:(destruct Hv as (_ & ? & _); lia) Hd).
    split; [reflexivity|]. split; [exact Hvd|]. split; [exact Hord|].
    split; [exact Hprev|].
    unfold DateSort.generar_nombre_carpeta. rewrite <- Hprev. reflexivity.
  - unfold DateSort.generar_nombre_carpeta.
    destruct Hv as (_ & Hm & _). rewrite (proj1 (str02_month _ Hm)). reflexivity.
Qed.

Lemma night_shift_rule_witness :
  DateSort.ajustar_mes_por_horario_especial (Fecha.DT 2024 3 1 7 59 59)
    = Ok (Fecha.DT 2024 2 29 7 59 59) /\
  DateSort.generar_nombre_carpeta (Fecha.DT 2024 2 29 7 59 59) = "2024.02"%string /\
  DateSort.ajustar_mes_por_horario_especial (Fecha.DT 2024 3 1 8 0 0)
    = Ok (Fecha.DT 2024 3 1 8 0 0).
Proof.
  assert (Hv : Fecha.valid (Fecha.DT 2024 3 1 7 59 59))
    by (repeat split; vm_compute; (reflexivity || discriminate)).
  assert (Hn : night_shift (Fecha.DT 2024 3 1 7 59 59))
    by (split; vm_compute; reflexivity).
  pose proof (night_shift_rule (Fecha.DT 2024 3 1 7 59 59) Hv) as (H1 & _ & _ & _).
  split; [exact (H1 Hn) | split; reflexivity].
Defined.

Example new_year_night :
  DateSort.ajustar_mes_por_horario_especial (Fecha.DT 2024 1 1 3 0 0)
    = Ok (Fecha.DT 2023 12 31 3 0 0)
  /\ DateSort.generar_nombre_carpeta (Fecha.DT 2023 12 31 3 0 0) = "2023.12"%string.
Proof. split; reflexivity. Qed.

(** C9, at the failing inputs. The folder of a date before the year 1000
    is not named [YYYY.MM]: the year is written without padding, so the
    name has fewer than four digits before the dot and the pattern of
    [es_carpeta_yyyy_mm] rejects it; this holds of the date itself and of
    the date the night-shift rule shifts to. On the first of January of
    the year 1 before 08:00 there is no day before, the subtraction
    raises [OverflowError] and no folder is computed. *)
Theorem early_years_break_the_folder_name :
  DateSort.ajustar_mes_por_horario_especial (Fecha.DT 987 2 14 10 0 0)
    = Ok (Fecha.DT 987 2 14 10 0 0) /\
  DateSort.generar_nombre_carpeta (Fecha.DT 987 2 14 10 0 0) = "987.02"%string /\
  es_carpeta_yyyy_mm (DateSort.generar_nombre_carpeta (Fecha.DT 987 2 14 10 0 0)) = false /\
  DateSort.ajustar_mes_por_horario_especial (Fecha.DT 987 3 1 7 0 0)
    = Ok (Fecha.DT 987 2 28 7 0 0) /\
  DateSort.generar_nombre_carpeta (Fecha.DT 987 2 28 7 0 0) = "987.02"%string /\
  DateSort.ajustar_mes_por_horario_especial (Fecha.DT 1 1 1 7 0 0) = Raise OverflowError.
Proof. repeat split; vm_compute; reflexivity. Qed.

(* --------------------------------------------------------------------- *)
(** ** The capture date                                                    *)
(* --------------------------------------------------------------------- *)

(** [obtener_fecha_captura] always answers, from the first source that has
    a date: EXIF, creation time, modification time, the clock. *)
Lemma obtener_fecha_captura_sources env t p tr :
  let fecha := fst (DateSort.obtener_fecha_captura env t p tr) in
  match fst (DateSort.leer_fecha_con_exiftool t p tr) with
  | Some d => fecha = d
  | None =>
      match DateSort.stat_ctime t p with
      | Some c => fecha = c
      | None =>
          match DateSort.stat_mtime t p with
          | Some m => fecha = m
          | None => fecha = FS.ahora env
          end
      end
  end.
Proof.
  unfold DateSort.obtener_fecha_captura.
  destruct (DateSort.leer_fecha_con_exiftool t p tr) as [[d|] tr']; simpl; [reflexivity|].
  destruct (DateSort.stat_ctime t p); simpl; [reflexivity|].
  destruct (DateSort.stat_mtime t p); reflexivity.
Qed.

(** The EXIF date comes from [DateTimeOriginal] when that tag is present,
    and otherwise from [CreateDate], or [SubSecDateTimeOriginal] when
    [CreateDate] is missing too. *)
Lemma leer_fecha_con_exiftool_tags t p tr f dto cd ss :
  FS.find t p = Some (FS.File f) ->
  FS.exif_fechas f = FS.Metadatos dto cd ss ->
  fst (DateSort.leer_fecha_con_exiftool t p tr) =
    match (match dto with
           | FS.Ausente => match cd with FS.Ausente => ss | _ => cd end
           | _ => dto
           end) with
    | FS.FechaExif d => Some d
    | _ => None
    end.
Proof.
  intros Hf He. unfold DateSort.leer_fecha_con_exiftool, DateSort.exiftool.
  rewrite Hf, He. destruct dto; destruct cd; destruct ss; reflexivity.
Qed.

(** C10, at the failing input. A photo whose EXIF capture date is
    0001-01-01 00:00:00 gets that date from the lookup, the night-shift
    adjustment then raises [OverflowError], the loop is left through that
    exception, and the photo is in no month folder: it is where it was,
    and the report and the duplicate list are empty. *)
Theorem fecha_minima_not_filed (env : FS.entorno) :
  fst (DateSort.obtener_fecha_captura env arbol_fecha_minima
         ["CAMARAS"; "EOS"; "a.jpg"]%string traza_vacia) = fecha_minima /\
  DateSort.ajustar_mes_por_horario_especial fecha_minima = Raise OverflowError /\
  snd (DateSort.run env arbol_fecha_minima ["EOS"%string]) = Some OverflowError /\
  DateSort.arbol (fst (DateSort.run env arbol_fecha_minima ["EOS"%string]))
    = arbol_fecha_minima /\
  DateSort.folders_report (fst (DateSort.run env arbol_fecha_minima ["EOS"%string])) = [] /\
  DateSort.duplicates (fst (DateSort.run env arbol_fecha_minima ["EOS"%string])) = [].
Proof. repeat split; reflexivity. Qed.

(* --------------------------------------------------------------------- *)
(** ** Facts about the file tree                                           *)
(* --------------------------------------------------------------------- *)

Section TreeFacts.
Import FS.
Implicit Types (t : fs) (p q d : path) (n : node).

Lemma find_put t p n q :
  find (put t p n) q = if decide (p = q) then Some n else find t q.
Proof. apply dget_dset. Qed.

Lemma find_remove t p q :
  find (remove t p) q = if decide (p = q) then None else find t q.
Proof. apply dget_ddel. Qed.

Lemma find_app t t' q :
  find (t ++ t') q = match find t q with Some n => Some n | None => find t' q end.
Proof. apply dget_app. Qed.

Lemma find_dir_entries ds q :
  find (dir_entries ds) q = if decide (q ∈ ds) then Some Dir else None.
Proof.
  unfold find, dir_entries.
  induction ds as [|d ds IH]; cbn [map dget fst].
  - destruct (decide (q ∈ [])) as [H|H]; [inversion H | reflexivity].
  - rewrite IH.
    destruct (decide (d = q)) as [->|Hne].
    + destruct (decide (q ∈ q :: ds)) as [H|H]; [reflexivity|].
      exfalso. apply H. left.
    + destruct (decide (q ∈ ds)) as [H|H];
        destruct (decide (q ∈ d :: ds)) as [H'|H']; try reflexivity; exfalso.
      * apply H'. right. exact H.
      * apply elem_of_cons in H'. destruct H' as [->|H']; [congruence | tauto].
Qed.

Lemma find_app_dirs t ds q :
  find (t ++ dir_entries ds) q =
    match find t q with
    | Some n => Some n
    | None => if decide (q ∈ ds) then Some Dir else None
    end.
Proof. rewrite find_app, find_dir_entries. reflexivity. Qed.

Lemma find_app_dirs_file t ds q f :
  find (t ++ dir_entries ds) q = Some (File f) <-> find t q = Some (File f).
Proof.
  rewrite find_app_dirs. destruct (find t q); [tauto|].
  case_decide; split; discriminate.
Qed.

Lemma find_In t p n : find t p = Some n -> In (p, n) t.
Proof. apply dget_Some_In. Qed.

Lemma In_find t p n : wf t -> In (p, n) t -> find t p = Some n.
Proof.
  unfold wf, find. induction t as [|[q m] t IH]; cbn [map dget fst In]; [tauto|].
  intros Hnd [Heq|Hin].
  - inversion Heq; subst. case_decide; congruence.
  - apply NoDup_cons in Hnd as [Hnotin Hnd'].
    case_decide.
    + subst q. exfalso. apply Hnotin, list_elem_of_In.
      apply (in_map fst) in Hin. exact Hin.
    + auto.
Qed.

Lemma In_keys_find t p : In p (map fst t) -> exists n, find t p = Some n.
Proof.
  unfold find. induction t as [|[q m] t IH]; cbn [map dget fst In]; [tauto|].
  intros [Heq|Hin]; case_decide; eauto; congruence.
Qed.

Lemma find_None_keys t p : find t p = None -> ~ In p (map fst t).
Proof.
  intros Hf Hin. destruct (In_keys_find _ _ Hin) as [n Hn]. congruence.
Qed.

Lemma keys_dset (t : fs) p n x :
  In x (map fst (dset t p n)) <-> x = p \/ In x (map fst t).
Proof.
  induction t as [|[q m] t IH]; cbn [dset map fst In].
  - split; intros [H|H]; auto; tauto.
  - case_decide; cbn [map fst In]; [subst q|rewrite IH]; intuition congruence.
Qed.

Lemma wf_put t p n : wf t -> wf (put t p n).
Proof.
  unfold wf, put. induction t as [|[q m] t IH]; cbn [dset map fst]; intros Hnd.
  - apply NoDup_cons. split; [intros H; inversion H | constructor].
  - apply NoDup_cons in Hnd as [Hnotin Hnd'].
    case_decide; cbn [map fst]; apply NoDup_cons.
    + subst q. split; assumption.
    + split; [|auto]. rewrite list_elem_of_In, keys_dset, <- list_elem_of_In.
      intros [Hx|Hx]; [congruence | tauto].
Qed.

Lemma keys_ddel (t : fs) p x :
  In x (map fst (ddel t p)) <-> x <> p /\ In x (map fst t).
Proof.
  induction t as [|[q m] t IH]; cbn [ddel map fst In].
  - tauto.
  - case_decide; cbn [map fst In]; [subst q|]; rewrite IH; intuition congruence.
Qed.

Lemma wf_remove t p : wf t -> wf (remove t p).
Proof.
  unfold wf, remove. induction t as [|[q m] t IH]; cbn [ddel map fst]; intros Hnd;
    [constructor|].
  apply NoDup_cons in Hnd as [Hnotin Hnd'].
  case_decide; cbn [map fst]; [auto|].
  apply NoDup_cons. split; [|auto].
  rewrite list_elem_of_In, keys_ddel, <- list_elem_of_In. tauto.
Qed.

Lemma wf_app_new t p n : wf t -> find t p = None -> wf (t ++ [(p, n)]).
Proof.
  intros Hwf Hf. rewrite <- (dset_fresh t p n Hf). apply (wf_put t p n Hwf).
Qed.

(** Existence tests through [find]. *)
Lemma exists_true t p : os_path_exists t p = true <-> exists n, find t p = Some n.
Proof.
  unfold os_path_exists. destruct (find t p); split; eauto; try discriminate.
  intros [n Hn]. discriminate.
Qed.

Lemma exists_false t p : os_path_exists t p = false <-> find t p = None.
Proof. unfold os_path_exists. destruct (find t p); split; congruence. Qed.

Lemma isdir_true t p : os_path_isdir t p = true <-> find t p = Some Dir.
Proof.
  unfold os_path_isdir. destruct (find t p) as [[f|]|]; split; congruence.
Qed.

Lemma isfile_true t p : os_path_isfile t p = true <-> exists f, find t p = Some (File f).
Proof.
  unfold os_path_isfile. destruct (find t p) as [[f|]|]; split; eauto;
    try discriminate; intros [f' Hf']; discriminate.
Qed.

(** [os.mkdir] either appends one directory entry or changes nothing. *)
Lemma os_mkdir_Ok env t p t' :
  os_mkdir env t p = Ok t' ->
  t' = t ++ dir_entries [p] /\ find t p = None /\ mkdir_fails env p = false /\
  parent_is_dir t p = true.
Proof.
  unfold os_mkdir. destruct (os_path_exists t p) eqn:He; [discriminate|].
  destruct (parent_is_dir t p); [|discriminate]. simpl.
  destruct (mkdir_fails env p); [discriminate|].
  intros [= <-]. apply exists_false in He. auto.
Qed.

Lemma os_mkdir_refused env t p :
  mkdir_fails env p = true -> exists e, os_mkdir env t p = Raise e.
Proof.
  intros H. unfold os_mkdir.
  destruct (os_path_exists t p); [eauto|].
  destruct (parent_is_dir t p); simpl; [|eauto]. rewrite H. eauto.
Qed.

(** [os.makedirs] only ever appends directory entries at free paths. *)
Lemma makedirs_rev_grows env rp : forall t,
  exists ds, fst (makedirs_rev env t rp) = t ++ dir_entries ds /\
             (forall d, d ∈ ds -> find t d = None).
Proof.
  assert (Hnil : forall t, exists ds, t = t ++ dir_entries ds /\
                             (forall d, d ∈ ds -> find t d = None)).
  { intros t. exists []. simpl. rewrite app_nil_r.
    split; [reflexivity | intros d Hd; inversion Hd]. }
  induction rp as [|x rhead IH]; intros t.
  - apply Hnil.
  - cbn [makedirs_rev].
    set (parents := match rhead with
                    | [] => (t, None)
                    | _ :: _ => _
                    end).
    assert (Hpar : exists ds, fst parents = t ++ dir_entries ds /\
                              (forall d, d ∈ ds -> find t d = None)).
    { subst parents. destruct rhead as [|y rh].
      - apply Hnil.
      - destruct (os_path_exists t (rev (y :: rh))).
        + apply Hnil.
        + destruct (IH t) as (ds & Hds & Hfree).
          exists ds. split; [|exact Hfree]. rewrite <- Hds.
          destruct (makedirs_rev env t (y :: rh)) as [t1 [e|]]; [|reflexivity].
          destruct (is_exc "FileExistsError" e); reflexivity. }
    destruct Hpar as (ds & Hds & Hfree).
    destruct parents as [t1 [e|]]; simpl in Hds; subst t1.
    + exists ds. auto.
    + destruct (os_mkdir env (t ++ dir_entries ds) (rev (x :: rhead))) as [t2|e] eqn:Hmk.
      * apply os_mkdir_Ok in Hmk. destruct Hmk as (-> & Hnone & _).
        exists (ds ++ [rev (x :: rhead)]). split.
        -- cbn [fst]. unfold dir_entries. rewrite map_app, app_assoc. reflexivity.
        -- intros d [Hd|Hd]%elem_of_app; [auto|].
           apply list_elem_of_singleton in Hd. subst d.
           rewrite find_app_dirs in Hnone.
           destruct (find t (rev (x :: rhead))); [discriminate | reflexivity].
      * exists ds. destruct (os_path_isdir _ _); auto.
Qed.

Lemma os_makedirs_grows env t p t' e :
  os_makedirs env t p = (t', e) ->
  exists ds, t' = t ++ dir_entries ds /\ (forall d, d ∈ ds -> find t d = None).
Proof.
  intros H. destruct (makedirs_rev_grows env (rev p) t) as (ds & Hds & Hfree).
  unfold os_makedirs in H. rewrite H in Hds. eauto.
Qed.

(** For a folder directly inside an existing directory, [os.makedirs]
    is one [os.mkdir], forgiven when the folder is already there. *)
Lemma os_makedirs_child env t a b :
  os_path_exists t [a] = true ->
  os_makedirs env t [a; b] =
    match os_mkdir env t [a; b] with
    | Ok t2 => (t2, None)
    | Raise e => if os_path_isdir t [a; b] then (t, None) else (t, Some e)
    end.
Proof.
  intros He. unfold os_makedirs. simpl. rewrite He. reflexivity.
Qed.

(** After a successful [os.makedirs] of such a folder it is a directory,
    and at most that one entry was appended. *)
Lemma os_makedirs_child_ok env t a b t' :
  os_path_exists t [a] = true ->
  os_makedirs env t [a; b] = (t', None) ->
  find t' [a; b] = Some Dir /\
  (t' = t \/ (t' = t ++ dir_entries [[a; b]] /\ find t [a; b] = None)).
Proof.
  intros He. rewrite (os_makedirs_child env t a b He).
  destruct (os_mkdir env t [a; b]) as [t2|e] eqn:Hmk.
  - intros [= <-]. apply os_mkdir_Ok in Hmk. destruct Hmk as (-> & Hnone & _).
    split; [|right; auto].
    rewrite find_app_dirs, Hnone. case_decide as Hin; [reflexivity|].
    exfalso. apply Hin. left.
  - destruct (os_path_isdir t [a; b]) eqn:Hd; [|discriminate].
    intros [= <-]. split; [apply isdir_true; exact Hd | left; reflexivity].
Qed.

(** A successful [shutil.move]. *)
Lemma shutil_move_Ok env t src dst t' :
  shutil_move env t src dst = Ok t' ->
  exists f,
    find t src = Some (File f) /\
    t' = put (remove t src) (real_dst t src dst) (File f) /\
    move_fails env src (real_dst t src dst) = false /\
    parent_is_dir t (real_dst t src dst) = true /\
    (os_path_isdir t dst = true -> find t (real_dst t src dst) = None).
Proof.
  unfold shutil_move.
  destruct (os_path_isdir t dst && os_path_exists t (real_dst t src dst)) eqn:Hc;
    [discriminate|].
  destruct (find t src) as [[f|]|]; try discriminate.
  destruct (parent_is_dir t (real_dst t src dst)); [|discriminate]. simpl.
  destruct (move_fails env src (real_dst t src dst)); [discriminate|].
  intros [= <-]. exists f. repeat split; try reflexivity.
  intros Hd. rewrite Hd in Hc. simpl in Hc. apply exists_false. exact Hc.
Qed.

Lemma find_moved t src rd f q :
  find (put (remove t src) rd (File f)) q =
    if decide (rd = q) then Some (File f)
    else if decide (src = q) then None else find t q.
Proof. rewrite find_put, find_remove. reflexivity. Qed.

Lemma wf_moved t src rd f : wf t -> wf (put (remove t src) rd (File f)).
Proof. intros H. apply wf_put, wf_remove, H. Qed.

Lemma wf_app_dirs_one t d : wf t -> find t d = None -> wf (t ++ dir_entries [d]).
Proof. intros. apply wf_app_new; assumption. Qed.

Lemma read_bytes_find t t' p :
  find t p = find t' p -> read_bytes t p = read_bytes t' p.
Proof. unfold read_bytes. intros ->. reflexivity. Qed.

End TreeFacts.

Lemma fingerprint_find t t' p :
  FS.find t p = FS.find t' p -> fingerprint t p = fingerprint t' p.
Proof.
  intros H. unfold fingerprint, Hashing.sha256_of_file, Hashing.sha256_of_file_sized.
  rewrite (read_bytes_find t t' p H). reflexivity.
Qed.

Lemma sha256_of_file_fst t p tr :
  fst (Hashing.sha256_of_file t p tr) = fingerprint t p.
Proof.
  unfold fingerprint, Hashing.sha256_of_file, Hashing.sha256_of_file_sized.
  destruct (FS.read_bytes t p); reflexivity.
Qed.

Lemma fingerprint_None t p : fingerprint t p = None <-> FS.read_bytes t p = None.
Proof.
  unfold fingerprint, Hashing.sha256_of_file, Hashing.sha256_of_file_sized.
  destruct (FS.read_bytes t p); simpl; split; congruence.
Qed.

(* --------------------------------------------------------------------- *)
(** ** The date sorter, one file at a time                                 *)
(* --------------------------------------------------------------------- *)

(** Every turn of the inner loop ends in one of the ways of
    [DateStep.step]. *)
Lemma procesar_item_step env cam s item s' e :
  DateSort.procesar_item env cam s item = (s', e) ->
  DateStep.step env cam s item s' e.
Proof.
  unfold DateSort.procesar_item.
  destruct (FS.os_path_isdir (DateSort.arbol s) (FS.os_path_join cam item)) eqn:Hdir.
  { intros [= <- <-]. apply DateStep.st_skipped. unfold DateStep.candidate. rewrite Hdir. reflexivity. }
  destruct (in_strings (lower (snd (os_path_splitext item))) DateSort.PHOTO_EXTENSIONS)
    eqn:Hext; cbn [negb].
  2:{ intros [= <- <-]. apply DateStep.st_skipped. unfold DateStep.candidate. rewrite Hdir, Hext. reflexivity. }
  assert (Hcand : DateStep.candidate (DateSort.arbol s) cam item = true).
  { unfold DateStep.candidate. rewrite Hdir, Hext. reflexivity. }
  destruct (DateSort.obtener_fecha_captura env (DateSort.arbol s)
              (FS.os_path_join cam item) (DateSort.tz s)) as [fecha tr] eqn:Hfecha.
  destruct (DateSort.ajustar_mes_por_horario_especial fecha) as [fecha'|ex] eqn:Haj.
  2:{ intros [= <- <-]. eapply DateStep.st_overflow; eassumption. }
  cbn [DateSort.arbol DateSort.con_traza].
  destruct (FS.os_path_exists (DateSort.arbol s)
              (FS.os_path_join cam (DateSort.generar_nombre_carpeta fecha'))) eqn:Hex;
    cbn [negb].
  - (* the folder exists *)
    pose proof (DateStep.fr_exists env (DateSort.con_traza tr s)
                  (FS.os_path_join cam (DateSort.generar_nombre_carpeta fecha')) Hex) as Hready.
    cbn [DateSort.arbol DateSort.con_traza] in *.
    destruct (FS.os_path_exists (DateSort.arbol s)
                (FS.os_path_join (FS.os_path_join cam (DateSort.generar_nombre_carpeta fecha')) item))
      eqn:Hnu.
    + intros [= <- <-]. eapply DateStep.st_duplicate; eauto.
    + destruct (FS.os_path_getsize (DateSort.arbol s) (FS.os_path_join cam item))
        as [size|ex] eqn:Hsize.
      * destruct (FS.shutil_move env (DateSort.arbol s) (FS.os_path_join cam item)
                    (FS.os_path_join (FS.os_path_join cam (DateSort.generar_nombre_carpeta fecha')) item))
          as [t2|ex] eqn:Hmove.
        -- intros [= <- <-]. eapply (DateStep.st_moved env cam s item fecha tr fecha'
                     (DateSort.con_traza tr s)); eauto.
        -- intros [= <- <-]. eapply (DateStep.st_move_failed env cam s item fecha tr fecha'
                     (DateSort.con_traza tr s)); eauto.
      * intros [= <- <-]. eapply (DateStep.st_size_failed env cam s item fecha tr fecha'
                  (DateSort.con_traza tr s)); eauto.
  - (* the folder has to be made *)
    destruct (FS.os_mkdir env (DateSort.arbol s)
                (FS.os_path_join cam (DateSort.generar_nombre_carpeta fecha')))
      as [t1|ex] eqn:Hmk.
    2:{ intros [= <- <-]. eapply DateStep.st_no_folder; eauto. }
    pose proof (DateStep.fr_created env (DateSort.con_traza tr s)
                  (FS.os_path_join cam (DateSort.generar_nombre_carpeta fecha')) t1 Hex Hmk)
      as Hready.
    set (s1 := DateSort.registrar INFO _ _) in *.
    destruct (FS.os_path_exists (DateSort.arbol s1)
                (FS.os_path_join (FS.os_path_join cam (DateSort.generar_nombre_carpeta fecha')) item))
      eqn:Hnu.
    + intros [= <- <-]. eapply DateStep.st_duplicate; eauto.
    + destruct (FS.os_path_getsize (DateSort.arbol s1) (FS.os_path_join cam item))
        as [size|ex] eqn:Hsize.
      * destruct (FS.shutil_move env (DateSort.arbol s1) (FS.os_path_join cam item)
                    (FS.os_path_join (FS.os_path_join cam (DateSort.generar_nombre_carpeta fecha')) item))
          as [t2|ex] eqn:Hmove.
        -- intros [= <- <-]. eapply (DateStep.st_moved env cam s item fecha tr fecha' s1); eauto.
        -- intros [= <- <-]. eapply (DateStep.st_move_failed env cam s item fecha tr fecha' s1); eauto.
      * intros [= <- <-]. eapply (DateStep.st_size_failed env cam s item fecha tr fecha' s1); eauto.
Qed.

Lemma candidate_true t cam item :
  DateStep.candidate t cam item = true ->
  FS.os_path_isdir t (FS.os_path_join cam item) = false /\
  in_strings (lower (snd (os_path_splitext item))) DateSort.PHOTO_EXTENSIONS = true.
Proof.
  unfold DateStep.candidate. intros [H1 H2]%andb_prop.
  apply negb_true_iff in H1. auto.
Qed.

(* --------------------------------------------------------------------- *)
(** ** A name already taken at the destination                             *)
(* --------------------------------------------------------------------- *)

(** C4, as amended. When the month folder already has an entry with the
    name of the photo, the date sorter compares nothing: whatever the
    bytes of the two files, the photo is recorded in [duplicates] with a
    warning, nothing moves, and the tree (so both files) stays as it is. *)
Theorem name_collision_recorded_as_duplicate :
  forall env cam s item fecha tr fecha',
    DateStep.candidate (DateSort.arbol s) cam item = true ->
    DateSort.obtener_fecha_captura env (DateSort.arbol s) (FS.os_path_join cam item)
      (DateSort.tz s) = (fecha, tr) ->
    DateSort.ajustar_mes_por_horario_especial fecha = Ok fecha' ->
    let d := FS.os_path_join cam (DateSort.generar_nombre_carpeta fecha') in
    FS.os_path_exists (DateSort.arbol s) d = true ->
    FS.os_path_exists (DateSort.arbol s) (FS.os_path_join d item) = true ->
    exists s',
      DateSort.procesar_item env cam s item = (s', None) /\
      DateSort.arbol s' = DateSort.arbol s /\
      DateSort.duplicates s' = DateSort.duplicates s ++ [FS.os_path_join cam item] /\
      DateSort.folders_report s' = DateSort.folders_report s /\
      log (DateSort.tz s') =
        log tr ++ [(WARNING, EvDuplicadoDetectado (FS.os_path_join cam item) d)].
Proof.
  intros env cam s item fecha tr fecha' Hcand Hfecha Haj d Hd Hnu.
  apply candidate_true in Hcand. destruct Hcand as [Hdir Hext].
  unfold DateSort.procesar_item. rewrite Hdir, Hext. cbn [negb].
  rewrite Hfecha, Haj. cbn [DateSort.arbol DateSort.con_traza].
  fold d. rewrite Hd. cbn [negb]. cbn [DateSort.arbol DateSort.con_traza].
  rewrite Hnu. eexists. split; [reflexivity|]. repeat split; reflexivity.
Qed.

Lemma name_collision_recorded_as_duplicate_witness :
  exists s',
    DateSort.procesar_item entorno_ok ["CAMARAS"; "EOS"]%string
      (DateSort.inicial (arbol_colision "hash Y")) "IMG_1.JPG" = (s', None) /\
    DateSort.arbol s' = arbol_colision "hash Y" /\
    DateSort.duplicates s' = [] ++ [["CAMARAS"; "EOS"; "IMG_1.JPG"]%string] /\
    DateSort.folders_report s' = [] /\
    log (DateSort.tz s') =
      [] ++ [(WARNING, EvDuplicadoDetectado ["CAMARAS"; "EOS"; "IMG_1.JPG"]%string
                         ["CAMARAS"; "EOS"; "2024.05"]%string)].
Proof.
  apply (name_collision_recorded_as_duplicate entorno_ok ["CAMARAS"; "EOS"]%string
           (DateSort.inicial (arbol_colision "hash Y")) "IMG_1.JPG"
           (Fecha.DT 2024 5 10 12 0 0) traza_vacia (Fecha.DT 2024 5 10 12 0 0));
    reflexivity.
Defined.

(** C4, as the specification words it, fails: a same-named file with other
    bytes at the destination is not flagged apart from a duplicate. The run
    records the photo in [duplicates] and logs the very same lines as when
    the bytes are equal. *)
Lemma name_collision_not_told_apart :
  let src := ["CAMARAS"; "EOS"; "IMG_1.JPG"]%string in
  let dst := ["CAMARAS"; "EOS"; "2024.05"; "IMG_1.JPG"]%string in
  let distinta := DateSort.run entorno_ok (arbol_colision "hash Y") ["EOS"%string] in
  let igual := DateSort.run entorno_ok (arbol_colision "hash X") ["EOS"%string] in
  fingerprint (arbol_colision "hash Y") src <> fingerprint (arbol_colision "hash Y") dst /\
  fingerprint (arbol_colision "hash X") src = fingerprint (arbol_colision "hash X") dst /\
  DateSort.duplicates (fst distinta) = [src] /\
  DateSort.duplicates (fst igual) = [src] /\
  log (DateSort.tz (fst distinta)) = log (DateSort.tz (fst igual)) /\
  In (WARNING, EvDuplicadoDetectado src ["CAMARAS"; "EOS"; "2024.05"]%string)
     (log (DateSort.tz (fst distinta))) /\
  DateSort.arbol (fst distinta) = arbol_colision "hash Y".
Proof.
  cbv zeta. split; [vm_compute; discriminate|].
  split; [vm_compute; reflexivity|].
  split; [vm_compute; reflexivity|].
  split; [vm_compute; reflexivity|].
  split; [vm_compute; reflexivity|].
  split; [vm_compute; tauto | vm_compute; reflexivity].
Qed.

(* --------------------------------------------------------------------- *)
(** ** The model sorter, one file at a time                                *)
(* --------------------------------------------------------------------- *)

Lemma any_hash_eq_true t h files : forall tr,
  fst (any_hash_eq t h files tr) = true <->
  exists q, In q files /\ fingerprint t q = Some h.
Proof.
  induction files as [|p files IH]; intros tr; cbn [any_hash_eq].
  - simpl. split; [discriminate | intros (q & [] & _)].
  - pose proof (sha256_of_file_fst t p tr) as Hfst.
    destruct (Hashing.sha256_of_file t p tr) as [d tr1]. cbn [fst] in Hfst. subst d.
    case_decide as Hd.
    + simpl. split; [intros _; exists p; split; [left; reflexivity | exact Hd] | reflexivity].
    + rewrite IH. split.
      * intros (q & Hq & Hh). exists q. split; [right; exact Hq | exact Hh].
      * intros (q & [<-|Hq] & Hh); [contradiction | eauto].
Qed.

(** [any_hash_eq] hashes files and logs; the paths it was handed are
    recorded after those already hashed. *)
Lemma any_hash_eq_hashed t h files : forall tr,
  exists more, hashed (snd (any_hash_eq t h files tr)) = hashed tr ++ more /\
               incl more files.
Proof.
  induction files as [|p files IH]; intros tr; cbn [any_hash_eq].
  - exists []. simpl. rewrite app_nil_r. split; [reflexivity | apply incl_nil_l].
  - assert (Hh : hashed (snd (Hashing.sha256_of_file t p tr)) = hashed tr ++ [p]).
    { unfold Hashing.sha256_of_file, Hashing.sha256_of_file_sized.
      destruct (FS.read_bytes t p); reflexivity. }
    destruct (Hashing.sha256_of_file t p tr) as [d tr1]. cbn [snd] in Hh.
    case_decide.
    + exists [p]. cbn [snd]. split; [exact Hh|].
      intros x [<-|[]]. left. reflexivity.
    + destruct (IH tr1) as (more & Hm & Hincl). exists (p :: more). split.
      * rewrite Hm, Hh, <- app_assoc. reflexivity.
      * intros x [<-|Hx]; [left; reflexivity | right; auto].
Qed.

Lemma get_camera_model_state p s m s1 :
  ModelSort.get_camera_model p s = (m, s1) ->
  ModelSort.arbol s1 = ModelSort.arbol s /\ ModelSort.unmapped s1 = ModelSort.unmapped s /\
  ModelSort.duplicates s1 = ModelSort.duplicates s /\ ModelSort.moved s1 = ModelSort.moved s /\
  hashed (ModelSort.tz s1) = hashed (ModelSort.tz s) /\
  incl (log (ModelSort.tz s)) (log (ModelSort.tz s1)).
Proof.
  unfold ModelSort.get_camera_model.
  destruct (match FS.find (ModelSort.arbol s) p with
            | Some (FS.File f) => _
            | _ => None
            end); intros [= <- <-]; simpl; repeat split; try reflexivity.
  - apply incl_refl.
  - apply incl_appl, incl_refl.
Qed.

(** The tag [get_camera_model] returns is the one stored with the file. *)
Lemma get_camera_model_Some p s m s1 :
  ModelSort.get_camera_model p s = (Some m, s1) ->
  s1 = s /\ exists f, FS.find (ModelSort.arbol s) p = Some (FS.File f) /\
                      FS.exif_model f = Some m /\ m <> EmptyString.
Proof.
  unfold ModelSort.get_camera_model.
  destruct (FS.find (ModelSort.arbol s) p) as [[f|]|]; try discriminate.
  destruct (FS.exif_model f) as [m'|] eqn:Hm; try discriminate.
  destruct (String.eqb_spec m' EmptyString); try discriminate.
  intros [= <- <-]. split; [reflexivity|]. exists f. auto.
Qed.

Lemma get_camera_model_of_file p s f m :
  FS.find (ModelSort.arbol s) p = Some (FS.File f) ->
  FS.exif_model f = Some m -> m <> EmptyString ->
  ModelSort.get_camera_model p s = (Some m, s).
Proof.
  intros Hf Hm Hne. unfold ModelSort.get_camera_model. rewrite Hf, Hm.
  destruct (String.eqb_spec m EmptyString); [contradiction | reflexivity].
Qed.

(** What [is_duplicate] answers and what it changes. *)
Lemma is_duplicate_spec dest src s b s' :
  ModelSort.is_duplicate dest src s = (b, s') ->
  ModelSort.arbol s' = ModelSort.arbol s /\
  ModelSort.moved s' = ModelSort.moved s /\
  ModelSort.duplicates s' = ModelSort.duplicates s /\
  ((fingerprint (ModelSort.arbol s) src = None /\ b = true /\
    ModelSort.unmapped s' = ModelSort.unmapped s ++ [src] /\
    log (ModelSort.tz s') =
      log (ModelSort.tz s) ++ [(ERROR, EvHashError src); (ERROR, EvHashImposible src)])
   \/
   (exists h, fingerprint (ModelSort.arbol s) src = Some h /\
      ModelSort.unmapped s' = ModelSort.unmapped s /\
      (b = true <->
       exists q, In q (FS.walk_files (ModelSort.arbol s) dest) /\
                 fingerprint (ModelSort.arbol s) q = Some h))).
Proof.
  unfold ModelSort.is_duplicate.
  pose proof (sha256_of_file_fst (ModelSort.arbol s) src (ModelSort.tz s)) as Hfst.
  destruct (Hashing.sha256_of_file (ModelSort.arbol s) src (ModelSort.tz s))
    as [[h|] tr] eqn:Hsha; cbn [fst] in Hfst.
  - pose proof (any_hash_eq_true (ModelSort.arbol s) h
                  (FS.walk_files (ModelSort.arbol s) dest) tr) as Hany.
    destruct (any_hash_eq (ModelSort.arbol s) h (FS.walk_files (ModelSort.arbol s) dest) tr)
      as [b' tr'].
    intros [= <- <-]. cbn [fst] in Hany. simpl.
    repeat split; try reflexivity. right. exists h. auto.
  - intros [= <- <-]. simpl. repeat split; try reflexivity. left.
    repeat split; auto.
    symmetry in Hfst. apply fingerprint_None in Hfst.
    rewrite (sha256_of_file_unreadable _ _ _ Hfst) in Hsha.
    injection Hsha as <-. simpl. rewrite <- app_assoc. reflexivity.
Qed.

(** Every turn of the loop ends in one of the ways of [ModelStep.step]. *)
Lemma classify_item_step env s item s' e :
  ModelSort.classify_item env s item = (s', e) ->
  ModelStep.step env s item s' e.
Proof.
  unfold ModelSort.classify_item.
  destruct (FS.os_path_isfile (ModelSort.arbol s) (FS.os_path_join ModelSort.CAMERAS_DIR item))
    eqn:Hfile; cbn [negb].
  2:{ intros [= <- <-]. apply ModelStep.st_not_a_file. exact Hfile. }
  destruct (in_strings (lower (snd (os_path_splitext item))) ModelSort.PHOTO_EXTENSIONS)
    eqn:Hext; cbn [negb].
  2:{ intros [= <- <-]. apply ModelStep.st_extension; assumption. }
  destruct (ModelSort.get_camera_model (FS.os_path_join ModelSort.CAMERAS_DIR item)
              (ModelSort.contar s)) as [[model|] s1] eqn:Hmodel.
  2:{ intros [= <- <-]. eapply ModelStep.st_no_model; eassumption. }
  destruct (dget ModelSort.MODEL_TO_FOLDER model) as [folder|] eqn:Hget.
  2:{ intros [= <- <-]. eapply ModelStep.st_unmapped; try eassumption.
      unfold ModelStep.folder_of. rewrite Hget. reflexivity. }
  destruct (String.eqb folder EmptyString) eqn:Hempty.
  { intros [= <- <-]. eapply ModelStep.st_unmapped; try eassumption.
    unfold ModelStep.folder_of. rewrite Hget, Hempty. reflexivity. }
  assert (Hfolder : ModelStep.folder_of model = Some folder).
  { unfold ModelStep.folder_of. rewrite Hget, Hempty. reflexivity. }
  change (ModelSort.arbol (ModelSort.scanned_add folder s1)) with (ModelSort.arbol s1).
  fold (ModelStep.dest_of folder).
  destruct (FS.os_makedirs env (ModelSort.arbol s1) (ModelStep.dest_of folder))
    as [t [ex|]] eqn:Hmk.
  { intros [= <- <-]. eapply ModelStep.st_raised; eassumption. }
  destruct (ModelSort.is_duplicate (ModelStep.dest_of folder)
              (FS.os_path_join ModelSort.CAMERAS_DIR item)
              (ModelSort.con_arbol t (ModelSort.scanned_add folder s1)))
    as [[|] s3] eqn:Hdup.
  { intros [= <- <-]. eapply ModelStep.st_duplicate; eassumption. }
  destruct (FS.shutil_move env (ModelSort.arbol s3)
              (FS.os_path_join ModelSort.CAMERAS_DIR item)
              (FS.os_path_join (ModelStep.dest_of folder) item)) as [t'|ex] eqn:Hmove.
  - intros [= <- <-]. eapply ModelStep.st_moved; eassumption.
  - intros [= <- <-]. eapply ModelStep.st_move_failed; eassumption.
Qed.

Lemma folder_of_Some model folder :
  ModelStep.folder_of model = Some folder ->
  dget ModelSort.MODEL_TO_FOLDER model = Some folder /\
  String.eqb folder EmptyString = false.
Proof.
  unfold ModelStep.folder_of.
  destruct (dget ModelSort.MODEL_TO_FOLDER model) as [f|]; [|discriminate].
  destruct (String.eqb f EmptyString) eqn:He; [discriminate|].
  intros [= <-]. auto.
Qed.

Lemma os_makedirs_keeps_files env t p t' e q f :
  FS.os_makedirs env t p = (t', e) ->
  (FS.find t' q = Some (FS.File f) <-> FS.find t q = Some (FS.File f)).
Proof.
  intros H. apply os_makedirs_grows in H. destruct H as (ds & -> & _).
  apply find_app_dirs_file.
Qed.

Lemma read_bytes_unreadable t p f :
  FS.find t p = Some (FS.File f) -> FS.legible f = false -> FS.read_bytes t p = None.
Proof. intros Hf Hl. unfold FS.read_bytes. rewrite Hf, Hl. reflexivity. Qed.

(* --------------------------------------------------------------------- *)
(** ** A file that cannot be hashed                                        *)
(* --------------------------------------------------------------------- *)

(** C3, as amended. A file whose hash cannot be computed is never moved
    and stays at its path, an error is logged for it, and no file of the
    destination is hashed against it; but it is recorded as a duplicate:
    the model sorter appends it to [unmapped] and to [duplicates] and logs
    the duplicate warning, and [is_duplicate] of the RAW sorter appends it
    to [duplicates] and answers [True]. *)
Theorem unreadable_file_stays_and_is_listed_duplicate :
  (forall env s item f model folder t1,
     let src := FS.os_path_join ModelSort.CAMERAS_DIR item in
     FS.find (ModelSort.arbol s) src = Some (FS.File f) ->
     ModelStep.allowed item = true ->
     FS.legible f = false ->
     FS.exif_model f = Some model -> model <> EmptyString ->
     ModelStep.folder_of model = Some folder ->
     FS.os_makedirs env (ModelSort.arbol s) (ModelStep.dest_of folder) = (t1, None) ->
     exists s',
       ModelSort.classify_item env s item = (s', None) /\
       ModelSort.arbol s' = t1 /\
       FS.find (ModelSort.arbol s') src = Some (FS.File f) /\
       ModelSort.moved s' = ModelSort.moved s /\
       ModelSort.unmapped s' = ModelSort.unmapped s ++ [src] /\
       ModelSort.duplicates s' = ModelSort.duplicates s ++ [src] /\
       log (ModelSort.tz s') =
         log (ModelSort.tz s) ++
           [(ERROR, EvHashError src); (ERROR, EvHashImposible src);
            (WARNING, EvDuplicado src)] /\
       hashed (ModelSort.tz s') = hashed (ModelSort.tz s) ++ [src]) /\
  (forall t dest src s,
     FS.read_bytes t src = None ->
     exists s',
       RawSort.is_duplicate t dest src s = (true, s') /\
       RawSort.duplicates s' = RawSort.duplicates s ++ [src] /\
       log (RawSort.tz s') =
         log (RawSort.tz s) ++ [(ERROR, EvHashError src); (ERROR, EvHashImposible src)] /\
       hashed (RawSort.tz s') = hashed (RawSort.tz s) ++ [src]).
Proof.
  split.
  - intros env s item f model folder t1 src Hf Hext Hleg Hmodel Hne Hfolder Hmk.
    apply folder_of_Some in Hfolder. destruct Hfolder as [Hget Hempty].
    assert (Hf1 : FS.find t1 src = Some (FS.File f))
      by (apply (os_makedirs_keeps_files _ _ _ _ _ _ _ Hmk); exact Hf).
    pose proof (read_bytes_unreadable _ _ _ Hf1 Hleg) as Hread.
    unfold ModelSort.classify_item. fold src.
    assert (Hfile : FS.os_path_isfile (ModelSort.arbol s) src = true)
      by (apply isfile_true; eauto).
    rewrite Hfile. cbn [negb]. unfold ModelStep.allowed in Hext. rewrite Hext. cbn [negb].
    rewrite (get_camera_model_of_file src (ModelSort.contar s) f model Hf Hmodel Hne).
    rewrite Hget, Hempty.
    change (ModelSort.arbol (ModelSort.scanned_add folder (ModelSort.contar s)))
      with (ModelSort.arbol s).
    fold (ModelStep.dest_of folder). rewrite Hmk.
    unfold ModelSort.is_duplicate. cbn [ModelSort.arbol ModelSort.con_arbol ModelSort.tz].
    rewrite (sha256_of_file_unreadable _ _ _ Hread).
    eexists. split; [reflexivity|]. cbn.
    repeat split; try reflexivity; try assumption.
    rewrite <- !app_assoc. reflexivity.
  - intros t dest src s Hread. unfold RawSort.is_duplicate.
    rewrite (sha256_of_file_unreadable _ _ _ Hread).
    eexists. split; [reflexivity|]. cbn.
    repeat split; try reflexivity. rewrite <- app_assoc. reflexivity.
Qed.

Lemma unreadable_file_stays_and_is_listed_duplicate_witness :
  exists s',
    ModelSort.classify_item entorno_ok (ModelSort.inicial arbol_ilegible) "locked.arw"
      = (s', None) /\
    FS.find (ModelSort.arbol s') ["CAMERAS"; "locked.arw"]%string
      = Some (FS.File foto_ilegible) /\
    ModelSort.moved s' = [] /\
    ModelSort.duplicates s' = [["CAMERAS"; "locked.arw"]%string].
Proof.
  destruct (proj1 unreadable_file_stays_and_is_listed_duplicate entorno_ok
              (ModelSort.inicial arbol_ilegible) "locked.arw"%string foto_ilegible
              "ILCE-6000"%string "Sony ILCE-6000"%string
              (arbol_ilegible ++ dir_entries [["CAMERAS"; "Sony ILCE-6000"]%string]))
    as (s' & Hstep & Htree & Hfind & Hmoved & _ & Hdup & _).
  - reflexivity.
  - reflexivity.
  - reflexivity.
  - reflexivity.
  - discriminate.
  - reflexivity.
  - reflexivity.
  - exists s'. repeat split; assumption.
Defined.

(** C3, as the specification words it, fails: the run of the model sorter
    on a tree whose only photo cannot be read lists that photo among the
    duplicates and logs it as one. *)
Lemma unreadable_file_classified_duplicate :
  let src := ["CAMERAS"; "locked.arw"]%string in
  let r := ModelSort.run entorno_ok arbol_ilegible in
  fingerprint arbol_ilegible src = None /\
  snd r = None /\
  In src (ModelSort.duplicates (fst r)) /\
  In (WARNING, EvDuplicado src) (log (ModelSort.tz (fst r))) /\
  In (INFO, EvResumenDuplicado src) (log (ModelSort.tz (fst r))).
Proof.
  cbv zeta. split; [reflexivity|]. split; [reflexivity|].
  split; [vm_compute; tauto|]. split; vm_compute; tauto.
Qed.

(* --------------------------------------------------------------------- *)
(** ** More on dictionaries                                                *)
(* --------------------------------------------------------------------- *)

Section DictKeys.
Context {K V : Type} `{EqDecision K}.
Implicit Types (d : list (K * V)) (k : K) (v : V).

Lemma dict_keys_dset d k v x :
  In x (map fst (dset d k v)) <-> x = k \/ In x (map fst d).
Proof.
  induction d as [|[q m] d IH]; cbn [dset map fst In].
  - intuition congruence.
  - case_decide; cbn [map fst In]; [subst q|rewrite IH]; intuition congruence.
Qed.

Lemma dict_nodup_dset d k v : NoDup (map fst d) -> NoDup (map fst (dset d k v)).
Proof.
  induction d as [|[q m] d IH]; cbn [dset map fst]; intros Hnd.
  - apply NoDup_cons. split; [intros Hx; inversion Hx | constructor].
  - apply NoDup_cons in Hnd as [Hnotin Hnd'].
    case_decide; cbn [map fst]; apply NoDup_cons.
    + subst q. split; assumption.
    + split; [|auto]. rewrite list_elem_of_In, dict_keys_dset, <- list_elem_of_In.
      intros [Hx|Hx]; [congruence | tauto].
Qed.

Lemma dict_In_dset d k v k' v' :
  In (k', v') (dset d k v) -> (k' = k /\ v' = v) \/ In (k', v') d.
Proof.
  induction d as [|[q m] d IH]; cbn [dset In].
  - intros [[= <- <-]|[]]. left. auto.
  - case_decide; cbn [In].
    + intros [[= <- <-]|Hin]; [left; auto | right; right; exact Hin].
    + intros [Heq|Hin]; [right; left; exact Heq|].
      destruct (IH Hin) as [Hl|Hr]; [left; exact Hl | right; right; exact Hr].
Qed.

Lemma dict_nodup_In_dget d k v :
  NoDup (map fst d) -> In (k, v) d -> dget d k = Some v.
Proof.
  induction d as [|[q m] d IH]; cbn [map dget fst In]; [tauto|].
  intros Hnd [Heq|Hin].
  - inversion Heq; subst. case_decide; congruence.
  - apply NoDup_cons in Hnd as [Hnotin Hnd'].
    case_decide.
    + subst q. exfalso. apply Hnotin, list_elem_of_In.
      apply (in_map fst) in Hin. exact Hin.
    + auto.
Qed.

Lemma dict_nodup_In_eq d k v v' :
  NoDup (map fst d) -> In (k, v) d -> In (k, v') d -> v = v'.
Proof.
  intros Hnd H1 H2.
  pose proof (dict_nodup_In_dget d k v Hnd H1) as E1.
  pose proof (dict_nodup_In_dget d k v' Hnd H2) as E2.
  congruence.
Qed.

(** An entry of [dupdate d k v0 f] is an old entry, or the new value of
    the key: [f] applied to its old value or to the default. *)
Lemma dict_In_dupdate d k v0 (f : V -> V) k' v' :
  In (k', v') (dupdate d k v0 f) ->
  In (k', v') d \/
  (k' = k /\ ((exists v, In (k, v) d /\ v' = f v) \/ (dget d k = None /\ v' = f v0))).
Proof.
  unfold dupdate. destruct (dget d k) as [v|] eqn:Hget; intros Hin;
    apply dict_In_dset in Hin; destruct Hin as [[-> ->]|Hin]; auto.
  - right. split; [reflexivity|]. left. exists v.
    split; [apply dget_Some_In; exact Hget | reflexivity].
Qed.

Lemma dict_nodup_dupdate d k v0 (f : V -> V) :
  NoDup (map fst d) -> NoDup (map fst (dupdate d k v0 f)).
Proof. unfold dupdate. destruct (dget d k); apply dict_nodup_dset. Qed.
End DictKeys.

(* --------------------------------------------------------------------- *)
(** ** The duplicate search: which files are hashed                        *)
(* --------------------------------------------------------------------- *)

Lemma add_name_ok folder name c :
  buckets_ok c ->
  buckets_ok (DupSearch.add_name (DupSearch.camera_of folder) name
                (FS.os_path_join folder name) c).
Proof.
  intros [Hnd Hall]. unfold DupSearch.add_name. split.
  - apply dict_nodup_dupdate, Hnd.
  - intros cam names Hin. apply dict_In_dupdate in Hin.
    destruct Hin as [Hin|[-> Hnew]]; [apply Hall; exact Hin|].
    assert (Hbase : forall names0, names_ok (DupSearch.camera_of folder) names0 ->
              names_ok (DupSearch.camera_of folder)
                (dupdate names0 name [] (fun ps => ps ++ [FS.os_path_join folder name]))).
    { intros names0 [Hnd0 Hall0]. split; [apply dict_nodup_dupdate, Hnd0|].
      intros name' paths Hin'. apply dict_In_dupdate in Hin'.
      assert (Hnew' : bucket_paths_ok (DupSearch.camera_of folder) name
                        [FS.os_path_join folder name]).
      { intros q [<-|[]]. exists folder. auto. }
      destruct Hin' as [Hin'|[-> [(ps & Hps & ->)|[_ ->]]]].
      - apply Hall0. exact Hin'.
      - intros q [Hq|Hq]%in_app_iff; [apply (Hall0 _ _ Hps); exact Hq | apply Hnew'; exact Hq].
      - exact Hnew'. }
    destruct Hnew as [(names0 & Hin0 & ->)|[_ ->]].
    + apply Hbase, (Hall _ _ Hin0).
    + apply Hbase. split; [constructor | intros ? ? []].
Qed.

Lemma agrupar_ok fbf : forall c, buckets_ok c -> buckets_ok (DupSearch.agrupar fbf c).
Proof.
  unfold DupSearch.agrupar.
  induction fbf as [|[folder fnames] fbf IH]; intros c Hc; cbn [fold_left]; [exact Hc|].
  apply IH. clear IH. revert c Hc.
  induction fnames as [|name fnames IHn]; intros c Hc; cbn [fold_left]; [exact Hc|].
  apply IHn, add_name_ok, Hc.
Qed.

Lemma sha256_of_file_hashed t p tr :
  hashed (snd (Hashing.sha256_of_file t p tr)) = hashed tr ++ [p].
Proof.
  unfold Hashing.sha256_of_file, Hashing.sha256_of_file_sized.
  destruct (FS.read_bytes t p); reflexivity.
Qed.

Lemma hash_paths_hashed t paths : forall h2p tr,
  hashed (snd (DupSearch.hash_paths t paths h2p tr)) = hashed tr ++ paths.
Proof.
  induction paths as [|p paths IH]; intros h2p tr; cbn [DupSearch.hash_paths].
  - simpl. rewrite app_nil_r. reflexivity.
  - pose proof (sha256_of_file_hashed t p tr) as Hh.
    destruct (Hashing.sha256_of_file t p tr) as [[h|] tr1]; cbn [snd] in Hh.
    + destruct (String.eqb h EmptyString); rewrite IH, Hh, <- app_assoc; reflexivity.
    + rewrite IH, Hh, <- app_assoc. reflexivity.
Qed.

Lemma registrar_grupos_keeps cam name groups : forall s,
  hashed (DupSearch.tz (DupSearch.registrar_grupos cam name groups s)) = hashed (DupSearch.tz s) /\
  DupSearch.camera_to_names (DupSearch.registrar_grupos cam name groups s)
    = DupSearch.camera_to_names s.
Proof.
  unfold DupSearch.registrar_grupos.
  induction groups as [|[h ps] groups IH]; intros s; cbn [fold_left]; [auto|].
  destruct (IH (if (1 <? length ps)%nat
                then DupSearch.mkEstado (DupSearch.files_by_folder s)
                       (DupSearch.camera_to_names s)
                       (dupdate (DupSearch.duplicates_report s) cam []
                          (fun names => dupdate names name [] (fun hs => dset hs h ps)))
                       (logger WARNING (EvGrupoDuplicado cam name h) (DupSearch.tz s))
                else s)) as [H1 H2].
  rewrite H1, H2. destruct (1 <? length ps)%nat; auto.
Qed.

(** A bucket is hashed whole when it has two paths or more, and not at all
    otherwise. *)
Lemma procesar_bucket_hashed t cam s name paths :
  hashed (DupSearch.tz (DupSearch.procesar_bucket t cam s (name, paths))) =
    hashed (DupSearch.tz s) ++ (if (length paths <? 2)%nat then [] else paths) /\
  DupSearch.camera_to_names (DupSearch.procesar_bucket t cam s (name, paths))
    = DupSearch.camera_to_names s.
Proof.
  unfold DupSearch.procesar_bucket.
  destruct (length paths <? 2)%nat; [rewrite app_nil_r; auto|].
  pose proof (hash_paths_hashed t paths [] (DupSearch.tz s)) as Hh.
  destruct (DupSearch.hash_paths t paths [] (DupSearch.tz s)) as [groups tr].
  cbn [snd] in Hh.
  destruct (registrar_grupos_keeps cam name groups
              (DupSearch.mkEstado (DupSearch.files_by_folder s) (DupSearch.camera_to_names s)
                 (DupSearch.duplicates_report s) tr)) as [H1 H2].
  rewrite H1, H2. auto.
Qed.

Lemma buckets_fold_hashed t cam names : forall s p,
  In p (hashed (DupSearch.tz (fold_left (DupSearch.procesar_bucket t cam) names s))) ->
  In p (hashed (DupSearch.tz s)) \/
  exists name paths, In (name, paths) names /\ In p paths /\ (2 <= length paths)%nat.
Proof.
  induction names as [|[name paths] names IH]; intros s p; cbn [fold_left]; [auto|].
  intros Hin. apply IH in Hin. destruct Hin as [Hin|(n & ps & Hn & Hp & Hlen)].
  - rewrite (proj1 (procesar_bucket_hashed t cam s name paths)) in Hin.
    apply in_app_iff in Hin. destruct Hin as [Hin|Hin]; [auto|].
    right. exists name, paths. destruct (Nat.ltb_spec (length paths) 2); [destruct Hin|].
    split; [left; reflexivity | auto].
  - right. exists n, ps. split; [right; exact Hn | auto].
Qed.

Lemma cameras_fold_hashed t c : forall s p,
  In p (hashed (DupSearch.tz
     (fold_left (fun s '(cam, name_dict) =>
                   fold_left (DupSearch.procesar_bucket t cam) name_dict s) c s))) ->
  In p (hashed (DupSearch.tz s)) \/
  exists cam names name paths,
    In (cam, names) c /\ In (name, paths) names /\ In p paths /\ (2 <= length paths)%nat.
Proof.
  induction c as [|[cam names] c IH]; intros s p; cbn [fold_left]; [auto|].
  intros Hin. apply IH in Hin. destruct Hin as [Hin|(cm & ns & n & ps & Hc & Hrest)].
  - apply buckets_fold_hashed in Hin. destruct Hin as [Hin|(n & ps & Hn & Hrest)]; [auto|].
    right. exists cam, names, n, ps. split; [left; reflexivity | auto].
  - right. exists cm, ns, n, ps. split; [right; exact Hc | exact Hrest].
Qed.

Lemma cameras_fold_names t c : forall s,
  DupSearch.camera_to_names
    (fold_left (fun s '(cam, name_dict) =>
                  fold_left (DupSearch.procesar_bucket t cam) name_dict s) c s)
  = DupSearch.camera_to_names s.
Proof.
  induction c as [|[cam names] c IH]; intros s; cbn [fold_left]; [reflexivity|].
  rewrite IH. clear IH. revert s.
  induction names as [|[name paths] names IHn]; intros s; cbn [fold_left]; [reflexivity|].
  rewrite IHn. apply procesar_bucket_hashed.
Qed.

Lemma os_path_join_inj d1 n1 d2 n2 :
  FS.os_path_join d1 n1 = FS.os_path_join d2 n2 -> d1 = d2 /\ n1 = n2.
Proof.
  unfold FS.os_path_join. intros H. apply app_inj_tail in H. exact H.
Qed.

Lemma detectar_duplicados_state t fbf :
  DupSearch.camera_to_names (DupSearch.detectar_duplicados t (dup_inicial fbf))
    = DupSearch.agrupar fbf [] /\
  forall p,
    In p (hashed (DupSearch.tz (DupSearch.detectar_duplicados t (dup_inicial fbf)))) ->
    exists cam names name paths,
      In (cam, names) (DupSearch.agrupar fbf []) /\ In (name, paths) names /\
      In p paths /\ (2 <= length paths)%nat.
Proof.
  unfold DupSearch.detectar_duplicados, dup_inicial.
  cbn [DupSearch.files_by_folder DupSearch.camera_to_names DupSearch.duplicates_report
       DupSearch.tz].
  split.
  - rewrite cameras_fold_names. reflexivity.
  - intros p Hin. apply cameras_fold_hashed in Hin.
    destruct Hin as [[]|Hin]. exact Hin.
Qed.

Lemma is_duplicate_hashes_source dest src s :
  In src (hashed (ModelSort.tz (snd (ModelSort.is_duplicate dest src s)))).
Proof.
  unfold ModelSort.is_duplicate.
  pose proof (sha256_of_file_hashed (ModelSort.arbol s) src (ModelSort.tz s)) as Hh.
  destruct (Hashing.sha256_of_file (ModelSort.arbol s) src (ModelSort.tz s))
    as [[h|] tr]; cbn [snd] in Hh.
  - destruct (any_hash_eq_hashed (ModelSort.arbol s) h
                (FS.walk_files (ModelSort.arbol s) dest) tr) as (more & Hm & _).
    destruct (any_hash_eq (ModelSort.arbol s) h (FS.walk_files (ModelSort.arbol s) dest) tr)
      as [b tr']. cbn [snd] in *. cbn. rewrite Hm, Hh.
    apply in_app_iff. left. apply in_app_iff. right. left. reflexivity.
  - cbn. rewrite Hh. apply in_app_iff. right. left. reflexivity.
Qed.

(* --------------------------------------------------------------------- *)
(** ** Lazy hashing                                                        *)
(* --------------------------------------------------------------------- *)

(** C8, as amended. In the duplicate search a file is hashed only when its
    bucket (camera and file name) holds two paths or more, and the single
    path of a bucket of size one is never hashed. The sorters have no
    buckets: their [is_duplicate] hashes the source file every time. *)
Theorem hashing_is_lazy_in_dup_search :
  forall (t : FS.fs) (fbf : list (FS.path * list string)),
    let s' := DupSearch.detectar_duplicados t (dup_inicial fbf) in
    (forall p, In p (hashed (DupSearch.tz s')) ->
       exists cam names name paths,
         In (cam, names) (DupSearch.camera_to_names s') /\ In (name, paths) names /\
         In p paths /\ (2 <= length paths)%nat) /\
    (forall cam names name p,
       In (cam, names) (DupSearch.camera_to_names s') -> In (name, [p]) names ->
       ~ In p (hashed (DupSearch.tz s'))) /\
    (forall dest src s,
       In src (hashed (ModelSort.tz (snd (ModelSort.is_duplicate dest src s))))).
Proof.
  intros t fbf s'. destruct (detectar_duplicados_state t fbf) as [Hnames Hhashed].
  fold s' in Hnames, Hhashed.
  assert (Hok : buckets_ok (DupSearch.camera_to_names s')).
  { rewrite Hnames. apply agrupar_ok. split; [constructor | intros ? ? []]. }
  split; [|split].
  - intros p Hp. rewrite Hnames. apply Hhashed, Hp.
  - intros cam names name p Hcam Hname Hp.
    apply Hhashed in Hp. rewrite <- Hnames in Hp.
    destruct Hp as (cam' & names' & name' & paths' & Hcam' & Hname' & Hin' & Hlen).
    destruct Hok as [Hnd Hall].
    destruct (Hall _ _ Hcam) as [Hndn Hpaths].
    destruct (Hall _ _ Hcam') as [Hndn' Hpaths'].
    destruct (Hpaths _ _ Hname p ltac:(left; reflexivity)) as (folder & Hq & Hc).
    destruct (Hpaths' _ _ Hname' p Hin') as (folder' & Hq' & Hc').
    rewrite Hq in Hq'. apply os_path_join_inj in Hq'. destruct Hq' as [<- <-].
    rewrite Hc in Hc'. subst cam'.
    pose proof (dict_nodup_In_eq _ _ _ _ Hnd Hcam Hcam'). subst names'.
    pose proof (dict_nodup_In_eq _ _ _ _ Hndn Hname Hname'). subst paths'.
    simpl in Hlen. lia.
  - apply is_duplicate_hashes_source.
Qed.

Example hashing_lazy_example :
  hashed (DupSearch.tz (DupSearch.detectar_duplicados arbol_listado (dup_inicial listado_ejemplo)))
  = [ ["CAMERAS"; "EOS"; "2024.05"; "IMG_1.JPG"];
      ["CAMERAS"; "EOS"; "2024.06"; "IMG_1.JPG"] ]%string.
Proof. vm_compute. reflexivity. Qed.

(** C8, as the specification words it, fails on the sorters: the model
    sorter hashes a photo that is alone in [CAMERAS] and whose destination
    folder is empty, so that no file shares its name. *)
Lemma lone_file_is_hashed :
  let r := ModelSort.run entorno_ok arbol_una_foto in
  FS.os_listdir arbol_una_foto ["CAMERAS"%string] = ["solo.jpg"%string] /\
  FS.walk_files arbol_una_foto ["CAMERAS"; "Sony ILCE-6000"]%string = [] /\
  hashed (ModelSort.tz (fst r)) = [["CAMERAS"; "solo.jpg"]%string] /\
  ModelSort.moved (fst r) = [["CAMERAS"; "solo.jpg"]%string].
Proof.
  cbv zeta. repeat split; vm_compute; reflexivity.
Qed.

(* --------------------------------------------------------------------- *)
(** ** Loops                                                               *)
(* --------------------------------------------------------------------- *)

Lemma for_each_inv {S A : Type} (body : S -> A -> S * option exc) (I : S -> Prop) :
  (forall s x s' e, I s -> body s x = (s', e) -> I s') ->
  forall l s s' e, I s -> for_each body s l = (s', e) -> I s'.
Proof.
  intros Hstep. induction l as [|x l IH]; intros s s' e Hs; cbn [for_each].
  - intros [= <- <-]. exact Hs.
  - destruct (body s x) as [s1 [ex|]] eqn:Hb.
    + intros [= <- <-]. eapply Hstep; eassumption.
    + apply IH. eapply Hstep; eassumption.
Qed.

(** The same for an invariant that is only needed, and only holds, on the
    names of the list. *)
Lemma for_each_inv_in {S A : Type} (body : S -> A -> S * option exc) (I : S -> Prop)
    (l : list A) :
  (forall s x s' e, In x l -> I s -> body s x = (s', e) -> I s') ->
  forall s s' e, I s -> for_each body s l = (s', e) -> I s'.
Proof.
  induction l as [|x l IH]; intros Hstep s s' e Hs; cbn [for_each].
  - intros [= <- <-]. exact Hs.
  - destruct (body s x) as [s1 [ex|]] eqn:Hb.
    + intros [= <- <-]. eapply Hstep; [left; reflexivity | eassumption..].
    + apply IH; [|eapply Hstep; [left; reflexivity | eassumption..]].
      intros s0 y s0' e0 Hy. apply Hstep. right. exact Hy.
Qed.

Lemma for_each_app {S A : Type} (body : S -> A -> S * option exc) l1 l2 s :
  for_each body s (l1 ++ l2) =
    match for_each body s l1 with
    | (s1, None) => for_each body s1 l2
    | (s1, Some e) => (s1, Some e)
    end.
Proof.
  revert s. induction l1 as [|x l1 IH]; intros s; cbn [for_each app]; [reflexivity|].
  destruct (body s x) as [s1 [e|]]; [reflexivity | apply IH].
Qed.

(** A loop that ends normally went through each name of its list. *)
Lemma for_each_split {S A : Type} (body : S -> A -> S * option exc) l1 x l2 s s' :
  for_each body s (l1 ++ x :: l2) = (s', None) ->
  exists s1 s2,
    for_each body s l1 = (s1, None) /\ body s1 x = (s2, None) /\
    for_each body s2 l2 = (s', None).
Proof.
  rewrite for_each_app. destruct (for_each body s l1) as [s1 [e|]]; [discriminate|].
  cbn [for_each]. destruct (body s1 x) as [s2 [e|]] eqn:Hb; [discriminate|].
  intros H. exists s1, s2. auto.
Qed.

(* --------------------------------------------------------------------- *)
(** ** The model sorter: shape of one turn                                 *)
(* --------------------------------------------------------------------- *)

(** No folder of [MODEL_TO_FOLDER] has a photo extension: a destination
    folder is never taken for a photo. *)
Lemma folder_not_allowed model folder :
  ModelStep.folder_of model = Some folder ->
  ModelStep.allowed (ModelSort.sanitize_folder_name folder) = false.
Proof.
  intros H. apply folder_of_Some in H. destruct H as [Hget _].
  apply dget_Some_In in Hget.
  assert (Hall : forallb (fun mf => negb (ModelStep.allowed
                            (ModelSort.sanitize_folder_name (snd mf))))
                   ModelSort.MODEL_TO_FOLDER = true) by (vm_compute; reflexivity).
  rewrite forallb_forall in Hall. specialize (Hall _ Hget).
  apply negb_true_iff in Hall. exact Hall.
Qed.

Lemma root_exists t :
  FS.find t ModelSort.CAMERAS_DIR = Some FS.Dir ->
  FS.os_path_exists t ["CAMERAS"%string] = true.
Proof. intros H. apply exists_true. exists FS.Dir. exact H. Qed.

Lemma model_makedirs env t folder t1 e :
  FS.find t ModelSort.CAMERAS_DIR = Some FS.Dir ->
  FS.os_makedirs env t (ModelStep.dest_of folder) = (t1, e) ->
  grown_by t t1 folder /\
  (e = None -> FS.find t1 (ModelStep.dest_of folder) = Some FS.Dir) /\
  (e <> None -> t1 = t).
Proof.
  intros Hroot. unfold ModelStep.dest_of, ModelSort.CAMERAS_DIR, FS.os_path_join.
  cbn [app]. destruct e as [ex|].
  - rewrite (os_makedirs_child env t _ _ (root_exists t Hroot)).
    destruct (FS.os_mkdir env t _) as [t2|e']; [discriminate|].
    destruct (FS.os_path_isdir t _); [discriminate|].
    intros [= <- _]. split; [left; reflexivity|]. split; [discriminate | reflexivity].
  - intros Hmk. apply (os_makedirs_child_ok env t _ _ t1 (root_exists t Hroot)) in Hmk.
    destruct Hmk as [Hdir Hgrow]. split; [exact Hgrow|]. split; [auto | congruence].
Qed.

Lemma grown_find_file t t1 folder q f :
  grown_by t t1 folder ->
  (FS.find t1 q = Some (FS.File f) <-> FS.find t q = Some (FS.File f)).
Proof.
  intros [->|[-> _]]; [tauto | apply find_app_dirs_file].
Qed.

Lemma grown_find_Some t t1 folder q n :
  grown_by t t1 folder -> FS.find t q = Some n -> FS.find t1 q = Some n.
Proof.
  intros [->|[-> _]] H; [exact H|]. rewrite find_app_dirs, H. reflexivity.
Qed.

Lemma grown_find_None t t1 folder q :
  grown_by t t1 folder -> FS.find t q = None -> q <> ModelStep.dest_of folder ->
  FS.find t1 q = None.
Proof.
  intros [->|[-> _]] H Hne; [exact H|]. rewrite find_app_dirs, H.
  case_decide as Hin; [|reflexivity].
  apply list_elem_of_singleton in Hin. contradiction.
Qed.

Lemma source_not_dest item model folder :
  ModelStep.allowed item = true -> ModelStep.folder_of model = Some folder ->
  source_path item <> ModelStep.dest_of folder.
Proof.
  intros Hal Hf Heq. unfold source_path, ModelStep.dest_of, FS.os_path_join in Heq.
  apply app_inj_tail in Heq. destruct Heq as [_ [= ->]].
  rewrite (folder_not_allowed _ _ Hf) in Hal. discriminate.
Qed.

Lemma landed_grown t t1 folder' folder item f :
  grown_by t t1 folder' -> landed t folder item f -> landed t1 folder item f.
Proof.
  intros Hg [H|H]; [left | right]; apply (grown_find_file _ _ _ _ _ Hg); exact H.
Qed.

(** Growing the tree by a destination folder keeps the invariant. *)
Lemma model_inv_grown t0 s t1 model folder :
  model_inv t0 s -> ModelStep.folder_of model = Some folder ->
  grown_by (ModelSort.arbol s) t1 folder ->
  forall s1, ModelSort.arbol s1 = t1 -> ModelSort.moved s1 = ModelSort.moved s ->
  model_inv t0 s1.
Proof.
  intros [Hroot Hpres Hkept Hmoved] Hfolder Hg s1 Ht Hm. split; rewrite ?Ht, ?Hm.
  - apply (grown_find_Some _ _ _ _ _ Hg Hroot).
  - intros item f Hf. apply Hpres. apply (grown_find_file _ _ _ _ _ Hg). exact Hf.
  - intros item f Hf Hn. apply (grown_find_file _ _ _ _ _ Hg). apply Hkept; assumption.
  - intros p Hp. destruct (Hmoved p Hp) as (item & f & fo & -> & Hal & H0 & Hnone & Hfo & Hl).
    exists item, f, fo. repeat split; try assumption.
    + apply (grown_find_None _ _ _ _ Hg Hnone). eapply source_not_dest; eassumption.
    + eapply landed_grown; eassumption.
Qed.

Lemma model_inv_same t0 s s1 :
  model_inv t0 s -> ModelSort.arbol s1 = ModelSort.arbol s ->
  ModelSort.moved s1 = ModelSort.moved s -> model_inv t0 s1.
Proof.
  intros [Hroot Hpres Hkept Hmoved] Ht Hm. split; rewrite ?Ht, ?Hm; assumption.
Qed.

Lemma basename_source item : FS.basename (source_path item) = item.
Proof. reflexivity. Qed.

(** After a successful move of a source file the invariant holds again. *)
Lemma model_inv_moved env t0 s item f model folder t1 t2 s' :
  model_inv t0 s ->
  FS.find (ModelSort.arbol s) (source_path item) = Some (FS.File f) ->
  ModelStep.allowed item = true ->
  FS.exif_model f = Some model -> model <> EmptyString ->
  ModelStep.folder_of model = Some folder ->
  grown_by (ModelSort.arbol s) t1 folder ->
  FS.shutil_move env t1 (source_path item)
    (FS.os_path_join (ModelStep.dest_of folder) item) = Ok t2 ->
  ModelSort.arbol s' = t2 ->
  ModelSort.moved s' = ModelSort.moved s ++ [source_path item] ->
  model_inv t0 s'.
Proof.
  intros Hinv Hsrc Hal Hmodel Hne Hfolder Hg Hmove Ht Hm.
  assert (Hinv1 : model_inv t0 (ModelSort.con_arbol t1 s))
    by (eapply model_inv_grown; eauto).
  destruct Hinv1 as [Hroot Hpres Hkept Hmoved]. cbn [ModelSort.arbol ModelSort.con_arbol
    ModelSort.moved] in *.
  apply shutil_move_Ok in Hmove. destruct Hmove as (f' & Hf' & -> & _ & _ & _).
  assert (f' = f).
  { apply (grown_find_file _ _ _ _ _ Hg) in Hf'. congruence. }
  subst f'.
  set (rd := FS.real_dst t1 (source_path item)
               (FS.os_path_join (ModelStep.dest_of folder) item)) in *.
  assert (Hrd : rd = FS.os_path_join (ModelStep.dest_of folder) item \/
                rd = FS.os_path_join (FS.os_path_join (ModelStep.dest_of folder) item) item).
  { subst rd. unfold FS.real_dst. rewrite basename_source.
    destruct (FS.os_path_isdir t1 _); auto. }
  assert (Hrd_src : forall i, rd <> source_path i).
  { intros i. destruct Hrd as [-> | ->]; discriminate. }
  assert (Hrd_root : rd <> ModelSort.CAMERAS_DIR).
  { destruct Hrd as [-> | ->]; discriminate. }
  assert (Hlast : forall fo i, rd = FS.os_path_join (ModelStep.dest_of fo) i \/
                    rd = FS.os_path_join (FS.os_path_join (ModelStep.dest_of fo) i) i ->
                    i = item).
  { intros fo i Hi.
    assert (Hb : FS.basename rd = item) by (destruct Hrd as [-> | ->]; reflexivity).
    assert (Hb' : FS.basename rd = i) by (destruct Hi as [-> | ->]; reflexivity).
    congruence. }
  split; rewrite ?Ht, ?Hm.
  - rewrite find_moved. case_decide; [contradiction|].
    case_decide as Hs; [discriminate Hs | exact Hroot].
  - intros i g. rewrite find_moved. case_decide as H1; [destruct (Hrd_src i H1)|].
    case_decide as H2; [discriminate|].
    intros Hg'. destruct (Hpres _ _ Hg') as [H0 Hnm]. split; [exact H0|].
    intros [Hin|[Heq|[]]]%in_app_iff; [contradiction | congruence].
  - intros i g H0 Hnm. rewrite find_moved.
    case_decide as H1; [destruct (Hrd_src i H1)|].
    case_decide as H2.
    + exfalso. apply Hnm. apply in_app_iff. right. left. exact H2.
    + apply Hkept; [exact H0|]. intros Hin. apply Hnm. apply in_app_iff. left. exact Hin.
  - intros p [Hp|[<-|[]]]%in_app_iff.
    + destruct (Hmoved p Hp) as (i & g & fo & -> & Hali & H0 & Hnone & Hfo & Hl).
      assert (Hi : i <> item) by (intros ->; congruence).
      exists i, g, fo. repeat split; try assumption.
      * rewrite find_moved. case_decide as H1; [destruct (Hrd_src i H1)|].
        case_decide; [congruence | exact Hnone].
      * destruct Hl as [Hl|Hl]; [left | right]; rewrite find_moved;
          (case_decide as H1; [exfalso; apply Hi; apply (Hlast fo i); auto|]);
          (case_decide as H2; [discriminate H2 | exact Hl]).
    + exists item, f, folder. destruct (Hpres _ _ Hf') as [H0 _].
      repeat split; try assumption.
      * rewrite find_moved. case_decide as H1; [destruct (Hrd_src item H1)|].
        case_decide; [reflexivity | congruence].
      * unfold folder_of_file. rewrite Hmodel.
        destruct (String.eqb_spec model EmptyString); [contradiction | exact Hfolder].
      * destruct Hrd as [Hrd|Hrd]; [left | right]; rewrite <- Hrd, find_moved;
          case_decide; congruence.
Qed.

Lemma is_duplicate_state dest src s b s' :
  ModelSort.is_duplicate dest src s = (b, s') ->
  ModelSort.arbol s' = ModelSort.arbol s /\ ModelSort.moved s' = ModelSort.moved s /\
  ModelSort.duplicates s' = ModelSort.duplicates s /\
  incl (ModelSort.unmapped s) (ModelSort.unmapped s') /\
  (b = false -> ModelSort.unmapped s' = ModelSort.unmapped s).
Proof.
  intros H. apply is_duplicate_spec in H.
  destruct H as (Ha & Hm & Hd & [(_ & -> & Hu & _)|(h & _ & Hu & _)]).
  - repeat split; try assumption; [rewrite Hu; apply incl_appl, incl_refl | discriminate].
  - repeat split; try assumption; [rewrite Hu; apply incl_refl | auto].
Qed.

(** One turn of the loop keeps the invariant. *)
Lemma classify_item_inv env t0 s item s' e :
  model_inv t0 s -> ModelSort.classify_item env s item = (s', e) -> model_inv t0 s'.
Proof.
  intros Hinv Hstep. apply classify_item_step in Hstep.
  destruct Hstep as
    [ Hfile | Hfile Hal | s1 Hfile Hal Hmod | model s1 Hfile Hal Hmod Hfo
    | model s1 folder t ex Hfile Hal Hmod Hfo Hmk
    | model s1 folder t s3 Hfile Hal Hmod Hfo Hmk Hdup
    | model s1 folder t s3 ex Hfile Hal Hmod Hfo Hmk Hdup Hmove
    | model s1 folder t s3 t' Hfile Hal Hmod Hfo Hmk Hdup Hmove ].
  - exact Hinv.
  - eapply model_inv_same; [exact Hinv | reflexivity..].
  - apply get_camera_model_state in Hmod. destruct Hmod as (Ha & _ & _ & Hm & _).
    eapply model_inv_same; [exact Hinv | exact Ha | exact Hm].
  - apply get_camera_model_state in Hmod. destruct Hmod as (Ha & _ & _ & Hm & _).
    eapply model_inv_same; [exact Hinv | exact Ha | exact Hm].
  - apply get_camera_model_state in Hmod. destruct Hmod as (Ha & _ & _ & Hm & _).
    cbn in Ha, Hm.
    destruct (model_makedirs env (ModelSort.arbol s1) folder t (Some ex)) as (_ & _ & Hsame);
      [rewrite Ha; apply (mi_root _ _ Hinv) | exact Hmk |].
    eapply model_inv_same; [exact Hinv | | exact Hm].
    cbn. rewrite Hsame by discriminate. exact Ha.
  - apply get_camera_model_state in Hmod. destruct Hmod as (Ha & _ & _ & Hm & _).
    cbn in Ha, Hm.
    destruct (model_makedirs env (ModelSort.arbol s1) folder t None) as (Hg & _ & _);
      [rewrite Ha; apply (mi_root _ _ Hinv) | exact Hmk |].
    apply is_duplicate_state in Hdup. destruct Hdup as (Ha3 & Hm3 & _).
    cbn in Ha3, Hm3. rewrite Ha in Hg.
    eapply (model_inv_grown t0 s t model folder Hinv Hfo Hg); cbn; congruence.
  - apply get_camera_model_state in Hmod. destruct Hmod as (Ha & _ & _ & Hm & _).
    cbn in Ha, Hm.
    destruct (model_makedirs env (ModelSort.arbol s1) folder t None) as (Hg & _ & _);
      [rewrite Ha; apply (mi_root _ _ Hinv) | exact Hmk |].
    apply is_duplicate_state in Hdup. destruct Hdup as (Ha3 & Hm3 & _).
    cbn in Ha3, Hm3. rewrite Ha in Hg.
    eapply (model_inv_grown t0 s t model folder Hinv Hfo Hg); cbn; congruence.
  - apply get_camera_model_Some in Hmod.
    destruct Hmod as (-> & f & Hf & Hmodel & Hne). cbn in Hf, Hmk.
    destruct (model_makedirs env (ModelSort.arbol s) folder t None) as (Hg & _ & _);
      [apply (mi_root _ _ Hinv) | exact Hmk |].
    apply is_duplicate_state in Hdup. destruct Hdup as (Ha3 & Hm3 & _).
    cbn in Ha3, Hm3. rewrite Ha3 in Hmove.
    eapply (model_inv_moved env t0 s item f model folder t t'); eauto.
    cbn. rewrite Hm3. reflexivity.
Qed.

Lemma resumen_state s :
  ModelSort.arbol (ModelSort.resumen s) = ModelSort.arbol s /\
  ModelSort.moved (ModelSort.resumen s) = ModelSort.moved s /\
  ModelSort.duplicates (ModelSort.resumen s) = ModelSort.duplicates s /\
  ModelSort.unmapped (ModelSort.resumen s) = ModelSort.unmapped s.
Proof.
  unfold ModelSort.resumen.
  assert (Hfold : forall (ev : FS.path -> evento) l a,
            let a' := fold_left (fun a p => ModelSort.registrar INFO (ev p) a) l a in
            ModelSort.arbol a' = ModelSort.arbol a /\
            ModelSort.moved a' = ModelSort.moved a /\
            ModelSort.duplicates a' = ModelSort.duplicates a /\
            ModelSort.unmapped a' = ModelSort.unmapped a).
  { intros ev l. induction l as [|p l IH]; intros a; cbn [fold_left]; [auto|].
    destruct (IH (ModelSort.registrar INFO (ev p) a)) as (H1 & H2 & H3 & H4).
    cbv zeta. rewrite H1, H2, H3, H4. auto. }
  destruct (Hfold EvResumenUnmapped (ModelSort.unmapped s) s) as (A1 & A2 & A3 & A4).
  destruct (Hfold EvResumenDuplicado (ModelSort.duplicates s)
              (fold_left (fun a p => ModelSort.registrar INFO (EvResumenUnmapped p) a)
                 (ModelSort.unmapped s) s)) as (B1 & B2 & B3 & B4).
  cbv zeta in *. rewrite B1, B2, B3, B4. auto.
Qed.

Lemma model_inv_initial t0 :
  FS.find t0 ModelSort.CAMERAS_DIR = Some FS.Dir -> model_inv t0 (ModelSort.inicial t0).
Proof.
  intros Hroot. split; cbn; [exact Hroot | auto | auto | intros p []].
Qed.

(** The invariant holds when a run ends, whether normally or through an
    exception, as soon as [CAMERAS] is a directory. *)
Lemma run_model_inv env t0 :
  FS.find t0 ModelSort.CAMERAS_DIR = Some FS.Dir ->
  model_inv t0 (fst (ModelSort.run env t0)).
Proof.
  intros Hroot. unfold ModelSort.run, ModelSort.classify_images.
  cbn [ModelSort.arbol ModelSort.inicial].
  assert (Hd : FS.os_path_isdir t0 ModelSort.CAMERAS_DIR = true)
    by (apply isdir_true; exact Hroot).
  rewrite Hd. cbn [negb].
  destruct (for_each (ModelSort.classify_item env) (ModelSort.inicial t0)
              (FS.os_listdir t0 ModelSort.CAMERAS_DIR)) as [s' e] eqn:Hloop.
  assert (Hinv : model_inv t0 s').
  { eapply (for_each_inv (ModelSort.classify_item env) (model_inv t0));
      [|apply model_inv_initial; exact Hroot | exact Hloop].
    intros. eapply classify_item_inv; eassumption. }
  destruct e as [ex|]; cbn [fst]; [exact Hinv|].
  destruct (resumen_state s') as (Ha & Hm & _).
  eapply model_inv_same; eassumption.
Qed.

Lemma source_path_inj i j : source_path i = source_path j -> i = j.
Proof. intros H. apply os_path_join_inj in H. tauto. Qed.

(** No data loss in the model sorter: a file of [CAMERAS] that is not
    listed as moved is still there, unchanged; one that is listed as moved
    is gone from [CAMERAS] and is, unchanged, in the folder of its model. *)
Lemma model_sort_no_data_loss env t0 item f :
  FS.find t0 (source_path item) = Some (FS.File f) ->
  let s' := fst (ModelSort.run env t0) in
  (~ In (source_path item) (ModelSort.moved s') ->
     FS.find (ModelSort.arbol s') (source_path item) = Some (FS.File f)) /\
  (In (source_path item) (ModelSort.moved s') ->
     FS.find (ModelSort.arbol s') (source_path item) = None /\
     exists folder, folder_of_file f = Some folder /\
                    landed (ModelSort.arbol s') folder item f).
Proof.
  intros Hf s'.
  destruct (FS.find t0 ModelSort.CAMERAS_DIR) as [[g|]|] eqn:Hroot.
  1,3: (assert (Hs : s' = ModelSort.registrar CRITICAL (EvNoRoot ModelSort.CAMERAS_DIR)
                          (ModelSort.inicial t0));
        [subst s'; unfold ModelSort.run, ModelSort.classify_images;
         cbn [ModelSort.arbol ModelSort.inicial]; unfold FS.os_path_isdir;
         rewrite Hroot; reflexivity|];
        rewrite Hs; cbn; split; [auto | intros []]).
  pose proof (run_model_inv env t0 Hroot) as Hinv. fold s' in Hinv.
  split.
  - intros Hn. apply (mi_kept _ _ Hinv); assumption.
  - intros Hin. destruct (mi_moved _ _ Hinv _ Hin)
      as (i & g & folder & Heq & _ & H0 & Hnone & Hfo & Hl).
    apply source_path_inj in Heq. subst i.
    assert (g = f) by congruence. subst g. eauto.
Qed.

(* --------------------------------------------------------------------- *)
(** ** A month folder is never taken for a photo                           *)
(* --------------------------------------------------------------------- *)

Lemma list_ascii_of_string_app s1 s2 :
  list_ascii_of_string (s1 ++ s2) = list_ascii_of_string s1 ++ list_ascii_of_string s2.
Proof. induction s1 as [|c s1 IH]; simpl; [reflexivity | rewrite IH; reflexivity]. Qed.

Lemma plain_char_cases c :
  plain_char c = true ->
  is_dot c = false /\ lower_ascii c = c /\
  forall rest, in_strings (String "." (String c rest)) DateSort.PHOTO_EXTENSIONS = false.
Proof.
  unfold plain_char. cbn [list_ascii_of_string existsb].
  intros H. repeat (apply orb_prop in H; destruct H as [H|H]);
    try discriminate H;
    apply Ascii.eqb_eq in H; subst c; repeat split; reflexivity.
Qed.

Lemma uint_chars_plain (d : Decimal.uint) :
  Forall (fun c => plain_char c = true)
         (list_ascii_of_string (NilEmpty.string_of_uint d)).
Proof.
  induction d; cbn [NilEmpty.string_of_uint list_ascii_of_string];
    constructor; try assumption; reflexivity.
Qed.

Lemma str_chars_plain (n : Z) :
  Forall (fun c => plain_char c = true) (list_ascii_of_string (Fecha.str n)).
Proof.
  unfold Fecha.str, NilZero.string_of_int, NilZero.string_of_uint.
  destruct (Z.to_int n) as [d|d].
  - destruct d; try apply uint_chars_plain. repeat constructor.
  - cbn [list_ascii_of_string]. constructor; [reflexivity|].
    destruct d; try apply uint_chars_plain. repeat constructor.
Qed.

Lemma str02_chars_plain (n : Z) :
  Forall (fun c => plain_char c = true) (list_ascii_of_string (Fecha.str02 n)).
Proof.
  unfold Fecha.str02. destruct (String.length (Fecha.str n) <? 2)%nat.
  - cbn [append list_ascii_of_string]. constructor; [reflexivity | apply str_chars_plain].
  - apply str_chars_plain.
Qed.

Lemma cut_at_dot_plain (l : list ascii) : forall rest acc,
  Forall (fun c => plain_char c = true) l ->
  cut_at_dot (l ++ "."%char :: rest) acc = Some (rev l ++ acc, rest).
Proof.
  induction l as [|c l IH]; intros rest acc Hl; cbn [app cut_at_dot rev].
  - reflexivity.
  - inversion Hl as [|? ? Hc Hl']; subst.
    destruct (plain_char_cases c Hc) as (Hdot & _). rewrite Hdot.
    rewrite IH by assumption. rewrite <- app_assoc. reflexivity.
Qed.

Lemma lower_plain (l : list ascii) :
  Forall (fun c => plain_char c = true) l -> map lower_ascii l = l.
Proof.
  induction 1 as [|c l Hc _ IH]; cbn [map]; [reflexivity|].
  destruct (plain_char_cases c Hc) as (_ & -> & _). rewrite IH. reflexivity.
Qed.

(** The name of a month folder has no photo extension. *)
Lemma folder_name_not_photo (fecha : Fecha.datetime) :
  is_photo (DateSort.generar_nombre_carpeta fecha) = false.
Proof.
  unfold is_photo, DateSort.generar_nombre_carpeta, os_path_splitext.
  rewrite !list_ascii_of_string_app. cbn [list_ascii_of_string app].
  rewrite rev_app_distr. cbn [rev app]. rewrite <- app_assoc. cbn [app].
  pose proof (str02_chars_plain (Fecha.month fecha)) as Hm.
  set (M := list_ascii_of_string (Fecha.str02 (Fecha.month fecha))) in *.
  rewrite cut_at_dot_plain by (apply Forall_rev; exact Hm).
  rewrite app_nil_r.
  destruct (existsb _ _); cbn [snd]; [|reflexivity].
  unfold lower. rewrite list_ascii_of_string_of_list_ascii. cbn [map].
  rewrite !rev_involutive, (lower_plain M Hm).
  change (lower_ascii ".") with "."%char.
  destruct Hm as [|c M' Hc _]; [reflexivity|].
  cbn [string_of_list_ascii]. apply (plain_char_cases c Hc).
Qed.

(* --------------------------------------------------------------------- *)
(** ** The date sorter: what a run keeps true                              *)
(* --------------------------------------------------------------------- *)

Lemma movidos_de_app l1 l2 : movidos_de (l1 ++ l2) = movidos_de l1 ++ movidos_de l2.
Proof. unfold movidos_de. apply flat_map_app. Qed.

Lemma leer_fecha_log t p tr :
  exists extra, log (snd (DateSort.leer_fecha_con_exiftool t p tr)) = log tr ++ extra /\
                movidos_de extra = [] /\
                hashed (snd (DateSort.leer_fecha_con_exiftool t p tr)) = hashed tr.
Proof.
  unfold DateSort.leer_fecha_con_exiftool.
  destruct (DateSort.exiftool t p) as [| | | |dto cd ss]; cbn;
    try (eexists; split; [reflexivity | split; reflexivity]);
    try (exists []; rewrite app_nil_r; repeat split; reflexivity).
  destruct dto; destruct cd; destruct ss; cbn;
    try (eexists; split; [reflexivity | split; reflexivity]);
    try (exists []; rewrite app_nil_r; repeat split; reflexivity).
Qed.

(** Looking up the date only adds warnings and errors to the log. *)
Lemma obtener_fecha_log env t p tr :
  movidos_de (log (snd (DateSort.obtener_fecha_captura env t p tr))) = movidos_de (log tr).
Proof.
  unfold DateSort.obtener_fecha_captura.
  destruct (leer_fecha_log t p tr) as (extra & Hlog & Hextra & _).
  destruct (DateSort.leer_fecha_con_exiftool t p tr) as [[d|] tr1]; cbn [snd] in *.
  - rewrite Hlog, movidos_de_app, Hextra, app_nil_r. reflexivity.
  - destruct (DateSort.stat_ctime t p); cbn [snd].
    + rewrite Hlog, movidos_de_app, Hextra, app_nil_r. reflexivity.
    + destruct (DateSort.stat_mtime t p); cbn [snd log logger];
        rewrite ?movidos_de_app, Hlog, movidos_de_app, Hextra; cbn;
        rewrite ?app_nil_r; reflexivity.
Qed.

(** The date found for a file depends on the file and the clock only. *)
Lemma obtener_fecha_fst env t t' p tr tr' :
  FS.find t p = FS.find t' p ->
  fst (DateSort.obtener_fecha_captura env t p tr) =
  fst (DateSort.obtener_fecha_captura env t' p tr').
Proof.
  intros Hf. unfold DateSort.obtener_fecha_captura, DateSort.leer_fecha_con_exiftool,
    DateSort.exiftool, DateSort.stat_ctime, DateSort.stat_mtime.
  rewrite <- Hf. destruct (FS.find t p) as [[f|]|]; cbn; try reflexivity.
  destruct (FS.exif_fechas f) as [| | | |dto cd ss]; cbn;
    try (destruct (FS.st_ctime f); cbn; [reflexivity|];
         destruct (FS.st_mtime f); reflexivity).
  destruct dto; destruct cd; destruct ss; cbn; try reflexivity;
    try (destruct (FS.st_ctime f); cbn; [reflexivity|];
         destruct (FS.st_mtime f); reflexivity).
Qed.

Lemma date_grown_find_file t t1 cam fecha q f :
  date_grown_by t t1 cam fecha ->
  (FS.find t1 q = Some (FS.File f) <-> FS.find t q = Some (FS.File f)).
Proof. intros [->|[-> _]]; [tauto | apply find_app_dirs_file]. Qed.

Lemma date_grown_find_Some t t1 cam fecha q n :
  date_grown_by t t1 cam fecha -> FS.find t q = Some n -> FS.find t1 q = Some n.
Proof.
  intros [->|[-> _]] H; [exact H|]. rewrite find_app_dirs, H. reflexivity.
Qed.

Lemma date_grown_find_None t t1 cam fecha q :
  date_grown_by t t1 cam fecha -> FS.find t q = None -> q <> month_dir cam fecha ->
  FS.find t1 q = None.
Proof.
  intros [->|[-> _]] H Hne; [exact H|]. rewrite find_app_dirs, H.
  case_decide as Hin; [|reflexivity].
  apply list_elem_of_singleton in Hin. contradiction.
Qed.

Lemma photo_not_month cam item cam' fecha :
  is_photo item = true -> photo_path cam item <> month_dir cam' fecha.
Proof.
  intros Hp Heq. unfold photo_path, month_dir in Heq.
  apply os_path_join_inj in Heq. destruct Heq as [_ ->].
  rewrite folder_name_not_photo in Hp. discriminate.
Qed.

Lemma folder_ready_grown env s0 cam fecha s1 :
  DateStep.folder_ready env s0 (month_dir cam fecha) s1 ->
  date_grown_by (DateSort.arbol s0) (DateSort.arbol s1) cam fecha /\
  movidos s1 = movidos s0 /\
  DateSort.duplicates s1 = DateSort.duplicates s0 /\
  DateSort.folders_report s1 = DateSort.folders_report s0 /\
  FS.os_path_exists (DateSort.arbol s1) (month_dir cam fecha) = true.
Proof.
  intros [Hex | t1 Hex Hmk].
  - repeat split; try reflexivity; [left; reflexivity | exact Hex].
  - apply os_mkdir_Ok in Hmk. destruct Hmk as (-> & Hnone & _).
    unfold movidos.
    cbn [DateSort.arbol DateSort.registrar DateSort.con_arbol DateSort.con_traza
         DateSort.tz DateSort.duplicates DateSort.folders_report logger log].
    rewrite movidos_de_app. cbn [movidos_de flat_map snd app]. rewrite app_nil_r.
    repeat split; try reflexivity.
    + right. split; [reflexivity | exact Hnone].
    + apply exists_true. exists FS.Dir. rewrite find_app_dirs, Hnone.
      case_decide as Hin; [reflexivity|]. exfalso. apply Hin. left.
Qed.

Lemma date_inv_grown t0 s cam fecha s1 :
  date_inv t0 s ->
  date_grown_by (DateSort.arbol s) (DateSort.arbol s1) cam fecha ->
  movidos s1 = movidos s ->
  date_inv t0 s1.
Proof.
  intros [Hpres Hkept Hmoved] Hg Hm. split; rewrite ?Hm.
  - intros c i f Hf. apply Hpres. apply (date_grown_find_file _ _ _ _ _ _ Hg). exact Hf.
  - intros p f Hf Hn. apply (date_grown_find_file _ _ _ _ _ _ Hg). apply Hkept; assumption.
  - intros p d Hin.
    destruct (Hmoved p d Hin) as (c & i & fe & f & -> & -> & Hph & H0 & Hnone & Hd).
    exists c, i, fe, f. repeat split; try assumption.
    + apply (date_grown_find_None _ _ _ _ _ Hg Hnone). apply photo_not_month. exact Hph.
    + apply (date_grown_find_Some _ _ _ _ _ _ Hg Hd).
Qed.

Lemma date_inv_same t0 s s1 :
  date_inv t0 s -> DateSort.arbol s1 = DateSort.arbol s -> movidos s1 = movidos s ->
  date_inv t0 s1.
Proof.
  intros Hinv Ht Hm. apply (date_inv_grown t0 s "" (Fecha.DT 0 0 0 0 0 0) s1 Hinv);
    [left; exact Ht | exact Hm].
Qed.

Lemma candidate_photo t cam item :
  DateStep.candidate t (camera_dir cam) item = true -> is_photo item = true.
Proof. intros H. apply candidate_true in H. tauto. Qed.

(** A move to a free destination writes exactly there. *)
Lemma shutil_move_free env t src dst t2 :
  FS.os_path_exists t dst = false ->
  FS.shutil_move env t src dst = Ok t2 ->
  exists f, FS.find t src = Some (FS.File f) /\
            t2 = FS.put (FS.remove t src) dst (FS.File f) /\
            FS.move_fails env src dst = false /\
            FS.parent_is_dir t dst = true.
Proof.
  intros Hex Hmove. apply shutil_move_Ok in Hmove.
  assert (Hrd : FS.real_dst t src dst = dst).
  { unfold FS.real_dst, FS.os_path_isdir. apply exists_false in Hex. rewrite Hex.
    reflexivity. }
  rewrite Hrd in Hmove. destruct Hmove as (f & Hf & Ht & Hmf & Hpar & _). eauto.
Qed.

Lemma date_inv_moved t0 s1 cam item fecha f s' :
  date_inv t0 s1 ->
  is_photo item = true ->
  FS.find (DateSort.arbol s1) (photo_path cam item) = Some (FS.File f) ->
  FS.find (DateSort.arbol s1) (FS.os_path_join (month_dir cam fecha) item) = None ->
  DateSort.arbol s' =
    FS.put (FS.remove (DateSort.arbol s1) (photo_path cam item))
      (FS.os_path_join (month_dir cam fecha) item) (FS.File f) ->
  movidos s' =
    movidos s1 ++ [(photo_path cam item, FS.os_path_join (month_dir cam fecha) item)] ->
  date_inv t0 s'.
Proof.
  intros [Hpres Hkept Hmoved] Hph Hsrc Hfree Ht Hm.
  set (src := photo_path cam item) in *.
  set (dst := FS.os_path_join (month_dir cam fecha) item) in *.
  assert (Hne : forall c i, dst <> photo_path c i) by (intros c i; discriminate).
  split; rewrite ?Ht, ?Hm, ?map_app; cbn [map fst].
  - intros c i g. rewrite find_moved.
    case_decide as H1; [destruct (Hne c i H1)|].
    case_decide as H2; [discriminate|].
    intros Hg. destruct (Hpres _ _ _ Hg) as [H0 Hnm]. split; [exact H0|].
    intros [Hin|[Heq|[]]]%in_app_iff; [contradiction | congruence].
  - intros p g H0 Hnm. rewrite find_moved.
    assert (Hp : FS.find (DateSort.arbol s1) p = Some (FS.File g)).
    { apply Hkept; [exact H0|]. intros Hin. apply Hnm, in_app_iff. left. exact Hin. }
    case_decide as H1; [congruence|].
    case_decide as H2; [|exact Hp].
    exfalso. apply Hnm, in_app_iff. right. left. exact H2.
  - intros p d [Hin|[[= <- <-]|[]]]%in_app_iff.
    + destruct (Hmoved p d Hin) as (c & i & fe & g & -> & -> & Hphi & H0 & Hnone & Hd).
      exists c, i, fe, g. repeat split; try assumption.
      * rewrite find_moved. case_decide as H1; [destruct (Hne c i H1)|].
        case_decide; [congruence | exact Hnone].
      * rewrite find_moved. case_decide as H1; [congruence|].
        case_decide as H2; [discriminate H2 | exact Hd].
    + exists cam, item, fecha, f. destruct (Hpres _ _ _ Hsrc) as [H0 _].
      repeat split; try assumption.
      * rewrite find_moved. case_decide as H1; [destruct (Hne cam item H1)|].
        case_decide; [reflexivity | congruence].
      * rewrite find_moved. case_decide; [reflexivity | congruence].
Qed.

Lemma obtener_fecha_movidos env s cam item fecha tr :
  DateSort.obtener_fecha_captura env (DateSort.arbol s) (FS.os_path_join (camera_dir cam) item)
    (DateSort.tz s) = (fecha, tr) ->
  movidos (DateSort.con_traza tr s) = movidos s.
Proof.
  intros H. unfold movidos. cbn [DateSort.tz DateSort.con_traza].
  pose proof (obtener_fecha_log env (DateSort.arbol s)
                (FS.os_path_join (camera_dir cam) item) (DateSort.tz s)) as Hl.
  rewrite H in Hl. exact Hl.
Qed.

Lemma movidos_registrar l ev s :
  movidos_de [(l, ev)] = [] -> movidos (DateSort.registrar l ev s) = movidos s.
Proof.
  intros H. unfold movidos. cbn [DateSort.registrar DateSort.con_traza DateSort.tz logger log].
  rewrite movidos_de_app, H, app_nil_r. reflexivity.
Qed.

Lemma movidos_error_al_mover ex item d :
  movidos_de [(ERROR, DateSort.error_al_mover ex item d)] = [].
Proof. unfold DateSort.error_al_mover. destruct (is_exc _ ex); reflexivity. Qed.

(** One turn of the inner loop keeps the invariant. *)
Lemma procesar_item_inv env t0 cam s item s' e :
  date_inv t0 s ->
  DateSort.procesar_item env (camera_dir cam) s item = (s', e) ->
  date_inv t0 s'.
Proof.
  intros Hinv Hstep. apply procesar_item_step in Hstep.
  destruct Hstep as
    [ Hc | fecha tr ex Hc Hf Haj | fecha tr fecha' ex Hc Hf Haj d Hex Hmk
    | fecha tr fecha' s1 Hc Hf Haj d Hready Hnu
    | fecha tr fecha' s1 ex Hc Hf Haj d Hready Hnu Hsize
    | fecha tr fecha' s1 size ex Hc Hf Haj d Hready Hnu Hsize Hmove
    | fecha tr fecha' s1 size t2 Hc Hf Haj d Hready Hnu Hsize Hmove ].
  - exact Hinv.
  - eapply date_inv_same; [exact Hinv | reflexivity | eapply obtener_fecha_movidos; exact Hf].
  - eapply date_inv_same; [exact Hinv | reflexivity |].
    rewrite movidos_registrar by reflexivity. eapply obtener_fecha_movidos; exact Hf.
  - apply (folder_ready_grown env _ cam fecha') in Hready.
    destruct Hready as (Hg & Hm & _).
    eapply (date_inv_grown t0 s cam fecha'); [exact Hinv | exact Hg |].
    transitivity (movidos s1); [|rewrite Hm; eapply obtener_fecha_movidos; exact Hf].
    unfold movidos. cbn [DateSort.duplicates_append DateSort.registrar DateSort.con_traza
                         DateSort.tz logger log].
    rewrite movidos_de_app. cbn. rewrite app_nil_r. reflexivity.
  - apply (folder_ready_grown env _ cam fecha') in Hready.
    destruct Hready as (Hg & Hm & _).
    eapply (date_inv_grown t0 s cam fecha'); [exact Hinv | exact Hg |].
    rewrite movidos_registrar by reflexivity.
    rewrite Hm. eapply obtener_fecha_movidos; exact Hf.
  - apply (folder_ready_grown env _ cam fecha') in Hready.
    destruct Hready as (Hg & Hm & _).
    eapply (date_inv_grown t0 s cam fecha'); [exact Hinv | exact Hg |].
    rewrite movidos_registrar by apply movidos_error_al_mover.
    rewrite Hm. eapply obtener_fecha_movidos; exact Hf.
  - apply (folder_ready_grown env _ cam fecha') in Hready.
    destruct Hready as (Hg & Hm & _). cbn [DateSort.arbol DateSort.con_traza] in Hg.
    assert (Hinv1 : date_inv t0 s1).
    { eapply (date_inv_grown t0 s cam fecha'); [exact Hinv | exact Hg |].
      rewrite Hm. eapply obtener_fecha_movidos; exact Hf. }
    apply shutil_move_free in Hmove; [|exact Hnu].
    destruct Hmove as (f & Hsrc & -> & _).
    apply exists_false in Hnu.
    eapply (date_inv_moved t0 s1 cam item fecha' f); eauto.
    + eapply candidate_photo; exact Hc.
    + unfold movidos. cbn [DateSort.tz logger log]. rewrite movidos_de_app. reflexivity.
Qed.

Lemma procesar_camara_inv env t0 s camera_folder s' e :
  date_inv t0 s -> DateSort.procesar_camara env s camera_folder = (s', e) ->
  date_inv t0 s'.
Proof.
  intros Hinv. unfold DateSort.procesar_camara.
  destruct (String.eqb camera_folder "PRIVATE"); [intros [= <- <-]; exact Hinv|].
  destruct (FS.os_path_isdir _ _); cbn [negb]; [|intros [= <- <-]; exact Hinv].
  apply (for_each_inv (DateSort.procesar_item env (camera_dir camera_folder)) (date_inv t0)).
  - intros. eapply procesar_item_inv; eassumption.
  - eapply date_inv_same; [exact Hinv | reflexivity |].
    apply movidos_registrar. reflexivity.
Qed.

Lemma date_inv_initial t0 : date_inv t0 (DateSort.inicial t0).
Proof. split; cbn; [auto | auto | intros p d []]. Qed.

Lemma run_date_inv env t0 camaras : date_inv t0 (fst (DateSort.run env t0 camaras)).
Proof.
  unfold DateSort.run, DateSort.organizar_fotos_por_fecha.
  destruct (for_each (DateSort.procesar_camara env) (DateSort.inicial t0) camaras)
    as [s' e] eqn:Hloop. cbn [fst].
  eapply (for_each_inv (DateSort.procesar_camara env) (date_inv t0));
    [|apply date_inv_initial | exact Hloop].
  intros. eapply procesar_camara_inv; eassumption.
Qed.

(** No data loss in the date sorter: a file that no log line reports as
    moved is still at its path, unchanged; a file reported as moved is gone
    from its path and is, unchanged, at the destination the line names. *)
Lemma date_sort_no_data_loss env t0 camaras p f :
  FS.find t0 p = Some (FS.File f) ->
  let s' := fst (DateSort.run env t0 camaras) in
  (~ In p (map fst (movidos s')) -> FS.find (DateSort.arbol s') p = Some (FS.File f)) /\
  (forall d, In (p, d) (movidos s') ->
     FS.find (DateSort.arbol s') p = None /\ FS.find (DateSort.arbol s') d = Some (FS.File f)).
Proof.
  intros Hf s'. pose proof (run_date_inv env t0 camaras) as Hinv. fold s' in Hinv.
  split.
  - intros Hn. apply (di_kept _ _ Hinv); assumption.
  - intros d Hin.
    destruct (di_moved _ _ Hinv _ _ Hin) as (c & i & fe & g & _ & _ & _ & H0 & Hnone & Hd).
    assert (g = f) by congruence. subst g. auto.
Qed.

(* --------------------------------------------------------------------- *)
(** ** No data loss                                                        *)
(* --------------------------------------------------------------------- *)

(** C1. In one run, a file whose outcome is not "moved" is still at its
    source path, unchanged, after the run (whether the run ends normally
    or not), and a file whose outcome is "moved" is gone from its source
    path while the destination holds the same file, byte for byte. For the
    model sorter the outcome is membership in [moved] and the destination
    is the folder of the model of the file; for the date sorter the outcome
    and the destination are those of the "moved" line of the log, and the
    cameras of the run are entries of the cameras folder, as
    [seleccionar_camaras] hands them over. *)
Theorem no_data_loss :
  (forall env t0 item f,
     FS.find t0 (source_path item) = Some (FS.File f) ->
     let s' := fst (ModelSort.run env t0) in
     (~ In (source_path item) (ModelSort.moved s') ->
        FS.find (ModelSort.arbol s') (source_path item) = Some (FS.File f)) /\
     (In (source_path item) (ModelSort.moved s') ->
        FS.find (ModelSort.arbol s') (source_path item) = None /\
        exists folder, folder_of_file f = Some folder /\
                       landed (ModelSort.arbol s') folder item f)) /\
  (forall env t0 camaras p f,
     entradas t0 DateSort.CAMERAS_DIR camaras ->
     FS.find t0 p = Some (FS.File f) ->
     let s' := fst (DateSort.run env t0 camaras) in
     (~ In p (map fst (movidos s')) -> FS.find (DateSort.arbol s') p = Some (FS.File f)) /\
     (forall d, In (p, d) (movidos s') ->
        FS.find (DateSort.arbol s') p = None /\
        FS.find (DateSort.arbol s') d = Some (FS.File f))).
Proof.
  split.
  - intros env t0 item f Hf. apply model_sort_no_data_loss. exact Hf.
  - intros env t0 camaras p f _ Hf. apply date_sort_no_data_loss. exact Hf.
Qed.

Lemma no_data_loss_witness :
  (FS.find (ModelSort.arbol (fst (ModelSort.run entorno_ok arbol_una_foto)))
     (source_path "solo.jpg") = None /\
   exists folder,
     folder_of_file (foto_sony "pixels") = Some folder /\
     landed (ModelSort.arbol (fst (ModelSort.run entorno_ok arbol_una_foto)))
       folder "solo.jpg" (foto_sony "pixels")) /\
  (FS.find (DateSort.arbol (fst (DateSort.run entorno_ok arbol_mayo ["EOS"%string])))
     ["CAMARAS"; "EOS"; "IMG_1.JPG"]%string = None /\
   FS.find (DateSort.arbol (fst (DateSort.run entorno_ok arbol_mayo ["EOS"%string])))
     ["CAMARAS"; "EOS"; "2024.05"; "IMG_1.JPG"]%string = Some (FS.File (foto_mayo "hash X"))).
Proof.
  split.
  - apply (proj1 no_data_loss entorno_ok arbol_una_foto "solo.jpg"%string
             (foto_sony "pixels")).
    + reflexivity.
    + vm_compute. left. reflexivity.
  - apply (proj2 no_data_loss entorno_ok arbol_mayo ["EOS"%string]
             ["CAMARAS"; "EOS"; "IMG_1.JPG"]%string (foto_mayo "hash X")).
    + intros n [<- | []]. vm_compute. left. reflexivity.
    + reflexivity.
    + vm_compute. left. reflexivity.
Defined.

(* --------------------------------------------------------------------- *)
(** ** Errors stay with their file                                         *)
(* --------------------------------------------------------------------- *)

Lemma classify_item_lists env s item s' e :
  ModelSort.classify_item env s item = (s', e) ->
  incl (ModelSort.moved s) (ModelSort.moved s') /\
  incl (ModelSort.duplicates s) (ModelSort.duplicates s') /\
  incl (ModelSort.unmapped s) (ModelSort.unmapped s') /\
  (e = None ->
   FS.os_path_isfile (ModelSort.arbol s) (source_path item) = true ->
   ModelStep.allowed item = true -> reported s' (source_path item)) /\
  (forall ex, e = Some ex ->
     exists folder t,
       FS.os_makedirs env (ModelSort.arbol s) (ModelStep.dest_of folder) = (t, Some ex)).
Proof.
  intros Hstep. apply classify_item_step in Hstep. unfold reported.
  destruct Hstep as
    [ Hfile | Hfile Hal | s1 Hfile Hal Hmod | model s1 Hfile Hal Hmod Hfo
    | model s1 folder t ex Hfile Hal Hmod Hfo Hmk
    | model s1 folder t s3 Hfile Hal Hmod Hfo Hmk Hdup
    | model s1 folder t s3 ex Hfile Hal Hmod Hfo Hmk Hdup Hmove
    | model s1 folder t s3 t' Hfile Hal Hmod Hfo Hmk Hdup Hmove ];
    fold (source_path item) in *;
    try (apply get_camera_model_state in Hmod;
         destruct Hmod as (Ha & Hu & Hd & Hm & _); cbn in Ha, Hu, Hd, Hm);
    try (apply is_duplicate_state in Hdup;
         destruct Hdup as (Ha3 & Hm3 & Hd3 & Hu3 & _); cbn in Ha3, Hm3, Hd3, Hu3;
         rewrite Hu in Hu3);
    cbn [ModelSort.moved ModelSort.duplicates ModelSort.unmapped ModelSort.registrar
         ModelSort.con_traza ModelSort.con_arbol ModelSort.unmapped_append
         ModelSort.duplicates_append ModelSort.moved_append ModelSort.scanned_add];
    rewrite ?Hm3, ?Hd3, ?Hm, ?Hd, ?Hu;
    (split; [|split; [|split; [|split]]]);
    try (first [ apply incl_refl | apply incl_appl, incl_refl | exact Hu3
               | apply incl_appl; exact Hu3 ]);
    try (intros ex0 Hex; discriminate Hex);
    try (intros _ _ _; first
           [ left; apply in_app_iff; right; left; reflexivity
           | right; left; apply in_app_iff; right; left; reflexivity
           | right; right; apply in_app_iff; right; left; reflexivity ]).
  - congruence.
  - congruence.
  - discriminate.
  - intros ex' [= <-]. exists folder, t. rewrite <- Ha. exact Hmk.
Qed.








(** What the amended statement leaves out: [os.makedirs] is called outside
    any [try], so when it fails the exception ends the run of the model
    sorter, and the photos not yet reached are in no list. *)
Example makedirs_failure_ends_the_run :
  let r := ModelSort.run entorno_ok arbol_carpeta_ocupada in
  snd r = Some (OSError "FileExistsError") /\
  ModelSort.moved (fst r) = [] /\ ModelSort.duplicates (fst r) = [] /\
  ModelSort.unmapped (fst r) = [].
Proof. cbv zeta. repeat split; vm_compute; reflexivity. Qed.

(* --------------------------------------------------------------------- *)
(** ** Running the date sorter a second time                               *)
(* --------------------------------------------------------------------- *)

Lemma obtener_fecha_de env t p tr :
  exists tr', DateSort.obtener_fecha_captura env t p tr = (fecha_de env t p, tr') /\
              movidos_de (log tr') = movidos_de (log tr).
Proof.
  pose proof (obtener_fecha_fst env t t p tr traza_vacia eq_refl) as Hfst.
  pose proof (obtener_fecha_log env t p tr) as Hlog.
  destruct (DateSort.obtener_fecha_captura env t p tr) as [fecha tr'] eqn:H.
  exists tr'. cbn [fst snd] in *. unfold fecha_de. rewrite <- Hfst. auto.
Qed.

(** A turn on a settled name ends normally and leaves the tree, the
    report and the list of moves as they are. *)
Lemma settled_quiet env cam item s :
  settled env (DateSort.arbol s) cam item ->
  exists s',
    DateSort.procesar_item env (camera_dir cam) s item = (s', None) /\
    DateSort.arbol s' = DateSort.arbol s /\
    DateSort.folders_report s' = DateSort.folders_report s /\
    movidos s' = movidos s /\
    incl (DateSort.duplicates s') (DateSort.duplicates s ++ [photo_path cam item]).
Proof.
  intros Hs.
  destruct (obtener_fecha_de env (DateSort.arbol s) (photo_path cam item) (DateSort.tz s))
    as (tr & Hf & Hmv).
  unfold DateSort.procesar_item. fold (photo_path cam item).
  destruct Hs as [Hc | fe ex Hc Haj Hex Hmk | fe Hc Haj Hex Hnu
                 | fe ex Hc Haj Hex Hnu Hsz | fe sz ex Hc Haj Hex Hnu Hsz Hmove].
  - unfold DateStep.candidate in Hc. fold (photo_path cam item) in Hc.
    destruct (FS.os_path_isdir (DateSort.arbol s) (photo_path cam item)).
    + eexists. split; [reflexivity|]. repeat split; try reflexivity.
      apply incl_appl, incl_refl.
    + cbn [negb andb] in Hc. rewrite Hc. cbn [negb].
      eexists. split; [reflexivity|]. repeat split; try reflexivity.
      apply incl_appl, incl_refl.
  - apply candidate_true in Hc. destruct Hc as [Hdir Hext].
    fold (photo_path cam item) in Hdir. rewrite Hdir, Hext. cbn [negb].
    rewrite Hf, Haj. cbn [DateSort.arbol DateSort.con_traza].
    fold (month_dir cam fe). rewrite Hex. cbn [negb]. rewrite Hmk.
    eexists. split; [reflexivity|]. repeat split; try reflexivity.
    + rewrite movidos_registrar by reflexivity. exact Hmv.
    + apply incl_appl, incl_refl.
  - apply candidate_true in Hc. destruct Hc as [Hdir Hext].
    fold (photo_path cam item) in Hdir. rewrite Hdir, Hext. cbn [negb].
    rewrite Hf, Haj. cbn [DateSort.arbol DateSort.con_traza].
    fold (month_dir cam fe). rewrite Hex. cbn [negb DateSort.arbol DateSort.con_traza].
    rewrite Hnu.
    eexists. split; [reflexivity|]. repeat split; try reflexivity.
    + unfold movidos. cbn [DateSort.duplicates_append DateSort.registrar DateSort.con_traza
                           DateSort.tz logger log].
      rewrite movidos_de_app. cbn. rewrite app_nil_r. exact Hmv.
    + apply incl_refl.
  - apply candidate_true in Hc. destruct Hc as [Hdir Hext].
    fold (photo_path cam item) in Hdir. rewrite Hdir, Hext. cbn [negb].
    rewrite Hf, Haj. cbn [DateSort.arbol DateSort.con_traza].
    fold (month_dir cam fe). rewrite Hex. cbn [negb DateSort.arbol DateSort.con_traza].
    rewrite Hnu, Hsz.
    eexists. split; [reflexivity|]. repeat split; try reflexivity.
    + rewrite movidos_registrar by reflexivity. exact Hmv.
    + apply incl_appl, incl_refl.
  - apply candidate_true in Hc. destruct Hc as [Hdir Hext].
    fold (photo_path cam item) in Hdir. rewrite Hdir, Hext. cbn [negb].
    rewrite Hf, Haj. cbn [DateSort.arbol DateSort.con_traza].
    fold (month_dir cam fe). rewrite Hex. cbn [negb DateSort.arbol DateSort.con_traza].
    rewrite Hnu, Hsz, Hmove.
    eexists. split; [reflexivity|]. repeat split; try reflexivity.
    + rewrite movidos_registrar by apply movidos_error_al_mover. exact Hmv.
    + apply incl_appl, incl_refl.
Qed.

(** What a turn does on a name depends on four entries of the tree: the
    photo, the camera folder, the month folder and the name in it. *)
Lemma os_mkdir_agree env t t' cam fecha ex :
  FS.find t' (month_dir cam fecha) = FS.find t (month_dir cam fecha) ->
  FS.find t' (camera_dir cam) = FS.find t (camera_dir cam) ->
  FS.os_mkdir env t (month_dir cam fecha) = Raise ex ->
  FS.os_mkdir env t' (month_dir cam fecha) = Raise ex.
Proof.
  intros Hd Hc. unfold FS.os_mkdir, FS.os_path_exists, FS.parent_is_dir, FS.os_path_isdir.
  rewrite Hd.
  assert (Hdn : FS.dirname (month_dir cam fecha) = camera_dir cam) by reflexivity.
  rewrite Hdn. cbn [camera_dir FS.os_path_join DateSort.CAMERAS_DIR app].
  change ["CAMARAS"%string; cam] with (camera_dir cam). rewrite Hc.
  destruct (FS.find t (month_dir cam fecha)); [auto|].
  destruct (FS.find t (camera_dir cam)) as [[g|]|]; cbn [negb]; auto.
  destruct (FS.mkdir_fails env (month_dir cam fecha)); [auto | discriminate].
Qed.

Lemma dirname_join d n : FS.dirname (FS.os_path_join d n) = d.
Proof. unfold FS.dirname, FS.os_path_join. apply removelast_last. Qed.

Lemma shutil_move_to_free env t src dst :
  FS.find t dst = None ->
  FS.shutil_move env t src dst =
    match FS.find t src with
    | Some (FS.File f) =>
        if negb (FS.parent_is_dir t dst) then Raise (OSError "FileNotFoundError")
        else if FS.move_fails env src dst then Raise (OSError "PermissionError")
        else Ok (FS.put (FS.remove t src) dst (FS.File f))
    | Some FS.Dir => Raise (OSError "IsADirectoryError")
    | None => Raise (OSError "FileNotFoundError")
    end.
Proof.
  intros Hn. unfold FS.shutil_move.
  assert (Hd : FS.os_path_isdir t dst = false)
    by (unfold FS.os_path_isdir; rewrite Hn; reflexivity).
  unfold FS.real_dst. rewrite Hd. reflexivity.
Qed.

Lemma shutil_move_agree env t t' src d n ex :
  FS.find t (FS.os_path_join d n) = None ->
  FS.find t' (FS.os_path_join d n) = None ->
  FS.find t' src = FS.find t src ->
  FS.os_path_isdir t' d = FS.os_path_isdir t d ->
  d <> [] ->
  FS.shutil_move env t src (FS.os_path_join d n) = Raise ex ->
  FS.shutil_move env t' src (FS.os_path_join d n) = Raise ex.
Proof.
  intros Hn Hn' Hsrc Hd Hne.
  rewrite !shutil_move_to_free by assumption.
  unfold FS.parent_is_dir. rewrite dirname_join, Hsrc.
  destruct d as [|x d]; [contradiction|]. rewrite Hd.
  destruct (FS.find t src) as [[f|]|]; auto.
  destruct (negb (FS.os_path_isdir t (x :: d))); [auto|].
  destruct (FS.move_fails env src (FS.os_path_join (x :: d) n)); [auto | discriminate].
Qed.

Lemma candidate_agree t t' cam item :
  FS.find t' (photo_path cam item) = FS.find t (photo_path cam item) ->
  DateStep.candidate t' (camera_dir cam) item = DateStep.candidate t (camera_dir cam) item.
Proof.
  intros H. unfold DateStep.candidate, FS.os_path_isdir.
  fold (photo_path cam item). rewrite H. reflexivity.
Qed.

Lemma fecha_de_agree env t t' p :
  FS.find t' p = FS.find t p -> fecha_de env t' p = fecha_de env t p.
Proof. intros H. unfold fecha_de. apply obtener_fecha_fst. exact H. Qed.

Lemma exists_agree t t' p :
  FS.find t' p = FS.find t p -> FS.os_path_exists t' p = FS.os_path_exists t p.
Proof. intros H. unfold FS.os_path_exists. rewrite H. reflexivity. Qed.

(** A settled name stays settled in a tree that agrees on those entries. *)
Lemma settled_agree env t t' cam item :
  FS.find t' (photo_path cam item) = FS.find t (photo_path cam item) ->
  FS.find t' (camera_dir cam) = FS.find t (camera_dir cam) ->
  (forall fecha',
     DateSort.ajustar_mes_por_horario_especial (fecha_de env t (photo_path cam item))
       = Ok fecha' ->
     FS.os_path_exists t (month_dir cam fecha') = true \/
     (exists ex, FS.os_mkdir env t (month_dir cam fecha') = Raise ex) ->
     FS.find t' (month_dir cam fecha') = FS.find t (month_dir cam fecha') /\
     FS.find t' (FS.os_path_join (month_dir cam fecha') item)
       = FS.find t (FS.os_path_join (month_dir cam fecha') item)) ->
  settled env t cam item -> settled env t' cam item.
Proof.
  intros Hp Hc Hm Hs.
  pose proof (candidate_agree t t' cam item Hp) as Hcand.
  pose proof (fecha_de_agree env t t' _ Hp) as Hfe.
  destruct Hs as [Hk | fe ex Hk Haj Hex Hmk | fe Hk Haj Hex Hnu
                 | fe ex Hk Haj Hex Hnu Hsz | fe sz ex Hk Haj Hex Hnu Hsz Hmove].
  - apply sk_skipped. congruence.
  - destruct (Hm fe Haj) as [Hd Hn]; [right; eauto|].
    apply (sk_no_folder env t' cam item fe ex); try congruence.
    + rewrite (exists_agree _ _ _ Hd). exact Hex.
    + apply (os_mkdir_agree env t t'); assumption.
  - destruct (Hm fe Haj) as [Hd Hn]; [left; assumption|].
    apply (sk_duplicate env t' cam item fe); try congruence.
    + rewrite (exists_agree _ _ _ Hd). exact Hex.
    + rewrite (exists_agree _ _ _ Hn). exact Hnu.
  - destruct (Hm fe Haj) as [Hd Hn]; [left; assumption|].
    apply (sk_no_size env t' cam item fe ex); try congruence.
    + rewrite (exists_agree _ _ _ Hd). exact Hex.
    + rewrite (exists_agree _ _ _ Hn). exact Hnu.
    + unfold FS.os_path_getsize in *. rewrite Hp. exact Hsz.
  - destruct (Hm fe Haj) as [Hd Hn]; [left; assumption|].
    apply (sk_no_move env t' cam item fe sz ex); try congruence.
    + rewrite (exists_agree _ _ _ Hd). exact Hex.
    + rewrite (exists_agree _ _ _ Hn). exact Hnu.
    + unfold FS.os_path_getsize in *. rewrite Hp. exact Hsz.
    + apply exists_false in Hnu.
      apply (shutil_move_agree env t t'); try assumption.
      * congruence.
      * unfold FS.os_path_isdir. rewrite Hd. reflexivity.
      * discriminate.
Qed.

Ltac path_length H :=
  apply (f_equal (@length string)) in H;
  unfold photo_path, month_dir, camera_dir, FS.os_path_join, DateSort.CAMERAS_DIR in H;
  rewrite ?length_app in H; cbn [length Nat.add] in H; discriminate H.

Lemma photo_path_inj cam item c i :
  photo_path cam item = photo_path c i -> cam = c /\ item = i.
Proof.
  unfold photo_path, camera_dir. intros H.
  apply os_path_join_inj in H as [H ->]. apply os_path_join_inj in H as [_ ->]. auto.
Qed.

Lemma month_file_inj cam fecha item c fe i :
  FS.os_path_join (month_dir cam fecha) item = FS.os_path_join (month_dir c fe) i ->
  cam = c /\ item = i.
Proof.
  unfold month_dir, camera_dir. intros H.
  apply os_path_join_inj in H as [H ->]. apply os_path_join_inj in H as [H _].
  apply os_path_join_inj in H as [_ ->]. auto.
Qed.

Lemma not_photo_settled env t cam item : is_photo item = false -> settled env t cam item.
Proof.
  intros H. apply sk_skipped. unfold DateStep.candidate. unfold is_photo in H.
  rewrite H. apply andb_false_r.
Qed.

(** A month folder made for another photo does not unsettle a name. *)
Lemma settled_mkdir env t cam item c fe t' :
  settled env t cam item ->
  FS.os_mkdir env t (month_dir c fe) = Ok t' ->
  settled env t' cam item.
Proof.
  intros Hs Hmk. pose proof Hmk as Hmk0.
  apply os_mkdir_Ok in Hmk as (-> & Hnone & _).
  destruct (is_photo item) eqn:Hph; [|apply not_photo_settled; exact Hph].
  apply (settled_agree env t); [ | | | exact Hs].
  - rewrite find_app_dirs. destruct (FS.find t (photo_path cam item)); [reflexivity|].
    case_decide as Hin; [|reflexivity].
    apply list_elem_of_singleton in Hin. destruct (photo_not_month _ _ _ _ Hph Hin).
  - rewrite find_app_dirs. destruct (FS.find t (camera_dir cam)); [reflexivity|].
    case_decide as Hin; [|reflexivity].
    apply list_elem_of_singleton in Hin. path_length Hin.
  - intros fe' Haj Hblocked. split.
    + rewrite find_app_dirs. destruct (FS.find t (month_dir cam fe')) eqn:Hd; [reflexivity|].
      case_decide as Hin; [|reflexivity].
      apply list_elem_of_singleton in Hin. exfalso.
      destruct Hblocked as [Hex | [ex Hr]].
      * apply exists_true in Hex as [n Hn]. congruence.
      * rewrite Hin in Hr. congruence.
    + rewrite find_app_dirs.
      destruct (FS.find t (FS.os_path_join (month_dir cam fe') item)); [reflexivity|].
      case_decide as Hin; [|reflexivity].
      apply list_elem_of_singleton in Hin. path_length Hin.
Qed.

(** Nor does the move of another photo. *)
Lemma settled_move env t cam item c i fe t2 :
  settled env t cam item ->
  (cam, item) <> (c, i) ->
  is_photo i = true ->
  FS.os_path_exists t (FS.os_path_join (month_dir c fe) i) = false ->
  FS.shutil_move env t (photo_path c i) (FS.os_path_join (month_dir c fe) i) = Ok t2 ->
  settled env t2 cam item.
Proof.
  intros Hs Hne Hph Hfree Hmove.
  apply shutil_move_free in Hmove; [|exact Hfree].
  destruct Hmove as (f & Hsrc & -> & _).
  apply (settled_agree env t); [ | | | exact Hs].
  - rewrite find_moved.
    case_decide as H1; [path_length H1|].
    case_decide as H2; [|reflexivity].
    apply photo_path_inj in H2 as [-> ->]. contradiction.
  - rewrite find_moved.
    case_decide as H1; [path_length H1|].
    case_decide as H2; [path_length H2 | reflexivity].
  - intros fe' _ _. split.
    + rewrite find_moved.
      case_decide as H1; [path_length H1|].
      case_decide as H2; [|reflexivity].
      destruct (photo_not_month _ _ _ _ Hph H2).
    + rewrite find_moved.
      case_decide as H1.
      * apply month_file_inj in H1 as [-> ->]. contradiction.
      * case_decide as H2; [path_length H2 | reflexivity].
Qed.

(** A turn never adds a file to a camera folder, and never touches the
    entry of a camera folder. *)
Lemma tree_step_file env t c i t' cam item f :
  tree_step env t c i t' ->
  FS.find t' (photo_path cam item) = Some (FS.File f) ->
  FS.find t (photo_path cam item) = Some (FS.File f).
Proof.
  assert (Hmv : forall t1 fe t2,
            FS.os_path_exists t1 (FS.os_path_join (month_dir c fe) i) = false ->
            FS.shutil_move env t1 (photo_path c i) (FS.os_path_join (month_dir c fe) i)
              = Ok t2 ->
            FS.find t2 (photo_path cam item) = Some (FS.File f) ->
            FS.find t1 (photo_path cam item) = Some (FS.File f)).
  { intros t1 fe t2 Hfree Hmove. apply shutil_move_free in Hmove; [|exact Hfree].
    destruct Hmove as (g & _ & -> & _). rewrite find_moved.
    case_decide as H1; [path_length H1|].
    case_decide; [discriminate | auto]. }
  intros [ | fe t1 Hmk | fe t2 Hph Hfree Hmove | fe t1 t2 Hph Hmk Hfree Hmove ].
  - auto.
  - apply os_mkdir_Ok in Hmk as (-> & _). apply find_app_dirs_file.
  - eapply Hmv; eassumption.
  - intros H. apply (Hmv _ _ _ Hfree Hmove) in H.
    apply os_mkdir_Ok in Hmk as (-> & _). apply find_app_dirs_file in H. exact H.
Qed.

Lemma tree_step_camera env t c i t' cam :
  tree_step env t c i t' ->
  FS.find t' (camera_dir cam) = FS.find t (camera_dir cam).
Proof.
  assert (Hmv : forall t1 fe t2,
            FS.os_path_exists t1 (FS.os_path_join (month_dir c fe) i) = false ->
            FS.shutil_move env t1 (photo_path c i) (FS.os_path_join (month_dir c fe) i)
              = Ok t2 ->
            FS.find t2 (camera_dir cam) = FS.find t1 (camera_dir cam)).
  { intros t1 fe t2 Hfree Hmove. apply shutil_move_free in Hmove; [|exact Hfree].
    destruct Hmove as (g & _ & -> & _). rewrite find_moved.
    case_decide as H1; [path_length H1|].
    case_decide as H2; [path_length H2 | reflexivity]. }
  assert (Hmk : forall t0 fe t1,
            FS.os_mkdir env t0 (month_dir c fe) = Ok t1 ->
            FS.find t1 (camera_dir cam) = FS.find t0 (camera_dir cam)).
  { intros t0 fe t1 H. apply os_mkdir_Ok in H as (-> & _). rewrite find_app_dirs.
    destruct (FS.find t0 (camera_dir cam)); [reflexivity|].
    case_decide as Hin; [|reflexivity].
    apply list_elem_of_singleton in Hin. path_length Hin. }
  intros [ | fe t1 H1 | fe t2 Hph Hfree Hmove | fe t1 t2 Hph H1 Hfree Hmove ].
  - reflexivity.
  - eapply Hmk; eassumption.
  - eapply Hmv; eassumption.
  - rewrite (Hmv _ _ _ Hfree Hmove). eapply Hmk; eassumption.
Qed.

Lemma tree_step_settled env t c i t' cam item :
  settled env t cam item -> (cam, item) <> (c, i) ->
  tree_step env t c i t' -> settled env t' cam item.
Proof.
  intros Hs Hne [ | fe t1 H1 | fe t2 Hph Hfree Hmove | fe t1 t2 Hph H1 Hfree Hmove ].
  - exact Hs.
  - eapply settled_mkdir; eassumption.
  - eapply settled_move; eassumption.
  - eapply settled_move; [|eassumption..]. eapply settled_mkdir; eassumption.
Qed.

Lemma folder_ready_tree env s0 cam fecha s1 :
  DateStep.folder_ready env s0 (month_dir cam fecha) s1 ->
  DateSort.arbol s1 = DateSort.arbol s0 \/
  FS.os_mkdir env (DateSort.arbol s0) (month_dir cam fecha) = Ok (DateSort.arbol s1).
Proof. intros [Hex | t1 Hex Hmk]; [left; reflexivity | right; exact Hmk]. Qed.

Lemma fecha_de_step env s cam item fecha tr :
  DateSort.obtener_fecha_captura env (DateSort.arbol s) (FS.os_path_join (camera_dir cam) item)
    (DateSort.tz s) = (fecha, tr) ->
  fecha_de env (DateSort.arbol s) (photo_path cam item) = fecha.
Proof.
  intros H. unfold fecha_de, photo_path.
  rewrite (obtener_fecha_fst env _ (DateSort.arbol s) _ traza_vacia (DateSort.tz s) eq_refl).
  rewrite H. reflexivity.
Qed.

(** What the month folder being ready leaves true of a photo. *)
Lemma folder_ready_photo env s cam item fecha tr fecha' s1 :
  DateStep.candidate (DateSort.arbol s) (camera_dir cam) item = true ->
  DateSort.obtener_fecha_captura env (DateSort.arbol s) (FS.os_path_join (camera_dir cam) item)
    (DateSort.tz s) = (fecha, tr) ->
  DateSort.ajustar_mes_por_horario_especial fecha = Ok fecha' ->
  DateStep.folder_ready env (DateSort.con_traza tr s) (month_dir cam fecha') s1 ->
  DateStep.candidate (DateSort.arbol s1) (camera_dir cam) item = true /\
  DateSort.ajustar_mes_por_horario_especial
    (fecha_de env (DateSort.arbol s1) (photo_path cam item)) = Ok fecha' /\
  FS.os_path_exists (DateSort.arbol s1) (month_dir cam fecha') = true.
Proof.
  intros Hc Hf Haj Hready.
  pose proof (candidate_photo _ _ _ Hc) as Hph.
  apply folder_ready_grown in Hready. destruct Hready as (Hg & _ & _ & _ & Hex).
  cbn [DateSort.arbol DateSort.con_traza] in Hg.
  assert (Hp : FS.find (DateSort.arbol s1) (photo_path cam item)
               = FS.find (DateSort.arbol s) (photo_path cam item)).
  { destruct Hg as [->|[-> Hnone]]; [reflexivity|].
    rewrite find_app_dirs. destruct (FS.find (DateSort.arbol s) (photo_path cam item));
      [reflexivity|].
    case_decide as Hin; [|reflexivity].
    apply list_elem_of_singleton in Hin. destruct (photo_not_month _ _ _ _ Hph Hin). }
  repeat split.
  - rewrite (candidate_agree _ _ _ _ Hp). exact Hc.
  - rewrite (fecha_de_agree _ _ _ _ Hp), (fecha_de_step _ _ _ _ _ _ Hf). exact Haj.
  - exact Hex.
Qed.

(** One turn that ends normally: the tree changes by a tree step, and the
    name is then either gone from the camera folder or settled. *)
Lemma procesar_item_tree env c s i s' e :
  DateSort.procesar_item env (camera_dir c) s i = (s', e) -> e = None ->
  tree_step env (DateSort.arbol s) c i (DateSort.arbol s') /\
  (FS.find (DateSort.arbol s') (photo_path c i) = None \/
   settled env (DateSort.arbol s') c i).
Proof.
  intros Hstep. apply procesar_item_step in Hstep.
  destruct Hstep as
    [ Hc | fecha tr ex Hc Hf Haj | fecha tr fecha' ex Hc Hf Haj d Hex Hmk
    | fecha tr fecha' s1 Hc Hf Haj d Hready Hnu
    | fecha tr fecha' s1 ex Hc Hf Haj d Hready Hnu Hsize
    | fecha tr fecha' s1 size ex Hc Hf Haj d Hready Hnu Hsize Hmove
    | fecha tr fecha' s1 size t2 Hc Hf Haj d Hready Hnu Hsize Hmove ]; intros He;
    try discriminate He.
  - split; [apply ts_same|]. right. apply sk_skipped. exact Hc.
  - split; [apply ts_same|]. right.
    apply (sk_no_folder env _ c i fecha' ex); try assumption.
    cbn [DateSort.arbol DateSort.registrar DateSort.con_traza].
    rewrite (fecha_de_step _ _ _ _ _ _ Hf). exact Haj.
  - pose proof (folder_ready_tree _ _ _ _ _ Hready) as Htree.
    destruct (folder_ready_photo _ _ _ _ _ _ _ _ Hc Hf Haj Hready) as (Hc1 & Haj1 & Hex1).
    cbn [DateSort.arbol DateSort.duplicates_append DateSort.registrar DateSort.con_traza]
      in *.
    split.
    + destruct Htree as [->| Hmk]; [apply ts_same | eapply ts_mkdir; exact Hmk].
    + right. apply (sk_duplicate env _ c i fecha'); assumption.
  - pose proof (folder_ready_tree _ _ _ _ _ Hready) as Htree.
    destruct (folder_ready_photo _ _ _ _ _ _ _ _ Hc Hf Haj Hready) as (Hc1 & Haj1 & Hex1).
    cbn [DateSort.arbol DateSort.registrar DateSort.con_traza] in *.
    split.
    + destruct Htree as [->| Hmk]; [apply ts_same | eapply ts_mkdir; exact Hmk].
    + right. apply (sk_no_size env _ c i fecha' ex); assumption.
  - pose proof (folder_ready_tree _ _ _ _ _ Hready) as Htree.
    destruct (folder_ready_photo _ _ _ _ _ _ _ _ Hc Hf Haj Hready) as (Hc1 & Haj1 & Hex1).
    cbn [DateSort.arbol DateSort.registrar DateSort.con_traza] in *.
    split.
    + destruct Htree as [->| Hmk]; [apply ts_same | eapply ts_mkdir; exact Hmk].
    + right. apply (sk_no_move env _ c i fecha' size ex); assumption.
  - pose proof (folder_ready_tree _ _ _ _ _ Hready) as Htree.
    pose proof (candidate_photo _ _ _ Hc) as Hph.
    cbn [DateSort.arbol DateSort.con_traza] in *.
    split.
    + destruct Htree as [Heq| Hmk].
      * rewrite Heq in *. eapply ts_move; eassumption.
      * eapply ts_mkdir_move; eassumption.
    + left. apply shutil_move_free in Hmove; [|exact Hnu].
      destruct Hmove as (f & _ & -> & _). rewrite find_moved.
      case_decide as H1; [path_length H1|].
      case_decide as H2; [reflexivity|]. destruct H2. reflexivity.
Qed.

(* --------------------------------------------------------------------- *)
(** ** Listings                                                           *)
(* --------------------------------------------------------------------- *)

Lemma relative_join d r : FS.relative d (d ++ r) = Some r.
Proof.
  induction d as [|x d IH]; cbn [FS.relative app]; [reflexivity|].
  case_decide; [exact IH | congruence].
Qed.

Lemma relative_Some d : forall p r, FS.relative d p = Some r -> p = d ++ r.
Proof.
  induction d as [|x d IH]; intros p r; cbn [FS.relative app].
  - intros [= ->]. reflexivity.
  - destruct p as [|y p]; [discriminate|].
    case_decide as Hxy; [|discriminate]. subst y.
    intros H. f_equal. apply IH. exact H.
Qed.

Lemma child_name_Some d p n : FS.child_name d p = Some n <-> p = FS.os_path_join d n.
Proof.
  unfold FS.child_name, FS.os_path_join. split.
  - destruct (FS.relative d p) as [[|m [|]]|] eqn:Hr; try discriminate.
    intros [= ->]. apply relative_Some. exact Hr.
  - intros ->. rewrite relative_join. reflexivity.
Qed.

(** [os.listdir] gives the names of the entries directly inside. *)
Lemma listdir_In t d n :
  In n (FS.os_listdir t d) <-> In (FS.os_path_join d n) (map fst t).
Proof.
  unfold FS.os_listdir. rewrite <- list_elem_of_In, list_elem_of_omap. split.
  - intros [[p x] [Hin Hc]]. cbn [fst] in Hc. apply child_name_Some in Hc. subst p.
    apply list_elem_of_In in Hin. apply (in_map fst) in Hin. exact Hin.
  - intros Hin. apply in_map_iff in Hin as [[p x] [Hp Hin]]. cbn [fst] in Hp. subst p.
    exists (FS.os_path_join d n, x). split; [apply list_elem_of_In; exact Hin|].
    apply child_name_Some. reflexivity.
Qed.

Lemma listdir_find t d n :
  In n (FS.os_listdir t d) <-> exists x, FS.find t (FS.os_path_join d n) = Some x.
Proof.
  rewrite listdir_In. split.
  - apply In_keys_find.
  - intros [x Hx]. apply find_In in Hx. apply (in_map fst) in Hx. exact Hx.
Qed.

(* --------------------------------------------------------------------- *)
(** ** Loops that end normally                                            *)
(* --------------------------------------------------------------------- *)

(** An invariant that knows which names the loop has gone through. *)
Lemma for_each_done {S A : Type} (body : S -> A -> S * option exc)
    (I : list A -> S -> Prop) :
  (forall done s x s', I done s -> body s x = (s', None) -> I (done ++ [x]) s') ->
  forall l done s s', I done s -> for_each body s l = (s', None) -> I (done ++ l) s'.
Proof.
  intros Hstep. induction l as [|x l IH]; intros done s s' Hs; cbn [for_each].
  - intros [= <-]. rewrite app_nil_r. exact Hs.
  - destruct (body s x) as [s1 [ex|]] eqn:Hb; [discriminate|].
    intros Hl. replace (done ++ x :: l) with ((done ++ [x]) ++ l)
      by (rewrite <- app_assoc; reflexivity).
    eapply IH; [|exact Hl]. eapply Hstep; eassumption.
Qed.

(** A loop whose every turn ends normally ends normally. *)
Lemma for_each_quiet {S A : Type} (body : S -> A -> S * option exc) (R : S -> Prop)
    (l : list A) :
  (forall s x, In x l -> R s -> exists s', body s x = (s', None) /\ R s') ->
  forall s, R s -> exists s', for_each body s l = (s', None) /\ R s'.
Proof.
  induction l as [|x l IH]; intros Hbody s Hs; cbn [for_each].
  - exists s. auto.
  - destruct (Hbody s x (or_introl eq_refl) Hs) as (s1 & -> & H1).
    apply IH; [|exact H1]. intros s0 y Hy. apply Hbody. right. exact Hy.
Qed.

(* --------------------------------------------------------------------- *)
(** ** What the first run leaves behind                                    *)
(* --------------------------------------------------------------------- *)

Lemma settled_inv_weaken env t0 (W W' : string -> string -> Prop) s :
  settled_inv env t0 W s -> (forall cam item, W' cam item -> W cam item) ->
  settled_inv env t0 W' s.
Proof.
  intros [Hset Hcam] Hw. split; [|exact Hcam].
  intros cam item f H Hf. eapply Hset; [apply Hw; exact H | exact Hf].
Qed.

(** After its turn a name is settled or gone, and the names taken up
    before stay settled. *)
Lemma procesar_item_settled env t0 (W : string -> string -> Prop) c s i s' :
  settled_inv env t0 W s ->
  DateSort.procesar_item env (camera_dir c) s i = (s', None) ->
  settled_inv env t0 (fun cam item => W cam item \/ (cam = c /\ item = i)) s' /\
  (forall cam item f,
     FS.find (DateSort.arbol s') (photo_path cam item) = Some (FS.File f) ->
     FS.find (DateSort.arbol s) (photo_path cam item) = Some (FS.File f)).
Proof.
  intros [Hset Hcam] Hstep.
  destruct (procesar_item_tree _ _ _ _ _ _ Hstep eq_refl) as [Htree Hself].
  split; [split|].
  - intros cam item f Hw Hf.
    destruct (decide ((cam, item) = (c, i))) as [Heq | Hne].
    + injection Heq as -> ->. destruct Hself as [Hnone | Hs]; [congruence | exact Hs].
    + destruct Hw as [Hw | [-> ->]]; [|contradiction].
      eapply tree_step_settled; [|exact Hne | exact Htree].
      eapply Hset; [exact Hw|]. eapply tree_step_file; eassumption.
  - intros cam. rewrite (tree_step_camera _ _ _ _ _ cam Htree). apply Hcam.
  - intros cam item f Hf. eapply tree_step_file; eassumption.
Qed.

(** After the loop on a camera folder, every file still directly inside
    is settled. *)
Lemma procesar_camara_settled env t0 (W : string -> string -> Prop) s c s' :
  settled_inv env t0 W s ->
  DateSort.procesar_camara env s c = (s', None) ->
  settled_inv env t0
    (fun cam item => W cam item \/
       (cam = c /\ c <> "PRIVATE"%string /\ FS.os_path_isdir t0 (camera_dir c) = true)) s'.
Proof.
  intros Hinv. unfold DateSort.procesar_camara. fold (camera_dir c).
  destruct (String.eqb c "PRIVATE") eqn:Hpriv.
  { intros [= <-]. split; [|apply Hinv].
    intros cam item f [Hw|(-> & Hnp & _)] Hf; [eapply (si_settled _ _ _ _ Hinv); eauto|].
    apply String.eqb_eq in Hpriv. contradiction. }
  destruct (FS.os_path_isdir (DateSort.arbol s) (camera_dir c)) eqn:Hdir; cbn [negb].
  2: { intros [= <-]. split; [|apply Hinv].
       intros cam item f [Hw|(-> & _ & Hd)] Hf; [eapply (si_settled _ _ _ _ Hinv); eauto|].
       exfalso. unfold FS.os_path_isdir in Hdir, Hd.
       rewrite (si_camera _ _ _ _ Hinv) in Hdir. congruence. }
  intros Hloop.
  pose (I := fun (done : list string) (x : DateSort.estado) =>
          settled_inv env t0 (fun cam item => W cam item \/ (cam = c /\ In item done)) x /\
          (forall cam item f,
             FS.find (DateSort.arbol x) (photo_path cam item) = Some (FS.File f) ->
             FS.find (DateSort.arbol s) (photo_path cam item) = Some (FS.File f))).
  assert (Hfinal : I ([] ++ FS.os_listdir (DateSort.arbol s) (camera_dir c)) s').
  { apply (for_each_done (DateSort.procesar_item env (camera_dir c)) I)
      with (s := DateSort.registrar INFO (EvProcesando (camera_dir c)) s);
      [| |exact Hloop].
    - intros done x i x' [Hi Hp] Hb.
      destruct (procesar_item_settled env t0 _ c x i x' Hi Hb) as [Hi' Hp'].
      split.
      + eapply settled_inv_weaken; [exact Hi'|].
        intros cam item [Hw|[-> Hin]]; [left; left; exact Hw|].
        apply in_app_iff in Hin as [Hin|[<-|[]]]; [left; right; auto | right; auto].
      + intros cam item f Hf. apply Hp. eapply Hp'. exact Hf.
    - split.
      + split; [|apply Hinv].
        intros cam item f [Hw|[_ []]] Hf. eapply (si_settled _ _ _ _ Hinv); eauto.
      + auto. }
  destruct Hfinal as [[Hset Hcam] Hp]. split; [|exact Hcam].
  intros cam item f [Hw | (-> & _ & _)] Hf.
  - eapply Hset; [left; exact Hw | exact Hf].
  - eapply Hset; [right; split; [reflexivity|] | exact Hf].
    cbn [app]. apply listdir_find. exists (FS.File f). apply Hp in Hf. exact Hf.
Qed.

Lemma run_settled env t0 camaras s1 :
  DateSort.run env t0 camaras = (s1, None) ->
  settled_inv env t0 (fun cam _ => handled t0 camaras cam) s1.
Proof.
  unfold DateSort.run, DateSort.organizar_fotos_por_fecha. intros Hloop.
  pose (I := fun done s =>
          settled_inv env t0 (fun cam (_ : string) => handled t0 done cam) s).
  change (I ([] ++ camaras) s1).
  apply (for_each_done (DateSort.procesar_camara env) I) with (s := DateSort.inicial t0);
    [| |exact Hloop].
  - intros done s c s' Hi Hb.
    eapply settled_inv_weaken; [eapply procesar_camara_settled; eassumption|].
    intros cam item (Hin & Hnp & Hd).
    apply in_app_iff in Hin as [Hin|[->|[]]]; [left; split; auto | right; auto].
  - split; [|reflexivity]. intros cam item f (Hin & _). destruct Hin.
Qed.

(* --------------------------------------------------------------------- *)
(** ** The second run                                                     *)
(* --------------------------------------------------------------------- *)

Lemma second_run_item env t0 (W : string -> string -> Prop) s1 cam s item :
  settled_inv env t0 W s1 -> (forall i, W cam i) ->
  second_run (DateSort.arbol s1) s ->
  In item (FS.os_listdir (DateSort.arbol s1) (camera_dir cam)) ->
  exists s', DateSort.procesar_item env (camera_dir cam) s item = (s', None) /\
             second_run (DateSort.arbol s1) s'.
Proof.
  intros Hinv Hw [Htree Hrep Hmov Hdup] Hin.
  apply listdir_find in Hin as [x Hx]. fold (photo_path cam item) in Hx.
  assert (Hs : settled env (DateSort.arbol s) cam item).
  { rewrite Htree. destruct x as [f|].
    - eapply (si_settled _ _ _ _ Hinv); [apply Hw | exact Hx].
    - apply sk_skipped. unfold DateStep.candidate, FS.os_path_isdir.
      fold (photo_path cam item). rewrite Hx. reflexivity. }
  destruct (settled_quiet env cam item s Hs) as (s' & Hb & Ht & Hr & Hm & Hd).
  exists s'. split; [exact Hb|]. split.
  - congruence.
  - congruence.
  - congruence.
  - intros p Hp. apply Hd, in_app_iff in Hp as [Hp|[<-|[]]]; [auto|].
    split; [apply exists_true|]; eauto.
Qed.

Lemma second_run_camera env t0 camaras s1 s cam :
  settled_inv env t0 (fun c _ => handled t0 camaras c) s1 ->
  In cam camaras ->
  second_run (DateSort.arbol s1) s ->
  exists s', DateSort.procesar_camara env s cam = (s', None) /\
             second_run (DateSort.arbol s1) s'.
Proof.
  intros Hinv Hin Hsr. unfold DateSort.procesar_camara. fold (camera_dir cam).
  destruct (String.eqb cam "PRIVATE") eqn:Hpriv; [eauto|].
  destruct (FS.os_path_isdir (DateSort.arbol s) (camera_dir cam)) eqn:Hdir; cbn [negb];
    [|eauto].
  assert (Hsr0 : second_run (DateSort.arbol s1)
                   (DateSort.registrar INFO (EvProcesando (camera_dir cam)) s)).
  { destruct Hsr as [Ht Hr Hm Hd]. split; try assumption.
    rewrite movidos_registrar by reflexivity. exact Hm. }
  cbn [DateSort.arbol DateSort.registrar DateSort.con_traza].
  rewrite (sr_tree _ _ Hsr) in *.
  apply (for_each_quiet (DateSort.procesar_item env (camera_dir cam))
           (second_run (DateSort.arbol s1))); [|exact Hsr0].
  intros x item Hitem Hx.
  apply (second_run_item env t0 _ s1 cam x item Hinv); try assumption.
  intros _. repeat split; [exact Hin | apply String.eqb_neq; exact Hpriv |].
  unfold FS.os_path_isdir in *. rewrite <- (si_camera _ _ _ _ Hinv). exact Hdir.
Qed.

(** A file that has a date of its own gets the same date whatever the
    clock says. *)
Lemma obtener_fecha_env env env' t p tr tr' f :
  FS.find t p = Some (FS.File f) -> fechado f ->
  fst (DateSort.obtener_fecha_captura env t p tr) =
  fst (DateSort.obtener_fecha_captura env' t p tr').
Proof.
  intros Hf Hd. unfold DateSort.obtener_fecha_captura, DateSort.leer_fecha_con_exiftool,
    DateSort.exiftool, DateSort.stat_ctime, DateSort.stat_mtime.
  rewrite Hf. unfold fechado, fecha_exif in Hd.
  destruct (FS.exif_fechas f) as [| | | |dto cd ss]; cbn;
    try (destruct (FS.st_ctime f); cbn; [reflexivity|];
         destruct (FS.st_mtime f); cbn; [reflexivity|];
         exfalso; destruct Hd as [H | [H | H]]; apply H; reflexivity).
  destruct dto; destruct cd; destruct ss; cbn in Hd |- *; try reflexivity;
    try (destruct (FS.st_ctime f); cbn; [reflexivity|];
         destruct (FS.st_mtime f); cbn; [reflexivity|];
         exfalso; destruct Hd as [H | [H | H]]; apply H; reflexivity).
Qed.

Lemma fecha_de_env env env' t p f :
  FS.find t p = Some (FS.File f) -> fechado f -> fecha_de env' t p = fecha_de env t p.
Proof. intros Hf Hd. unfold fecha_de. apply (obtener_fecha_env env' env t p _ _ f Hf Hd). Qed.

Lemma os_mkdir_env env env' t d :
  mismas_negativas env env' -> FS.os_mkdir env' t d = FS.os_mkdir env t d.
Proof. intros [Hmk _]. unfold FS.os_mkdir. rewrite Hmk. reflexivity. Qed.

Lemma shutil_move_env env env' t a b :
  mismas_negativas env env' -> FS.shutil_move env' t a b = FS.shutil_move env t a b.
Proof. intros [_ Hmv]. unfold FS.shutil_move. rewrite Hmv. reflexivity. Qed.

(** A settled name whose file has a date of its own is settled under any
    clock, as long as the system refuses the same operations. *)
Lemma settled_env env env' t cam item f :
  mismas_negativas env env' ->
  FS.find t (photo_path cam item) = Some (FS.File f) -> fechado f ->
  settled env t cam item -> settled env' t cam item.
Proof.
  intros Hsame Hf Hd Hs. pose proof (fecha_de_env env env' t _ f Hf Hd) as Hfe.
  destruct Hs as [Hc | fe ex Hc Haj Hex Hmk | fe Hc Haj Hex Hnu
                 | fe ex Hc Haj Hex Hnu Hsz | fe sz ex Hc Haj Hex Hnu Hsz Hmv].
  - apply sk_skipped. exact Hc.
  - apply (sk_no_folder env' t cam item fe ex); try assumption.
    + rewrite Hfe. exact Haj.
    + rewrite (os_mkdir_env env env' _ _ Hsame). exact Hmk.
  - apply (sk_duplicate env' t cam item fe); try assumption. rewrite Hfe. exact Haj.
  - apply (sk_no_size env' t cam item fe ex); try assumption. rewrite Hfe. exact Haj.
  - apply (sk_no_move env' t cam item fe sz ex); try assumption.
    + rewrite Hfe. exact Haj.
    + rewrite (shutil_move_env env env' _ _ _ Hsame). exact Hmv.
Qed.

(** C6, as amended, for the date sorter. When a run ends normally, a
    second run on the tree it left, with the same cameras, ends normally
    too, leaves the tree as it is and moves nothing: its report of moves
    is empty and its log has no move line. The cameras are entries of the
    cameras folder, every file has a date of its own (in its metadata or
    in its times, so that the clock, which the second run reads afresh,
    decides nothing), and the system refuses in the second run the
    directory creations and the moves it refused in the first. What the
    second run lists as duplicates are entries of camera folders still in
    the tree, never a file the first run moved: a moved file stays in its
    month folder, and the loop does not enter month folders. *)
Theorem second_run_of_date_sort_moves_nothing env1 env2 t0 camaras s1 :
  mismas_negativas env1 env2 ->
  entradas t0 DateSort.CAMERAS_DIR camaras ->
  (forall p f, FS.find t0 p = Some (FS.File f) -> fechado f) ->
  DateSort.run env1 t0 camaras = (s1, None) ->
  exists s2,
    DateSort.run env2 (DateSort.arbol s1) camaras = (s2, None) /\
    DateSort.arbol s2 = DateSort.arbol s1 /\
    DateSort.folders_report s2 = [] /\
    movidos s2 = [] /\
    (forall p, In p (DateSort.duplicates s2) ->
               FS.os_path_exists (DateSort.arbol s1) p = true /\
               exists cam item, p = photo_path cam item) /\
    (forall p d, In (p, d) (movidos s1) ->
                 ~ In p (DateSort.duplicates s2) /\ ~ In d (DateSort.duplicates s2) /\
                 FS.os_path_isfile (DateSort.arbol s2) d = true).
Proof.
  intros Hsame _ Hfechas Hrun.
  pose proof (run_settled env1 t0 camaras s1 Hrun) as Hinv1.
  pose proof (run_date_inv env1 t0 camaras) as Hdi. rewrite Hrun in Hdi. cbn [fst] in Hdi.
  assert (Hinv : settled_inv env2 t0 (fun cam _ => handled t0 camaras cam) s1).
  { split; [|apply (si_camera _ _ _ _ Hinv1)].
    intros cam item f Hw Hf.
    apply (settled_env env1 env2 _ cam item f Hsame Hf).
    - apply (Hfechas (photo_path cam item)).
      apply (di_present _ _ Hdi cam item f Hf).
    - apply (si_settled _ _ _ _ Hinv1 cam item f Hw Hf). }
  assert (Hstart : second_run (DateSort.arbol s1) (DateSort.inicial (DateSort.arbol s1)))
    by (split; [reflexivity | reflexivity | reflexivity | intros p []]).
  destruct (for_each_quiet (DateSort.procesar_camara env2) (second_run (DateSort.arbol s1))
              camaras) with (s := DateSort.inicial (DateSort.arbol s1))
    as (s2 & Hrun2 & [Ht Hr Hm Hd]); [|exact Hstart|].
  { intros s cam Hin Hs. eapply second_run_camera; eassumption. }
  exists s2. split; [exact Hrun2|]. split; [exact Ht|]. split; [exact Hr|].
  split; [exact Hm|]. split; [exact Hd|].
  intros p d Hin.
  destruct (di_moved _ _ Hdi p d Hin) as (c & i & fe & f & -> & -> & _ & _ & Hnone & Hf).
  repeat split.
  - intros Hp. apply Hd in Hp as [Hex _]. apply exists_true in Hex as [x Hx]. congruence.
  - intros Hp. apply Hd in Hp as [_ (cam & item & Heq)]. path_length Heq.
  - rewrite Ht. apply isfile_true. eauto.
Qed.

Lemma second_run_of_date_sort_moves_nothing_witness :
  exists s2,
    DateSort.run entorno_tarde
      (DateSort.arbol (fst (DateSort.run entorno_ok arbol_mayo ["EOS"%string])))
      ["EOS"%string] = (s2, None) /\
    DateSort.arbol s2 =
      DateSort.arbol (fst (DateSort.run entorno_ok arbol_mayo ["EOS"%string])) /\
    DateSort.folders_report s2 = [] /\ movidos s2 = [].
Proof.
  destruct (second_run_of_date_sort_moves_nothing entorno_ok entorno_tarde arbol_mayo
              ["EOS"%string] (fst (DateSort.run entorno_ok arbol_mayo ["EOS"%string])))
    as (s2 & H1 & H2 & H3 & H4 & _).
  - split; reflexivity.
  - intros n [<- | []]. vm_compute. left. reflexivity.
  - intros p f Hf. apply find_In in Hf.
    destruct Hf as [Hf | [Hf | [Hf | []]]]; inversion Hf; subst.
    left. vm_compute. discriminate.
  - vm_compute. reflexivity.
  - exists s2. split; [exact H1 | split; [exact H2 | split; [exact H3 | exact H4]]].
Defined.

(** Why the dates must be the files' own: a photo that only the clock
    dates is left in place by a run in June 2024, the system refusing the
    folder of that month, and is moved by the next run in January 2031,
    the system refusing the same operations. *)
Example clock_dated_photo_moves_later :
  let r1 := DateSort.run entorno_junio arbol_sin_fecha ["EOS"%string] in
  let r2 := DateSort.run entorno_enero (DateSort.arbol (fst r1)) ["EOS"%string] in
  mismas_negativas entorno_junio entorno_enero /\
  snd r1 = None /\ DateSort.arbol (fst r1) = arbol_sin_fecha /\ movidos (fst r1) = [] /\
  snd r2 = None /\
  movidos (fst r2) =
    [(["CAMARAS"; "EOS"; "IMG_9.JPG"], ["CAMARAS"; "EOS"; "2031.01"; "IMG_9.JPG"])]%string.
Proof.
  cbv zeta. split; [split; reflexivity|]. vm_compute. repeat split; reflexivity.
Qed.

(** C6, as the specification words it, fails: the second run does not
    count one duplicate for each file the first run moved. The first run
    moves the photo into its month folder; the second run lists the camera
    folder, finds only the month folder there, skips it, and reports
    nothing. *)
Lemma second_run_counts_no_duplicate :
  let r1 := DateSort.run entorno_ok arbol_mayo ["EOS"%string] in
  let r2 := DateSort.run entorno_ok (DateSort.arbol (fst r1)) ["EOS"%string] in
  snd r1 = None /\
  movidos (fst r1) =
    [(["CAMARAS"; "EOS"; "IMG_1.JPG"], ["CAMARAS"; "EOS"; "2024.05"; "IMG_1.JPG"])]%string /\
  snd r2 = None /\
  movidos (fst r2) = [] /\
  DateSort.duplicates (fst r2) = [] /\
  length (DateSort.duplicates (fst r2)) <> length (movidos (fst r1)).
Proof. cbv zeta. repeat split; try (vm_compute; reflexivity). vm_compute. discriminate. Qed.

(** What the amended statement leaves out: in the model sorter a move
    replaces a file of the same name in the destination folder, so a
    second run can still move a file. Here [a.jpg] is a duplicate of the
    destination's [x.jpg] in the first run; the source [x.jpg], of other
    content, then replaces it, and the second run moves [a.jpg]. *)
Example model_sort_second_run_moves :
  let r1 := ModelSort.run entorno_ok arbol_sobrescrito in
  let r2 := ModelSort.run entorno_ok (ModelSort.arbol (fst r1)) in
  snd r1 = None /\
  ModelSort.duplicates (fst r1) = [source_path "a.jpg"] /\
  ModelSort.moved (fst r1) = [source_path "x.jpg"] /\
  snd r2 = None /\
  ModelSort.moved (fst r2) = [source_path "a.jpg"].
Proof. vm_compute. repeat split; reflexivity. Qed.

(* --------------------------------------------------------------------- *)
(** ** Which copy the model sorter moves                                   *)
(* --------------------------------------------------------------------- *)

Lemma folder_of_file_Some f folder :
  folder_of_file f = Some folder ->
  exists m, FS.exif_model f = Some m /\ m <> EmptyString /\
            ModelStep.folder_of m = Some folder.
Proof.
  unfold folder_of_file. destruct (FS.exif_model f) as [m|]; [|discriminate].
  destruct (String.eqb_spec m EmptyString); [discriminate|]. eauto.
Qed.

Lemma model_of_source s x f m model s1 :
  FS.find (ModelSort.arbol s) (source_path x) = Some (FS.File f) ->
  FS.exif_model f = Some m -> m <> EmptyString ->
  ModelSort.get_camera_model (FS.os_path_join ModelSort.CAMERAS_DIR x) (ModelSort.contar s)
    = (model, s1) ->
  model = Some m /\ s1 = ModelSort.contar s.
Proof.
  intros Hf Hm Hne H.
  rewrite (get_camera_model_of_file _ (ModelSort.contar s) f m) in H; try assumption.
  injection H as <- <-. auto.
Qed.

(** The tree after one turn of the model sorter. *)
Lemma classify_item_tree env t0 s x s' e :
  model_inv t0 s -> ModelSort.classify_item env s x = (s', e) ->
  model_tree_step env (ModelSort.arbol s) x (ModelSort.arbol s') /\
  (ModelSort.moved s' = ModelSort.moved s \/
   ModelSort.moved s' = ModelSort.moved s ++ [source_path x]).
Proof.
  intros Hinv Hstep. apply classify_item_step in Hstep.
  assert (Hsame : model_tree_step env (ModelSort.arbol s) x (ModelSort.arbol s))
    by (apply (mts_grown env _ x ""%string); left; reflexivity).
  destruct Hstep as
    [ Hfile | Hfile Hal | s1 Hfile Hal Hmod | model s1 Hfile Hal Hmod Hfo
    | model s1 folder t ex Hfile Hal Hmod Hfo Hmk
    | model s1 folder t s3 Hfile Hal Hmod Hfo Hmk Hdup
    | model s1 folder t s3 ex Hfile Hal Hmod Hfo Hmk Hdup Hmove
    | model s1 folder t s3 t' Hfile Hal Hmod Hfo Hmk Hdup Hmove ].
  - auto.
  - auto.
  - apply get_camera_model_state in Hmod. destruct Hmod as (Ha & _ & _ & Hm & _).
    cbn in Ha, Hm |- *. rewrite Ha, Hm. auto.
  - apply get_camera_model_state in Hmod. destruct Hmod as (Ha & _ & _ & Hm & _).
    cbn in Ha, Hm |- *. rewrite Ha, Hm. auto.
  - apply get_camera_model_state in Hmod. destruct Hmod as (Ha & _ & _ & Hm & _).
    cbn in Ha, Hm.
    destruct (model_makedirs env (ModelSort.arbol s1) folder t (Some ex)) as (Hg & _ & _);
      [rewrite Ha; apply (mi_root _ _ Hinv) | exact Hmk |].
    cbn. rewrite Ha in Hg. rewrite Hm. split; [|auto].
    eapply mts_grown. exact Hg.
  - apply get_camera_model_state in Hmod. destruct Hmod as (Ha & _ & _ & Hm & _).
    cbn in Ha, Hm.
    destruct (model_makedirs env (ModelSort.arbol s1) folder t None) as (Hg & _ & _);
      [rewrite Ha; apply (mi_root _ _ Hinv) | exact Hmk |].
    apply is_duplicate_state in Hdup. destruct Hdup as (Ha3 & Hm3 & _).
    cbn in Ha3, Hm3 |- *. rewrite Ha in Hg. rewrite Ha3, Hm3, Hm. split; [|auto].
    eapply mts_grown. exact Hg.
  - apply get_camera_model_state in Hmod. destruct Hmod as (Ha & _ & _ & Hm & _).
    cbn in Ha, Hm.
    destruct (model_makedirs env (ModelSort.arbol s1) folder t None) as (Hg & _ & _);
      [rewrite Ha; apply (mi_root _ _ Hinv) | exact Hmk |].
    apply is_duplicate_state in Hdup. destruct Hdup as (Ha3 & Hm3 & _).
    cbn in Ha3, Hm3 |- *. rewrite Ha in Hg. rewrite Ha3, Hm3, Hm. split; [|auto].
    eapply mts_grown. exact Hg.
  - apply get_camera_model_Some in Hmod.
    destruct Hmod as (-> & f & Hf & Hmodel & Hne). cbn in Hf, Hmk.
    destruct (model_makedirs env (ModelSort.arbol s) folder t None) as (Hg & _ & _);
      [apply (mi_root _ _ Hinv) | exact Hmk |].
    apply is_duplicate_state in Hdup. destruct Hdup as (Ha3 & Hm3 & _).
    cbn in Ha3, Hm3 |- *. rewrite Ha3 in Hmove. rewrite Hm3. split; [|auto].
    apply (mts_moved env _ x f folder t t'); try assumption.
    unfold folder_of_file. rewrite Hmodel.
    destruct (String.eqb_spec model EmptyString); [contradiction | exact Hfo].
Qed.

(** The turn of a photo whose model is mapped: the destination folder is
    there, and the photo is moved exactly when it can be read, no file of
    the folder has its digest, and the move succeeds. *)
Lemma mapped_turn env t0 s x s' e f folder :
  model_inv t0 s -> ModelSort.classify_item env s x = (s', e) -> e = None ->
  FS.find (ModelSort.arbol s) (source_path x) = Some (FS.File f) ->
  ModelStep.allowed x = true -> folder_of_file f = Some folder ->
  exists t1,
    grown_by (ModelSort.arbol s) t1 folder /\
    FS.find t1 (ModelStep.dest_of folder) = Some FS.Dir /\
    ((ModelSort.arbol s' = t1 /\ ModelSort.moved s' = ModelSort.moved s /\
      In (source_path x) (ModelSort.duplicates s') /\
      (fingerprint t1 (source_path x) = None \/
       (exists q, In q (FS.walk_files t1 (ModelStep.dest_of folder)) /\
                  fingerprint t1 q = fingerprint t1 (source_path x)) \/
       (exists ex, FS.shutil_move env t1 (source_path x)
                     (FS.os_path_join (ModelStep.dest_of folder) x) = Raise ex)))
     \/
     (ModelSort.moved s' = ModelSort.moved s ++ [source_path x] /\
      FS.shutil_move env t1 (source_path x)
        (FS.os_path_join (ModelStep.dest_of folder) x) = Ok (ModelSort.arbol s') /\
      forall q, In q (FS.walk_files t1 (ModelStep.dest_of folder)) ->
                fingerprint t1 q <> fingerprint t1 (source_path x))).
Proof.
  intros Hinv Hstep He Hf Hal Hfolder.
  destruct (folder_of_file_Some _ _ Hfolder) as (m & Hm & Hne & Hfo).
  apply classify_item_step in Hstep.
  destruct Hstep as
    [ Hfile | Hfile Hal' | s1 Hfile _ Hmod | model s1 Hfile _ Hmod Hfo'
    | model s1 fo t ex Hfile _ Hmod Hfo' Hmk
    | model s1 fo t s3 Hfile _ Hmod Hfo' Hmk Hdup
    | model s1 fo t s3 ex Hfile _ Hmod Hfo' Hmk Hdup Hmove
    | model s1 fo t s3 t' Hfile _ Hmod Hfo' Hmk Hdup Hmove ];
    try discriminate He.
  - unfold FS.os_path_isfile in Hfile. fold (source_path x) in Hfile.
    rewrite Hf in Hfile. discriminate.
  - congruence.
  - destruct (model_of_source _ _ _ _ _ _ Hf Hm Hne Hmod) as [[=] _].
  - destruct (model_of_source _ _ _ _ _ _ Hf Hm Hne Hmod) as [[= ->] _]. congruence.
  - destruct (model_of_source _ _ _ _ _ _ Hf Hm Hne Hmod) as [[= ->] ->].
    assert (fo = folder) by congruence. subst fo.
    destruct (model_makedirs env (ModelSort.arbol s) folder t None) as (Hg & Hdir & _);
      [apply (mi_root _ _ Hinv) | exact Hmk |].
    exists t. split; [exact Hg|]. split; [auto|]. left.
    apply is_duplicate_spec in Hdup. cbn in Hdup.
    destruct Hdup as (Ha3 & Hm3 & Hd3 & Hcase).
    cbn. rewrite Ha3, Hm3. repeat split.
    + apply in_app_iff. right. left. reflexivity.
    + destruct Hcase as [(Hnone & _)|(h & Hh & _ & Hiff)]; [left; exact Hnone|].
      right. left. destruct (proj1 Hiff eq_refl) as (q & Hq & Hqh).
      exists q. split; [exact Hq | congruence].
  - destruct (model_of_source _ _ _ _ _ _ Hf Hm Hne Hmod) as [[= ->] ->].
    assert (fo = folder) by congruence. subst fo.
    destruct (model_makedirs env (ModelSort.arbol s) folder t None) as (Hg & Hdir & _);
      [apply (mi_root _ _ Hinv) | exact Hmk |].
    exists t. split; [exact Hg|]. split; [auto|]. left.
    apply is_duplicate_spec in Hdup. cbn in Hdup.
    destruct Hdup as (Ha3 & Hm3 & Hd3 & _).
    cbn. rewrite Ha3 in *. rewrite Hm3. repeat split.
    + apply in_app_iff. right. left. reflexivity.
    + right. right. exists ex. exact Hmove.
  - destruct (model_of_source _ _ _ _ _ _ Hf Hm Hne Hmod) as [[= ->] ->].
    assert (fo = folder) by congruence. subst fo.
    destruct (model_makedirs env (ModelSort.arbol s) folder t None) as (Hg & Hdir & _);
      [apply (mi_root _ _ Hinv) | exact Hmk |].
    exists t. split; [exact Hg|]. split; [auto|]. right.
    apply is_duplicate_spec in Hdup. cbn in Hdup.
    destruct Hdup as (Ha3 & Hm3 & Hd3 & Hcase).
    cbn. rewrite Ha3 in *. rewrite Hm3. repeat split; [exact Hmove|].
    intros q Hq Heq.
    destruct Hcase as [(_ & [=] & _)|(h & Hh & _ & Hiff)].
    assert (false = true); [|discriminate].
    apply Hiff. exists q. split; [exact Hq | congruence].
Qed.

Lemma fingerprint_of_file t q t' q' f :
  FS.find t q = Some (FS.File f) -> FS.find t' q' = Some (FS.File f) ->
  fingerprint t q = fingerprint t' q'.
Proof.
  intros H H'. unfold fingerprint, Hashing.sha256_of_file, Hashing.sha256_of_file_sized,
    FS.read_bytes.
  rewrite H, H'. destruct (FS.legible f); reflexivity.
Qed.

Lemma fingerprint_Some_file t q h :
  fingerprint t q = Some h -> exists f, FS.find t q = Some (FS.File f).
Proof.
  intros H. destruct (FS.find t q) as [[f|]|] eqn:Hf; [eauto| |];
    exfalso; assert (Hn : fingerprint t q = None)
      by (apply fingerprint_None; unfold FS.read_bytes; rewrite Hf; reflexivity);
    congruence.
Qed.

Lemma fingerprint_grown t t1 folder q :
  grown_by t t1 folder -> fingerprint t1 q = fingerprint t q.
Proof.
  intros Hg. destruct (fingerprint t1 q) as [h|] eqn:H1.
  - apply fingerprint_Some_file in H1 as Hf. destruct Hf as [f Hf].
    rewrite <- H1. apply (fingerprint_of_file _ _ _ _ f); [exact Hf|].
    apply (grown_find_file _ _ _ _ _ Hg). exact Hf.
  - destruct (fingerprint t q) as [h|] eqn:H0; [|reflexivity].
    apply fingerprint_Some_file in H0 as Hf. destruct Hf as [f Hf].
    apply (grown_find_file _ _ _ _ _ Hg) in Hf as Hf1.
    rewrite (fingerprint_of_file _ _ _ _ f Hf1 Hf) in H1. congruence.
Qed.

Lemma walk_files_below t d q : In q (FS.walk_files t d) -> FS.is_below d q = true.
Proof.
  unfold FS.walk_files. rewrite <- list_elem_of_In, list_elem_of_omap.
  intros [[p [f|]] [_ H]]; cbn [fst snd] in H; [|discriminate].
  destruct (FS.is_below d p) eqn:Hb; [|discriminate]. congruence.
Qed.

Lemma walk_files_intro t d q f :
  FS.find t q = Some (FS.File f) -> FS.is_below d q = true -> In q (FS.walk_files t d).
Proof.
  intros Hf Hb. unfold FS.walk_files. apply list_elem_of_In, list_elem_of_omap.
  exists (q, FS.File f). split; [apply list_elem_of_In, find_In; exact Hf|].
  cbn [fst snd]. rewrite Hb. reflexivity.
Qed.

Lemma absent_below_walk t dest h :
  (forall q, In q (FS.walk_files t dest) -> fingerprint t q <> Some h) ->
  absent_below t dest h.
Proof.
  intros H q Hb Hq. apply fingerprint_Some_file in Hq as Hf. destruct Hf as [f Hf].
  apply (H q); [eapply walk_files_intro; eassumption | exact Hq].
Qed.

Lemma below_dest fo0 fo r :
  FS.is_below (ModelStep.dest_of fo0) (ModelStep.dest_of fo ++ r) = true ->
  ModelStep.dest_of fo0 = ModelStep.dest_of fo.
Proof.
  unfold FS.is_below, ModelStep.dest_of, FS.os_path_join, ModelSort.CAMERAS_DIR.
  cbn [app FS.relative]. case_decide as Hc; [|discriminate].
  case_decide as Hn; [|discriminate]. rewrite Hn. reflexivity.
Qed.

Lemma real_dst_source t x dest :
  FS.real_dst t (source_path x) (FS.os_path_join dest x) = FS.os_path_join dest x \/
  FS.real_dst t (source_path x) (FS.os_path_join dest x)
    = FS.os_path_join (FS.os_path_join dest x) x.
Proof.
  unfold FS.real_dst. rewrite basename_source.
  destruct (FS.os_path_isdir t _); auto.
Qed.

Lemma shutil_move_succeeds env t src d n f :
  FS.os_path_isdir t (FS.os_path_join d n) = false ->
  FS.find t src = Some (FS.File f) ->
  FS.os_path_isdir t d = true ->
  FS.move_fails env src (FS.os_path_join d n) = false ->
  FS.shutil_move env t src (FS.os_path_join d n)
    = Ok (FS.put (FS.remove t src) (FS.os_path_join d n) (FS.File f)).
Proof.
  intros Hnd Hsrc Hd Hmf. unfold FS.shutil_move, FS.real_dst, FS.parent_is_dir.
  rewrite Hnd. cbn [andb]. rewrite Hsrc, dirname_join.
  destruct d as [|y d]; [|rewrite Hd]; cbn [negb]; rewrite Hmf; reflexivity.
Qed.

Lemma nodup_split (l1 l2 : list string) x :
  NoDup (l1 ++ x :: l2) -> ~ In x l1 /\ ~ In x l2.
Proof.
  rewrite NoDup_app, NoDup_cons. intros (_ & H1 & H2 & _). split.
  - intros Hin. apply (H1 x); [apply list_elem_of_In; exact Hin | left].
  - intros Hin. apply H2, list_elem_of_In. exact Hin.
Qed.

(** One entry per path: one name per entry of a listing. *)
Lemma listdir_NoDup t d : wf t -> NoDup (FS.os_listdir t d).
Proof.
  unfold wf. induction t as [|[p n] t IH]; cbn [map fst]; intros Hnd; [constructor|].
  apply NoDup_cons in Hnd as [Hnotin Hnd'].
  change (FS.os_listdir ((p, n) :: t) d) with
    (match FS.child_name d p with
     | Some x => x :: FS.os_listdir t d
     | None => FS.os_listdir t d
     end).
  destruct (FS.child_name d p) as [x|] eqn:Hc; [|auto].
  apply NoDup_cons. split; [|auto].
  intros Hin. apply Hnotin. apply child_name_Some in Hc. subst p.
  apply list_elem_of_In. apply listdir_In. apply list_elem_of_In. exact Hin.
Qed.

Ltac model_path_length H :=
  apply (f_equal (@length string)) in H;
  unfold source_path, ModelStep.dest_of, FS.os_path_join, ModelSort.CAMERAS_DIR in H;
  rewrite ?length_app in H; cbn [length Nat.add] in H; discriminate H.

(** Before the first copy: a turn on a photo that is not a copy brings no
    file of the digest below the destination folder. *)
Lemma absent_below_step env t0 t folder0 h x t' :
  (forall f, FS.find t (source_path x) = Some (FS.File f) ->
             FS.find t0 (source_path x) = Some (FS.File f)) ->
  ~ copy_of t0 (ModelStep.dest_of folder0) h x ->
  absent_below t (ModelStep.dest_of folder0) h ->
  model_tree_step env t x t' ->
  absent_below t' (ModelStep.dest_of folder0) h.
Proof.
  intros H0 Hnc Habs [fo t1 Hg | f fo t1 t2 Hal Hf Hfo Hg Hmove]; intros q Hb Hq.
  - rewrite (fingerprint_grown _ _ _ _ Hg) in Hq. exact (Habs q Hb Hq).
  - apply shutil_move_Ok in Hmove. destruct Hmove as (f' & Hf' & -> & _).
    assert (f' = f) by (apply (grown_find_file _ _ _ _ _ Hg) in Hf'; congruence).
    subst f'.
    destruct (fingerprint_Some_file _ _ _ Hq) as [g Hg2].
    rewrite find_moved in Hg2. case_decide as H1.
    + injection Hg2 as <-. subst q. apply Hnc. split; [exact Hal|].
      exists f, fo. repeat split; [auto | exact Hfo | | ].
      * symmetry.
        destruct (real_dst_source t1 x (ModelStep.dest_of fo)) as [Hr|Hr];
          rewrite Hr in Hb; unfold FS.os_path_join in Hb; rewrite <- ?app_assoc in Hb;
          apply below_dest in Hb; exact Hb.
      * rewrite <- Hq. apply (fingerprint_of_file _ _ _ _ f); [auto|].
        rewrite find_moved. case_decide; [reflexivity | contradiction].
    + case_decide as H2; [discriminate|].
      apply (Habs q Hb). rewrite <- (fingerprint_grown _ _ _ _ Hg), <- Hq.
      apply fingerprint_find. rewrite find_moved.
      case_decide; [contradiction|]. case_decide; [contradiction | reflexivity].
Qed.

(** Nor does a turn put a directory where the first copy is to land. *)
Lemma notdir_step env t folder0 g x t' :
  FS.os_path_isdir t (FS.os_path_join (ModelStep.dest_of folder0) g) = false ->
  model_tree_step env t x t' ->
  FS.os_path_isdir t' (FS.os_path_join (ModelStep.dest_of folder0) g) = false.
Proof.
  assert (Hgrow : forall fo t1,
            grown_by t t1 fo ->
            FS.os_path_isdir t (FS.os_path_join (ModelStep.dest_of folder0) g) = false ->
            FS.os_path_isdir t1 (FS.os_path_join (ModelStep.dest_of folder0) g) = false).
  { intros fo t1 [->|[-> _]] H; [exact H|].
    unfold FS.os_path_isdir in *. rewrite find_app_dirs.
    destruct (FS.find t (FS.os_path_join (ModelStep.dest_of folder0) g)); [exact H|].
    case_decide as Hin; [|reflexivity].
    apply list_elem_of_singleton in Hin. model_path_length Hin. }
  intros Hnd [fo t1 Hg | f fo t1 t2 Hal Hf Hfo Hg Hmove]; [eauto|].
  apply shutil_move_Ok in Hmove. destruct Hmove as (f' & Hf' & -> & _).
  pose proof (Hgrow _ _ Hg Hnd) as H1.
  unfold FS.os_path_isdir in *. rewrite find_moved.
  case_decide; [reflexivity|]. case_decide; [reflexivity | exact H1].
Qed.

(** After the first copy: it stays where it landed. *)
Lemma present_step env t folder0 g h x t' :
  x <> g ->
  fingerprint t (FS.os_path_join (ModelStep.dest_of folder0) g) = Some h ->
  model_tree_step env t x t' ->
  fingerprint t' (FS.os_path_join (ModelStep.dest_of folder0) g) = Some h.
Proof.
  intros Hne Hh [fo t1 Hg | f fo t1 t2 Hal Hf Hfo Hg Hmove].
  - rewrite (fingerprint_grown _ _ _ _ Hg). exact Hh.
  - apply shutil_move_Ok in Hmove. destruct Hmove as (f' & Hf' & -> & _).
    rewrite <- Hh, <- (fingerprint_grown _ _ _ _ Hg).
    apply fingerprint_find. rewrite find_moved.
    case_decide as H1.
    + exfalso. destruct (real_dst_source t1 x (ModelStep.dest_of fo)) as [Hr|Hr];
        rewrite Hr in H1.
      * apply os_path_join_inj in H1 as [_ H1]. contradiction.
      * model_path_length H1.
    + case_decide as H2; [model_path_length H2 | reflexivity].
Qed.

(** The turn of the first copy: it is moved. *)
Lemma first_copy_turn env t0 s g s' f folder h :
  model_inv t0 s -> ModelSort.classify_item env s g = (s', None) ->
  FS.find (ModelSort.arbol s) (source_path g) = Some (FS.File f) ->
  ModelStep.allowed g = true -> folder_of_file f = Some folder ->
  fingerprint (ModelSort.arbol s) (source_path g) = Some h ->
  absent_below (ModelSort.arbol s) (ModelStep.dest_of folder) h ->
  FS.os_path_isdir (ModelSort.arbol s) (FS.os_path_join (ModelStep.dest_of folder) g)
    = false ->
  FS.move_fails env (source_path g) (FS.os_path_join (ModelStep.dest_of folder) g) = false ->
  ModelSort.moved s' = ModelSort.moved s ++ [source_path g] /\
  fingerprint (ModelSort.arbol s') (FS.os_path_join (ModelStep.dest_of folder) g) = Some h.
Proof.
  intros Hinv Hstep Hf Hal Hfo Hh Habs Hnd Hmf.
  destruct (mapped_turn env t0 s g s' None f folder Hinv Hstep eq_refl Hf Hal Hfo)
    as (t1 & Hg & Hdir & Hcase).
  assert (Hf1 : FS.find t1 (source_path g) = Some (FS.File f))
    by (apply (grown_find_file _ _ _ _ _ Hg); exact Hf).
  assert (Hh1 : fingerprint t1 (source_path g) = Some h)
    by (rewrite (fingerprint_grown _ _ _ _ Hg); exact Hh).
  assert (Hnd1 : FS.os_path_isdir t1 (FS.os_path_join (ModelStep.dest_of folder) g) = false).
  { apply (notdir_step env (ModelSort.arbol s) folder g g); [exact Hnd|].
    eapply mts_grown. exact Hg. }
  pose proof (shutil_move_succeeds env t1 (source_path g) (ModelStep.dest_of folder) g f
                Hnd1 Hf1 (proj2 (isdir_true _ _) Hdir) Hmf) as Hok.
  destruct Hcase as [(_ & _ & _ & [Hnone | [(q & Hq & Hqh) | [ex Hr]]]) | (Hm & Hmove & _)].
  - congruence.
  - exfalso. apply walk_files_below in Hq.
    apply (Habs q Hq). rewrite <- (fingerprint_grown _ _ _ _ Hg). congruence.
  - congruence.
  - split; [exact Hm|]. rewrite Hok in Hmove. injection Hmove as <-.
    rewrite <- Hh1. apply (fingerprint_of_file _ _ _ _ f); [|exact Hf1].
    rewrite find_moved. case_decide; [reflexivity | contradiction].
Qed.

(** The turn of a later copy: it is recorded as a duplicate and stays. *)
Lemma later_copy_turn env t0 s m s' f folder g h :
  model_inv t0 s -> ModelSort.classify_item env s m = (s', None) ->
  FS.find (ModelSort.arbol s) (source_path m) = Some (FS.File f) ->
  ModelStep.allowed m = true -> folder_of_file f = Some folder ->
  fingerprint (ModelSort.arbol s) (source_path m) = Some h ->
  fingerprint (ModelSort.arbol s) (FS.os_path_join (ModelStep.dest_of folder) g) = Some h ->
  ModelSort.moved s' = ModelSort.moved s /\ In (source_path m) (ModelSort.duplicates s').
Proof.
  intros Hinv Hstep Hf Hal Hfo Hh Hthere.
  destruct (mapped_turn env t0 s m s' None f folder Hinv Hstep eq_refl Hf Hal Hfo)
    as (t1 & Hg & Hdir & [(_ & Hm & Hd & _) | (_ & _ & Hno)]); [auto|].
  exfalso.
  rewrite <- (fingerprint_grown _ _ _ _ Hg) in Hthere.
  rewrite <- (fingerprint_grown _ _ _ _ Hg) in Hh.
  destruct (fingerprint_Some_file _ _ _ Hthere) as [f1 Hf1].
  apply (Hno (FS.os_path_join (ModelStep.dest_of folder) g)); [|congruence].
  apply (walk_files_intro _ _ _ f1 Hf1).
  unfold FS.is_below, FS.os_path_join. rewrite relative_join. reflexivity.
Qed.

(** What a loop of the model sorter moves are sources of its listing. *)
Lemma loop_moved_from env t0 l s s' e :
  model_inv t0 s -> for_each (ModelSort.classify_item env) s l = (s', e) ->
  model_inv t0 s' /\
  incl (ModelSort.moved s) (ModelSort.moved s') /\
  incl (ModelSort.duplicates s) (ModelSort.duplicates s') /\
  forall p, In p (ModelSort.moved s') ->
            In p (ModelSort.moved s) \/ exists x, In x l /\ p = source_path x.
Proof.
  intros Hinv Hloop.
  apply (for_each_inv_in (ModelSort.classify_item env)
           (fun a => model_inv t0 a /\
                     incl (ModelSort.moved s) (ModelSort.moved a) /\
                     incl (ModelSort.duplicates s) (ModelSort.duplicates a) /\
                     forall p, In p (ModelSort.moved a) ->
                       In p (ModelSort.moved s) \/ exists x, In x l /\ p = source_path x)
           l) with (s := s) (e := e); [| |exact Hloop].
  - intros a x a' e' Hx (Ha & Hm & Hd & Hfrom) Hb.
    destruct (classify_item_tree env t0 a x a' e' Ha Hb) as [_ Hmv].
    destruct (classify_item_lists env a x a' e' Hb) as (Hm' & Hd' & _).
    split; [eapply classify_item_inv; eassumption|].
    split; [eapply incl_tran; eassumption|]. split; [eapply incl_tran; eassumption|].
    intros p Hp. destruct Hmv as [Heq|Heq]; rewrite Heq in Hp; [auto|].
    apply in_app_iff in Hp as [Hp|[<-|[]]]; [auto | right; eauto].
  - split; [exact Hinv|]. split; [apply incl_refl|]. split; [apply incl_refl | auto].
Qed.

(** C7, as amended, for the model sorter. Among the source photos of one
    content bound for one destination folder, the one the listing of
    [CAMERAS] gives first is the one moved, and every later one is
    recorded as a duplicate, is not moved and stays at its path unchanged;
    this when the run ends normally, no file of the destination folder has
    that content beforehand, and the move of the first copy is not
    refused. The listing is in the order of the entries of the tree, which
    the script does not sort. *)
Theorem first_listed_copy_is_moved env t0 folder h pre g post s' :
  wf t0 ->
  FS.os_path_isdir t0 ModelSort.CAMERAS_DIR = true ->
  FS.os_listdir t0 ModelSort.CAMERAS_DIR = pre ++ g :: post ->
  ModelSort.run env t0 = (s', None) ->
  copy_of t0 (ModelStep.dest_of folder) h g ->
  (forall x, In x pre -> ~ copy_of t0 (ModelStep.dest_of folder) h x) ->
  (forall q, In q (FS.walk_files t0 (ModelStep.dest_of folder)) ->
             fingerprint t0 q <> Some h) ->
  FS.os_path_isdir t0 (FS.os_path_join (ModelStep.dest_of folder) g) = false ->
  FS.move_fails env (source_path g) (FS.os_path_join (ModelStep.dest_of folder) g)
    = false ->
  In (source_path g) (ModelSort.moved s') /\
  forall m, In m post -> copy_of t0 (ModelStep.dest_of folder) h m ->
    ~ In (source_path m) (ModelSort.moved s') /\
    In (source_path m) (ModelSort.duplicates s') /\
    FS.find (ModelSort.arbol s') (source_path m) = FS.find t0 (source_path m).
Proof.
  intros Hwf Hroot Hlist Hrun (Hal & f & fo & Hf0 & Hfo & Hdest & Hh0) Hfirst Habs0 Hnd Hmf.
  pose proof (listdir_NoDup t0 ModelSort.CAMERAS_DIR Hwf) as Hnodup.
  rewrite Hlist in Hnodup.
  destruct (nodup_split _ _ _ Hnodup) as [Hg_pre Hg_post].
  unfold ModelSort.run, ModelSort.classify_images in Hrun.
  cbn [ModelSort.arbol ModelSort.inicial] in Hrun.
  rewrite Hroot, Hlist in Hrun. cbn [negb] in Hrun.
  destruct (for_each (ModelSort.classify_item env) _ (pre ++ g :: post))
    as [sc [ex|]] eqn:Hloop; [discriminate|].
  injection Hrun as <-.
  apply for_each_split in Hloop as (sa & sb & Hpre & Hturn & Hpost).
  assert (Hinv0 : model_inv t0 (ModelSort.inicial t0))
    by (apply model_inv_initial, isdir_true; exact Hroot).
  destruct (loop_moved_from env t0 pre _ _ _ Hinv0 Hpre) as (Hinva & _ & _ & Hfroma).
  set (D := ModelStep.dest_of folder) in *.
  assert (Hphase1 : model_inv t0 sa /\ absent_below (ModelSort.arbol sa) D h /\
                    FS.os_path_isdir (ModelSort.arbol sa) (FS.os_path_join D g) = false).
  { apply (for_each_inv_in (ModelSort.classify_item env)
             (fun a => model_inv t0 a /\ absent_below (ModelSort.arbol a) D h /\
                       FS.os_path_isdir (ModelSort.arbol a) (FS.os_path_join D g) = false)
             pre) with (s := ModelSort.inicial t0) (e := None); [| |exact Hpre].
    - intros a x a' e' Hx (Ha & Hab & Hn) Hb.
      destruct (classify_item_tree env t0 a x a' e' Ha Hb) as [Htree _].
      split; [eapply classify_item_inv; eassumption|]. split.
      + eapply absent_below_step; [ | apply Hfirst; exact Hx | exact Hab | exact Htree].
        intros f1 Hf1. apply (mi_present _ _ Ha) in Hf1. tauto.
      + eapply notdir_step; eassumption.
    - split; [exact Hinv0|]. split; [apply absent_below_walk; exact Habs0 | exact Hnd]. }
  destruct Hphase1 as (_ & Habsa & Hnda).
  assert (Hnotmoved : ~ In (source_path g) (ModelSort.moved sa)).
  { intros Hin. destruct (Hfroma _ Hin) as [[]|(x & Hx & Heq)].
    apply source_path_inj in Heq. subst x. contradiction. }
  pose proof (mi_kept _ _ Hinva g f Hf0 Hnotmoved) as Hfa.
  assert (Hha : fingerprint (ModelSort.arbol sa) (source_path g) = Some h)
    by (rewrite <- Hh0; apply (fingerprint_of_file _ _ _ _ f); assumption).
  subst D. rewrite <- Hdest in *.
  destruct (first_copy_turn env t0 sa g sb f fo h Hinva Hturn Hfa Hal Hfo Hha Habsa Hnda Hmf)
    as [Hmb Hthere].
  assert (Hinvb : model_inv t0 sb) by (eapply classify_item_inv; eassumption).
  destruct (loop_moved_from env t0 post sb sc None Hinvb Hpost) as (Hinvc & Hmc & _ & _).
  destruct (resumen_state sc) as (Ra & Rm & Rd & _).
  split.
  { rewrite Rm. apply Hmc. rewrite Hmb. apply in_app_iff. right. left. reflexivity. }
  intros m Hm (Halm & fm & fom & Hfm0 & Hfom & Hdestm & Hhm).
  apply in_split in Hm as (post1 & post2 & ->).
  apply for_each_split in Hpost as (s1 & s2 & Hp1 & Hturnm & Hp2).
  replace (pre ++ g :: post1 ++ m :: post2) with ((pre ++ g :: post1) ++ m :: post2)
    in Hnodup by (rewrite <- app_assoc; reflexivity).
  destruct (nodup_split _ _ _ Hnodup) as [Hm_before Hm_after].
  destruct (loop_moved_from env t0 post1 sb s1 None Hinvb Hp1) as (Hinv1 & _ & _ & Hfrom1).
  assert (Hthere1 : model_inv t0 s1 /\
            fingerprint (ModelSort.arbol s1) (FS.os_path_join (ModelStep.dest_of fo) g)
              = Some h).
  { apply (for_each_inv_in (ModelSort.classify_item env)
             (fun a => model_inv t0 a /\
                fingerprint (ModelSort.arbol a) (FS.os_path_join (ModelStep.dest_of fo) g)
                  = Some h) post1) with (s := sb) (e := None);
      [| split; assumption | exact Hp1].
    intros a x a' e' Hx (Ha & Hfp) Hb.
    destruct (classify_item_tree env t0 a x a' e' Ha Hb) as [Htree _].
    split; [eapply classify_item_inv; eassumption|].
    eapply present_step; [ | exact Hfp | exact Htree].
    intros ->. apply Hg_post. apply in_app_iff. left. exact Hx. }
  destruct Hthere1 as [_ Hthere1].
  assert (Hnm1 : ~ In (source_path m) (ModelSort.moved s1)).
  { intros Hin. destruct (Hfrom1 _ Hin) as [Hin'|(x & Hx & Heq)].
    - rewrite Hmb in Hin'. apply in_app_iff in Hin' as [Hin'|[Heq|[]]].
      + destruct (Hfroma _ Hin') as [[]|(x & Hx & Heq)].
        apply source_path_inj in Heq. subst x.
        apply Hm_before, in_app_iff. left. exact Hx.
      + apply source_path_inj in Heq. subst m.
        apply Hm_before, in_app_iff. right. left. reflexivity.
    - apply source_path_inj in Heq. subst x.
      apply Hm_before, in_app_iff. right. right. exact Hx. }
  pose proof (mi_kept _ _ Hinv1 m fm Hfm0 Hnm1) as Hfm1.
  assert (Hhm1 : fingerprint (ModelSort.arbol s1) (source_path m) = Some h)
    by (rewrite <- Hhm; apply (fingerprint_of_file _ _ _ _ fm); assumption).
  rewrite <- Hdestm in Hthere1.
  destruct (later_copy_turn env t0 s1 m s2 fm fom g h Hinv1 Hturnm Hfm1 Halm Hfom Hhm1
              Hthere1) as [Hm2 Hd2].
  assert (Hinv2 : model_inv t0 s2) by (eapply classify_item_inv; eassumption).
  destruct (loop_moved_from env t0 post2 s2 sc None Hinv2 Hp2) as (_ & _ & Hdc & Hfrom2).
  assert (Hnmc : ~ In (source_path m) (ModelSort.moved sc)).
  { intros Hin. destruct (Hfrom2 _ Hin) as [Hin'|(x & Hx & Heq)].
    - rewrite Hm2 in Hin'. contradiction.
    - apply source_path_inj in Heq. subst x. contradiction. }
  repeat split.
  - rewrite Rm. exact Hnmc.
  - rewrite Rd. apply Hdc. exact Hd2.
  - rewrite Ra, (mi_kept _ _ Hinvc m fm Hfm0 Hnmc). symmetry. exact Hfm0.
Qed.

Lemma first_listed_copy_is_moved_witness :
  In (source_path "b.jpg") (ModelSort.moved (fst (ModelSort.run entorno_ok arbol_copias))) /\
  ~ In (source_path "a.jpg") (ModelSort.moved (fst (ModelSort.run entorno_ok arbol_copias))) /\
  In (source_path "a.jpg")
     (ModelSort.duplicates (fst (ModelSort.run entorno_ok arbol_copias))).
Proof.
  assert (Hcopy : forall x, In x ["b.jpg"; "a.jpg"]%string ->
            copy_of arbol_copias (ModelStep.dest_of "Sony ILCE-6000")
              (SHA256.hex (SHA256.hash (bytes_of_string "same"))) x).
  { intros x [<-|[<-|[]]]; (split; [reflexivity|]);
      exists (foto_sony "same"), "Sony ILCE-6000"%string;
      (split; [reflexivity|]); (split; [reflexivity|]); (split; [reflexivity|]);
      apply fingerprint_readable; reflexivity. }
  destruct (first_listed_copy_is_moved entorno_ok arbol_copias "Sony ILCE-6000"
              (SHA256.hex (SHA256.hash (bytes_of_string "same")))
              [] "b.jpg"%string ["a.jpg"%string]
              (fst (ModelSort.run entorno_ok arbol_copias))) as [H1 H2].
  - apply (bool_decide_unpack _). vm_compute. exact I.
  - reflexivity.
  - reflexivity.
  - vm_compute. reflexivity.
  - apply Hcopy. left. reflexivity.
  - intros x [].
  - intros q Hq. vm_compute in Hq. destruct Hq.
  - reflexivity.
  - reflexivity.
  - destruct (H2 "a.jpg"%string) as (Ha & Hb & _).
    + left. reflexivity.
    + apply Hcopy. right. left. reflexivity.
    + split; [exact H1 | split; [exact Ha | exact Hb]].
Defined.

(** C7, as the specification words it, fails: the copy moved is the one
    enumerated first, not the one with the smallest path. Here [b.jpg]
    comes first in the listing and is moved; [a.jpg], whose path is the
    smaller, is the one recorded as a duplicate. *)
Lemma smallest_path_is_not_the_one_moved :
  let r := ModelSort.run entorno_ok arbol_copias in
  FS.os_listdir arbol_copias ModelSort.CAMERAS_DIR = ["b.jpg"; "a.jpg"]%string /\
  fingerprint arbol_copias (source_path "a.jpg")
    = fingerprint arbol_copias (source_path "b.jpg") /\
  path_compare (source_path "a.jpg") (source_path "b.jpg") = Lt /\
  snd r = None /\
  ModelSort.moved (fst r) = [source_path "b.jpg"] /\
  ModelSort.duplicates (fst r) = [source_path "a.jpg"].
Proof. vm_compute. repeat split; reflexivity. Qed.

(* ===================================================================== *)
(** * More of the scripts                                                 *)
(* ===================================================================== *)

(* --------------------------------------------------------------------- *)
(** ** [sanitize_folder_name]                                             *)
(* --------------------------------------------------------------------- *)

Lemma invalid_char_iff c :
  existsb (Ascii.eqb c) ModelSort.invalid_chars = true <-> In c ModelSort.invalid_chars.
Proof.
  rewrite existsb_exists. split.
  - intros (x & Hx & Heq). apply Ascii.eqb_eq in Heq. subst x. exact Hx.
  - intros H. exists c. split; [exact H | apply Ascii.eqb_refl].
Qed.

Lemma length_string_of_list (l : list ascii) :
  String.length (string_of_list_ascii l) = length l.
Proof. induction l as [|c l IH]; cbn; [reflexivity | rewrite IH; reflexivity]. Qed.

Lemma length_list_of_string (s : string) :
  length (list_ascii_of_string s) = String.length s.
Proof. induction s as [|c s IH]; cbn; [reflexivity | rewrite IH; reflexivity]. Qed.

(** The folder name that [sanitize_folder_name] gives has the length of
    the name it was given and none of the nine characters of the
    pattern; sanitizing it again changes nothing, and a name without those
    characters comes back as it is. *)
Theorem sanitize_folder_name_clean (name : string) :
  String.length (ModelSort.sanitize_folder_name name) = String.length name /\
  (forall c, In c (list_ascii_of_string (ModelSort.sanitize_folder_name name)) ->
             ~ In c ModelSort.invalid_chars) /\
  ModelSort.sanitize_folder_name (ModelSort.sanitize_folder_name name)
    = ModelSort.sanitize_folder_name name /\
  ((forall c, In c (list_ascii_of_string name) -> ~ In c ModelSort.invalid_chars) ->
   ModelSort.sanitize_folder_name name = name).
Proof.
  unfold ModelSort.sanitize_folder_name.
  set (f := fun c : ascii =>
              if existsb (Ascii.eqb c) ModelSort.invalid_chars then "_"%char else c).
  assert (Hclean : forall c, ~ In (f c) ModelSort.invalid_chars).
  { intros c. unfold f.
    destruct (existsb (Ascii.eqb c) ModelSort.invalid_chars) eqn:Hc.
    - intros H. apply invalid_char_iff in H. vm_compute in H. discriminate.
    - intros H. apply invalid_char_iff in H. congruence. }
  assert (Hid : forall c, ~ In c ModelSort.invalid_chars -> f c = c).
  { intros c Hc. unfold f.
    destruct (existsb (Ascii.eqb c) ModelSort.invalid_chars) eqn:He; [|reflexivity].
    apply invalid_char_iff in He. contradiction. }
  repeat split.
  - rewrite length_string_of_list, length_map. apply length_list_of_string.
  - intros c. rewrite list_ascii_of_string_of_list_ascii.
    intros Hin. apply in_map_iff in Hin as (x & <- & _). apply Hclean.
  - rewrite list_ascii_of_string_of_list_ascii, map_map. f_equal.
    apply map_ext. intros c. apply Hid, Hclean.
  - intros Hok. rewrite <- (string_of_list_ascii_of_string name) at 2. f_equal.
    rewrite <- (map_id (list_ascii_of_string name)) at 2.
    apply map_ext_in. intros c Hc. apply Hid, Hok, Hc.
Qed.

(* --------------------------------------------------------------------- *)
(** ** [is_duplicate] of the model sorter                                  *)
(* --------------------------------------------------------------------- *)

(** [is_duplicate(dest_folder, src_path)] answers [True] exactly when the
    source cannot be hashed or some file below the destination folder, at
    any depth and under any name, has the digest of the source; files of
    the folder that cannot be read never match. It changes neither the
    tree nor the lists of moved files and duplicates. *)
Theorem is_duplicate_answer (dest src : FS.path) (s : ModelSort.estado) :
  (fst (ModelSort.is_duplicate dest src s) = true <->
   fingerprint (ModelSort.arbol s) src = None \/
   exists q h, In q (FS.walk_files (ModelSort.arbol s) dest) /\
               fingerprint (ModelSort.arbol s) q = Some h /\
               fingerprint (ModelSort.arbol s) src = Some h) /\
  ModelSort.arbol (snd (ModelSort.is_duplicate dest src s)) = ModelSort.arbol s /\
  ModelSort.moved (snd (ModelSort.is_duplicate dest src s)) = ModelSort.moved s /\
  ModelSort.duplicates (snd (ModelSort.is_duplicate dest src s)) = ModelSort.duplicates s.
Proof.
  destruct (ModelSort.is_duplicate dest src s) as [b s'] eqn:H.
  apply is_duplicate_spec in H.
  destruct H as (Ha & Hm & Hd & [(Hnone & -> & _) | (h & Hh & _ & Hiff)]); cbn [fst snd].
  - repeat split; auto.
  - repeat split; try assumption.
    + intros Hb. right. destruct (proj1 Hiff Hb) as (q & Hq & Hqh). exists q, h. auto.
    + intros [Hnone | (q & h' & Hq & Hqh & Hsrc)]; [congruence|].
      apply Hiff. exists q. split; [exact Hq | congruence].
Qed.

(* --------------------------------------------------------------------- *)
(** ** The three lists of the model sorter                                 *)
(* --------------------------------------------------------------------- *)

(** An invariant that knows the names gone through and those to come. *)
Lemma for_each_prefix {S A : Type} (body : S -> A -> S * option exc)
    (I : list A -> S -> Prop) (l : list A) :
  (forall done x rest s s' e,
     l = done ++ x :: rest -> I done s -> body s x = (s', e) -> I (done ++ [x]) s') ->
  forall s s' e, I [] s -> for_each body s l = (s', e) -> exists done, I done s'.
Proof.
  intros Hstep.
  assert (Hgen : forall rest done s s' e,
            l = done ++ rest -> I done s -> for_each body s rest = (s', e) ->
            exists done', I done' s').
  { induction rest as [|x rest IH]; intros done s s' e Hl Hs; cbn [for_each].
    - intros [= <- <-]. eauto.
    - destruct (body s x) as [s1 [ex|]] eqn:Hb.
      + intros [= <- <-]. exists (done ++ [x]). eapply Hstep; eassumption.
      + apply (IH (done ++ [x])).
        * rewrite <- app_assoc. exact Hl.
        * eapply Hstep; eassumption. }
  intros s s' e. apply (Hgen l []). reflexivity.
Qed.

(** What one turn adds to the lists: the source path, to [moved] alone, or
    to [duplicates] or [unmapped] (or both), or nothing. *)
Lemma classify_item_report env s x s' e :
  ModelSort.classify_item env s x = (s', e) ->
  (ModelSort.moved s' = ModelSort.moved s ++ [source_path x] /\
   ModelSort.duplicates s' = ModelSort.duplicates s /\
   ModelSort.unmapped s' = ModelSort.unmapped s) \/
  (ModelSort.moved s' = ModelSort.moved s /\
   (ModelSort.duplicates s' = ModelSort.duplicates s \/
    ModelSort.duplicates s' = ModelSort.duplicates s ++ [source_path x]) /\
   (ModelSort.unmapped s' = ModelSort.unmapped s \/
    ModelSort.unmapped s' = ModelSort.unmapped s ++ [source_path x])).
Proof.
  intros Hstep. apply classify_item_step in Hstep.
  destruct Hstep as
    [ Hfile | Hfile Hal | s1 Hfile Hal Hmod | model s1 Hfile Hal Hmod Hfo
    | model s1 folder t ex Hfile Hal Hmod Hfo Hmk
    | model s1 folder t s3 Hfile Hal Hmod Hfo Hmk Hdup
    | model s1 folder t s3 ex Hfile Hal Hmod Hfo Hmk Hdup Hmove
    | model s1 folder t s3 t' Hfile Hal Hmod Hfo Hmk Hdup Hmove ];
    fold (source_path x) in *;
    try (apply get_camera_model_state in Hmod;
         destruct Hmod as (_ & Hu & Hd & Hm & _); cbn in Hu, Hd, Hm);
    try (apply is_duplicate_spec in Hdup;
         destruct Hdup as (_ & Hm3 & Hd3 & Hcase); cbn in Hm3, Hd3, Hcase;
         rewrite Hu in Hcase);
    cbn [ModelSort.moved ModelSort.duplicates ModelSort.unmapped ModelSort.registrar
         ModelSort.con_traza ModelSort.con_arbol ModelSort.unmapped_append
         ModelSort.duplicates_append ModelSort.moved_append ModelSort.scanned_add];
    rewrite ?Hm3, ?Hd3, ?Hm, ?Hd, ?Hu.
  - right. auto.
  - right. auto.
  - right. auto.
  - right. auto.
  - right. auto.
  - right. split; [reflexivity|]. split; [right; reflexivity|].
    destruct Hcase as [(_ & _ & Hu3 & _)|(h & _ & Hu3 & _)]; rewrite Hu3; auto.
  - right. split; [reflexivity|]. split; [right; reflexivity|].
    destruct Hcase as [(_ & _ & Hu3 & _)|(h & _ & Hu3 & _)]; rewrite Hu3; auto.
  - left. split; [reflexivity|]. split; [reflexivity|].
    destruct Hcase as [(_ & [=] & _)|(h & _ & Hu3 & _)]. exact Hu3.
Qed.

Lemma NoDup_snoc (l : list FS.path) p : NoDup l -> ~ In p l -> NoDup (l ++ [p]).
Proof.
  intros Hl Hp. apply NoDup_app. split; [exact Hl|]. split.
  - intros x Hx Hin. apply list_elem_of_singleton in Hin. subst x.
    apply Hp, list_elem_of_In, Hx.
  - apply NoDup_singleton.
Qed.

(** The report of the model sorter names no file twice: no path occurs
    more than once in [moved], in [duplicates] or in [unmapped], and a
    path in [moved] is in neither of the other two lists. *)
Theorem report_lists_are_apart env t0 :
  wf t0 ->
  let s' := fst (ModelSort.run env t0) in
  NoDup (ModelSort.moved s') /\ NoDup (ModelSort.duplicates s') /\
  NoDup (ModelSort.unmapped s') /\
  forall p, In p (ModelSort.moved s') ->
            ~ In p (ModelSort.duplicates s') /\ ~ In p (ModelSort.unmapped s').
Proof.
  intros Hwf. cbv zeta. unfold ModelSort.run, ModelSort.classify_images.
  cbn [ModelSort.arbol ModelSort.inicial].
  destruct (FS.os_path_isdir t0 ModelSort.CAMERAS_DIR); cbn [negb];
    [|cbn; split; [constructor | split; [constructor | split; [constructor | intros p []]]]].
  pose proof (listdir_NoDup t0 ModelSort.CAMERAS_DIR Hwf) as Hnd.
  set (l := FS.os_listdir t0 ModelSort.CAMERAS_DIR) in *.
  pose (I := fun (done : list string) (s : ModelSort.estado) =>
          (forall p, In p (ModelSort.moved s) \/ In p (ModelSort.duplicates s) \/
                     In p (ModelSort.unmapped s) ->
                     exists x, In x done /\ p = source_path x) /\
          NoDup (ModelSort.moved s) /\ NoDup (ModelSort.duplicates s) /\
          NoDup (ModelSort.unmapped s) /\
          forall p, In p (ModelSort.moved s) ->
                    ~ In p (ModelSort.duplicates s) /\ ~ In p (ModelSort.unmapped s)).
  destruct (for_each (ModelSort.classify_item env) (ModelSort.inicial t0) l)
    as [sc e] eqn:Hloop.
  assert (Hfinal : exists done, I done sc).
  { apply (for_each_prefix (ModelSort.classify_item env) I l) with
      (s := ModelSort.inicial t0) (e := e); [| |exact Hloop].
    - intros done x rest s s' e' Hl (Hfrom & Hn1 & Hn2 & Hn3 & Hdis) Hb.
      assert (Hfresh : ~ In x done).
      { rewrite Hl in Hnd. apply nodup_split in Hnd. tauto. }
      assert (Hnew : forall p, In p (ModelSort.moved s) \/ In p (ModelSort.duplicates s) \/
                               In p (ModelSort.unmapped s) -> p <> source_path x).
      { intros p Hp ->. destruct (Hfrom _ Hp) as (y & Hy & Heq).
        apply source_path_inj in Heq. subst y. contradiction. }
      assert (Hweak : forall p, (exists y, In y done /\ p = source_path y) ->
                                exists y, In y (done ++ [x]) /\ p = source_path y).
      { intros p (y & Hy & Hp). exists y. split; [apply in_app_iff; auto | exact Hp]. }
      assert (Hself : exists y, In y (done ++ [x]) /\ source_path x = source_path y).
      { exists x. split; [apply in_app_iff; right; left; reflexivity | reflexivity]. }
      unfold I.
      destruct (classify_item_report env s x s' e' Hb)
        as [(Hm & Hd & Hu) | (Hm & Hd & Hu)]; rewrite Hm.
      + rewrite Hd, Hu. split; [|split; [|split; [|split]]]; try assumption.
        * intros p [Hp|Hp]; [|apply Hweak, Hfrom; auto].
          apply in_app_iff in Hp as [Hp|[<-|[]]]; [apply Hweak, Hfrom; auto | exact Hself].
        * apply NoDup_snoc; [exact Hn1|]. intros Hin. apply (Hnew _ (or_introl Hin)).
          reflexivity.
        * intros p Hp. apply in_app_iff in Hp as [Hp|[<-|[]]]; [auto|].
          split; intros Hin; [apply (Hnew (source_path x)) | apply (Hnew (source_path x))];
            auto.
      + split; [|split; [|split; [|split]]]; try assumption.
        * intros p [Hp|[Hp|Hp]].
          -- apply Hweak, Hfrom; auto.
          -- destruct Hd as [Hd|Hd]; rewrite Hd in Hp; [apply Hweak, Hfrom; auto|].
             apply in_app_iff in Hp as [Hp|[<-|[]]]; [apply Hweak, Hfrom; auto | exact Hself].
          -- destruct Hu as [Hu|Hu]; rewrite Hu in Hp; [apply Hweak, Hfrom; auto|].
             apply in_app_iff in Hp as [Hp|[<-|[]]]; [apply Hweak, Hfrom; auto | exact Hself].
        * destruct Hd as [Hd|Hd]; rewrite Hd; [exact Hn2|].
          apply NoDup_snoc; [exact Hn2|]. intros Hin.
          apply (Hnew (source_path x)); auto.
        * destruct Hu as [Hu|Hu]; rewrite Hu; [exact Hn3|].
          apply NoDup_snoc; [exact Hn3|]. intros Hin.
          apply (Hnew (source_path x)); auto.
        * intros p Hp. destruct (Hdis p Hp) as [H1 H2].
          assert (Hpx : p <> source_path x) by (apply Hnew; auto).
          split.
          -- destruct Hd as [Hd|Hd]; rewrite Hd; [exact H1|].
             intros Hin. apply in_app_iff in Hin as [Hin|[Heq|[]]]; [auto | congruence].
          -- destruct Hu as [Hu|Hu]; rewrite Hu; [exact H2|].
             intros Hin. apply in_app_iff in Hin as [Hin|[Heq|[]]]; [auto | congruence].
    - cbn. split; [intros p [[]|[[]|[]]]|].
      split; [constructor | split; [constructor | split; [constructor | intros p []]]]. }
  destruct Hfinal as (done & _ & Hn1 & Hn2 & Hn3 & Hdis).
  destruct e as [ex|]; cbn [fst]; [auto|].
  destruct (resumen_state sc) as (_ & Rm & Rd & Ru). rewrite Rm, Rd, Ru. auto.
Qed.

Lemma report_lists_are_apart_witness :
  NoDup (ModelSort.moved (fst (ModelSort.run entorno_ok arbol_copias))) /\
  NoDup (ModelSort.duplicates (fst (ModelSort.run entorno_ok arbol_copias))) /\
  NoDup (ModelSort.unmapped (fst (ModelSort.run entorno_ok arbol_copias))) /\
  forall p, In p (ModelSort.moved (fst (ModelSort.run entorno_ok arbol_copias))) ->
            ~ In p (ModelSort.duplicates (fst (ModelSort.run entorno_ok arbol_copias))) /\
            ~ In p (ModelSort.unmapped (fst (ModelSort.run entorno_ok arbol_copias))).
Proof.
  apply (report_lists_are_apart entorno_ok arbol_copias).
  apply (bool_decide_unpack _). vm_compute. exact I.
Defined.

(* --------------------------------------------------------------------- *)
(** ** The report of the date sorter                                       *)
(* --------------------------------------------------------------------- *)

Lemma dget_dupdate {K V : Type} `{EqDecision K} (d : list (K * V)) k v0 (f : V -> V) k' :
  dget (dupdate d k v0 f) k' =
    if decide (k = k') then Some (f (match dget d k with Some v => v | None => v0 end))
    else dget d k'.
Proof. unfold dupdate. destruct (dget d k); apply dget_dset. Qed.

Lemma moves_into_snoc k mv p d :
  moves_into k (mv ++ [(p, d)]) =
    moves_into k mv ++ (if decide (FS.dirname d = k) then [(p, d)] else []).
Proof.
  unfold moves_into. rewrite List.filter_app. cbn [List.filter snd].
  destruct (decide (FS.dirname d = k)) as [Heq|Hne].
  - rewrite bool_decide_eq_true_2 by exact Heq. reflexivity.
  - rewrite bool_decide_eq_false_2 by exact Hne. reflexivity.
Qed.

Lemma with_ext_snoc e mv pd :
  with_ext e (mv ++ [pd]) =
    with_ext e mv ++ (if decide (ext_of pd = e) then [pd] else []).
Proof.
  unfold with_ext. rewrite List.filter_app. cbn [List.filter].
  destruct (decide (ext_of pd = e)) as [Heq|Hne].
  - rewrite bool_decide_eq_true_2 by exact Heq. reflexivity.
  - rewrite bool_decide_eq_false_2 by exact Hne. reflexivity.
Qed.

(** The update of [folders_report] after a move keeps the report in
    agreement with the moves. *)
Lemma report_moved_accounted t0 mv r cam fecha item f :
  (forall k, match dget r k with
             | Some inf => accounted t0 mv k inf
             | None => moves_into k mv = []
             end) ->
  FS.find t0 (photo_path cam item) = Some (FS.File f) ->
  forall k,
    match dget (DateSort.report_moved (month_dir cam fecha)
                  (lower (snd (os_path_splitext item))) (length (FS.contenido f)) r) k with
    | Some inf =>
        accounted t0 (mv ++ [(photo_path cam item, FS.os_path_join (month_dir cam fecha) item)])
          k inf
    | None =>
        moves_into k (mv ++ [(photo_path cam item,
                              FS.os_path_join (month_dir cam fecha) item)]) = []
    end.
Proof.
  intros Hr H0 k. unfold DateSort.report_moved. rewrite dget_dupdate.
  specialize (Hr k).
  destruct (decide (month_dir cam fecha = k)) as [<-|Hne].
  2: { assert (Hsame : moves_into k (mv ++ [(photo_path cam item,
                                             FS.os_path_join (month_dir cam fecha) item)])
                       = moves_into k mv).
       { rewrite moves_into_snoc, dirname_join.
         destruct (decide (month_dir cam fecha = k)); [contradiction | apply app_nil_r]. }
       destruct (dget r k) as [inf|]; [|rewrite Hsame; exact Hr].
       destruct Hr as [Hc Hn Hp He Hb]. split; rewrite ?Hsame; assumption. }
  set (d := month_dir cam fecha) in *.
  set (new := (photo_path cam item, FS.os_path_join d item)).
  assert (Hext : ext_of new = lower (snd (os_path_splitext item))).
  { unfold ext_of, new. cbn [snd]. unfold FS.basename, FS.os_path_join.
    rewrite last_last. reflexivity. }
  assert (Hsize : size_at t0 (fst new) = length (FS.contenido f)).
  { unfold size_at, new. cbn [fst]. rewrite H0. reflexivity. }
  assert (Hmi : moves_into d (mv ++ [new]) = moves_into d mv ++ [new]).
  { unfold new. rewrite moves_into_snoc, dirname_join.
    destruct (decide (d = d)); [reflexivity | contradiction]. }
  assert (Hgen : forall created count ec bytes,
            created = true ->
            count = length (moves_into d mv) ->
            (forall e, match dget ec e with
                       | Some n => n = length (with_ext e (moves_into d mv)) /\ (0 < n)%nat
                       | None => with_ext e (moves_into d mv) = []
                       end) ->
            bytes = list_sum (map (fun pd => size_at t0 (fst pd)) (moves_into d mv)) ->
            accounted t0 (mv ++ [new]) d
              (DateSort.mkInforme created (S count)
                 (dupdate ec (lower (snd (os_path_splitext item))) 0%nat S)
                 (bytes + length (FS.contenido f)))).
  { intros created count ec bytes Hc Hn He Hb.
    split; cbn [DateSort.created DateSort.photos_count DateSort.ext_count
                DateSort.bytes_moved]; rewrite ?Hmi.
    - exact Hc.
    - rewrite length_app. cbn [length]. lia.
    - lia.
    - intros e. rewrite dget_dupdate, with_ext_snoc, Hext. specialize (He e).
      destruct (decide (lower (snd (os_path_splitext item)) = e)) as [<-|Hne'].
      + destruct (dget ec (lower (snd (os_path_splitext item)))) as [n|].
        * destruct He as [-> Hpos]. rewrite length_app. cbn [length]. lia.
        * rewrite He. cbn. lia.
      + rewrite app_nil_r. exact He.
    - rewrite map_app, list_sum_app.
      change (list_sum (map (fun pd => size_at t0 (fst pd)) [new]))
        with (size_at t0 (fst new) + 0)%nat.
      rewrite Hsize, Hb. lia. }
  destruct (dget r d) as [inf|].
  - destruct Hr as [Hc Hn _ He Hb]. destruct inf as [c n ec b].
    cbn [DateSort.created DateSort.photos_count DateSort.ext_count DateSort.bytes_moved] in *.
    apply Hgen; assumption.
  - apply Hgen; rewrite ?Hr; reflexivity.
Qed.

Lemma report_inv_same t0 s s1 :
  report_inv t0 s ->
  DateSort.folders_report s1 = DateSort.folders_report s -> movidos s1 = movidos s ->
  report_inv t0 s1.
Proof. intros H Hr Hm k. rewrite Hr, Hm. apply H. Qed.

Lemma procesar_item_report env t0 cam s item s' e :
  date_inv t0 s -> report_inv t0 s ->
  DateSort.procesar_item env (camera_dir cam) s item = (s', e) ->
  report_inv t0 s'.
Proof.
  intros Hinv Hrep Hstep. apply procesar_item_step in Hstep.
  destruct Hstep as
    [ Hc | fecha tr ex Hc Hf Haj | fecha tr fecha' ex Hc Hf Haj d Hex Hmk
    | fecha tr fecha' s1 Hc Hf Haj d Hready Hnu
    | fecha tr fecha' s1 ex Hc Hf Haj d Hready Hnu Hsize
    | fecha tr fecha' s1 size ex Hc Hf Haj d Hready Hnu Hsize Hmove
    | fecha tr fecha' s1 size t2 Hc Hf Haj d Hready Hnu Hsize Hmove ].
  - exact Hrep.
  - eapply report_inv_same; [exact Hrep | reflexivity |].
    eapply obtener_fecha_movidos; exact Hf.
  - eapply report_inv_same; [exact Hrep | reflexivity |].
    rewrite movidos_registrar by reflexivity. eapply obtener_fecha_movidos; exact Hf.
  - apply (folder_ready_grown env _ cam fecha') in Hready.
    destruct Hready as (_ & Hm & _ & Hr & _).
    eapply report_inv_same; [exact Hrep | exact Hr |].
    transitivity (movidos s1); [|rewrite Hm; eapply obtener_fecha_movidos; exact Hf].
    unfold movidos. cbn [DateSort.duplicates_append DateSort.registrar DateSort.con_traza
                         DateSort.tz logger log].
    rewrite movidos_de_app. cbn. rewrite app_nil_r. reflexivity.
  - apply (folder_ready_grown env _ cam fecha') in Hready.
    destruct Hready as (_ & Hm & _ & Hr & _).
    eapply report_inv_same; [exact Hrep | exact Hr |].
    rewrite movidos_registrar by reflexivity.
    rewrite Hm. eapply obtener_fecha_movidos; exact Hf.
  - apply (folder_ready_grown env _ cam fecha') in Hready.
    destruct Hready as (_ & Hm & _ & Hr & _).
    eapply report_inv_same; [exact Hrep | exact Hr |].
    rewrite movidos_registrar by apply movidos_error_al_mover.
    rewrite Hm. eapply obtener_fecha_movidos; exact Hf.
  - apply (folder_ready_grown env _ cam fecha') in Hready.
    destruct Hready as (Hg & Hm & _ & Hr & _). cbn [DateSort.arbol DateSort.con_traza] in Hg.
    assert (Hinv1 : date_inv t0 s1).
    { eapply (date_inv_grown t0 s cam fecha'); [exact Hinv | exact Hg |].
      rewrite Hm. eapply obtener_fecha_movidos; exact Hf. }
    assert (Hm1 : movidos s1 = movidos s)
      by (rewrite Hm; eapply obtener_fecha_movidos; exact Hf).
    apply shutil_move_free in Hmove; [|exact Hnu].
    destruct Hmove as (f & Hsrc & _ & _).
    destruct (di_present _ _ Hinv1 cam item f Hsrc) as [H0 _].
    assert (Hsz : size = length (FS.contenido f)).
    { unfold FS.os_path_getsize in Hsize.
      change (FS.os_path_join (camera_dir cam) item) with (photo_path cam item)
        in Hsrc, Hsize.
      rewrite Hsrc in Hsize. congruence. }
    subst size. intros k.
    unfold movidos. cbn [DateSort.folders_report DateSort.tz logger log].
    rewrite movidos_de_app. cbn [movidos_de flat_map snd app].
    change (FS.dirname d) with (camera_dir cam).
    rewrite Hr. fold (photo_path cam item). fold (movidos s1). rewrite Hm1.
    apply (report_moved_accounted t0 (movidos s) (DateSort.folders_report s) cam fecha'
             item f); [exact Hrep | exact H0].
Qed.

(** The report of the date sorter agrees with its moves. For every folder
    of [folders_report], the count of photos is the number of files moved
    into it, the count of each extension is the number of those with that
    extension, the bytes are the sum of the sizes the moved files had, and
    the entry says the folder was created, also when it was there before
    the run; a folder no file was moved into has no entry. *)
Theorem folders_report_accounts_for_the_moves env t0 camaras :
  forall k,
    match dget (DateSort.folders_report (fst (DateSort.run env t0 camaras))) k with
    | Some inf => accounted t0 (movidos (fst (DateSort.run env t0 camaras))) k inf
    | None => moves_into k (movidos (fst (DateSort.run env t0 camaras))) = []
    end.
Proof.
  change (report_inv t0 (fst (DateSort.run env t0 camaras))).
  unfold DateSort.run, DateSort.organizar_fotos_por_fecha.
  destruct (for_each (DateSort.procesar_camara env) (DateSort.inicial t0) camaras)
    as [s' e] eqn:Hloop. cbn [fst].
  assert (H : date_inv t0 s' /\ report_inv t0 s'); [|tauto].
  apply (for_each_inv (DateSort.procesar_camara env)
           (fun s => date_inv t0 s /\ report_inv t0 s) ) with
    (l := camaras) (s := DateSort.inicial t0) (e := e); [| |exact Hloop].
  - intros s c s1 e1 [Hinv Hrep] Hb.
    split; [eapply procesar_camara_inv; eassumption|].
    revert Hb. unfold DateSort.procesar_camara.
    destruct (String.eqb c "PRIVATE"); [intros [= <- <-]; exact Hrep|].
    destruct (FS.os_path_isdir _ _); cbn [negb]; [|intros [= <- <-]; exact Hrep].
    intros Hb.
    assert (H : date_inv t0 s1 /\ report_inv t0 s1); [|tauto].
    apply (for_each_inv (DateSort.procesar_item env (camera_dir c))
             (fun a => date_inv t0 a /\ report_inv t0 a)) in Hb; [exact Hb| |].
    + intros a x a' e' [Ha Hra] Hx.
      split; [eapply procesar_item_inv | eapply procesar_item_report]; eassumption.
    + split.
      * eapply date_inv_same; [exact Hinv | reflexivity |].
        apply movidos_registrar. reflexivity.
      * eapply report_inv_same; [exact Hrep | reflexivity |].
        apply movidos_registrar. reflexivity.
  - split; [apply date_inv_initial|]. intros k. reflexivity.
Qed.

(* --------------------------------------------------------------------- *)
(** ** The name of a month folder, written and read back                   *)
(* --------------------------------------------------------------------- *)

Lemma all_from_spec (P : Z -> bool) n : forall z,
  all_from n z P = true -> forall x, z <= x < z + Z.of_nat n -> P x = true.
Proof.
  induction n as [|n IH]; intros z H x Hx; [lia|].
  cbn [all_from] in H. apply andb_prop in H as [Hz Hrest].
  destruct (Z.eq_dec x z) as [->|Hne]; [exact Hz|].
  apply (IH (z + 1) Hrest). lia.
Qed.

Lemma nombre_reconocido_all :
  all_from (Z.to_nat 9999) 1 (fun y => all_from 12 1 (nombre_reconocido y)) = true.
Proof. vm_compute. reflexivity. Qed.

(** The name [generar_nombre_carpeta] gives to the month folder of a date
    is recognised by [es_carpeta_yyyy_mm] exactly when the year has four
    digits: the year is written without padding, so the dates before the
    year 1000 get a name the pattern rejects. *)
Theorem month_folder_name_round_trip (fecha : Fecha.datetime) :
  Fecha.valid fecha ->
  es_carpeta_yyyy_mm (DateSort.generar_nombre_carpeta fecha)
    = (1000 <=? Fecha.year fecha).
Proof.
  intros (Hy & Hm & _).
  pose proof (all_from_spec _ _ _ nombre_reconocido_all (Fecha.year fecha)) as Hall.
  cbv beta in Hall.
  pose proof (all_from_spec _ _ _ (Hall ltac:(rewrite Z2Nat.id; lia)) (Fecha.month fecha)
                ltac:(lia)) as H.
  unfold nombre_reconocido in H. apply Bool.eqb_prop in H. exact H.
Qed.

Lemma month_folder_name_round_trip_witness :
  es_carpeta_yyyy_mm (DateSort.generar_nombre_carpeta (Fecha.DT 987 3 14 9 30 0)) = false /\
  es_carpeta_yyyy_mm (DateSort.generar_nombre_carpeta (Fecha.DT 2024 5 10 12 0 0)) = true.
Proof.
  split.
  - apply (month_folder_name_round_trip (Fecha.DT 987 3 14 9 30 0)).
    repeat split; vm_compute; (reflexivity || discriminate).
  - apply (month_folder_name_round_trip (Fecha.DT 2024 5 10 12 0 0)).
    repeat split; vm_compute; (reflexivity || discriminate).
Defined.

(* --------------------------------------------------------------------- *)
(** ** The RAW sorter: one directory                                       *)
(* --------------------------------------------------------------------- *)

Lemma fingerprint_app_dirs t ds q : fingerprint (t ++ dir_entries ds) q = fingerprint t q.
Proof.
  destruct (FS.find t q) as [[f|]|] eqn:Hf.
  - apply (fingerprint_of_file _ _ _ _ f); [|exact Hf].
    apply find_app_dirs_file. exact Hf.
  - apply fingerprint_find. rewrite find_app_dirs, Hf. reflexivity.
  - transitivity (@None string); [|symmetry]; apply fingerprint_None; unfold FS.read_bytes.
    + rewrite find_app_dirs, Hf. case_decide; reflexivity.
    + rewrite Hf. reflexivity.
Qed.

(** Inside an existing directory [os.makedirs] is one [os.mkdir]. *)
Lemma raw_makedirs_child env t d n :
  FS.find t d = Some FS.Dir ->
  RawOrganizer.os_makedirs env t (FS.os_path_join d n) =
    match FS.os_mkdir env t (FS.os_path_join d n) with
    | Ok t2 => (t2, None)
    | Raise e => (t, Some e)
    end.
Proof.
  intros Hd. unfold RawOrganizer.os_makedirs, FS.os_path_join.
  rewrite rev_app_distr. cbn [rev app RawOrganizer.makedirs_rev].
  pose proof (rev_involutive d) as Hinv.
  destruct (rev d) as [|y r] eqn:Hr.
  - cbn [rev] in Hinv. subst d. reflexivity.
  - assert (He : FS.os_path_exists t (rev (y :: r)) = true).
    { rewrite Hinv. apply exists_true. eauto. }
    rewrite He. change (rev (y :: r) ++ [n]) with (rev (y :: r) ++ [n]).
    cbn [rev] in Hinv |- *. rewrite Hinv. reflexivity.
Qed.

Lemma raw_is_duplicate_spec dest src s b s' :
  RawOrganizer.is_duplicate dest src s = (b, s') ->
  RawOrganizer.arbol s' = RawOrganizer.arbol s /\
  RawOrganizer.folders_report s' = RawOrganizer.folders_report s /\
  ((fingerprint (RawOrganizer.arbol s) src = None /\ b = true /\
    RawOrganizer.duplicates s' = RawOrganizer.duplicates s ++ [src]) \/
   (exists h, fingerprint (RawOrganizer.arbol s) src = Some h /\
      RawOrganizer.duplicates s' = RawOrganizer.duplicates s /\
      (b = true <->
       exists q, In q (FS.walk_files (RawOrganizer.arbol s) dest) /\
                 fingerprint (RawOrganizer.arbol s) q = Some h))).
Proof.
  unfold RawOrganizer.is_duplicate, RawSort.is_duplicate.
  cbn [RawSort.tz RawSort.duplicates].
  set (tr0 := mkTraza [] (RawOrganizer.leidos s)).
  pose proof (sha256_of_file_fst (RawOrganizer.arbol s) src tr0) as Hfst.
  destruct (Hashing.sha256_of_file (RawOrganizer.arbol s) src tr0) as [[h|] tr] eqn:Hsha;
    cbn [fst] in Hfst.
  - pose proof (any_hash_eq_true (RawOrganizer.arbol s) h
                  (FS.walk_files (RawOrganizer.arbol s) dest) tr) as Hany.
    destruct (any_hash_eq (RawOrganizer.arbol s) h
                (FS.walk_files (RawOrganizer.arbol s) dest) tr) as [b' tr'].
    intros [= <- <-]. cbn [fst] in Hany.
    cbn [RawOrganizer.arbol RawOrganizer.folders_report RawOrganizer.duplicates
         RawSort.duplicates].
    repeat split. right. exists h. auto.
  - intros [= <- <-].
    cbn [RawOrganizer.arbol RawOrganizer.folders_report RawOrganizer.duplicates
         RawSort.duplicates].
    repeat split. left. auto.
Qed.

(** One turn of the loop over the RAW files: the tree stays as it is, or
    the file goes to the [RAW] subfolder, which then held no file of its
    digest. *)
Lemma mover_raw_turn env dir raw creada s rf s' e :
  RawOrganizer.mover_raw env dir raw creada s rf = (s', e) ->
  (RawOrganizer.arbol s' = RawOrganizer.arbol s /\
   (RawOrganizer.duplicates s' = RawOrganizer.duplicates s \/
    (RawOrganizer.duplicates s' = RawOrganizer.duplicates s ++ [FS.os_path_join dir rf] /\
     fingerprint (RawOrganizer.arbol s) (FS.os_path_join dir rf) = None /\
     FS.find (RawOrganizer.arbol s) (FS.os_path_join dir rf) <> None))) \/
  (exists f h,
     FS.find (RawOrganizer.arbol s) (FS.os_path_join dir rf) = Some (FS.File f) /\
     fingerprint (RawOrganizer.arbol s) (FS.os_path_join dir rf) = Some h /\
     (forall q, In q (FS.walk_files (RawOrganizer.arbol s) raw) ->
                fingerprint (RawOrganizer.arbol s) q <> Some h) /\
     RawOrganizer.arbol s' =
       FS.put (FS.remove (RawOrganizer.arbol s) (FS.os_path_join dir rf))
         (FS.real_dst (RawOrganizer.arbol s) (FS.os_path_join dir rf)
            (FS.os_path_join raw rf)) (FS.File f) /\
     (FS.os_path_isdir (RawOrganizer.arbol s) (FS.os_path_join raw rf) = true ->
      FS.find (RawOrganizer.arbol s)
        (FS.real_dst (RawOrganizer.arbol s) (FS.os_path_join dir rf)
           (FS.os_path_join raw rf)) = None) /\
     RawOrganizer.duplicates s' = RawOrganizer.duplicates s).
Proof.
  unfold RawOrganizer.mover_raw.
  destruct (FS.os_path_getsize (RawOrganizer.arbol s) (FS.os_path_join dir rf))
    as [size|ex] eqn:Hsize; [|intros [= <- <-]; left; auto].
  assert (Hthere : FS.find (RawOrganizer.arbol s) (FS.os_path_join dir rf) <> None).
  { unfold FS.os_path_getsize in Hsize. intros Hn. rewrite Hn in Hsize. discriminate. }
  destruct (RawOrganizer.is_duplicate raw (FS.os_path_join dir rf) s) as [b s1] eqn:Hdup.
  apply raw_is_duplicate_spec in Hdup. destruct Hdup as (Ha & _ & Hcase).
  destruct b.
  - intros [= <- <-]. left. cbn [RawOrganizer.arbol RawOrganizer.registrar
                                  RawOrganizer.duplicates].
    split; [exact Ha|].
    destruct Hcase as [(Hnone & _ & Hd) | (h & _ & Hd & _)]; auto.
  - destruct Hcase as [(_ & [=] & _) | (h & Hh & Hd & Hiff)].
    destruct (FS.shutil_move env (RawOrganizer.arbol s1) (FS.os_path_join dir rf)
                (FS.os_path_join raw rf)) as [t2|ex] eqn:Hmove.
    + intros [= <- <-]. right.
      apply shutil_move_Ok in Hmove. rewrite Ha in Hmove.
      destruct Hmove as (f & Hf & -> & _ & _ & Hfree).
      exists f, h. cbn [RawOrganizer.arbol RawOrganizer.registrar RawOrganizer.con_arbol
                        RawOrganizer.duplicates].
      repeat split; try assumption.
      intros q Hq Hqh. assert (false = true); [|discriminate].
      apply Hiff. eauto.
    + intros [= <- <-]. left. cbn [RawOrganizer.arbol RawOrganizer.registrar
                                    RawOrganizer.duplicates]. auto.
Qed.

Ltac raw_length H :=
  apply (f_equal (@length string)) in H; unfold FS.os_path_join in H;
  rewrite !length_app in H; cbn [length] in H; lia.

(** One turn of the loop keeps the invariant, when the name is a RAW file
    of the directory. *)
Lemma mover_raw_inv env dir t0 d0 creada s rf s' e :
  raw_inv dir t0 d0 s ->
  RawOrganizer.es_raw t0 dir rf = true ->
  RawOrganizer.mover_raw env dir (FS.os_path_join dir "RAW") creada s rf = (s', e) ->
  raw_inv dir t0 d0 s'.
Proof.
  intros Hinv Hraw Hturn.
  set (raw := FS.os_path_join dir "RAW") in *.
  set (src := FS.os_path_join dir rf) in *.
  assert (H0 : exists f0, FS.find t0 src = Some (FS.File f0)).
  { pose proof Hraw as Hr. unfold RawOrganizer.es_raw in Hr.
    apply andb_prop in Hr as [Hfile _]. apply isfile_true in Hfile. exact Hfile. }
  destruct H0 as [f0 H0].
  destruct Hinv as [Hfate Hdup].
  assert (Hkept : FS.find (RawOrganizer.arbol s) src <> None ->
                  FS.find (RawOrganizer.arbol s) src = Some (FS.File f0)).
  { intros Hthere.
    destruct (Hfate src f0 H0) as [Hk | rf' Hp Hr Hn Hl | rf' g Hp Hr Hg Hk Hn Hfp].
    - exact Hk.
    - contradiction.
    - unfold src, raw in Hp. raw_length Hp. }
  apply mover_raw_turn in Hturn.
  destruct Hturn as [(Ha & Hd) | (f & h & Hf & Hh & Hno & Ha & Hfree & Hd)].
  - split; rewrite ?Ha; [exact Hfate|].
    intros p Hp. destruct Hd as [Hd | (Hd & Hnone & Hthere)]; rewrite Hd in Hp; [auto|].
    apply in_app_iff in Hp as [Hp|[<-|[]]]; [auto|]. right.
    exists rf. fold src. fold src in Hnone. specialize (Hkept Hthere).
    split; [reflexivity|]. split; [exact Hraw|].
    split; [|rewrite Hkept, H0; reflexivity].
    rewrite <- Hnone. apply fingerprint_find. rewrite Hkept, H0. reflexivity.
  - fold src in Hf, Hh, Ha, Hfree. fold raw in Hno, Ha, Hfree.
    assert (Hff : f = f0) by (specialize (Hkept ltac:(congruence)); congruence).
    subst f0.
    set (ts := RawOrganizer.arbol s) in *.
    set (rd := FS.real_dst ts src (FS.os_path_join raw rf)) in *.
    assert (Hrd : (rd = FS.os_path_join raw rf /\
                   FS.os_path_isdir ts (FS.os_path_join raw rf) = false) \/
                  (rd = FS.os_path_join (FS.os_path_join raw rf) rf /\
                   FS.find ts rd = None)).
    { subst rd. unfold FS.real_dst in *.
      assert (Hb : FS.basename src = rf)
        by (unfold src, FS.basename, FS.os_path_join; apply last_last).
      rewrite Hb in *.
      destruct (FS.os_path_isdir ts (FS.os_path_join raw rf)); auto. }
    assert (Hrd_src : rd <> src).
    { intros Heq. destruct Hrd as [[Hr _]|[Hr _]]; rewrite Hr in Heq;
        unfold raw, src in Heq; raw_length Heq. }
    assert (Hh0 : fingerprint t0 src = Some h)
      by (rewrite <- Hh; apply (fingerprint_of_file _ _ _ _ f); assumption).
    split; rewrite Ha.
    + intros p g Hp.
      destruct (Hfate p g Hp) as [Hk | rf' Hpe Hr Hn Hl | rf' g' Hpe Hr Hg Hk Hn Hfp].
      * destruct (decide (p = src)) as [->|Hps].
        -- assert (g = f) by congruence. subst g.
           apply (fate_moved dir t0 _ _ _ rf); [reflexivity | exact Hraw | |].
           ++ rewrite find_moved. case_decide; [contradiction|].
              case_decide; [reflexivity | contradiction].
           ++ fold raw. destruct Hrd as [[Hr _]|[Hr _]]; [left | right];
                rewrite <- Hr, find_moved; case_decide; congruence.
        -- destruct (decide (p = rd)) as [->|Hpr].
           ++ destruct Hrd as [[Hr Hnd]|[Hr Hnone]]; [|congruence].
              apply (fate_replaced dir t0 _ _ _ rf f).
              ** exact Hr.
              ** exact Hraw.
              ** exact H0.
              ** rewrite find_moved. case_decide; [reflexivity | contradiction].
              ** fold src. rewrite find_moved. case_decide; [contradiction|].
                 case_decide; [reflexivity | contradiction].
              ** fold src. rewrite Hh0. intros Heq.
                 apply (Hno rd).
                 --- apply (walk_files_intro _ _ _ g Hk). rewrite Hr.
                     unfold FS.is_below, FS.os_path_join. rewrite relative_join. reflexivity.
                 --- rewrite <- Heq. apply (fingerprint_of_file _ _ _ _ g); assumption.
           ++ apply fate_kept. rewrite find_moved.
              case_decide; [congruence|]. case_decide; [congruence | exact Hk].
      * assert (Hne : rf' <> rf).
        { intros ->. fold src in Hpe. subst p. congruence. }
        apply (fate_moved dir t0 _ _ _ rf'); [exact Hpe | exact Hr | |].
        -- rewrite find_moved. case_decide as H1.
           ++ exfalso. subst p. destruct Hrd as [[Hr' _]|[Hr' _]]; rewrite Hr' in H1;
                unfold raw in H1; raw_length H1.
           ++ case_decide as H2; [reflexivity | exact Hn].
        -- fold raw in Hl |- *.
           destruct Hl as [Hl|Hl]; [left | right]; rewrite find_moved.
           ++ case_decide as H1.
              ** exfalso. destruct Hrd as [[Hr' _]|[Hr' _]]; rewrite Hr' in H1.
                 --- apply os_path_join_inj in H1 as [_ H1]. congruence.
                 --- unfold raw in H1. raw_length H1.
              ** case_decide as H2; [|exact Hl].
                 exfalso. unfold src, raw in H2. raw_length H2.
           ++ case_decide as H1.
              ** exfalso. destruct Hrd as [[Hr' _]|[Hr' _]]; rewrite Hr' in H1.
                 --- unfold raw in H1. raw_length H1.
                 --- apply os_path_join_inj in H1 as [_ H1]. congruence.
              ** case_decide as H2; [|exact Hl].
                 exfalso. unfold src, raw in H2. raw_length H2.
      * assert (Hne : rf' <> rf).
        { intros ->. fold src in Hn. congruence. }
        fold raw in Hpe.
        apply (fate_replaced dir t0 _ _ _ rf' g'); try assumption.
        -- rewrite find_moved. case_decide as H1.
           ++ exfalso. subst p. destruct Hrd as [[Hr' _]|[Hr' _]]; rewrite Hr' in H1.
              ** apply os_path_join_inj in H1 as [_ H1]. congruence.
              ** unfold raw in H1. raw_length H1.
           ++ case_decide as H2; [|exact Hk].
              exfalso. subst p. unfold src, raw in H2. raw_length H2.
        -- rewrite find_moved. case_decide as H1.
           ++ exfalso. destruct Hrd as [[Hr' _]|[Hr' _]]; rewrite Hr' in H1;
                unfold raw in H1; raw_length H1.
           ++ case_decide as H2; [reflexivity | exact Hn].
    + intros p Hp. rewrite Hd in Hp.
      destruct (Hdup p Hp) as [Hin | (rf' & -> & Hr & Hnone & Hsame)]; [auto|].
      right. exists rf'. repeat split; try assumption.
      rewrite <- Hsame. rewrite find_moved.
      case_decide as H1.
      * exfalso. destruct Hrd as [[Hr' _]|[Hr' _]]; rewrite Hr' in H1;
          unfold raw in H1; raw_length H1.
      * case_decide as H2; [|reflexivity].
        exfalso. apply os_path_join_inj in H2 as [_ ->].
        fold src in Hnone. congruence.
Qed.

Lemma raw_inv_initial dir t0 d0 s :
  (forall p f, FS.find t0 p = Some (FS.File f) ->
               FS.find (RawOrganizer.arbol s) p = Some (FS.File f)) ->
  RawOrganizer.duplicates s = d0 ->
  raw_inv dir t0 d0 s.
Proof.
  intros Hfiles Hd. split.
  - intros p f Hp. apply fate_kept. auto.
  - intros p Hp. left. congruence.
Qed.

Lemma procesar_directorio_inv env s dir :
  raw_inv dir (RawOrganizer.arbol s) (RawOrganizer.duplicates s)
    (fst (RawOrganizer.procesar_directorio env s dir)).
Proof.
  unfold RawOrganizer.procesar_directorio, RawOrganizer.listdir.
  set (t0 := RawOrganizer.arbol s). set (d0 := RawOrganizer.duplicates s).
  assert (Hsame : forall s1, RawOrganizer.arbol s1 = t0 -> RawOrganizer.duplicates s1 = d0 ->
                             raw_inv dir t0 d0 s1).
  { intros s1 Ha Hd. apply raw_inv_initial; [rewrite Ha; auto | exact Hd]. }
  destruct (FS.find t0 dir) as [[g|]|] eqn:Hdir; cbn [fst]; try (apply Hsame; reflexivity).
  destruct (List.filter (RawOrganizer.es_raw t0 dir) (FS.os_listdir t0 dir))
    as [|x raws] eqn:Hraws; cbn [fst]; [apply Hsame; reflexivity|].
  rewrite <- Hraws.
  assert (Hloop : forall creada s1,
            raw_inv dir t0 d0 s1 ->
            raw_inv dir t0 d0
              (fst (for_each (RawOrganizer.mover_raw env dir (FS.os_path_join dir "RAW") creada)
                      s1 (List.filter (RawOrganizer.es_raw t0 dir) (FS.os_listdir t0 dir))))).
  { intros creada s1 H1.
    destruct (for_each _ s1 _) as [s2 e2] eqn:Hfor. cbn [fst].
    apply (for_each_inv_in _ (raw_inv dir t0 d0) _) with (s := s1) (e := e2) in Hfor;
      [exact Hfor | | exact H1].
    intros a y a' e' Hy Ha Hb. apply filter_In in Hy as [_ Hy].
    eapply mover_raw_inv; eassumption. }
  destruct (FS.os_path_exists t0 (FS.os_path_join dir "RAW")) eqn:Hex; cbn [negb].
  - apply Hloop. apply Hsame; reflexivity.
  - rewrite (raw_makedirs_child env t0 dir "RAW" Hdir).
    destruct (FS.os_mkdir env t0 (FS.os_path_join dir "RAW")) as [t2|ex] eqn:Hmk.
    + apply Hloop. apply os_mkdir_Ok in Hmk as (-> & _).
      apply raw_inv_initial; [|reflexivity].
      intros p f Hp. cbn [RawOrganizer.arbol RawOrganizer.registrar RawOrganizer.con_arbol].
      apply find_app_dirs_file. exact Hp.
    + cbn [fst]. apply Hsame; reflexivity.
Qed.



(** The third fate does happen: the file [a.cr2] of the [RAW] subfolder
    is replaced by the file of that name of the directory. *)
Example raw_file_replaced :
  let s' := fst (RawOrganizer.procesar_directorio entorno_ok
                   (RawOrganizer.inicial arbol_raw_ocupado)
                   ["CAMERAS"; "EOS"; "2024.05"; "boda"]%string) in
  FS.read_bytes arbol_raw_ocupado ["CAMERAS"; "EOS"; "2024.05"; "boda"; "RAW"; "a.cr2"]%string
    = Some (bytes_of_string "old") /\
  FS.read_bytes (RawOrganizer.arbol s')
    ["CAMERAS"; "EOS"; "2024.05"; "boda"; "RAW"; "a.cr2"]%string
    = Some (bytes_of_string "new") /\
  FS.find (RawOrganizer.arbol s') ["CAMERAS"; "EOS"; "2024.05"; "boda"; "a.cr2"]%string
    = None /\
  RawOrganizer.duplicates s' = [].
Proof. vm_compute. repeat split; reflexivity. Qed.

(** The list [duplicates] of the RAW sorter holds only files that could
    not be hashed: what [procesar_directorio] adds to it are RAW files of
    the directory that cannot be read, which stay where they are. A RAW
    file left in place because its content is already in the [RAW]
    subfolder is logged but not listed. *)
Theorem raw_duplicates_are_the_unreadable env s directorio p :
  In p (RawOrganizer.duplicates (fst (RawOrganizer.procesar_directorio env s directorio))) ->
  In p (RawOrganizer.duplicates s) \/
  exists rf,
    p = FS.os_path_join directorio rf /\
    RawOrganizer.es_raw (RawOrganizer.arbol s) directorio rf = true /\
    fingerprint (RawOrganizer.arbol s) p = None /\
    FS.find (RawOrganizer.arbol (fst (RawOrganizer.procesar_directorio env s directorio))) p
      = FS.find (RawOrganizer.arbol s) p.
Proof. apply (ri_duplicates _ _ _ _ (procesar_directorio_inv env s directorio)). Qed.

Lemma raw_duplicates_are_the_unreadable_witness :
  In ["CAMERAS"; "EOS"; "2024.05"; "boda"; "b.arw"]%string [] \/
  exists rf,
    ["CAMERAS"; "EOS"; "2024.05"; "boda"; "b.arw"]%string
      = FS.os_path_join ["CAMERAS"; "EOS"; "2024.05"; "boda"]%string rf /\
    RawOrganizer.es_raw arbol_raw_ilegible ["CAMERAS"; "EOS"; "2024.05"; "boda"]%string rf
      = true /\
    fingerprint arbol_raw_ilegible ["CAMERAS"; "EOS"; "2024.05"; "boda"; "b.arw"]%string
      = None /\
    FS.find (RawOrganizer.arbol
               (fst (RawOrganizer.procesar_directorio entorno_ok
                       (RawOrganizer.inicial arbol_raw_ilegible)
                       ["CAMERAS"; "EOS"; "2024.05"; "boda"]%string)))
      ["CAMERAS"; "EOS"; "2024.05"; "boda"; "b.arw"]%string
    = FS.find arbol_raw_ilegible ["CAMERAS"; "EOS"; "2024.05"; "boda"; "b.arw"]%string.
Proof.
  apply (raw_duplicates_are_the_unreadable entorno_ok
           (RawOrganizer.inicial arbol_raw_ilegible)
           ["CAMERAS"; "EOS"; "2024.05"; "boda"]%string).
  vm_compute. left. reflexivity.
Defined.

(* --------------------------------------------------------------------- *)
(** ** The duplicate search: what is reported                              *)
(* --------------------------------------------------------------------- *)

Lemma hex_not_empty v : SHA256.hex v <> EmptyString.
Proof.
  intros H. apply (f_equal String.length) in H. unfold SHA256.hex in H.
  rewrite length_string_of_list, length_map, length_rev, length_seq in H. discriminate.
Qed.

Lemma fingerprint_not_empty t p : fingerprint t p <> Some EmptyString.
Proof.
  destruct (FS.read_bytes t p) as [data|] eqn:Hr.
  - rewrite (fingerprint_readable _ _ _ Hr). intros H. injection H as H. exact (hex_not_empty _ H).
  - apply fingerprint_None in Hr. rewrite Hr. discriminate.
Qed.

(** The groups of one bucket: under each digest, the paths that have it. *)
Lemma hash_paths_groups t h paths : forall h2p tr,
  dget (fst (DupSearch.hash_paths t paths h2p tr)) h =
    match dget h2p h, with_digest t h paths with
    | Some l, w => Some (l ++ w)
    | None, [] => None
    | None, w => Some w
    end.
Proof.
  unfold with_digest.
  induction paths as [|p paths IH]; intros h2p tr; cbn [DupSearch.hash_paths List.filter].
  - cbn [fst]. destruct (dget h2p h); [rewrite app_nil_r|]; reflexivity.
  - pose proof (sha256_of_file_fst t p tr) as Hf.
    destruct (Hashing.sha256_of_file t p tr) as [[h0|] tr1]; cbn [fst] in Hf.
    + destruct (String.eqb h0 EmptyString) eqn:He.
      * apply String.eqb_eq in He. subst h0. symmetry in Hf.
        exfalso. exact (fingerprint_not_empty _ _ Hf).
      * rewrite IH, dget_dupdate, <- Hf.
        case_decide as Hh.
        -- subst h0. rewrite bool_decide_true by reflexivity.
           destruct (dget h2p h); [rewrite <- app_assoc|]; reflexivity.
        -- rewrite bool_decide_false by congruence. reflexivity.
    + rewrite IH, <- Hf. rewrite bool_decide_false by discriminate. reflexivity.
Qed.

Lemma hash_paths_nodup t paths : forall h2p tr,
  NoDup (map fst h2p) -> NoDup (map fst (fst (DupSearch.hash_paths t paths h2p tr))).
Proof.
  induction paths as [|p paths IH]; intros h2p tr Hnd; cbn [DupSearch.hash_paths].
  - exact Hnd.
  - destruct (Hashing.sha256_of_file t p tr) as [[h0|] tr1]; [|auto].
    destruct (String.eqb h0 EmptyString); [auto|].
    apply IH. apply dict_nodup_dupdate. exact Hnd.
Qed.

Lemma report_set r cam name h ps cam' name' h' :
  reported_group
    (dupdate r cam [] (fun names => dupdate names name [] (fun hs => dset hs h ps)))
    cam' name' h' =
  if bool_decide (cam = cam' /\ name = name' /\ h = h') then Some ps
  else reported_group r cam' name' h'.
Proof.
  unfold reported_group. rewrite dget_dupdate.
  case_decide as Hc.
  - subst cam'. rewrite dget_dupdate. case_decide as Hn.
    + subst name'. rewrite dget_dset. case_decide as Hh.
      * rewrite bool_decide_true by (first [tauto | intuition congruence]). reflexivity.
      * rewrite bool_decide_false by (first [tauto | intuition congruence]).
        destruct (dget r cam) as [nd|]; [|reflexivity].
        destruct (dget nd name); reflexivity.
    + rewrite bool_decide_false by (first [tauto | intuition congruence]).
      destruct (dget r cam) as [nd|]; reflexivity.
  - rewrite bool_decide_false by (first [tauto | intuition congruence]). reflexivity.
Qed.

Lemma registrar_grupos_report cam name cam' name' h groups : forall s,
  NoDup (map fst groups) ->
  reported_group (DupSearch.duplicates_report (DupSearch.registrar_grupos cam name groups s))
    cam' name' h =
  match dget groups h with
  | Some ps =>
      if bool_decide (cam = cam' /\ name = name') && (1 <? length ps)%nat then Some ps
      else reported_group (DupSearch.duplicates_report s) cam' name' h
  | None => reported_group (DupSearch.duplicates_report s) cam' name' h
  end.
Proof.
  unfold DupSearch.registrar_grupos.
  induction groups as [|[h0 ps0] groups IH]; intros s Hnd; cbn [fold_left dget].
  - reflexivity.
  - cbn [map fst] in Hnd. apply NoDup_cons in Hnd as [Hnotin Hnd].
    rewrite (IH _ Hnd). clear IH.
    assert (Hnone : h0 = h -> dget groups h = None).
    { intros <-. destruct (dget groups h0) as [ps|] eqn:Hg; [|reflexivity].
      exfalso. apply Hnotin, list_elem_of_In. apply dget_Some_In in Hg.
      apply (in_map fst) in Hg. exact Hg. }
    destruct (1 <? length ps0)%nat eqn:Hlen; cbn [DupSearch.duplicates_report].
    + rewrite report_set. case_decide as Hh.
      * rewrite (Hnone Hh), Hlen. subst h0.
        destruct (bool_decide (cam = cam' /\ name = name')) eqn:Hb; cbn [andb].
        -- apply bool_decide_eq_true in Hb. destruct Hb as [-> ->].
           rewrite bool_decide_true by (repeat split; reflexivity). reflexivity.
        -- apply bool_decide_eq_false in Hb.
           rewrite bool_decide_false; [reflexivity|]. tauto.
      * rewrite (bool_decide_false (cam = cam' /\ name = name' /\ h0 = h)) by tauto.
        reflexivity.
    + case_decide as Hh; [|reflexivity].
      rewrite (Hnone Hh), Hlen, andb_false_r. reflexivity.
Qed.

Lemma length_with_digest t h paths : (length (with_digest t h paths) <= length paths)%nat.
Proof. apply List.filter_length_le. Qed.

Lemma procesar_bucket_report t cam name paths s cam' name' h :
  reported_group (DupSearch.duplicates_report (DupSearch.procesar_bucket t cam s (name, paths)))
    cam' name' h =
  if bool_decide (cam = cam' /\ name = name') && (2 <=? length (with_digest t h paths))%nat
  then Some (with_digest t h paths)
  else reported_group (DupSearch.duplicates_report s) cam' name' h.
Proof.
  unfold DupSearch.procesar_bucket.
  pose proof (length_with_digest t h paths) as Hle.
  destruct (length paths <? 2)%nat eqn:Hlen.
  - apply Nat.ltb_lt in Hlen.
    replace (2 <=? length (with_digest t h paths))%nat with false
      by (symmetry; apply Nat.leb_gt; lia).
    rewrite andb_false_r. reflexivity.
  - pose proof (hash_paths_groups t h paths [] (DupSearch.tz s)) as Hg.
    pose proof (hash_paths_nodup t paths [] (DupSearch.tz s)) as Hnd.
    destruct (DupSearch.hash_paths t paths [] (DupSearch.tz s)) as [groups tr].
    cbn [fst] in Hg, Hnd. rewrite registrar_grupos_report by (apply Hnd; constructor).
    cbn [DupSearch.duplicates_report]. rewrite Hg. cbn [dget].
    destruct (with_digest t h paths) as [|p w] eqn:Hw.
    + rewrite andb_false_r. reflexivity.
    + destruct w as [|q w]; cbn [length]; [rewrite !andb_false_r; reflexivity|].
      reflexivity.
Qed.

Lemma buckets_fold_report t cam cam' name' h ns : forall s,
  NoDup (map fst ns) ->
  reported_group (DupSearch.duplicates_report (fold_left (DupSearch.procesar_bucket t cam) ns s))
    cam' name' h =
  match (if bool_decide (cam = cam') then dget ns name' else None) with
  | Some paths =>
      if (2 <=? length (with_digest t h paths))%nat then Some (with_digest t h paths)
      else reported_group (DupSearch.duplicates_report s) cam' name' h
  | None => reported_group (DupSearch.duplicates_report s) cam' name' h
  end.
Proof.
  induction ns as [|[n paths] ns IH]; intros s Hnd; cbn [fold_left dget].
  - destruct (bool_decide (cam = cam')); reflexivity.
  - cbn [map fst] in Hnd. apply NoDup_cons in Hnd as [Hnotin Hnd].
    rewrite (IH _ Hnd), procesar_bucket_report. clear IH.
    assert (Hnone : n = name' -> dget ns name' = None).
    { intros <-. destruct (dget ns n) as [ps|] eqn:Hg; [|reflexivity].
      exfalso. apply Hnotin, list_elem_of_In. apply dget_Some_In in Hg.
      apply (in_map fst) in Hg. exact Hg. }
    destruct (bool_decide (cam = cam')) eqn:Hc.
    + apply bool_decide_eq_true in Hc. case_decide as Hn.
      * rewrite (Hnone Hn). rewrite bool_decide_true by (first [tauto | intuition congruence]). reflexivity.
      * rewrite bool_decide_false by (first [tauto | intuition congruence]). reflexivity.
    + apply bool_decide_eq_false in Hc. rewrite bool_decide_false by (first [tauto | intuition congruence]). reflexivity.
Qed.

Lemma cameras_fold_report t cam' name' h c : forall s,
  NoDup (map fst c) ->
  (forall cam nd, In (cam, nd) c -> NoDup (map fst nd)) ->
  reported_group
    (DupSearch.duplicates_report
       (fold_left (fun s '(cam, name_dict) =>
                     fold_left (DupSearch.procesar_bucket t cam) name_dict s) c s))
    cam' name' h =
  match bucket_of c cam' name' with
  | Some paths =>
      if (2 <=? length (with_digest t h paths))%nat then Some (with_digest t h paths)
      else reported_group (DupSearch.duplicates_report s) cam' name' h
  | None => reported_group (DupSearch.duplicates_report s) cam' name' h
  end.
Proof.
  unfold bucket_of.
  induction c as [|[cam nd] c IH]; intros s Hnd Hall; cbn [fold_left dget].
  - reflexivity.
  - cbn [map fst] in Hnd. apply NoDup_cons in Hnd as [Hnotin Hnd].
    rewrite (IH _ Hnd) by (intros; eapply Hall; right; eassumption). clear IH.
    rewrite buckets_fold_report by (eapply Hall; left; reflexivity).
    case_decide as Hc.
    + subst cam'. rewrite bool_decide_true by reflexivity.
      destruct (dget c cam) as [nd'|] eqn:Hg.
      * exfalso. apply Hnotin, list_elem_of_In. apply dget_Some_In in Hg.
        apply (in_map fst) in Hg. exact Hg.
      * reflexivity.
    + rewrite bool_decide_false by exact Hc. reflexivity.
Qed.

Lemma add_name_lookup cam0 name0 p c cam name :
  bucket_of (DupSearch.add_name cam0 name0 p c) cam name =
  if bool_decide (cam0 = cam /\ name0 = name)
  then Some (match bucket_of c cam name with Some l => l | None => [] end ++ [p])
  else bucket_of c cam name.
Proof.
  unfold bucket_of, DupSearch.add_name. rewrite dget_dupdate.
  case_decide as Hc.
  - subst cam0. rewrite dget_dupdate. case_decide as Hn.
    + subst name0. rewrite bool_decide_true by (split; reflexivity).
      destruct (dget c cam) as [nd|]; reflexivity.
    + rewrite bool_decide_false by tauto. destruct (dget c cam) as [nd|]; reflexivity.
  - rewrite bool_decide_false by tauto. reflexivity.
Qed.

Lemma agrupar_lookup cam name fbf : forall c,
  bucket_of (DupSearch.agrupar fbf c) cam name =
  match bucket_of c cam name, bucket fbf cam name with
  | Some l, w => Some (l ++ w)
  | None, [] => None
  | None, w => Some w
  end.
Proof.
  unfold DupSearch.agrupar, bucket.
  induction fbf as [|[folder fnames] fbf IH]; intros c; cbn [fold_left flat_map].
  - destruct (bucket_of c cam name); [rewrite app_nil_r|]; reflexivity.
  - rewrite IH. clear IH.
    assert (Hin : forall c,
              bucket_of (fold_left (fun c name0 =>
                         DupSearch.add_name (DupSearch.camera_of folder) name0
                           (FS.os_path_join folder name0) c) fnames c) cam name =
              match bucket_of c cam name,
                    (if String.eqb (DupSearch.camera_of folder) cam
                     then map (fun _ => FS.os_path_join folder name)
                              (List.filter (String.eqb name) fnames)
                     else [])
              with
              | Some l, w => Some (l ++ w)
              | None, [] => None
              | None, w => Some w
              end).
    { clear c. induction fnames as [|n fnames IHn]; intros c; cbn [fold_left List.filter map].
      - destruct (String.eqb _ cam); (destruct (bucket_of c cam name);
          [rewrite app_nil_r|]; reflexivity).
      - rewrite IHn, add_name_lookup. clear IHn.
        destruct (String.eqb (DupSearch.camera_of folder) cam) eqn:Hc.
        + apply String.eqb_eq in Hc.
          destruct (String.eqb name n) eqn:Hn.
          * apply String.eqb_eq in Hn. subst n.
            rewrite bool_decide_true by (split; [exact Hc | reflexivity]).
            cbn [map]. destruct (bucket_of c cam name) as [l|].
            -- rewrite <- app_assoc. reflexivity.
            -- reflexivity.
          * apply String.eqb_neq in Hn.
            rewrite bool_decide_false by (intros [_ ->]; apply Hn; reflexivity).
            reflexivity.
        + apply String.eqb_neq in Hc. rewrite bool_decide_false by tauto.
          destruct (bucket_of c cam name); reflexivity. }
    rewrite Hin.
    destruct (bucket_of c cam name) as [l|].
    + rewrite <- app_assoc. reflexivity.
    + destruct (if String.eqb (DupSearch.camera_of folder) cam
                then map (fun _ => FS.os_path_join folder name)
                         (List.filter (String.eqb name) fnames)
                else []) as [|q w]; reflexivity.
Qed.

Lemma detectar_duplicados_report t fbf cam name h :
  reported_group
    (DupSearch.duplicates_report (DupSearch.detectar_duplicados t (dup_inicial fbf)))
    cam name h =
  if (2 <=? length (with_digest t h (bucket fbf cam name)))%nat
  then Some (with_digest t h (bucket fbf cam name))
  else None.
Proof.
  unfold DupSearch.detectar_duplicados, dup_inicial.
  cbn [DupSearch.files_by_folder DupSearch.camera_to_names DupSearch.duplicates_report
       DupSearch.tz].
  assert (Hok : buckets_ok (DupSearch.agrupar fbf [])).
  { apply agrupar_ok. split; [constructor | intros ? ? []]. }
  destruct Hok as [Hnd Hall].
  rewrite cameras_fold_report;
    [| exact Hnd | intros c nd Hin; exact (proj1 (Hall c nd Hin))].
  rewrite agrupar_lookup. cbn [DupSearch.duplicates_report].
  change (bucket_of [] cam name) with (@None (list FS.path)).
  change (reported_group [] cam name h) with (@None (list FS.path)).
  destruct (bucket fbf cam name) as [|q w] eqn:Hb; [reflexivity|].
  destruct (2 <=? length (with_digest t h (q :: w)))%nat; reflexivity.
Qed.

(** What the duplicate search reports under a camera, a file name and a
    digest: the listed paths of that camera and name whose digest it is,
    in the order of the listing, when they are two or more; nothing
    otherwise. *)
Theorem duplicates_report_groups t fbf cam name h :
  reported_group
    (DupSearch.duplicates_report (DupSearch.detectar_duplicados t (dup_inicial fbf)))
    cam name h =
  if (2 <=? length (with_digest t h (bucket fbf cam name)))%nat
  then Some (with_digest t h (bucket fbf cam name))
  else None.
Proof. apply detectar_duplicados_report. Qed.

(** In the listing of the example the two files named [IMG_1.JPG] have
    the same bytes and are reported; [IMG_2.JPG] is there once and is not. *)
Example duplicates_report_example :
  DupSearch.duplicates_report
    (DupSearch.detectar_duplicados arbol_listado (dup_inicial listado_ejemplo)) =
  [("EOS", [("IMG_1.JPG",
     [("7692c3ad3540bb803c020b3aee66cd8887123234ea0c6e7143c0add73ff431ed",
       [["CAMERAS"; "EOS"; "2024.05"; "IMG_1.JPG"];
        ["CAMERAS"; "EOS"; "2024.06"; "IMG_1.JPG"]])])])]%string.
Proof. vm_compute. reflexivity. Qed.

(* --------------------------------------------------------------------- *)
(** ** The duplicate search: what is listed                                *)
(* --------------------------------------------------------------------- *)

Lemma over_over {A : Type} (b1 b2 : bool) (c old : option A) :
  over b1 c (over b2 c old) = over (b2 || b1) c old.
Proof. destruct b1, b2, c; reflexivity. Qed.

Lemma relative_snoc root d : forall p,
  FS.relative (root ++ [d]) p =
    match FS.relative root p with
    | Some (d' :: r) => if decide (d = d') then Some r else None
    | _ => None
    end.
Proof.
  induction root as [|x root IH]; intros p; cbn [FS.relative app].
  - destruct p as [|y p]; [reflexivity|]. case_decide; reflexivity.
  - destruct p as [|y p]; [reflexivity|]. case_decide; [apply IH | reflexivity].
Qed.

Lemma relative_nil root p : FS.relative root p = Some [] <-> p = root.
Proof.
  split.
  - intros H. apply relative_Some in H. rewrite app_nil_r in H. exact H.
  - intros ->. rewrite <- (app_nil_r root) at 2. apply relative_join.
Qed.

Lemma isdir_listed t root d :
  FS.os_path_isdir t (FS.os_path_join root d) = true -> In d (FS.os_listdir t root).
Proof.
  intros H. apply listdir_find. unfold FS.os_path_isdir in H.
  destruct (FS.find t (FS.os_path_join root d)) as [x|]; [eauto | discriminate].
Qed.

(** The folders reached within one more level: the root itself, and what
    is reached from the directories below it that are not pruned. *)
Lemma alcanzada_S k t root folder :
  FS.os_path_isdir t root = true ->
  alcanzada (S k) t root folder =
    bool_decide (root = folder) ||
    existsb (fun d => alcanzada k t (FS.os_path_join root d) folder)
      (List.filter (fun d => negb (DupListing.omitida d))
         (List.filter (fun d => FS.os_path_isdir t (FS.os_path_join root d))
            (FS.os_listdir t root))).
Proof.
  intros Hroot. apply Bool.eq_iff_eq_true.
  rewrite orb_true_iff, bool_decide_eq_true, existsb_exists.
  unfold alcanzada. split.
  - destruct (FS.relative root folder) as [[|d r]|] eqn:Hrel; [| |discriminate].
    + intros _. left. symmetry. apply relative_nil. exact Hrel.
    + cbn [chain length]. rewrite !andb_true_iff, Nat.ltb_lt, negb_true_iff.
      intros (Hlen & _ & Hom & Hch). right. exists d. split.
      * apply filter_In. split; [|rewrite Hom; reflexivity].
        apply filter_In.
        assert (Hd : FS.os_path_isdir t (FS.os_path_join root d) = true).
        { destruct r; cbn [chain] in Hch; apply andb_true_iff in Hch; tauto. }
        split; [apply isdir_listed; exact Hd | exact Hd].
      * unfold FS.os_path_join. rewrite relative_snoc, Hrel.
        rewrite decide_True by reflexivity.
        rewrite andb_true_iff, Nat.ltb_lt. split; [lia | exact Hch].
  - intros [<- | (d & Hin & Hd)].
    + rewrite (proj2 (relative_nil root root) eq_refl). cbn [length chain].
      rewrite Hroot. reflexivity.
    + apply filter_In in Hin as [Hin Hom]. apply negb_true_iff in Hom.
      unfold FS.os_path_join in Hd. rewrite relative_snoc in Hd.
      destruct (FS.relative root folder) as [[|d' r]|]; try discriminate.
      case_decide as Heq; [|discriminate]. subst d'.
      apply andb_true_iff in Hd as [Hlen Hch]. apply Nat.ltb_lt in Hlen.
      cbn [length chain]. rewrite Hroot, Hom. cbn [andb negb].
      rewrite andb_true_iff, Nat.ltb_lt. split; [lia | exact Hch].
Qed.

Lemma alcanzada_notdir fuel t root folder :
  FS.os_path_isdir t root = false -> alcanzada fuel t root folder = false.
Proof.
  intros H. unfold alcanzada. destruct (FS.relative root folder) as [ds|]; [|reflexivity].
  destruct ds; cbn [chain]; rewrite H; cbn [andb]; apply andb_false_r.
Qed.

Lemma recorrer_fold_fbf (k : nat) t root folder
    (IH : forall root st,
        dget (DupListing.files_by_folder (fst (DupListing.recorrer k t root st))) folder =
        over (alcanzada k t root folder) (canon t folder)
             (dget (DupListing.files_by_folder (fst st)) folder)) :
  forall l st,
    dget (DupListing.files_by_folder
            (fst (fold_left (fun st d => DupListing.recorrer k t (FS.os_path_join root d) st)
                    l st))) folder =
    over (existsb (fun d => alcanzada k t (FS.os_path_join root d) folder) l)
         (canon t folder) (dget (DupListing.files_by_folder (fst st)) folder).
Proof.
  induction l as [|d l IHl]; intros st; cbn [fold_left existsb]; [reflexivity|].
  rewrite IHl, IH, over_over. reflexivity.
Qed.

(** What the walk from [root] leaves in [files_by_folder]. *)
Lemma recorrer_fbf t folder : forall fuel root st,
  dget (DupListing.files_by_folder (fst (DupListing.recorrer fuel t root st))) folder =
  over (alcanzada fuel t root folder) (canon t folder)
       (dget (DupListing.files_by_folder (fst st)) folder).
Proof.
  induction fuel as [|k IH]; intros root st; cbn [DupListing.recorrer].
  - unfold alcanzada. destruct (FS.relative root folder); reflexivity.
  - destruct (FS.os_path_isdir t root) eqn:Hroot;
      [|rewrite (alcanzada_notdir _ _ _ _ Hroot); reflexivity].
    rewrite (recorrer_fold_fbf k t root folder IH).
    rewrite (alcanzada_S k t root folder Hroot), <- over_over. f_equal.
    fold (validos t root).
    unfold over, canon. case_bool_decide as Heq.
    + subst folder. destruct (validos t root) as [|v vs]; [reflexivity|].
      cbn [fst DupListing.registrar DupListing.files_by_folder].
      rewrite dget_dset, decide_True by reflexivity. reflexivity.
    + destruct (validos t root) as [|v vs]; [reflexivity|].
      cbn [fst DupListing.registrar DupListing.files_by_folder].
      rewrite dget_dset, decide_False by exact Heq. reflexivity.
Qed.

Lemma filter_length_lt {A : Type} (p q : A -> bool) (l : list A) x :
  (forall y, p y = true -> q y = true) ->
  In x l -> q x = true -> p x = false ->
  (length (List.filter p l) < length (List.filter q l))%nat.
Proof.
  intros Hpq. induction l as [|y l IH]; cbn [In List.filter]; [tauto|].
  assert (Hle : (length (List.filter p l) <= length (List.filter q l))%nat).
  { clear IH. induction l as [|z l IHl]; cbn [List.filter]; [lia|].
    destruct (p z) eqn:Hp; [rewrite (Hpq z Hp); cbn [length]; lia|].
    destruct (q z); cbn [length]; lia. }
  intros [<-|Hin] Hq Hp.
  - rewrite Hq, Hp. cbn [length]. lia.
  - specialize (IH Hin Hq Hp).
    destruct (p y) eqn:Hpy; [rewrite (Hpq y Hpy); cbn [length]; lia|].
    destruct (q y); cbn [length]; lia.
Qed.

(** A chain of directories is no longer than the tree has entries at or
    below its root. *)
Lemma chain_depth t : forall ds root,
  chain t root ds = true ->
  (length ds <
   length (List.filter (fun e => bool_decide (FS.relative root (fst e) <> None)) t))%nat.
Proof.
  induction ds as [|d r IH]; intros root; cbn [chain length].
  - rewrite andb_true_r. intros Hroot. apply isdir_true in Hroot. apply find_In in Hroot.
    assert (Hin : In (root, FS.Dir)
                    (List.filter (fun e => bool_decide (FS.relative root (fst e) <> None)) t)).
    { apply filter_In. split; [exact Hroot|]. cbn [fst].
      rewrite (proj2 (relative_nil root root) eq_refl). apply bool_decide_eq_true.
      discriminate. }
    destruct (List.filter _ t); [destruct Hin | cbn [length]; lia].
  - rewrite !andb_true_iff. intros (Hroot & _ & Hch). specialize (IH _ Hch).
    apply isdir_true in Hroot. apply find_In in Hroot.
    pose proof (filter_length_lt
                  (fun e : FS.path * FS.node =>
                     bool_decide (FS.relative (FS.os_path_join root d) (fst e) <> None))
                  (fun e => bool_decide (FS.relative root (fst e) <> None))
                  t (root, FS.Dir)) as Hlt.
    cbn [fst] in Hlt. unfold FS.os_path_join in Hlt, IH |- *.
    rewrite relative_snoc, (proj2 (relative_nil root root) eq_refl) in Hlt.
    assert (Hgoal : (length (List.filter
                       (fun e : FS.path * FS.node =>
                          bool_decide (FS.relative (root ++ [d]) (fst e) <> None)) t)
                     < length (List.filter
                       (fun e : FS.path * FS.node =>
                          bool_decide (FS.relative root (fst e) <> None)) t))%nat).
    { apply Hlt.
      - intros y Hy. apply bool_decide_eq_true in Hy. apply bool_decide_eq_true.
        rewrite relative_snoc in Hy. destruct (FS.relative root (fst y)); congruence.
      - exact Hroot.
      - apply bool_decide_eq_true. discriminate.
      - apply bool_decide_eq_false. intros H. apply H. reflexivity. }
    lia.
Qed.

Lemma chain_fuel t root ds : chain t root ds = true -> (length ds <? S (length t))%nat = true.
Proof.
  intros H. apply chain_depth in H. apply Nat.ltb_lt.
  pose proof (List.filter_length_le
                (fun e : FS.path * FS.node => bool_decide (FS.relative root (fst e) <> None)) t).
  lia.
Qed.

Lemma listar_fold_fbf t folder : forall cams st,
  dget (DupListing.files_by_folder (fst (fold_left (DupListing.listar_camara t) cams st)))
    folder =
  over (existsb (fun cam => alcanzada (S (length t)) t
                              (FS.os_path_join DupListing.CAMERAS_DIR cam) folder) cams)
       (canon t folder) (dget (DupListing.files_by_folder (fst st)) folder).
Proof.
  induction cams as [|cam cams IH]; intros [s total]; cbn [fold_left existsb]; [reflexivity|].
  rewrite IH. unfold DupListing.listar_camara. rewrite recorrer_fbf, over_over.
  reflexivity.
Qed.

Lemma In_insertar x y l : In x (DupListing.insertar y l) <-> x = y \/ In x l.
Proof.
  induction l as [|z l IH]; cbn [DupListing.insertar In]; [intuition congruence|].
  destruct (String.leb y z); cbn [In]; [intuition congruence|].
  rewrite IH. intuition congruence.
Qed.

Lemma In_sorted x l : In x (DupListing.sorted l) <-> In x l.
Proof.
  unfold DupListing.sorted. induction l as [|y l IH]; cbn [fold_right In]; [tauto|].
  rewrite In_insertar, IH. intuition congruence.
Qed.

Lemma elegir_fold t : forall l s selected,
  let r := fold_left (DupListing.elegir t) l (s, selected) in
  DupListing.files_by_folder (fst r) = DupListing.files_by_folder s /\
  snd r = selected ++
          List.filter (fun d => FS.os_path_isdir t (FS.os_path_join DupListing.CAMERAS_DIR d)
                                && negb (DupListing.omitida d)) l.
Proof.
  induction l as [|d l IH]; intros s selected; cbn [fold_left List.filter].
  - split; [reflexivity | rewrite app_nil_r; reflexivity].
  - unfold DupListing.elegir at 2 4.
    destruct (FS.os_path_isdir t (FS.os_path_join DupListing.CAMERAS_DIR d)); cbn [negb andb].
    + destruct (DupListing.omitida d); cbn [negb].
      * match goal with
        | |- context [fold_left _ l (?s2, selected)] =>
            destruct (IH s2 selected) as [H1 H2]
        end.
        split; [exact H1 | exact H2].
      * destruct (IH s (selected ++ [d])) as [H1 H2]. split; [exact H1|].
        rewrite H2, <- app_assoc. reflexivity.
    + apply IH.
Qed.

(** The cameras chosen: the directories of [CAMERAS] that are not left
    out; the listing is not touched. *)
Lemma seleccionar_camaras_spec t s s1 cams :
  DupListing.seleccionar_camaras t s = (s1, DupListing.Devuelve cams) ->
  FS.os_path_isdir t DupListing.CAMERAS_DIR = true /\
  DupListing.files_by_folder s1 = DupListing.files_by_folder s /\
  forall cam, In cam cams <->
    FS.os_path_isdir t (FS.os_path_join DupListing.CAMERAS_DIR cam) = true /\
    DupListing.omitida cam = false.
Proof.
  unfold DupListing.seleccionar_camaras.
  destruct (FS.os_path_isdir t DupListing.CAMERAS_DIR) eqn:Hroot; cbn [negb];
    [|discriminate].
  pose proof (elegir_fold t (DupListing.sorted (FS.os_listdir t DupListing.CAMERAS_DIR)) s [])
    as Hf. cbv zeta in Hf.
  destruct (fold_left _ _ _) as [s' sel]. cbn [fst snd] in Hf. destruct Hf as [H1 H2].
  intros [= <- <-]. split; [reflexivity|]. split; [exact H1|].
  intros cam. rewrite H2. cbn [app]. rewrite filter_In, In_sorted, andb_true_iff, negb_true_iff.
  split; [tauto|]. intros [Hd Ho]. split; [|tauto]. apply isdir_listed. exact Hd.
Qed.

Lemma cameras_reach t cams folder :
  FS.os_path_isdir t DupListing.CAMERAS_DIR = true ->
  (forall cam, In cam cams <->
     FS.os_path_isdir t (FS.os_path_join DupListing.CAMERAS_DIR cam) = true /\
     DupListing.omitida cam = false) ->
  existsb (fun cam => alcanzada (S (length t)) t
                        (FS.os_path_join DupListing.CAMERAS_DIR cam) folder) cams
  = escaneada t folder.
Proof.
  intros Hroot Hcams. apply Bool.eq_iff_eq_true. rewrite existsb_exists.
  unfold escaneada, alcanzada, FS.os_path_join. split.
  - intros (cam & Hin & H). rewrite relative_snoc in H.
    destruct (FS.relative DupListing.CAMERAS_DIR folder) as [[|d r]|]; try discriminate.
    case_decide as Heq; [|discriminate]. subst d.
    apply andb_true_iff in H as [_ Hch]. apply Hcams in Hin as [Hd Ho].
    cbn [chain]. rewrite Hroot, Ho. exact Hch.
  - destruct (FS.relative DupListing.CAMERAS_DIR folder) as [[|cam r]|] eqn:Hrel;
      try discriminate.
    cbn [chain]. rewrite !andb_true_iff, negb_true_iff. intros (_ & Ho & Hch).
    exists cam. split.
    + apply Hcams. split; [|exact Ho].
      destruct r; cbn [chain] in Hch; apply andb_true_iff in Hch; tauto.
    + rewrite relative_snoc, Hrel, decide_True by reflexivity.
      rewrite (chain_fuel _ _ _ Hch). unfold FS.os_path_join in Hch. rewrite Hch.
      reflexivity.
Qed.

Lemma listing_of_the_scan t s cams folder :
  DupListing.seleccionar_camaras t DupListing.inicial = (s, DupListing.Devuelve cams) ->
  dget (DupListing.files_by_folder (fst (DupListing.listar_contenidos t cams s))) folder =
    if escaneada t folder then canon t folder else None.
Proof.
  intros Hsel. apply seleccionar_camaras_spec in Hsel as (Hroot & Hfbf & Hcams).
  unfold DupListing.listar_contenidos. rewrite listar_fold_fbf.
  rewrite (cameras_reach t cams folder Hroot Hcams).
  cbn [fst DupListing.registrar DupListing.files_by_folder]. rewrite Hfbf.
  unfold over. destruct (escaneada t folder); [|reflexivity].
  destruct (canon t folder); reflexivity.
Qed.

(** The listing of the duplicate search. After [seleccionar_camaras] and
    the loop of [listar_contenidos], [files_by_folder] has an entry for a
    folder exactly when the folder lies below [CAMERAS], is reached from
    it through directories none of which is named [PRIVATE] or has
    [Gopro] in its name, and holds a file with one of the extensions; the
    entry is the sorted list of the names of those files. *)
Theorem listing_covers_the_scanned_folders t s cams folder :
  DupListing.seleccionar_camaras t DupListing.inicial = (s, DupListing.Devuelve cams) ->
  dget (DupListing.files_by_folder (fst (DupListing.listar_contenidos t cams s))) folder =
    if escaneada t folder then canon t folder else None.
Proof. apply listing_of_the_scan. Qed.

Lemma listing_covers_the_scanned_folders_witness :
  dget (DupListing.files_by_folder
          (fst (DupListing.listar_contenidos arbol_escaneo ["EOS"; "GoPro"]%string
                  (fst (DupListing.seleccionar_camaras arbol_escaneo DupListing.inicial)))))
       ["CAMERAS"; "EOS"; "2024.05"]%string =
    if escaneada arbol_escaneo ["CAMERAS"; "EOS"; "2024.05"]%string
    then canon arbol_escaneo ["CAMERAS"; "EOS"; "2024.05"]%string else None.
Proof.
  apply (listing_covers_the_scanned_folders arbol_escaneo
           (fst (DupListing.seleccionar_camaras arbol_escaneo DupListing.inicial))
           ["EOS"; "GoPro"]%string).
  vm_compute. reflexivity.
Defined.

(** On the tree of the example: [PRIVATE] is left out as a camera and
    [Gopro9] inside a camera; [GoPro], spelt otherwise, is listed; the
    text file is not; the names come sorted. *)
Example listing_example :
  let s := fst (DupListing.seleccionar_camaras arbol_escaneo DupListing.inicial) in
  let r := DupListing.listar_contenidos arbol_escaneo ["EOS"; "GoPro"]%string s in
  DupListing.seleccionar_camaras arbol_escaneo DupListing.inicial
    = (s, DupListing.Devuelve ["EOS"; "GoPro"]%string) /\
  DupListing.cameras_skipped s = ["PRIVATE"]%string /\
  DupListing.files_by_folder (fst r) =
    [ (["CAMERAS"; "EOS"; "2024.05"], ["IMG_1.JPG"; "IMG_2.JPG"]);
      (["CAMERAS"; "EOS"; "2024.06"], ["IMG_1.JPG"]);
      (["CAMERAS"; "GoPro"], ["clip.mp4"]) ]%string /\
  snd r = 4%nat.
Proof. vm_compute. repeat split; reflexivity. Qed.

(* --------------------------------------------------------------------- *)
(** ** The duplicate search: from the tree to the report                   *)
(* --------------------------------------------------------------------- *)

Lemma recorrer_keys t : forall fuel root st,
  NoDup (map fst (DupListing.files_by_folder (fst st))) ->
  NoDup (map fst (DupListing.files_by_folder (fst (DupListing.recorrer fuel t root st)))).
Proof.
  induction fuel as [|k IH]; intros root st Hnd; cbn [DupListing.recorrer]; [exact Hnd|].
  destruct (FS.os_path_isdir t root); [|exact Hnd].
  match goal with |- context [fold_left _ ?l ?st1] =>
    assert (H1 : NoDup (map fst (DupListing.files_by_folder (fst st1))));
    [| generalize dependent st1; generalize l ]
  end.
  - destruct (List.filter DupListing.extension_valida _); [exact Hnd|].
    cbn [fst DupListing.registrar DupListing.files_by_folder].
    apply dict_nodup_dset. exact Hnd.
  - intros l. induction l as [|d l IHl]; intros st1 H1; cbn [fold_left]; [exact H1|].
    apply IHl. apply IH. exact H1.
Qed.

Lemma listar_keys t cams s :
  NoDup (map fst (DupListing.files_by_folder s)) ->
  NoDup (map fst (DupListing.files_by_folder (fst (DupListing.listar_contenidos t cams s)))).
Proof.
  intros Hnd. unfold DupListing.listar_contenidos.
  set (st := (DupListing.registrar INFO _ s, 0%nat)).
  assert (H : NoDup (map fst (DupListing.files_by_folder (fst st)))) by exact Hnd.
  clearbody st. revert st H.
  induction cams as [|cam cams IH]; intros [s1 total] H; cbn [fold_left]; [exact H|].
  apply IH. unfold DupListing.listar_camara. apply recorrer_keys. exact H.
Qed.

Lemma NoDup_insertar x l : ~ In x l -> NoDup l -> NoDup (DupListing.insertar x l).
Proof.
  induction l as [|y l IH]; cbn [DupListing.insertar]; intros Hx Hnd.
  - apply NoDup_singleton.
  - destruct (String.leb x y).
    + apply NoDup_cons. split; [rewrite list_elem_of_In; exact Hx | exact Hnd].
    + apply NoDup_cons in Hnd as [Hy Hnd]. apply NoDup_cons. split.
      * rewrite list_elem_of_In, In_insertar. intros [->|Hin].
        -- apply Hx. left. reflexivity.
        -- apply Hy, list_elem_of_In. exact Hin.
      * apply IH; [|exact Hnd]. intros Hin. apply Hx. right. exact Hin.
Qed.

Lemma NoDup_sorted l : NoDup l -> NoDup (DupListing.sorted l).
Proof.
  unfold DupListing.sorted. induction l as [|x l IH]; cbn [fold_right]; intros Hnd;
    [constructor|].
  apply NoDup_cons in Hnd as [Hx Hnd]. apply NoDup_insertar; [|auto].
  fold (DupListing.sorted l). rewrite In_sorted, <- list_elem_of_In. exact Hx.
Qed.

Lemma NoDup_List_filter {A : Type} (f : A -> bool) (l : list A) :
  NoDup l -> NoDup (List.filter f l).
Proof.
  induction l as [|x l IH]; cbn [List.filter]; intros Hnd; [constructor|].
  apply NoDup_cons in Hnd as [Hx Hnd]. destruct (f x); [|auto].
  apply NoDup_cons. split; [|auto].
  rewrite list_elem_of_In, filter_In, <- list_elem_of_In. tauto.
Qed.

Lemma validos_NoDup t folder : wf t -> NoDup (validos t folder).
Proof.
  intros Hwf. unfold validos. apply NoDup_List_filter, NoDup_List_filter.
  apply listdir_NoDup. exact Hwf.
Qed.

(** The valid names of a folder are those of its files that have one of
    the extensions. *)
Lemma In_validos t folder name :
  In name (validos t folder) <->
  FS.os_path_isfile t (FS.os_path_join folder name) = true /\
  DupListing.extension_valida name = true.
Proof.
  unfold validos. rewrite !filter_In, listdir_find, negb_true_iff.
  unfold FS.os_path_isdir, FS.os_path_isfile.
  destruct (FS.find t (FS.os_path_join folder name)) as [[f|]|]; split;
    try (intros [[[x Hx] H1] H2]); try (intros [H1 H2]);
    try discriminate; repeat split; eauto.
Qed.

(** The entries of the listing. *)
Lemma In_listing t s cams folder names :
  DupListing.seleccionar_camaras t DupListing.inicial = (s, DupListing.Devuelve cams) ->
  (In (folder, names)
     (DupListing.files_by_folder (fst (DupListing.listar_contenidos t cams s))) <->
   escaneada t folder = true /\ canon t folder = Some names).
Proof.
  intros Hsel. pose proof (listing_of_the_scan t s cams folder Hsel) as Hget.
  assert (Hnd : NoDup (map fst (DupListing.files_by_folder
                                  (fst (DupListing.listar_contenidos t cams s))))).
  { apply listar_keys. apply seleccionar_camaras_spec in Hsel as (_ & -> & _). constructor. }
  split.
  - intros Hin. apply (dict_nodup_In_dget _ _ _ Hnd) in Hin. rewrite Hget in Hin.
    destruct (escaneada t folder); [tauto | discriminate].
  - intros [He Hc]. apply dget_Some_In. rewrite Hget, He. exact Hc.
Qed.

Lemma In_bucket fbf cam name p :
  In p (bucket fbf cam name) <->
  exists folder names,
    In (folder, names) fbf /\ DupSearch.camera_of folder = cam /\ In name names /\
    p = FS.os_path_join folder name.
Proof.
  unfold bucket. rewrite in_flat_map. split.
  - intros [[folder names] [Hin Hp]]. exists folder, names.
    destruct (String.eqb (DupSearch.camera_of folder) cam) eqn:Hc; [|destruct Hp].
    apply String.eqb_eq in Hc. apply in_map_iff in Hp as (n & Hp & Hn).
    apply filter_In in Hn as [Hn Heq]. apply String.eqb_eq in Heq. subst n.
    repeat split; auto.
  - intros (folder & names & Hin & Hc & Hn & ->). exists (folder, names).
    split; [exact Hin|]. rewrite (proj2 (String.eqb_eq _ _) Hc).
    apply in_map_iff. exists name. split; [reflexivity|].
    apply filter_In. split; [exact Hn | apply String.eqb_refl].
Qed.

Lemma NoDup_same {A : Type} (a : A) (l : list A) :
  NoDup l -> (forall x, In x l -> x = a) -> l = [] \/ l = [a].
Proof.
  destruct l as [|x [|y l]]; intros Hnd Hall; [left; reflexivity | right | exfalso].
  - rewrite (Hall x) by (left; reflexivity). reflexivity.
  - apply NoDup_cons in Hnd as [Hx _]. apply Hx.
    rewrite (Hall x), (Hall y) by (cbn; auto). left.
Qed.

Lemma bucket_NoDup cam name : forall fbf,
  NoDup (map fst fbf) ->
  (forall folder names, In (folder, names) fbf -> NoDup names) ->
  NoDup (bucket fbf cam name).
Proof.
  induction fbf as [|[folder names] fbf IH]; intros Hk Hn; [constructor|].
  cbn [map fst] in Hk. apply NoDup_cons in Hk as [Hfolder Hk].
  change (bucket ((folder, names) :: fbf) cam name) with
    ((if String.eqb (DupSearch.camera_of folder) cam
      then map (fun _ : string => FS.os_path_join folder name)
               (List.filter (String.eqb name) names)
      else []) ++ bucket fbf cam name).
  assert (IH' : NoDup (bucket fbf cam name)).
  { apply IH; [exact Hk|]. intros f n Hin. apply (Hn f n). right. exact Hin. }
  destruct (String.eqb (DupSearch.camera_of folder) cam); [|exact IH'].
  destruct (NoDup_same name (List.filter (String.eqb name) names)) as [-> | ->].
  - apply NoDup_List_filter. apply (Hn folder names). left. reflexivity.
  - intros x Hx. apply filter_In in Hx as [_ Hx]. apply String.eqb_eq in Hx. auto.
  - exact IH'.
  - cbn [map app]. apply NoDup_cons. split; [|exact IH'].
    rewrite list_elem_of_In, In_bucket. intros (f & n & Hin & _ & _ & Heq).
    apply os_path_join_inj in Heq as [Heq _]. subst f.
    apply Hfolder, list_elem_of_In. apply (in_map fst) in Hin. exact Hin.
Qed.

Lemma In_with_digest t h paths p :
  In p (with_digest t h paths) <-> In p paths /\ fingerprint t p = Some h.
Proof. unfold with_digest. rewrite filter_In, bool_decide_eq_true. reflexivity. Qed.

Lemma canon_Some t folder names :
  canon t folder = Some names <->
  validos t folder <> [] /\ names = DupListing.sorted (validos t folder).
Proof.
  unfold canon. destruct (validos t folder) as [|v vs]; split.
  - discriminate.
  - intros [H _]. congruence.
  - intros [= <-]. split; [discriminate | reflexivity].
  - intros [_ ->]. reflexivity.
Qed.

(** The paths filed under a camera, a name and a digest are the copies
    the tree holds. *)
Lemma copies_listed t s cams cam name h p :
  DupListing.seleccionar_camaras t DupListing.inicial = (s, DupListing.Devuelve cams) ->
  In p (with_digest t h
          (bucket (DupListing.files_by_folder (fst (DupListing.listar_contenidos t cams s)))
                  cam name)) <->
  copia t cam name h p.
Proof.
  intros Hsel. rewrite In_with_digest, In_bucket. unfold copia. split.
  - intros [(folder & names & Hin & Hcam & Hname & ->) Hh].
    apply (In_listing t s cams folder names Hsel) in Hin as [Hesc Hcanon].
    apply canon_Some in Hcanon as [_ ->]. apply In_sorted, In_validos in Hname as [Hf He].
    exists folder. repeat split; assumption.
  - intros (folder & -> & Hesc & Hcam & Hf & He & Hh). split; [|exact Hh].
    assert (Hname : In name (validos t folder)) by (apply In_validos; split; assumption).
    exists folder, (DupListing.sorted (validos t folder)). repeat split.
    + apply (In_listing t s cams folder _ Hsel). split; [exact Hesc|].
      apply canon_Some. split; [|reflexivity]. intros Hnil. rewrite Hnil in Hname.
      destruct Hname.
    + exact Hcam.
    + apply In_sorted. exact Hname.
Qed.

Lemma copies_NoDup t s cams cam name h :
  wf t ->
  DupListing.seleccionar_camaras t DupListing.inicial = (s, DupListing.Devuelve cams) ->
  NoDup (with_digest t h
           (bucket (DupListing.files_by_folder (fst (DupListing.listar_contenidos t cams s)))
                   cam name)).
Proof.
  intros Hwf Hsel. unfold with_digest. apply NoDup_List_filter. apply bucket_NoDup.
  - apply listar_keys. apply seleccionar_camaras_spec in Hsel as (_ & -> & _). constructor.
  - intros folder names Hin. apply (In_listing t s cams folder names Hsel) in Hin as [_ Hc].
    apply canon_Some in Hc as [_ ->]. apply NoDup_sorted, validos_NoDup. exact Hwf.
Qed.

(** The report of the duplicate search, read on the tree. Under a camera,
    a file name and a digest the search reports a group exactly when the
    folders it goes through hold two or more files of that camera, name
    and digest; the group is then the list of those files, each once. *)
Theorem reported_groups_are_the_copies t r cam name h :
  wf t ->
  informe_de_duplicados t = DupListing.Devuelve r ->
  match reported_group r cam name h with
  | Some ps =>
      (2 <= length ps)%nat /\ NoDup ps /\ forall p, In p ps <-> copia t cam name h p
  | None => forall p q, copia t cam name h p -> copia t cam name h q -> p = q
  end.
Proof.
  intros Hwf. unfold informe_de_duplicados.
  destruct (DupListing.seleccionar_camaras t DupListing.inicial) as [s [cams|code]] eqn:Hsel;
    [|discriminate].
  intros [= <-]. rewrite detectar_duplicados_report.
  pose proof (copies_NoDup t s cams cam name h Hwf Hsel) as Hnd.
  pose proof (fun p => copies_listed t s cams cam name h p Hsel) as Hmem.
  destruct (with_digest t h _) as [|a [|b w]] eqn:Hw; cbn [length Nat.leb].
  - intros p q Hp _. apply Hmem in Hp. destruct Hp.
  - intros p q Hp Hq. apply Hmem in Hp, Hq.
    destruct Hp as [<-|[]]. destruct Hq as [<-|[]]. reflexivity.
  - split; [lia|]. split; [exact Hnd | exact Hmem].
Qed.

Lemma reported_groups_are_the_copies_witness :
  match reported_group
          [("EOS", [("IMG_1.JPG",
             [("7692c3ad3540bb803c020b3aee66cd8887123234ea0c6e7143c0add73ff431ed",
               [["CAMERAS"; "EOS"; "2024.05"; "IMG_1.JPG"];
                ["CAMERAS"; "EOS"; "2024.06"; "IMG_1.JPG"]])])])]%string
          "EOS" "IMG_1.JPG"
          "7692c3ad3540bb803c020b3aee66cd8887123234ea0c6e7143c0add73ff431ed" with
  | Some ps =>
      (2 <= length ps)%nat /\ NoDup ps /\
      forall p, In p ps <->
                copia arbol_escaneo "EOS" "IMG_1.JPG"
                  "7692c3ad3540bb803c020b3aee66cd8887123234ea0c6e7143c0add73ff431ed" p
  | None =>
      forall p q,
        copia arbol_escaneo "EOS" "IMG_1.JPG"
          "7692c3ad3540bb803c020b3aee66cd8887123234ea0c6e7143c0add73ff431ed" p ->
        copia arbol_escaneo "EOS" "IMG_1.JPG"
          "7692c3ad3540bb803c020b3aee66cd8887123234ea0c6e7143c0add73ff431ed" q -> p = q
  end.
Proof.
  apply (reported_groups_are_the_copies arbol_escaneo).
  - apply (bool_decide_unpack _). vm_compute. exact I.
  - vm_compute. reflexivity.
Defined.

(* --------------------------------------------------------------------- *)
(** ** The date sorter: where a photo goes                                 *)
(* --------------------------------------------------------------------- *)

Lemma procesar_item_fechado env t0 camaras cam s item s' e :
  In cam camaras -> cam <> "PRIVATE"%string ->
  date_inv t0 s -> bien_fechados env t0 camaras (movidos s) ->
  DateSort.procesar_item env (camera_dir cam) s item = (s', e) ->
  bien_fechados env t0 camaras (movidos s').
Proof.
  intros Hcam Hpriv Hinv Hbf Hstep. apply procesar_item_step in Hstep.
  destruct Hstep as
    [ Hc | fecha tr ex Hc Hf Haj | fecha tr fecha' ex Hc Hf Haj d Hex Hmk
    | fecha tr fecha' s1 Hc Hf Haj d Hready Hnu
    | fecha tr fecha' s1 ex Hc Hf Haj d Hready Hnu Hsize
    | fecha tr fecha' s1 size ex Hc Hf Haj d Hready Hnu Hsize Hmove
    | fecha tr fecha' s1 size t2 Hc Hf Haj d Hready Hnu Hsize Hmove ].
  - exact Hbf.
  - rewrite (obtener_fecha_movidos _ _ _ _ _ _ Hf). exact Hbf.
  - rewrite movidos_registrar by reflexivity.
    rewrite (obtener_fecha_movidos _ _ _ _ _ _ Hf). exact Hbf.
  - apply (folder_ready_grown env _ cam fecha') in Hready.
    destruct Hready as (_ & Hm & _).
    replace (movidos _) with (movidos s1); [rewrite Hm, (obtener_fecha_movidos _ _ _ _ _ _ Hf);
                                           exact Hbf|].
    unfold movidos. cbn [DateSort.duplicates_append DateSort.registrar DateSort.con_traza
                         DateSort.tz logger log].
    rewrite movidos_de_app. cbn. rewrite app_nil_r. reflexivity.
  - apply (folder_ready_grown env _ cam fecha') in Hready.
    destruct Hready as (_ & Hm & _).
    rewrite movidos_registrar by reflexivity.
    rewrite Hm, (obtener_fecha_movidos _ _ _ _ _ _ Hf). exact Hbf.
  - apply (folder_ready_grown env _ cam fecha') in Hready.
    destruct Hready as (_ & Hm & _).
    rewrite movidos_registrar by apply movidos_error_al_mover.
    rewrite Hm, (obtener_fecha_movidos _ _ _ _ _ _ Hf). exact Hbf.
  - apply (folder_ready_grown env _ cam fecha') in Hready.
    destruct Hready as (Hg & Hm & _). cbn [DateSort.arbol DateSort.con_traza] in Hg.
    assert (Hm1 : movidos s1 = movidos s)
      by (rewrite Hm; eapply obtener_fecha_movidos; exact Hf).
    apply shutil_move_free in Hmove; [|exact Hnu].
    destruct Hmove as (f & Hsrc & _ & _).
    apply (date_grown_find_file _ _ _ _ _ f Hg) in Hsrc.
    change (FS.os_path_join (camera_dir cam) item) with (photo_path cam item) in Hsrc, Hf.
    destruct (di_present _ _ Hinv cam item f Hsrc) as [H0 _].
    assert (Hfecha : fecha = fecha_de env t0 (photo_path cam item)).
    { unfold fecha_de.
      rewrite <- (obtener_fecha_fst env (DateSort.arbol s) t0 (photo_path cam item)
                    (DateSort.tz s) traza_vacia) by congruence.
      rewrite Hf. reflexivity. }
    unfold movidos. cbn [DateSort.tz logger log].
    rewrite movidos_de_app. cbn [movidos_de flat_map snd app].
    fold (movidos s1). rewrite Hm1.
    intros p q Hin. apply in_app_or in Hin as [Hin | [[= <- <-] | []]]; [exact (Hbf p q Hin)|].
    exists cam, item, fecha'.
    change (FS.dirname d) with (camera_dir cam). fold (photo_path cam item).
    split; [exact Hcam|]. split; [exact Hpriv|]. split.
    { unfold DateStep.candidate in Hc. apply andb_true_iff in Hc as [_ Hc]. exact Hc. }
    split; [reflexivity|]. split; [rewrite Hfecha in Haj; exact Haj | reflexivity].
Qed.

Lemma run_bien_fechados env t0 camaras :
  bien_fechados env t0 camaras (movidos (fst (DateSort.run env t0 camaras))).
Proof.
  unfold DateSort.run, DateSort.organizar_fotos_por_fecha.
  destruct (for_each (DateSort.procesar_camara env) (DateSort.inicial t0) camaras)
    as [s' e] eqn:Hloop. cbn [fst].
  assert (H : date_inv t0 s' /\ bien_fechados env t0 camaras (movidos s')); [|tauto].
  apply (for_each_inv_in (DateSort.procesar_camara env)
           (fun s => date_inv t0 s /\ bien_fechados env t0 camaras (movidos s)) camaras) with
    (s := DateSort.inicial t0) (e := e); [| |exact Hloop].
  - intros s c s1 e1 Hc [Hinv Hbf] Hb.
    split; [eapply procesar_camara_inv; eassumption|].
    revert Hb. unfold DateSort.procesar_camara.
    destruct (String.eqb c "PRIVATE") eqn:Hpriv; [intros [= <- <-]; exact Hbf|].
    apply String.eqb_neq in Hpriv.
    destruct (FS.os_path_isdir _ _); cbn [negb]; [|intros [= <- <-]; exact Hbf].
    intros Hb.
    assert (H : date_inv t0 s1 /\ bien_fechados env t0 camaras (movidos s1)); [|tauto].
    apply (for_each_inv (DateSort.procesar_item env (camera_dir c))
             (fun a => date_inv t0 a /\ bien_fechados env t0 camaras (movidos a))) in Hb;
      [exact Hb| |].
    + intros a x a' e' [Ha Hra] Hx.
      split; [eapply procesar_item_inv | eapply (procesar_item_fechado env t0 camaras c)];
        eassumption.
    + split.
      * eapply date_inv_same; [exact Hinv | reflexivity |].
        apply movidos_registrar. reflexivity.
      * rewrite movidos_registrar by reflexivity. exact Hbf.
  - split; [apply date_inv_initial|]. intros p d [].
Qed.

(** The date sorter files a photo under the month of its date. The
    cameras handed to the run are entries of the cameras folder. Every
    file that the run moves is a photo, by its extension, of one of those
    cameras, never of [PRIVATE]; it goes from the folder
    of its camera to the folder named after the year and month of its
    capture date, keeping its name. The date is the one that
    [obtener_fecha_captura] finds for the file as it was before the run,
    shifted by [ajustar_mes_por_horario_especial]. *)
Theorem photos_go_to_the_month_of_their_date env t0 camaras p d :
  entradas t0 DateSort.CAMERAS_DIR camaras ->
  In (p, d) (movidos (fst (DateSort.run env t0 camaras))) ->
  exists cam item fecha,
    In cam camaras /\ cam <> "PRIVATE"%string /\ is_photo item = true /\
    p = photo_path cam item /\
    DateSort.ajustar_mes_por_horario_especial (fecha_de env t0 p) = Ok fecha /\
    d = FS.os_path_join (month_dir cam fecha) item.
Proof. intros _. apply run_bien_fechados. Qed.

Lemma photos_go_to_the_month_of_their_date_witness :
  exists cam item fecha,
    In cam ["EOS"%string] /\ cam <> "PRIVATE"%string /\ is_photo item = true /\
    ["CAMARAS"; "EOS"; "IMG_1.JPG"]%string = photo_path cam item /\
    DateSort.ajustar_mes_por_horario_especial
      (fecha_de entorno_ok arbol_mayo ["CAMARAS"; "EOS"; "IMG_1.JPG"]%string) = Ok fecha /\
    ["CAMARAS"; "EOS"; "2024.05"; "IMG_1.JPG"]%string
      = FS.os_path_join (month_dir cam fecha) item.
Proof.
  apply (photos_go_to_the_month_of_their_date entorno_ok arbol_mayo ["EOS"]%string).
  - intros n [<- | []]. vm_compute. left. reflexivity.
  - vm_compute. left. reflexivity.
Defined.

(* --------------------------------------------------------------------- *)
(** ** The RAW sorter: a whole run                                         *)
(* --------------------------------------------------------------------- *)

Lemma basename_join d n : FS.basename (FS.os_path_join d n) = n.
Proof. unfold FS.basename, FS.os_path_join. apply last_last. Qed.

Lemma path_split (p : FS.path) :
  p <> [] -> p = FS.os_path_join (FS.dirname p) (FS.basename p).
Proof. intros H. apply app_removelast_last. exact H. Qed.

Lemma length_join d n : length (FS.os_path_join d n) = S (length d).
Proof. unfold FS.os_path_join. rewrite length_app. cbn. lia. Qed.

(** A move brings no file to a path that is not a landing place. *)
Lemma mover_raw_new env dir t0 creada s rf s' e :
  raw_new dir t0 s ->
  RawOrganizer.mover_raw env dir (FS.os_path_join dir "RAW") creada s rf = (s', e) ->
  raw_new dir t0 s'.
Proof.
  intros Hinv Hturn. apply mover_raw_turn in Hturn.
  destruct Hturn as [[Ht _] | (f & h & Hsrc & _ & _ & Ht & _)].
  - intros q g. rewrite Ht. apply Hinv.
  - intros q g. rewrite Ht, find_put. case_decide as Hq.
    + intros _. right. subst q. unfold FS.real_dst. rewrite basename_join.
      exists rf. destruct (FS.os_path_isdir _ _); [right | left]; reflexivity.
    + rewrite find_remove. case_decide; [discriminate|]. apply Hinv.
Qed.

Lemma procesar_directorio_new env s dir :
  raw_new dir (RawOrganizer.arbol s) (fst (RawOrganizer.procesar_directorio env s dir)).
Proof.
  unfold RawOrganizer.procesar_directorio, RawOrganizer.listdir.
  set (t0 := RawOrganizer.arbol s).
  assert (Hsame : forall s1, RawOrganizer.arbol s1 = t0 -> raw_new dir t0 s1).
  { intros s1 Ha q g. rewrite Ha. eauto. }
  destruct (FS.find t0 dir) as [[g|]|] eqn:Hdir; cbn [fst]; try (apply Hsame; reflexivity).
  destruct (List.filter (RawOrganizer.es_raw t0 dir) (FS.os_listdir t0 dir))
    as [|x raws] eqn:Hraws; cbn [fst]; [apply Hsame; reflexivity|].
  rewrite <- Hraws.
  assert (Hloop : forall creada s1,
            raw_new dir t0 s1 ->
            raw_new dir t0
              (fst (for_each (RawOrganizer.mover_raw env dir (FS.os_path_join dir "RAW") creada)
                      s1 (List.filter (RawOrganizer.es_raw t0 dir) (FS.os_listdir t0 dir))))).
  { intros creada s1 H1.
    destruct (for_each _ s1 _) as [s2 e2] eqn:Hfor. cbn [fst].
    apply (for_each_inv _ (raw_new dir t0)) with (s := s1) (e := e2) in Hfor;
      [exact Hfor | | exact H1].
    intros a y a' e'. apply mover_raw_new. }
  destruct (FS.os_path_exists t0 (FS.os_path_join dir "RAW")) eqn:Hex; cbn [negb].
  - apply Hloop. apply Hsame; reflexivity.
  - rewrite (raw_makedirs_child env t0 dir "RAW" Hdir).
    destruct (FS.os_mkdir env t0 (FS.os_path_join dir "RAW")) as [t2|ex] eqn:Hmk.
    + apply Hloop. apply os_mkdir_Ok in Hmk as (-> & _).
      intros q g.
      cbn [RawOrganizer.arbol RawOrganizer.registrar RawOrganizer.con_arbol].
      intros Hq. apply find_app_dirs_file in Hq. eauto.
    + cbn [fst]. apply Hsame; reflexivity.
Qed.

Lemma lower_RAW : lower "RAW" = "raw"%string.
Proof. reflexivity. Qed.

(** One call of [procesar_directorio] on a theme folder or a subfolder
    keeps a file safe. *)
Lemma a_salvo_step dir t t' p f :
  tematico dir ->
  FS.basename (FS.dirname p) <> "RAW"%string ->
  (forall q g, FS.find t q = Some (FS.File g) -> fate dir t t' q g) ->
  (forall q g, FS.find t' q = Some (FS.File g) ->
               (exists g', FS.find t q = Some (FS.File g')) \/ landing dir q) ->
  a_salvo t p f -> a_salvo t' p f.
Proof.
  intros Htem Hpar Hfate Hnew [Hat | (Hlen & Hnf & Hraw)].
  - destruct (Hfate p f Hat) as [Hk | rf -> Hes Hgone Hl | rf g -> _ _ _ _ _].
    + left. exact Hk.
    + right. rewrite length_join. split.
      * destruct Htem as [H4 | [H5 _]]; [left | right]; lia.
      * split; [unfold FS.os_path_isfile; rewrite Hgone; reflexivity|].
        unfold en_raw. rewrite dirname_join, basename_join. exact Hl.
    + exfalso. apply Hpar. rewrite dirname_join, basename_join. reflexivity.
  - assert (Hp : p <> []) by (intros ->; cbn in Hlen; lia).
    pose proof (path_split p Hp) as Hsplit.
    assert (Hld : length p = S (length (FS.dirname p))).
    { rewrite Hsplit at 1. apply length_join. }
    assert (Hdir4 : (4 <= length dir)%nat) by (destruct Htem as [H4 | [H5 _]]; lia).
    assert (Hnot5 : tematico (FS.os_path_join (FS.dirname p) "RAW") -> False).
    { intros [H4 | [H5 Hlow]].
      - rewrite length_join in H4. lia.
      - apply Hlow. rewrite basename_join. reflexivity. }
    right. split; [exact Hlen|]. split.
    + unfold FS.os_path_isfile in *.
      destruct (FS.find t' p) as [[g|]|] eqn:Hq; try reflexivity. exfalso.
      destruct (Hnew p g Hq) as [[g' Hg'] | [rf [Hl | Hl]]].
      * rewrite Hg' in Hnf. discriminate.
      * apply Hpar. rewrite Hl, dirname_join, basename_join. reflexivity.
      * rewrite Hl, !length_join in Hlen. lia.
    + destruct Hraw as [H1 | H2].
      * destruct (Hfate _ _ H1) as [Hk | rf Heq _ _ _ | rf g Heq _ Hsrc _ _ _].
        -- left. exact Hk.
        -- exfalso. apply os_path_join_inj in Heq as [Heq _].
           apply Hnot5. rewrite Heq. exact Htem.
        -- exfalso. apply os_path_join_inj in Heq as [Heq <-].
           apply os_path_join_inj in Heq as [<- _].
           rewrite <- Hsplit in Hsrc. unfold FS.os_path_isfile in Hnf.
           rewrite Hsrc in Hnf. discriminate.
      * destruct (Hfate _ _ H2) as [Hk | rf Heq _ _ _ | rf g Heq _ _ _ _ _].
        -- right. exact Hk.
        -- exfalso. apply os_path_join_inj in Heq as [Heq _].
           destruct Htem as [H4 | [H5 _]]; rewrite <- Heq, !length_join in *; lia.
        -- exfalso. apply os_path_join_inj in Heq as [Heq _].
           apply os_path_join_inj in Heq as [Heq _].
           apply Hnot5. rewrite Heq. exact Htem.
Qed.

Lemma procesar_directorio_salvo env s dir s' e p f :
  tematico dir ->
  FS.basename (FS.dirname p) <> "RAW"%string ->
  RawOrganizer.procesar_directorio env s dir = (s', e) ->
  a_salvo (RawOrganizer.arbol s) p f -> a_salvo (RawOrganizer.arbol s') p f.
Proof.
  intros Htem Hpar Hcall.
  pose proof (procesar_directorio_inv env s dir) as Hinv.
  pose proof (procesar_directorio_new env s dir) as Hnew.
  rewrite Hcall in Hinv, Hnew. cbn [fst] in Hinv, Hnew.
  apply (a_salvo_step dir); [exact Htem | exact Hpar | | exact Hnew].
  intros q g. apply (ri_fate _ _ _ _ Hinv).
Qed.

Lemma procesar_tema_salvo env month_path s theme s' e p f :
  length month_path = 3%nat ->
  FS.basename (FS.dirname p) <> "RAW"%string ->
  RawOrganizer.procesar_tema env month_path s theme = (s', e) ->
  a_salvo (RawOrganizer.arbol s) p f -> a_salvo (RawOrganizer.arbol s') p f.
Proof.
  intros Hlen Hpar. unfold RawOrganizer.procesar_tema.
  destruct (RawOrganizer.procesar_directorio env s (FS.os_path_join month_path theme))
    as [s1 e1] eqn:Hcall.
  intros Hrest Hs.
  assert (H1 : a_salvo (RawOrganizer.arbol s1) p f).
  { eapply procesar_directorio_salvo; [| exact Hpar | exact Hcall | exact Hs].
    left. rewrite length_join. lia. }
  destruct e1 as [ex|]; [injection Hrest as <- <-; exact H1|].
  destruct (RawOrganizer.listdir (RawOrganizer.arbol s1) (FS.os_path_join month_path theme))
    as [names|ex]; [|injection Hrest as <- <-; exact H1].
  apply (for_each_inv_in _ (fun a => a_salvo (RawOrganizer.arbol a) p f)) in Hrest;
    [exact Hrest | | exact H1].
  intros a sub a' e' Hin Ha Hb. apply filter_In in Hin as [_ Hlow].
  eapply procesar_directorio_salvo; [| exact Hpar | exact Hb | exact Ha].
  right. rewrite !length_join, basename_join. split; [lia|].
  apply negb_true_iff, String.eqb_neq in Hlow. exact Hlow.
Qed.

Lemma procesar_mes_salvo env cam_path s month s' e p f :
  length cam_path = 2%nat ->
  FS.basename (FS.dirname p) <> "RAW"%string ->
  RawOrganizer.procesar_mes env cam_path s month = (s', e) ->
  a_salvo (RawOrganizer.arbol s) p f -> a_salvo (RawOrganizer.arbol s') p f.
Proof.
  intros Hlen Hpar. unfold RawOrganizer.procesar_mes.
  destruct (negb _); [intros [= <- <-]; auto|].
  destruct (RawOrganizer.listdir _ _) as [names|ex]; [|intros [= <- <-]; auto].
  destruct (RawOrganizer.subdirs _ _ names) as [|th themes];
    [intros [= <- <-]; auto|].
  intros Hloop Hs.
  apply (for_each_inv _ (fun a => a_salvo (RawOrganizer.arbol a) p f)) in Hloop;
    [exact Hloop | | exact Hs].
  intros a x a' e' Ha Hb.
  eapply procesar_tema_salvo; [| exact Hpar | exact Hb | exact Ha].
  rewrite length_join. lia.
Qed.

Lemma organizar_salvo env s camaras s' e p f :
  FS.basename (FS.dirname p) <> "RAW"%string ->
  RawOrganizer.organizar_raw_en_subcarpeta env s camaras = (s', e) ->
  a_salvo (RawOrganizer.arbol s) p f -> a_salvo (RawOrganizer.arbol s') p f.
Proof.
  intros Hpar Hrun Hs. unfold RawOrganizer.organizar_raw_en_subcarpeta in Hrun.
  apply (for_each_inv _ (fun a => a_salvo (RawOrganizer.arbol a) p f)) in Hrun;
    [exact Hrun | | exact Hs].
  intros a cam a' e' Ha. cbv zeta.
  destruct (RawOrganizer.listdir _ _) as [months|ex]; [|intros [= <- <-]; exact Ha].
  intros Hloop.
  apply (for_each_inv _ (fun b => a_salvo (RawOrganizer.arbol b) p f)) in Hloop;
    [exact Hloop | | exact Ha].
  intros b x b' e'' Hb Hc.
  eapply procesar_mes_salvo; [| exact Hpar | exact Hc | exact Hb].
  reflexivity.
Qed.

(** A whole run of the RAW sorter, on cameras that are entries of the
    cameras folder, loses no file that is not itself in a folder named
    [RAW]. Whatever fails and however the run ends, such a
    file is afterwards at its path, unchanged; or it stood in a theme
    folder or in a subfolder of one, five or six levels down, its path
    now holds no file, and it is in the [RAW] subfolder of its folder
    under its name (one level deeper when that name was a directory
    there). *)
Theorem raw_run_keeps_files env t0 camaras p f :
  entradas t0 RawOrganizer.CAMERAS_DIR camaras ->
  FS.find t0 p = Some (FS.File f) ->
  FS.basename (FS.dirname p) <> "RAW"%string ->
  let t' := RawOrganizer.arbol
              (fst (RawOrganizer.organizar_raw_en_subcarpeta env
                      (RawOrganizer.inicial t0) camaras)) in
  FS.find t' p = Some (FS.File f) \/
  ((length p = 5%nat \/ length p = 6%nat) /\ FS.os_path_isfile t' p = false /\
   en_raw t' p f).
Proof.
  intros _ Hf Hpar.
  destruct (RawOrganizer.organizar_raw_en_subcarpeta env (RawOrganizer.inicial t0) camaras)
    as [s' e] eqn:Hrun. cbn [fst].
  apply (organizar_salvo env _ camaras s' e p f Hpar Hrun). left. exact Hf.
Qed.

Lemma raw_run_keeps_files_witness :
  let t' := RawOrganizer.arbol
              (fst (RawOrganizer.organizar_raw_en_subcarpeta entorno_ok
                      (RawOrganizer.inicial arbol_tematico) ["EOS"%string])) in
  FS.find t' ["CAMERAS"; "EOS"; "2024.05"; "boda"; "a.cr2"]%string
    = Some (FS.File (plain_file (bytes_of_string "a"))) \/
  ((length ["CAMERAS"; "EOS"; "2024.05"; "boda"; "a.cr2"]%string = 5%nat \/
    length ["CAMERAS"; "EOS"; "2024.05"; "boda"; "a.cr2"]%string = 6%nat) /\
   FS.os_path_isfile t' ["CAMERAS"; "EOS"; "2024.05"; "boda"; "a.cr2"]%string = false /\
   en_raw t' ["CAMERAS"; "EOS"; "2024.05"; "boda"; "a.cr2"]%string
     (plain_file (bytes_of_string "a"))).
Proof.
  apply (raw_run_keeps_files entorno_ok arbol_tematico ["EOS"%string]
           ["CAMERAS"; "EOS"; "2024.05"; "boda"; "a.cr2"]%string
           (plain_file (bytes_of_string "a"))).
  - intros n [<- | []]. vm_compute. left. reflexivity.
  - reflexivity.
  - vm_compute. discriminate.
Defined.

(** On the tree of the example the RAW files of the theme folder and of
    its subfolder go to their [RAW] subfolders; the one in the month
    folder, the one in the camera folder and the JPEG stay. *)
Example raw_run_example :
  let r := RawOrganizer.organizar_raw_en_subcarpeta entorno_ok
             (RawOrganizer.inicial arbol_tematico) ["EOS"%string] in
  snd r = None /\
  map fst (RawOrganizer.arbol (fst r)) =
    [ ["CAMERAS"]; ["CAMERAS"; "EOS"]; ["CAMERAS"; "EOS"; "suelta.cr2"];
      ["CAMERAS"; "EOS"; "2024.05"]; ["CAMERAS"; "EOS"; "2024.05"; "mes.cr2"];
      ["CAMERAS"; "EOS"; "2024.05"; "boda"];
      ["CAMERAS"; "EOS"; "2024.05"; "boda"; "a.jpg"];
      ["CAMERAS"; "EOS"; "2024.05"; "boda"; "iglesia"];
      ["CAMERAS"; "EOS"; "2024.05"; "boda"; "RAW"];
      ["CAMERAS"; "EOS"; "2024.05"; "boda"; "RAW"; "a.cr2"];
      ["CAMERAS"; "EOS"; "2024.05"; "boda"; "iglesia"; "RAW"];
      ["CAMERAS"; "EOS"; "2024.05"; "boda"; "iglesia"; "RAW"; "b.ARW"] ]%string /\
  RawOrganizer.duplicates (fst r) = [].
Proof. vm_compute. repeat split; reflexivity. Qed.

(* --------------------------------------------------------------------- *)
(** ** The duplicate search: the count of the listing                      *)
(* --------------------------------------------------------------------- *)

Lemma dget_None_keys {K V : Type} `{EqDecision K} (d : list (K * V)) k :
  ~ In k (map fst d) -> dget d k = None.
Proof.
  induction d as [|[k0 v0] d IH]; cbn [dget map fst In]; [reflexivity|].
  intros H. case_decide; [tauto|]. apply IH. tauto.
Qed.

Lemma length_insertar x l : length (DupListing.insertar x l) = S (length l).
Proof.
  induction l as [|y l IH]; cbn [DupListing.insertar length]; [reflexivity|].
  destruct (String.leb x y); cbn [length]; [reflexivity | rewrite IH; reflexivity].
Qed.

Lemma length_sorted l : length (DupListing.sorted l) = length l.
Proof.
  unfold DupListing.sorted. induction l as [|x l IH]; cbn [fold_right length]; [reflexivity|].
  rewrite length_insertar. fold (DupListing.sorted l). rewrite <- IH. reflexivity.
Qed.

Lemma relative_siblings root d d' k :
  FS.relative (FS.os_path_join root d) k <> None ->
  FS.relative (FS.os_path_join root d') k <> None -> d = d'.
Proof.
  unfold FS.os_path_join. rewrite !relative_snoc.
  destruct (FS.relative root k) as [[|x r]|]; try congruence.
  repeat case_decide; congruence.
Qed.

Lemma relative_child root d k :
  FS.relative (FS.os_path_join root d) k <> None -> FS.relative root k <> None.
Proof.
  unfold FS.os_path_join. rewrite relative_snoc.
  destruct (FS.relative root k); congruence.
Qed.

Lemma relative_self_child root d : FS.relative (FS.os_path_join root d) root = None.
Proof.
  unfold FS.os_path_join. rewrite relative_snoc, (proj2 (relative_nil root root) eq_refl).
  reflexivity.
Qed.

(** A loop over the directories of [root], each turn of which counts what
    it lists below its directory, counts what it lists below [root]. *)
Lemma walk_fold_total (paso : DupListing.estado * nat -> string -> DupListing.estado * nat)
    (root : FS.path) (keys0 : list FS.path) :
  (forall d st2,
     (forall k, In k (map fst (DupListing.files_by_folder (fst st2))) ->
                FS.relative (FS.os_path_join root d) k = None) ->
     (list_sum (map (fun e => length (snd e)) (DupListing.files_by_folder (fst (paso st2 d))))
      + snd st2 =
      list_sum (map (fun e => length (snd e)) (DupListing.files_by_folder (fst st2)))
      + snd (paso st2 d))%nat /\
     (forall k, In k (map fst (DupListing.files_by_folder (fst (paso st2 d)))) ->
                In k (map fst (DupListing.files_by_folder (fst st2))) \/
                FS.relative (FS.os_path_join root d) k <> None)) ->
  (forall k, In k keys0 -> FS.relative root k = None) ->
  forall l, NoDup l -> forall (hechos : list string) st2,
    (forall d, In d hechos -> ~ In d l) ->
    (forall k, In k (map fst (DupListing.files_by_folder (fst st2))) ->
       In k keys0 \/ k = root \/
       exists d, In d hechos /\ FS.relative (FS.os_path_join root d) k <> None) ->
    (list_sum (map (fun e => length (snd e))
                 (DupListing.files_by_folder (fst (fold_left paso l st2)))) + snd st2 =
     list_sum (map (fun e => length (snd e)) (DupListing.files_by_folder (fst st2)))
     + snd (fold_left paso l st2))%nat /\
    (forall k, In k (map fst (DupListing.files_by_folder (fst (fold_left paso l st2)))) ->
       In k keys0 \/ FS.relative root k <> None).
Proof.
  intros Hpaso Hfresh.
  induction l as [|d l IHl]; intros Hnd hechos st2 Hdone Hkeys; cbn [fold_left].
  - split; [reflexivity|]. intros k Hk.
    destruct (Hkeys k Hk) as [H | [-> | (d & _ & H)]]; [auto | right | right].
    + rewrite (proj2 (relative_nil root root) eq_refl). discriminate.
    + eapply relative_child. exact H.
  - apply NoDup_cons in Hnd as [Hd Hnd].
    destruct (Hpaso d st2) as [Hsum Hnew].
    { intros k Hk. destruct (Hkeys k Hk) as [H | [-> | (d' & Hd' & H)]].
      - apply Hfresh in H.
        destruct (FS.relative (FS.os_path_join root d) k) eqn:Hr; [|reflexivity].
        exfalso. apply (relative_child root d k); congruence.
      - apply relative_self_child.
      - destruct (FS.relative (FS.os_path_join root d) k) eqn:Hr; [|reflexivity].
        exfalso. apply (Hdone d' Hd'). left.
        apply (relative_siblings root d d' k); congruence. }
    destruct (IHl Hnd (d :: hechos) (paso st2 d)) as [Hsum2 Hnew2].
    { intros d' [<- | Hd'].
      - rewrite <- list_elem_of_In. exact Hd.
      - intros Hin. apply (Hdone d' Hd'). right. exact Hin. }
    { intros k Hk. destruct (Hnew k Hk) as [H | H].
      - destruct (Hkeys k H) as [H' | [-> | (d' & Hd' & H')]]; auto.
        right. right. exists d'. split; [right; exact Hd' | exact H'].
      - right. right. exists d. split; [left; reflexivity | exact H]. }
    split; [lia | exact Hnew2].
Qed.

(** The walk counts what it lists: from a state that has no entry at or
    below [root], it adds to [total] the number of names it adds to the
    listing, and only entries at or below [root]. *)
Lemma recorrer_total t : wf t -> forall fuel root st,
  (forall k, In k (map fst (DupListing.files_by_folder (fst st))) ->
             FS.relative root k = None) ->
  (list_sum (map (fun e => length (snd e))
               (DupListing.files_by_folder (fst (DupListing.recorrer fuel t root st))))
   + snd st =
   list_sum (map (fun e => length (snd e)) (DupListing.files_by_folder (fst st)))
   + snd (DupListing.recorrer fuel t root st))%nat /\
  (forall k, In k (map fst (DupListing.files_by_folder
                              (fst (DupListing.recorrer fuel t root st)))) ->
             In k (map fst (DupListing.files_by_folder (fst st))) \/
             FS.relative root k <> None).
Proof.
  intros Hwf. induction fuel as [|n IH]; intros root st Hfresh; cbn [DupListing.recorrer].
  - split; [reflexivity | auto].
  - destruct (FS.os_path_isdir t root); [|split; [reflexivity | auto]].
    fold (validos t root).
    set (st1 := match validos t root with [] => st | _ :: _ => _ end).
    assert (H1 : (list_sum (map (fun e => length (snd e))
                              (DupListing.files_by_folder (fst st1))) + snd st =
                  list_sum (map (fun e => length (snd e))
                              (DupListing.files_by_folder (fst st))) + snd st1)%nat /\
                 forall k, In k (map fst (DupListing.files_by_folder (fst st1))) ->
                           In k (map fst (DupListing.files_by_folder (fst st))) \/ k = root).
    { subst st1. destruct (validos t root) as [|v vs]; [split; [reflexivity | auto]|].
      cbn [fst snd DupListing.registrar DupListing.files_by_folder].
      rewrite dset_fresh.
      - rewrite !map_app, list_sum_app. cbn [map list_sum fold_right snd fst].
        rewrite length_sorted. split; [lia|].
        intros k Hk. apply in_app_or in Hk as [Hk | [<- | []]]; auto.
      - apply dget_None_keys. intros Hin. apply Hfresh in Hin.
        rewrite (proj2 (relative_nil root root) eq_refl) in Hin. discriminate. }
    clearbody st1.
    pose proof (NoDup_List_filter (fun d => negb (DupListing.omitida d)) _
                  (NoDup_List_filter (fun d => FS.os_path_isdir t (FS.os_path_join root d)) _
                     (listdir_NoDup t root Hwf))) as Hnd.
    destruct (walk_fold_total
                (fun st d => DupListing.recorrer n t (FS.os_path_join root d) st)
                root (map fst (DupListing.files_by_folder (fst st)))
                (fun d st2 => IH (FS.os_path_join root d) st2) Hfresh _ Hnd [] st1)
      as [Hsum Hnew].
    { intros d []. }
    { intros k Hk. destruct (proj2 H1 k Hk); auto. }
    split; [lia | exact Hnew].
Qed.

Lemma seleccionar_camaras_NoDup t s s1 cams :
  wf t ->
  DupListing.seleccionar_camaras t s = (s1, DupListing.Devuelve cams) -> NoDup cams.
Proof.
  intros Hwf. unfold DupListing.seleccionar_camaras.
  destruct (FS.os_path_isdir t DupListing.CAMERAS_DIR); cbn [negb]; [|discriminate].
  pose proof (elegir_fold t (DupListing.sorted (FS.os_listdir t DupListing.CAMERAS_DIR)) s [])
    as Hf. cbv zeta in Hf.
  destruct (fold_left _ _ _) as [s' sel]. cbn [fst snd] in Hf. destruct Hf as [_ H2].
  intros [= <- <-]. rewrite H2. cbn [app].
  apply NoDup_List_filter, NoDup_sorted, listdir_NoDup. exact Hwf.
Qed.

Lemma listar_total t s cams :
  wf t ->
  DupListing.seleccionar_camaras t DupListing.inicial = (s, DupListing.Devuelve cams) ->
  snd (DupListing.listar_contenidos t cams s) =
  list_sum (map (fun e => length (snd e))
              (DupListing.files_by_folder (fst (DupListing.listar_contenidos t cams s)))).
Proof.
  intros Hwf Hsel. pose proof (seleccionar_camaras_NoDup t _ s cams Hwf Hsel) as Hnd.
  apply seleccionar_camaras_spec in Hsel as (_ & Hfbf & _).
  unfold DupListing.listar_contenidos.
  destruct (walk_fold_total (DupListing.listar_camara t) DupListing.CAMERAS_DIR [])
    with (l := cams) (hechos := @nil string)
         (st2 := (DupListing.registrar INFO (DupListing.AvListando (DupListing.cameras_skipped s)) s,
                  0%nat))
    as [Hsum _].
  - intros d [s2 total] Hfresh. unfold DupListing.listar_camara.
    match goal with
    | |- context [DupListing.recorrer ?n t ?r ?st] =>
        exact (recorrer_total t Hwf n r st Hfresh)
    end.
  - intros k [].
  - exact Hnd.
  - intros d [].
  - cbn [fst DupListing.registrar DupListing.files_by_folder]. rewrite Hfbf. intros k [].
  - cbn [fst snd DupListing.registrar DupListing.files_by_folder] in Hsum.
    rewrite Hfbf in Hsum. cbn in Hsum. lia.
Qed.

(** The count that [listar_contenidos] returns is the number of names in
    its listing: on a tree with distinct paths no folder is gone through
    twice, so no file is counted twice. *)
Theorem total_counts_the_listing t s cams :
  wf t ->
  DupListing.seleccionar_camaras t DupListing.inicial = (s, DupListing.Devuelve cams) ->
  snd (DupListing.listar_contenidos t cams s) =
  list_sum (map (fun e => length (snd e))
              (DupListing.files_by_folder (fst (DupListing.listar_contenidos t cams s)))).
Proof. apply listar_total. Qed.

Lemma total_counts_the_listing_witness :
  snd (DupListing.listar_contenidos arbol_escaneo ["EOS"; "GoPro"]%string
         (fst (DupListing.seleccionar_camaras arbol_escaneo DupListing.inicial))) =
  list_sum (map (fun e => length (snd e))
              (DupListing.files_by_folder
                 (fst (DupListing.listar_contenidos arbol_escaneo ["EOS"; "GoPro"]%string
                         (fst (DupListing.seleccionar_camaras arbol_escaneo
                                 DupListing.inicial)))))).
Proof.
  apply (total_counts_the_listing arbol_escaneo
           (fst (DupListing.seleccionar_camaras arbol_escaneo DupListing.inicial))
           ["EOS"; "GoPro"]%string).
  - apply (bool_decide_unpack _). vm_compute. exact I.
  - vm_compute. reflexivity.
Defined.

(* --------------------------------------------------------------------- *)
(** ** The model sorter: the files it does not sort                        *)
(* --------------------------------------------------------------------- *)

Lemma guardado_step env t0 s x s' e p f :
  (forall item, p <> source_path item) ->
  model_inv t0 s -> ModelSort.classify_item env s x = (s', e) ->
  guardado t0 (ModelSort.arbol s) p f -> guardado t0 (ModelSort.arbol s') p f.
Proof.
  intros Hns Hinv Hturn Hg.
  destruct (classify_item_tree env t0 s x s' e Hinv Hturn) as [Hstep _].
  assert (Hfile : exists c, FS.find (ModelSort.arbol s) p = Some (FS.File c))
    by (destruct Hg as [H | (i & g & fo & _ & _ & _ & H)]; eauto).
  destruct Hstep as [folder t1 Hgrown | fsrc folder t1 t2 Hal Hsrc Hfo Hgrown Hmove].
  - destruct Hg as [H | (i & g & fo & Hp & H0 & Hf & H)].
    + left. apply (grown_find_file _ _ _ _ _ Hgrown). exact H.
    + right. exists i, g, fo. repeat split; try assumption.
      apply (grown_find_file _ _ _ _ _ Hgrown). exact H.
  - apply shutil_move_Ok in Hmove.
    destruct Hmove as (f' & Hsrc1 & -> & _ & _ & Hfree).
    apply (grown_find_file _ _ _ _ _ Hgrown) in Hsrc1.
    assert (f' = fsrc) by congruence. subst f'.
    destruct Hfile as [c Hc]. apply (grown_find_file _ _ _ _ _ Hgrown) in Hc.
    set (dst := FS.os_path_join (ModelStep.dest_of folder) x) in *.
    destruct (decide (FS.real_dst t1 (source_path x) dst = p)) as [Hrd | Hrd].
    + right. exists x, fsrc, folder.
      assert (Hdst : dst = p).
      { unfold FS.real_dst in Hrd, Hfree.
        destruct (FS.os_path_isdir t1 dst); [|exact Hrd].
        specialize (Hfree eq_refl). rewrite Hrd in Hfree. congruence. }
      split; [symmetry; exact Hdst|].
      split; [apply (mi_present _ _ Hinv x fsrc Hsrc)|].
      split; [exact Hfo|].
      rewrite find_put, decide_True by exact Hrd. reflexivity.
    + assert (Hsame : forall c', FS.find t1 p = Some (FS.File c') ->
                FS.find (FS.put (FS.remove t1 (source_path x))
                           (FS.real_dst t1 (source_path x) dst) (FS.File fsrc)) p
                = Some (FS.File c')).
      { intros c' H. rewrite find_put, decide_False by exact Hrd.
        rewrite find_remove, decide_False by (intros Heq; exact (Hns x (eq_sym Heq))).
        exact H. }
      destruct Hg as [H | (i & g & fo & Hp & H0 & Hf & H)].
      * left. apply Hsame. apply (grown_find_file _ _ _ _ _ Hgrown). exact H.
      * right. exists i, g, fo. repeat split; try assumption.
        apply Hsame. apply (grown_find_file _ _ _ _ _ Hgrown). exact H.
Qed.

Lemma run_guardado env t0 p f :
  FS.find t0 p = Some (FS.File f) ->
  (forall item, p <> source_path item) ->
  guardado t0 (ModelSort.arbol (fst (ModelSort.run env t0))) p f.
Proof.
  intros Hf Hns. unfold ModelSort.run, ModelSort.classify_images.
  cbn [ModelSort.arbol ModelSort.inicial].
  destruct (FS.os_path_isdir t0 ModelSort.CAMERAS_DIR) eqn:Hd; cbn [negb];
    [|left; exact Hf].
  apply isdir_true in Hd.
  destruct (for_each (ModelSort.classify_item env) (ModelSort.inicial t0)
              (FS.os_listdir t0 ModelSort.CAMERAS_DIR)) as [s' e] eqn:Hloop.
  assert (H : model_inv t0 s' /\ guardado t0 (ModelSort.arbol s') p f).
  { apply (for_each_inv (ModelSort.classify_item env)
             (fun s => model_inv t0 s /\ guardado t0 (ModelSort.arbol s) p f)) with
      (l := FS.os_listdir t0 ModelSort.CAMERAS_DIR) (s := ModelSort.inicial t0) (e := e);
      [| |exact Hloop].
    - intros s x s1 e1 [Hinv Hg] Hb.
      split; [eapply classify_item_inv | eapply guardado_step]; eassumption.
    - split; [apply model_inv_initial; exact Hd | left; exact Hf]. }
  destruct H as [_ Hg].
  destruct e as [ex|]; cbn [fst]; [exact Hg|].
  destruct (resumen_state s') as (Ha & _). rewrite Ha. exact Hg.
Qed.

(** The model sorter and the files it does not sort. Whatever fails and
    however the run ends, a file that is not in the listing of [CAMERAS]
    is afterwards at its path, unchanged, with one exception: a file that
    stands in a destination folder under the name of a photo of the
    listing whose model maps to that folder can be overwritten by that
    photo, since [is_duplicate] compares digests and [shutil.move]
    replaces a file of the same name. *)
Theorem model_sort_other_files env t0 p f :
  FS.find t0 p = Some (FS.File f) ->
  (forall item, p <> source_path item) ->
  let t' := ModelSort.arbol (fst (ModelSort.run env t0)) in
  FS.find t' p = Some (FS.File f) \/
  exists item g folder,
    p = FS.os_path_join (ModelStep.dest_of folder) item /\
    FS.find t0 (source_path item) = Some (FS.File g) /\
    folder_of_file g = Some folder /\
    FS.find t' p = Some (FS.File g).
Proof. apply run_guardado. Qed.

Lemma model_sort_other_files_witness :
  let t' := ModelSort.arbol (fst (ModelSort.run entorno_ok arbol_sobrescrito)) in
  FS.find t' ["CAMERAS"; "Sony ILCE-6000"; "x.jpg"]%string
    = Some (FS.File (foto_sony "first")) \/
  exists item g folder,
    ["CAMERAS"; "Sony ILCE-6000"; "x.jpg"]%string
      = FS.os_path_join (ModelStep.dest_of folder) item /\
    FS.find arbol_sobrescrito (source_path item) = Some (FS.File g) /\
    folder_of_file g = Some folder /\
    FS.find t' ["CAMERAS"; "Sony ILCE-6000"; "x.jpg"]%string = Some (FS.File g).
Proof.
  apply (model_sort_other_files entorno_ok arbol_sobrescrito
           ["CAMERAS"; "Sony ILCE-6000"; "x.jpg"]%string (foto_sony "first")).
  - reflexivity.
  - intros item H. apply (f_equal (@length string)) in H. discriminate H.
Defined.

(** The exception does happen: the photo [x.jpg] of the destination
    folder is overwritten by the photo of that name of the listing. *)
Example model_sort_overwrites :
  let t' := ModelSort.arbol (fst (ModelSort.run entorno_ok arbol_sobrescrito)) in
  FS.find arbol_sobrescrito ["CAMERAS"; "Sony ILCE-6000"; "x.jpg"]%string
    = Some (FS.File (foto_sony "first")) /\
  FS.find t' ["CAMERAS"; "Sony ILCE-6000"; "x.jpg"]%string
    = Some (FS.File (foto_sony "second")) /\
  FS.find t' ["CAMERAS"; "x.jpg"]%string = None.
Proof. vm_compute. repeat split; reflexivity. Qed.
